(* ===== verification/_CoqProject ===== *)
-Q . S2P
Prelude.v
StringSplit.v
Json.v
Externals.v
Indradb.v
RegistryTypes.v
SchemaDb.v
SchemaDbSpec.v
Registry.v
Instances.v
RegistryRun.v
RegistryExport.v
RegistryTyped.v
Messaging.v
JsonExact.v
MessagingClients.v
Replication.v
RegistryRpc.v
ReplicaSpec.v
RpcSpec.v
StatusEndpoints.v
RegistryMain.v
RegistryClient.v
RegistryProcess.v
TaskQueue.v
AckQueue.v
KafkaIntake.v
ReplicaIntake.v
TaskLimiter.v
Lru.v
MessageTypes.v
Benchmark.v
DataRouter.v
RouterIntake.v
RouterLive.v
RouterMain.v
CommandConfig.v
CommandService.v
CommandOutputs.v
CommandMain.v
CommandIntake.v
CommandLive.v
CommandRestart.v
Shrinker.v
QueryService.v
PostgresKey.v
ShrinkQuery.v
QueryServiceTs.v
Mains.v
QueryRouter.v
QueryRouterCache.v
QueryRouterMain.v
ApiEvents.v
Api.v
ApiSpec.v
LeaderElector.v
ApiRouter.v
Pipeline.v
ReportsFlow.v
Cli.v
CliSpec.v
