(* ===== verification/Prelude.v ===== *)
(** * Common Data Layer: verification development

    The Common Data Layer is a set of Rust services (the workspace under
    [src/crates]) around two message brokers, Kafka and RabbitMQ, and a few
    databases.  A producer sends JSON messages to the data router; the router
    asks the schema registry where the messages of a schema go and publishes
    them there; a command service reads that topic and stores the messages with
    its output plugin; the query router forwards queries to the query service
    whose address the schema registry has.  The registry keeps schemas, their
    versioned definitions and views in a property graph, and a master registry
    sends its changes to replicas over a broker.

    Every definition that models code says so in the manifest with the lines it
    translates; names are those of the source where Rocq has no other use for
    them.  Third-party crates are classes (a record of operations), and what the
    code relies on them for is in separate classes of laws.  [Instances] and the
    witnesses next to the theorems instantiate all of them with concrete
    functions, so the laws are consistent and the models run.

    ** How effects are modelled

    - Fallible code is a [result] (below); [?] is its bind, with [map_err] where
      the code converts.
    - The registry's methods are computations [Db A] over the state of a
      datastore (Indradb).  A failing computation keeps the state the calls
      before the failure left, since [indradb]'s transactions do not roll back.
    - Panics are values ([Panic] next to the returned ones), and the aborts of
      [std::process::abort] are outcomes of the handlers.
    - Tasks, threads and channels are parts of an explicit state ([World] in
      Replication, [ParallelTaskQueue] in TaskQueue, the listening states of
      RouterIntake and CommandService), and the scheduler is a step relation: one
      rule per thing that can happen next.  Invariants are proved by rule induction.
    - The tasks of the data router are a free monad: [Code] performs an operation
      ([RouterOp]: read the clock, look into the cache, ask the registry, publish,
      acknowledge) and goes on with its answer.  What a task may do is a predicate
      on its code and the trace of its operations ([behaves]), which says the same
      of a task that is alone and of one between whose operations others run.
    - The tasks of the command service are cut at its three suspension points; a
      call of the output plugin is one step, since the plugin is behind a class.
    - Randomness ([Uuid::new_v4]) and the clock are inputs.
    - Machine integers keep their width: offsets are 64-bit with wrap-around,
      limits are [u32], ports are parsed as [u16].

    ** Files

    Shared: this file (results, faults, list lemmas, the tactics), StringSplit
    ([str::split], [join]), Json ([serde_json::Value] and its accessors),
    Externals (uuid, semver, the JSON text format, jsonschema, jmespatch), JsonExact
    (the values whose text is read back exactly: integers, and nesting below the
    limit of [serde_json]'s parser).

    Schema registry ([crates/schema-registry]):
    - Indradb: the datastore's queries and transactions as a class, its laws
      over an abstract property graph; the [Db] monad and its weakest
      preconditions.
    - RegistryTypes: [types.rs], [types/storage/], [error.rs]; the encoding of
      schemas, definitions, views and edges as vertices and edges.
    - SchemaDb: every method of [db.rs] and [build_full_schema] of [schema.rs];
      SchemaDbSpec: what each does to the graph.
    - Registry: the mutating requests as one type [RegOp], the transition
      relation [reg_step] they refine, the invariant [wf].
    - RegistryRun: histories of requests, reading back, immutability.
    - RegistryExport: [export_all] and [import_all]; RegistryTyped: after any
      history, what is stored is what the readers decode.
    - Replication: [replication/{mod,master,slave}.rs]; ReplicaIntake: a slave
      over a Kafka consumer with its offsets; RegistryRpc: the handlers of
      [rpc.rs]; ReplicaSpec: a master and a replica side by side;
      RpcSpec: what clients of the service observe.
    - RegistryMain: [main.rs], from the configuration to the backup, the import
      and the startup mark; RegistryClient: the client library [lib.rs] and the errors of
      [crates/rpc], over a network of registries where calls can be lost;
      RegistryProcess: the process around the handlers, whose lock a panic poisons.
    - Instances: an in-memory datastore and small library instances.

    Shared utilities ([crates/utils]): Messaging (messages, publisher, consumer,
    metadata), MessagingClients (the constructors of the clients, and what AMQP
    grants their consumers), TaskQueue, AckQueue, KafkaIntake (a Kafka consumer
    over its queue of offsets, with the invariant the services share),
    TaskLimiter, MessageTypes.  Lru is the [lru_cache] crate as its documentation
    describes it.

    Services: DataRouter (the code of a task of [data-router/src/main.rs], and the
    registry it asks, which may be another one at every call), RouterIntake (its
    main loop over a Kafka consumer with its offsets, the operations of the tasks
    interleaved), RouterLive (its progress), RouterMain (the creation of its clients);
    CommandConfig, CommandService, CommandOutputs, CommandMain
    ([command-service/src]), CommandIntake (the listening service over one Kafka
    consumer per topic), CommandLive (its progress), CommandRestart (its crashes
    and restarts, with the log of the topics and the committed offsets),
    PostgresKey (the PostgreSQL plugin over the table of
    [deployment/compose/setup/postgres/init.sql]); Shrinker ([db-shrinker-postgres]); QueryService
    ([query-service/src/psql.rs]), ShrinkQuery (runs of the shrinker, rows that
    are inserted meanwhile, and what the query service answers before and
    after); QueryServiceTs ([query-service-ts]); Mains (the [main] functions of
    the services around the databases, and the HTTP filters of
    [api/src/main.rs]); QueryRouter (the handlers of [query-router] and the
    clients of [crates/rpc]), QueryRouterCache (concurrent lookups of its cache)
    and QueryRouterMain (its routes); LeaderElector ([leader-elector]);
    StatusEndpoints ([utils/src/status_endpoints.rs] and [metrics.rs]).  Benchmark: the load
    generators of [src/benchmarking].

    GraphQL API ([crates/api]): ApiEvents (configuration, the shared consumers
    and the streams of subscriptions), Api (the queries and mutations), ApiSpec
    (what they do to a registry and a broker), ApiRouter (the API and the query
    router together).  Pipeline composes the API, the data router, the command
    service, the query service and the query router over one registry, broker
    and table; ReportsFlow follows the report of a message from the command
    service to a subscriber of the API.  Command line client ([crates/cdl-cli]): Cli (every action
    over a console), CliSpec (what it prints, and its setters against the API).

    The clients of the registry (library, API, command line, leader elector) are
    written against the interface [RegistryService] of RegistryClient; its
    instance [net_service] carries each request to the handlers of RegistryRpc,
    so that their theorems speak of the graph the registry stores.

    ** What the theorems show

    - End to end: the object query of the API succeeds and answers the document
      that was inserted through it, once the data router has routed it and a
      command service has stored it later than the rows that were there, if its
      schema is one of documents and its JSON is exact.
    - The registry refines an abstract transition system and keeps its
      well-formedness invariant over every history of requests; rejections have
      documented reasons; published definitions never change; a new version is
      the latest; reading under a version requirement gives the greatest match;
      export and import are a round trip up to the ids of definition vertices.
    - Replication as written: a promoted master never publishes (its publishing
      future is dropped); the loop itself, if run, keeps the order; a replica
      that consumes the event of a request stays a replica, the schema type
      apart.  A slave's stored offsets never pass an event it has not applied;
      an event it applied before holds them back for good.
    - Tasks of one key exclude each other and are woken in order, after at most
      as many guards as tasks were ahead; the one way to lose a key is a future
      dropped between grant and poll.
    - The offset stored for a Kafka partition never passes an unacknowledged
      message and catches up once all are acknowledged; [ack] terminates and
      removes just the offset it was given.
    - The data router publishes what a message says, in order, each entry to the
      topic that was cached for its schema or that the registry named when it was
      asked, and acknowledges exactly once unless the process aborts.  The registry
      may change and fail between any two calls; a cached topic is used whatever it
      says by then.  What Kafka will not deliver again after a crash has been dealt
      with (at-least-once), and the router comes to rest in a bounded number of
      steps, with its offsets caught up.  The order groups it means to respect are
      not respected: any order is possible ([any_order_possible]).  A started router
      has the settings this rests on.
    - The command service acknowledges a message after its resolution; the
      listening service keeps that under every interleaving; configurations are
      accepted exactly when they can work; each plugin's answer is related to
      what it has sent.  Over Kafka topics, whatever will not be delivered again
      has been resolved and reported (at-least-once), and a message that makes
      its task panic holds its partition back for ever.  Left to itself the
      service comes to rest in a bounded number of steps, with its offsets caught
      up.  Crashes lose nothing, but bring the last acknowledged message of each
      partition again, which the primary key of the table makes harmless; the
      same key loses the second of two messages of an object in one millisecond,
      and a message that does not parse crashes every process it reaches.  An
      ordered AMQP queue
      has one reader.  The text of a report reaches the subscribers of the API, and
      they read the report from it if its payload is exact.
    - The shrinker merges the rows of each object and leaves the rest, a second
      run changes nothing, and of the rows inserted during a run exactly the
      later ones survive; the query services answer from the latest rows, so
      their answers change with a run; the query router's answers are those of
      the service at the schema's address, which concurrent lookups can pair
      with a type of another moment.
    - Type soundness: no reader of a registry that has served any history from
      the empty one fails for a reason other than its storage; a backup written
      at start is restored by a start with it.
    - A client of the registry gets the verdict of the stored schema, or an error
      that says why not, also when calls are lost and the storage fails.  The API lists each stored version with its definition,
      publishes a batch in order under one group, and answers object queries
      with the stored documents.  Every stream of a subscription is what its
      consumer read from the moment of the subscription on, in order, until it is
      too far behind or the consumer fails; after the consumer has ended, new
      streams of the topic hang.
    - The leader elector never makes two masters among the pods it sees.  A
      promotion that panics poisons the registry: it confirms no change any more.
    - Every run of a load generator ends, and if it ends well has published
      exactly the generated messages.
    - The command line prints versions sorted, and its setters have the effect
      of the API's update.

    ** Bounds and fuel

    Two loops are not structural.  [cursor_find] of AckQueue walks a ring of
    [n] offsets and gets [2 + n] steps of fuel; [ack_returns] proves that this is
    enough for every offset that waits in the list (for another one the code does
    not return).  [run_stages] of CommandService gets 3, one per stage of a
    message: [run_stages_handler] proves that the stages in a row are the
    handler.  A lookup of the query router's cache has five stages, and
    [lookup_alone] that five in a row are the function.  Everything else is
    structural recursion or a step relation.  The measures of RouterLive and
    CommandLive bound the steps a service takes by itself.

    ** Provisos

    Laws of classes state what the libraries document.  Where a theorem needs more,
    its statement and its comment say so: [ReliableDatastore] (the registry's
    storage does not fail), [ReliableTransport] (its calls are not lost), [exact]
    (the JSON value survives being written and read).  Names of PostgreSQL schemas
    that are written without quotes are folded to lower case ([schema_named] of
    CommandOutputs), those in a [search_path] with quotes are not.

    ** What is not modelled

    Reading environment variables and command lines (envy, structopt), opening
    sockets, and the servers of tonic and warp (CORS included); logging and the
    counters of the [metrics] crate, which no other code reads (their exporter is
    the task of StatusEndpoints; of the mains only that of the registry is
    modelled with the spawning of it);
    the progress bar of the load generators; the generated protobuf code; tests;
    the GraphQL and HTTP libraries between the resolvers and the clients of the
    API. *)
From stdpp Require Import prelude gmap strings list fin_maps.

(** ** Results *)

(** Rust's [Result<A, E>]; the error type comes first so that [result E] is a
    type constructor. *)
Inductive result (E A : Type) : Type :=
| Ok (a : A)
| Err (e : E).
Arguments Ok {E A} a.
Arguments Err {E A} e.

Definition is_ok {E A} (r : result E A) : bool :=
  match r with Ok _ => true | Err _ => false end.

#[export] Instance result_ret E : MRet (result E) := fun A a => Ok a.
#[export] Instance result_bind E : MBind (result E) := fun A B f r =>
  match r with Ok a => f a | Err e => Err e end.
#[export] Instance result_fmap E : FMap (result E) := fun A B f r =>
  match r with Ok a => Ok (f a) | Err e => Err e end.

(** [Result::map_err], [Option::ok_or] and [Result::ok]. *)
Definition map_err {E F A} (f : E -> F) (r : result E A) : result F A :=
  match r with Ok a => Ok a | Err e => Err (f e) end.
Definition ok_or {E A} (e : E) (o : option A) : result E A :=
  match o with Some a => Ok a | None => Err e end.
Definition result_ok {E A} (r : result E A) : option A :=
  match r with Ok a => Some a | Err _ => None end.

Lemma map_err_Ok {E F A} (f : E -> F) (r : result E A) a : map_err f r = Ok a -> r = Ok a.
Proof. by destruct r; intros [= ->]. Qed.
Lemma ok_or_Ok {E A} (e : E) (o : option A) a : ok_or e o = Ok a -> o = Some a.
Proof. by destruct o; intros [= ->]. Qed.

(** ** State and error monad *)

(** A computation that reads and updates a state of type [S] and may fail with
    an [E].  The state it reached is kept when it fails: the Rust code mutates
    its store in place and nothing is rolled back on an early [?] return. *)
Definition M (S E A : Type) : Type := S -> S * result E A.

#[export] Instance M_ret S E : MRet (M S E) := fun A a s => (s, Ok a).
#[export] Instance M_bind S E : MBind (M S E) := fun A B f m s =>
  match m s with
  | (s', Ok a) => f a s'
  | (s', Err e) => (s', Err e)
  end.

Section monad_ops.
Context {S E : Type}.

Definition fail {A} (e : E) : M S E A := fun s => (s, Err e).
Definition lift {A} (r : result E A) : M S E A := fun s => (s, r).
(** a read-only operation of the store *)
Definition reads {A} (f : S -> result E A) : M S E A := fun s => (s, f s).
(** a step of a component with its own error type, converted by [?] *)
Definition with_err {F A} (f : F -> E) (m : M S F A) : M S E A := fun s =>
  let '(s', r) := m s in (s', map_err f r).
(** [for x in l { f(x)?; }] *)
Fixpoint for_each {A} (f : A -> M S E ()) (l : list A) : M S E () :=
  match l with
  | [] => mret ()
  | x :: l' => f x ≫= fun _ => for_each f l'
  end.
End monad_ops.

(** ** Weakest preconditions *)

(** [wp m s Q R]: running [m] from [s] ends in a value and state that satisfy
    [Q], or in an error and state that satisfy [R]. *)
Definition wp {S E A} (m : M S E A) (s : S)
    (Q : A -> S -> Prop) (R : E -> S -> Prop) : Prop :=
  match m s with
  | (s', Ok a) => Q a s'
  | (s', Err e) => R e s'
  end.

Section wp.
Context {S E : Type}.
Implicit Types (s : S).

Lemma wp_ret {A} (a : A) s (Q : A -> S -> Prop) (R : E -> S -> Prop) :
  Q a s -> wp (mret a) s Q R.
Proof. done. Qed.

Lemma wp_fail {A} (e : E) s (Q : A -> S -> Prop) (R : E -> S -> Prop) :
  R e s -> wp (fail e) s Q R.
Proof. done. Qed.

Lemma wp_bind {A B} (m : M S E A) (f : A -> M S E B) s Q R :
  wp m s (fun a s' => wp (f a) s' Q R) R -> wp (m ≫= f) s Q R.
Proof.
  unfold wp, mbind, M_bind. destruct (m s) as [s' [a|e]]; done.
Qed.

(** [(x ← m; f x); g] and [x ← m; (f x; g)] are the same computation *)
Lemma wp_bind_assoc {A B C} (m : M S E A) (f : A -> M S E B) (g : B -> M S E C) s Q R :
  wp ((m ≫= f) ≫= g) s Q R -> wp (m ≫= fun a => f a ≫= g) s Q R.
Proof. unfold wp, mbind, M_bind. by destruct (m s) as [s' [a|e]]. Qed.

Lemma wp_mono {A} (m : M S E A) s (Q Q' : A -> S -> Prop) (R R' : E -> S -> Prop) :
  wp m s Q R ->
  (forall a s', Q a s' -> Q' a s') ->
  (forall e s', R e s' -> R' e s') ->
  wp m s Q' R'.
Proof. unfold wp. destruct (m s) as [s' [a|e]]; auto. Qed.

Lemma wp_lift {A} (r : result E A) s (Q : A -> S -> Prop) (R : E -> S -> Prop) :
  (forall a, r = Ok a -> Q a s) -> (forall e, r = Err e -> R e s) ->
  wp (lift r) s Q R.
Proof. unfold wp, lift. destruct r; auto. Qed.

Lemma wp_reads {A} (f : S -> result E A) s (Q : A -> S -> Prop) (R : E -> S -> Prop) :
  (forall a, f s = Ok a -> Q a s) -> (forall e, f s = Err e -> R e s) ->
  wp (reads f) s Q R.
Proof. unfold wp, reads. destruct (f s); auto. Qed.

Lemma wp_with_err {F A} (f : F -> E) (m : M S F A) s Q R :
  wp m s Q (fun e s' => R (f e) s') -> wp (with_err f m) s Q R.
Proof. unfold wp, with_err. destruct (m s) as [s' [a|e]]; done. Qed.

(** Loops: an invariant indexed by the elements still to be visited. *)
Lemma wp_for_each {A} (f : A -> M S E ()) (l : list A) (I : list A -> S -> Prop)
    s (R : E -> S -> Prop) :
  I l s ->
  (forall x l' s', I (x :: l') s' -> wp (f x) s' (fun _ s'' => I l' s'') R) ->
  wp (for_each f l) s (fun _ s' => I [] s') R.
Proof.
  intros HI Hstep. revert s HI. induction l as [|x l IH]; intros s HI; simpl.
  - by apply wp_ret.
  - apply wp_bind. eapply wp_mono; [by apply Hstep| |done]. intros [] s'. apply IH.
Qed.

Lemma wp_ok {A} (m : M S E A) s s' a (Q : A -> S -> Prop) (R : E -> S -> Prop) :
  wp m s Q R -> m s = (s', Ok a) -> Q a s'.
Proof. unfold wp. intros Hwp Hm. by rewrite Hm in Hwp. Qed.

Lemma wp_err {A} (m : M S E A) s s' e (Q : A -> S -> Prop) (R : E -> S -> Prop) :
  wp m s Q R -> m s = (s', Err e) -> R e s'.
Proof. unfold wp. intros Hwp Hm. by rewrite Hm in Hwp. Qed.

Lemma wp_intro {A} (m : M S E A) s (Q : A -> S -> Prop) (R : E -> S -> Prop) :
  (forall s' a, m s = (s', Ok a) -> Q a s') ->
  (forall s' e, m s = (s', Err e) -> R e s') -> wp m s Q R.
Proof. unfold wp. destruct (m s) as [s' [a|e]]; eauto. Qed.
End wp.

(** ** Panics *)

(** how a computation can fail: with an error, or by a panic *)
Inductive Fault (E : Type) : Type := Failed (e : E) | Panicked.
Arguments Failed {_}. Arguments Panicked {_}.
Definition fault_map {E F} (f : E -> F) (x : Fault E) : Fault F :=
  match x with Failed e => Failed (f e) | Panicked => Panicked end.

(** ** List iteration as Rust's iterators do it *)

(** [Iterator::max_by_key]: the last of the maximal elements. *)
Definition max_by_key {A K} (leb : K -> K -> bool) (key : A -> K) (l : list A) : option A :=
  match l with
  | [] => None
  | x :: l' => Some (foldl (fun best y => if leb (key best) (key y) then y else best) x l')
  end.

(** [Iterator::collect::<Result<Vec<_>, _>>] after a fallible [map]. *)
Fixpoint try_map {E A B} (f : A -> result E B) (l : list A) : result E (list B) :=
  match l with
  | [] => Ok []
  | x :: l' =>
      match f x with
      | Err e => Err e
      | Ok y => match try_map f l' with Err e => Err e | Ok ys => Ok (y :: ys) end
      end
  end.

(** [Iterator::fold_first]. *)
Definition fold_first {A} (f : A -> A -> A) (l : list A) : option A :=
  match l with [] => None | x :: l' => Some (foldl f x l') end.

Section max_by_key.
Context {A K : Type} (leb : K -> K -> bool) (key : A -> K).
Hypothesis leb_total : forall x y, leb x y = true \/ leb y x = true.
Hypothesis leb_trans : forall x y z, leb x y = true -> leb y z = true -> leb x z = true.

Lemma max_fold_spec (l : list A) (x : A) :
  let m := foldl (fun best y => if leb (key best) (key y) then y else best) x l in
  m ∈ x :: l /\ (forall y, y ∈ x :: l -> leb (key y) (key m) = true).
Proof.
  revert x. induction l as [|z l IH]; intros x; simpl.
  - split; [set_solver|]. intros y ->%list_elem_of_singleton.
    by destruct (leb_total (key x) (key x)).
  - destruct (IH (if leb (key x) (key z) then z else x)) as [Hin Hmax]. split.
    + destruct (leb (key x) (key z)); set_solver.
    + intros y Hy. destruct (leb (key x) (key z)) eqn:Hxz.
      * apply elem_of_cons in Hy as [->|Hy]; [|by apply Hmax].
        eapply leb_trans; [apply Hxz|]. apply Hmax. set_solver.
      * apply elem_of_cons in Hy as [->|Hy]; [apply Hmax; set_solver|].
        apply elem_of_cons in Hy as [->|Hy]; [|apply Hmax; set_solver].
        destruct (leb_total (key x) (key z)) as [H|H]; [congruence|].
        eapply leb_trans; [apply H|]. apply Hmax. set_solver.
Qed.

Lemma max_by_key_Some (l : list A) (m : A) :
  max_by_key leb key l = Some m ->
  m ∈ l /\ (forall y, y ∈ l -> leb (key y) (key m) = true).
Proof. destruct l as [|x l]; [done|]. intros [= <-]. apply max_fold_spec. Qed.

Lemma max_by_key_None (l : list A) : max_by_key leb key l = None <-> l = [].
Proof. destruct l; simpl; split; done. Qed.
End max_by_key.

Section try_map.
Context {E A B : Type} (f : A -> result E B).

Lemma try_map_Ok (l : list A) (k : list B) :
  try_map f l = Ok k <-> Forall2 (fun x y => f x = Ok y) l k.
Proof.
  revert k. induction l as [|x l IH]; intros k; simpl.
  - split; [intros [= <-]; constructor | intros H; by inversion H].
  - split.
    + destruct (f x) as [y|e] eqn:Hx; [|done].
      destruct (try_map f l) as [ys|e]; [|done]. intros [= <-].
      constructor; [done|]. by apply IH.
    + intros H. inversion H as [|? y ? ys Hx Hxs]; subst. rewrite Hx.
      apply IH in Hxs. by rewrite Hxs.
Qed.

Lemma try_map_Err (l : list A) (e : E) :
  try_map f l = Err e -> exists x, x ∈ l /\ f x = Err e.
Proof.
  induction l as [|x l IH]; simpl; [done|].
  destruct (f x) as [y|e'] eqn:Hx.
  - destruct (try_map f l) as [ys|e'] eqn:Hl; [done|]. intros [= <-].
    destruct IH as (x' & ? & ?); [done|]. exists x'. set_solver.
  - intros [= <-]. exists x. set_solver.
Qed.

Lemma try_map_all_ok (g : A -> B) (l : list A) :
  (forall x, x ∈ l -> f x = Ok (g x)) -> try_map f l = Ok (g <$> l).
Proof.
  induction l as [|x l IH]; intros H; simpl; [done|].
  rewrite H by set_solver. rewrite IH; [done|]. intros y Hy. apply H. set_solver.
Qed.
End try_map.

(** Matching elements of two related lists. *)
Lemma Forall2_forall_elem {A B} (P : A -> B -> Prop) (l : list A) (k : list B) x :
  Forall2 P l k -> x ∈ l -> exists y, y ∈ k /\ P x y.
Proof.
  intros HP [i Hi]%list_elem_of_lookup.
  destruct (Forall2_lookup_l _ _ _ _ _ HP Hi) as (y & Hy & ?).
  exists y. split; [by eapply list_elem_of_lookup_2|done].
Qed.

(** elements of a list without repeated keys are determined by their key *)
Lemma NoDup_fmap_same {A B} (f : A -> B) (l : list A) x y :
  NoDup (f <$> l) -> x ∈ l -> y ∈ l -> f x = f y -> x = y.
Proof.
  intros Hl [i Hx]%list_elem_of_lookup [j Hy]%list_elem_of_lookup Hf.
  assert (i = j) as ->; [|congruence].
  eapply (NoDup_lookup _ i j (f x) Hl); rewrite list_lookup_fmap, ?Hx, ?Hy; simpl; congruence.
Qed.

(** An equation between closed computable terms, checked by evaluation without
    reading the value back. *)
Ltac vm_eq := match goal with |- _ = ?b => vm_cast_no_check (eq_refl b) end.
