(* ===== verification/StringSplit.v ===== *)
(** Splitting and joining texts as [str::split] and [join] do, shared by the
    components that read comma-separated options or build separated texts. *)
From Stdlib Require Import Ascii.
From stdpp Require Import prelude strings list.

(** [str::split] on a character: there is always at least one part *)
Fixpoint split_on (c : ascii) (s : string) : list string :=
  match s with
  | EmptyString => [EmptyString]
  | String a r =>
      if Ascii.eqb a c then EmptyString :: split_on c r
      else match split_on c r with
           | [] => [String a EmptyString]
           | p :: ps => String a p :: ps
           end
  end.

(** [[String]::join] *)
Definition join (sep : string) (l : list string) : string := String.concat sep l.

Fixpoint char_in (c : ascii) (s : string) : bool :=
  match s with EmptyString => false | String a r => Ascii.eqb a c || char_in c r end.

Lemma join_cons sep x l :
  join sep (x :: l) = match l with [] => x | _ => x +:+ sep +:+ join sep l end.
Proof. by destruct l. Qed.

Lemma string_app_assoc (a b c : string) : (a +:+ b) +:+ c = a +:+ b +:+ c.
Proof. induction a as [|x a IH]; [done|exact (f_equal (String x) IH)]. Qed.

Lemma string_app_nil_r (a : string) : a +:+ "" = a.
Proof. induction a as [|x a IH]; [done|exact (f_equal (String x) IH)]. Qed.

Section split.
Context (c : ascii).

Lemma split_on_nonempty s : split_on c s <> [].
Proof. destruct s as [|a r]; simpl; [done|]. case_match; [done|]. by destruct (split_on c r). Qed.

(** the parts do not contain the separator *)
Lemma split_on_parts s p : p ∈ split_on c s -> char_in c p = false.
Proof.
  revert p. induction s as [|a r IH]; intros p; simpl.
  - by intros ->%list_elem_of_singleton.
  - destruct (Ascii.eqb a c) eqn:Ha; [intros [->|?]%elem_of_cons; auto|].
    destruct (split_on c r) as [|q ps]; intros [->|Hp]%elem_of_cons; simpl; rewrite ?Ha;
      try apply IH; set_solver.
Qed.

Lemma split_on_none p : char_in c p = false -> split_on c p = [p].
Proof.
  induction p as [|a r IH]; simpl; [done|]. intros [-> Hr]%orb_false_iff. by rewrite IH.
Qed.

Lemma split_on_app p s :
  char_in c p = false -> split_on c (p +:+ String c s) = p :: split_on c s.
Proof.
  induction p as [|a r IH]; simpl; [by rewrite Ascii.eqb_refl|].
  intros [-> Hr]%orb_false_iff. by rewrite IH.
Qed.

(** joining parts and splitting the text gives the parts back *)
Lemma split_on_join l :
  l <> [] -> Forall (fun p => char_in c p = false) l ->
  split_on c (join (String c EmptyString) l) = l.
Proof.
  intros Hl. induction 1 as [|p l Hp Hps IH]; [done|]. rewrite join_cons.
  destruct l as [|q l]; [by apply split_on_none|].
  etrans; [exact (split_on_app p _ Hp)|]. by rewrite IH.
Qed.
End split.
