(* ===== verification/Json.v ===== *)
(** JSON values as the code sees them through [serde_json::Value]: the public
    enum, and the accessors the crates call.  Objects are [BTreeMap]s (the
    [preserve_order] feature is off in every Cargo.toml), so they are finite
    maps that are iterated in ascending key order. *)
From stdpp Require Import prelude gmap strings list fin_maps sorting.
From S2P Require Import Prelude.

(** [serde_json]'s number: a [u64], a negative [i64], or an [f64], which is
    kept as its 64 IEEE bits because no modelled code computes with it. *)
Inductive JNumber : Type :=
| PosInt (n : Z)
| NegInt (n : Z)
| Float (bits : Z).

Inductive Value : Type :=
| Null
| VBool (b : bool)
| Number (n : JNumber)
| VString (s : string)
| Array (l : list Value)
| Object (m : gmap string Value).

(** *** Accessors *)

Definition as_str (v : Value) : option string :=
  match v with VString s => Some s | _ => None end.
Definition as_object (v : Value) : option (gmap string Value) :=
  match v with Object m => Some m | _ => None end.
Definition is_array (v : Value) : bool :=
  match v with Array _ => true | _ => false end.
Definition is_null (v : Value) : bool :=
  match v with Null => true | _ => false end.
Definition is_object (v : Value) : bool :=
  match v with Object _ => true | _ => false end.

(** [Value::get] with a string index: the member of an object. *)
Definition get_key (k : string) (v : Value) : option Value :=
  match v with Object m => m !! k | _ => None end.

(** [value[k] = x] on an object. *)
Definition set_key (k : string) (x : Value) (v : Value) : Value :=
  match v with Object m => Object (<[k := x]> m) | _ => v end.

(** Ascending iteration over an object's members. *)
Definition key_le (p q : string * Value) : Prop := String.le p.1 q.1.
#[export] Instance key_le_dec p q : Decision (key_le p q) := decide (String.le p.1 q.1).
#[export] Instance key_le_total : Total key_le.
Proof. intros p q. apply (total String.le). Qed.

Definition object_iter (m : gmap string Value) : list (string * Value) :=
  merge_sort key_le (map_to_list m).

Lemma object_iter_perm (m : gmap string Value) : object_iter m ≡ₚ map_to_list m.
Proof. apply merge_sort_Permutation. Qed.

Lemma elem_of_object_iter (m : gmap string Value) k v :
  (k, v) ∈ object_iter m <-> m !! k = Some v.
Proof. rewrite object_iter_perm. apply elem_of_map_to_list. Qed.

Lemma NoDup_object_iter (m : gmap string Value) : NoDup (object_iter m).*1.
Proof. rewrite object_iter_perm. apply NoDup_fst_map_to_list. Qed.

(** *** [serde_json::from_value] at the types the registry stores *)

Definition string_from_value (v : Value) : option string := as_str v.

(** [collect] into a [HashMap]: a later entry replaces an earlier one. *)
Definition collect_map {K A} `{Countable K} (l : list (K * A)) : gmap K A :=
  foldl (fun m kv => <[kv.1 := kv.2]> m) ∅ l.

Section collect_map.
Context {K A : Type} `{Countable K}.
Implicit Types (l : list (K * A)) (m : gmap K A).

Lemma foldl_insert_notin l m k :
  k ∉ l.*1 -> foldl (fun m kv => <[kv.1 := kv.2]> m) m l !! k = m !! k.
Proof.
  revert m. induction l as [|[k' a] l IH]; intros m Hk; simpl; [done|].
  apply not_elem_of_cons in Hk as [??]. rewrite IH by done. by rewrite lookup_insert_ne.
Qed.

Lemma foldl_insert_is_Some l m k :
  is_Some (m !! k) \/ k ∈ l.*1 -> is_Some (foldl (fun m kv => <[kv.1 := kv.2]> m) m l !! k).
Proof.
  revert m. induction l as [|[k' a] l IH]; intros m [Hm|Hm]; simpl; [done|set_solver| |];
    apply IH; rewrite lookup_insert; case_decide as Hk; try (left; by eexists); [by left|].
  apply elem_of_cons in Hm as [->|]; [done|by right].
Qed.

Lemma collect_map_is_Some l k : k ∈ l.*1 -> is_Some (collect_map l !! k).
Proof. intros Hk. apply foldl_insert_is_Some. by right. Qed.

Lemma foldl_insert_lookup l m k a :
  NoDup l.*1 -> (k, a) ∈ l ->
  foldl (fun m kv => <[kv.1 := kv.2]> m) m l !! k = Some a.
Proof.
  revert m. induction l as [|[k' a'] l IH]; intros m Hnd Hin; simpl; [set_solver|].
  apply NoDup_cons in Hnd as [Hk' Hnd].
  apply elem_of_cons in Hin as [[= -> ->]|Hin]; [|by apply IH].
  rewrite foldl_insert_notin by done. by rewrite lookup_insert_eq.
Qed.

Lemma lookup_collect_map l k a :
  NoDup l.*1 -> collect_map l !! k = Some a <-> (k, a) ∈ l.
Proof.
  intros Hnd. split; [|by apply foldl_insert_lookup].
  intros Hk. destruct (decide (k ∈ l.*1)) as [Hin|Hin].
  - apply list_elem_of_fmap in Hin as [[k' a'] [-> Hin]].
    pose proof (foldl_insert_lookup l ∅ k' a' Hnd Hin) as H'.
    unfold collect_map in Hk. simpl in Hk. rewrite H' in Hk. by simplify_eq.
  - unfold collect_map in Hk. rewrite foldl_insert_notin in Hk by done.
    by rewrite lookup_empty in Hk.
Qed.

Lemma collect_map_to_list l m : l ≡ₚ map_to_list m -> collect_map l = m.
Proof.
  intros Hl. assert (NoDup l.*1) as Hnd by (rewrite Hl; apply NoDup_fst_map_to_list).
  apply map_eq. intros k. destruct (m !! k) as [a|] eqn:Hm.
  - apply lookup_collect_map; [done|]. rewrite Hl. by apply elem_of_map_to_list.
  - destruct (collect_map l !! k) as [a|] eqn:Hk; [|done].
    apply lookup_collect_map in Hk; [|done]. rewrite Hl in Hk.
    apply elem_of_map_to_list in Hk. congruence.
Qed.

Lemma collect_map_perm l l' : NoDup l.*1 -> l ≡ₚ l' -> collect_map l = collect_map l'.
Proof.
  intros Hnd Hl. assert (NoDup l'.*1) by (by rewrite <- Hl).
  apply map_eq. intros k. apply option_eq. intros a.
  rewrite !lookup_collect_map by done. by rewrite Hl.
Qed.
End collect_map.

(** *** Induction over the members of arrays and objects *)

Fixpoint value_size (v : Value) : nat :=
  match v with
  | Array l => S (foldr (fun v n => value_size v + n) 0 l)
  | Object m => S (map_fold (fun _ v n => value_size v + n) 0 m)
  | _ => 0
  end.

Lemma member_size (m : gmap string Value) k v : m !! k = Some v -> value_size v < value_size (Object m).
Proof.
  intros Hk. simpl. rewrite (map_fold_delete_L (fun _ v n => value_size v + n) 0 k v m); [lia| |done].
  intros; lia.
Qed.

Lemma value_object_ind (P : Value -> Prop) :
  (forall v, (forall m, v = Object m -> forall k w, m !! k = Some w -> P w) -> P v) -> forall v, P v.
Proof.
  intros Hstep v. remember (value_size v) as n eqn:Hn. revert v Hn.
  induction n as [n IH] using lt_wf_ind. intros v ->. apply Hstep. intros m -> k w Hw.
  eapply IH; [by eapply member_size|done].
Qed.
