(* ===== verification/Externals.v ===== *)
(** Interfaces of the third-party crates the modelled code calls: [uuid],
    [semver], [serde_json]'s text format, [jsonschema] and [jmespatch].  Each is
    a class of operations; the laws the theorems rely on are separate classes
    that state documented behaviour of the crate.  An error value of such a
    crate is represented by the text it displays, which is all the code uses. *)
From stdpp Require Import prelude gmap strings list.
From S2P Require Import Prelude Json.

(** A [uuid::Uuid] is its 128-bit value. *)
Abbreviation Uuid := N (only parsing).

(** ** The [uuid] crate *)
Class UuidLib := {
  (** [Display for Uuid] *)
  uuid_to_string : Uuid -> string;
  (** [Uuid::parse_str] and [FromStr for Uuid] *)
  uuid_parse_str : string -> result string Uuid;
}.

Class UuidLaws `{UuidLib} : Prop := {
  uuid_parse_to_string (u : Uuid) : uuid_parse_str (uuid_to_string u) = Ok u;
  uuid_to_string_nonempty (u : Uuid) : uuid_to_string u <> EmptyString;
}.

Lemma uuid_to_string_inj `{UuidLaws} (u v : Uuid) :
  uuid_to_string u = uuid_to_string v -> u = v.
Proof.
  intros Huv. pose proof (uuid_parse_to_string u) as Hu.
  rewrite Huv, uuid_parse_to_string in Hu. by simplify_eq.
Qed.

(** ** The [semver] crate *)
Class SemVer := {
  Version : Type;
  VersionReq : Type;
  (** [Version::new] *)
  version_new : Z -> Z -> Z -> Version;
  (** [x <= y] of [PartialOrd for Version], which [Ord::cmp] agrees with *)
  version_leb : Version -> Version -> bool;
  (** [VersionReq::any], [VersionReq::exact] and [VersionReq::matches] *)
  req_any : VersionReq;
  req_exact : Version -> VersionReq;
  req_matches : VersionReq -> Version -> bool;
  (** the [Display] and parsing of both types *)
  version_to_string : Version -> string;
  version_parse : string -> result string Version;
  version_req_to_string : VersionReq -> string;
  version_req_parse : string -> result string VersionReq;
  (** the [serde] representation: [json!(version)] and [from_value] *)
  version_to_value : Version -> Value;
  version_from_value : Value -> option Version;
}.

Class SemVerLaws `{SemVer} : Prop := {
  version_leb_total x y : version_leb x y = true \/ version_leb y x = true;
  version_leb_trans x y z :
    version_leb x y = true -> version_leb y z = true -> version_leb x z = true;
  (** "[any] creates a requirement with no constraints: any version matches" *)
  req_any_matches v : req_matches req_any v = true;
  version_value_roundtrip v : version_from_value (version_to_value v) = Some v;
  version_string_roundtrip v : version_parse (version_to_string v) = Ok v;
}.

(** "=I.J.K" is "exactly this version" (build metadata is not compared, nor
    ordered) *)
Class ExactReqLaws `{SemVer} : Prop := {
  exact_req_parse v : exists r, version_req_parse ("=" +:+ version_to_string v) = Ok r /\
    forall w, req_matches r w = true <-> version_leb v w = true /\ version_leb w v = true;
}.

(** Strict order of versions, and equality up to what the order sees. *)
Definition version_ltb `{SemVer} (x y : Version) : bool := negb (version_leb y x).
Definition version_equiv `{SemVer} (x y : Version) : Prop :=
  version_leb x y = true /\ version_leb y x = true.

Section semver.
Context `{SemVerLaws}.

Lemma version_leb_refl x : version_leb x x = true.
Proof. by destruct (version_leb_total x x). Qed.

Lemma version_ltb_leb x y : version_ltb x y = true -> version_leb x y = true.
Proof.
  unfold version_ltb. intros Hxy. destruct (version_leb_total x y); [done|].
  by rewrite H1 in Hxy.
Qed.

Lemma version_ltb_irrefl x : version_ltb x x = false.
Proof. unfold version_ltb. by rewrite version_leb_refl. Qed.

Lemma version_leb_ltb_trans x y z :
  version_leb x y = true -> version_ltb y z = true -> version_ltb x z = true.
Proof.
  unfold version_ltb. intros Hxy Hyz. apply negb_true_iff. apply negb_true_iff in Hyz.
  destruct (version_leb z x) eqn:Hzx; [|done].
  rewrite <- Hyz. symmetry. eapply version_leb_trans; eauto.
Qed.

#[export] Instance version_equiv_equivalence : Equivalence version_equiv.
Proof.
  split.
  - intros x. split; apply version_leb_refl.
  - intros x y [? ?]. by split.
  - intros x y z [? ?] [? ?]. split; eapply version_leb_trans; eauto.
Qed.
End semver.

(** ** The text format of [serde_json] *)
Class JsonText := {
  json_parse : string -> result string Value;          (* [serde_json::from_str] *)
  json_to_string : Value -> result string string;      (* [serde_json::to_string] *)
}.

(** [Display for Value]: the compact text *)
Class ValueText := { value_display : Value -> string }.

(** ** The [jsonschema] and [jmespatch] crates *)
Class JsonSchemaLib := {
  (** [JSONSchema::compile] followed by [validate]: the compilation error, or
      the messages of the validation errors of a value *)
  jsonschema_compile : Value -> result string (Value -> list string);
}.

Class JmespathLib := {
  jmespath_parse : string -> result string ();         (* [jmespatch::parse] *)
}.

(** ** Iteration over a [std::collections::HashMap]

    The order is unspecified: an arbitrary enumeration of the entries. *)
Class HashIter := {
  hash_iter : forall {A : Type}, gmap Uuid A -> list (Uuid * A);
}.
Class HashIterLaws `{HashIter} : Prop := {
  hash_iter_perm {A} (m : gmap Uuid A) : hash_iter m ≡ₚ map_to_list m;
}.

(** the same for maps with text keys *)
Class StringHashIter := {
  string_hash_iter : forall {A : Type}, gmap string A -> list (string * A);
}.
Class StringHashIterLaws `{StringHashIter} : Prop := {
  string_hash_iter_perm {A} (m : gmap string A) : string_hash_iter m ≡ₚ map_to_list m;
}.
