(* ===== verification/Indradb.v ===== *)
(** The interface of the graph datastore ([indradb::Datastore]) that the schema
    registry stores everything in: the queries the registry builds, the
    operations of a transaction as a class, and their documented behaviour as a
    class of laws over an abstract property graph.  The registry is generic
    over [D: Datastore] and so is the model. *)
From stdpp Require Import prelude gmap strings list fin_maps.
From S2P Require Import Prelude Json Externals.

(** ** Vertices, edges and queries *)

Abbreviation VType := string (only parsing).

Record IVertex : Type := mkIVertex { v_id : Uuid; v_t : VType }.

Record EdgeKey : Type := mkEdgeKey { outbound_id : Uuid; ek_t : VType; inbound_id : Uuid }.

#[export] Instance EdgeKey_eq_dec : EqDecision EdgeKey.
Proof. solve_decision. Defined.
#[export] Instance EdgeKey_countable : Countable EdgeKey.
Proof.
  refine (inj_countable' (fun k => (outbound_id k, ek_t k, inbound_id k))
    (fun '(o, t, i) => mkEdgeKey o t i) _). by intros [].
Defined.

Record NamedProperty : Type := mkNamedProperty { prop_name : string; prop_value : Value }.
Record VertexProperties : Type :=
  mkVertexProperties { vp_vertex : IVertex; vp_props : list NamedProperty }.
Record EdgeProperties : Type :=
  mkEdgeProperties { ep_key : EdgeKey; ep_props : list NamedProperty }.
Record VertexProperty : Type := mkVertexProperty { vprop_id : Uuid; vprop_value : Value }.
Record EdgeProperty : Type := mkEdgeProperty { eprop_key : EdgeKey; eprop_value : Value }.

(** [PipeEdgeQuery] is [.outbound(limit).t(t)] on a vertex query and
    [PipeVertexQuery] is [.inbound(limit)] on an edge query. *)
Inductive VertexQuery : Type :=
| RangeVertexQuery (limit : Z) (t : option VType)
| SpecificVertexQuery (ids : list Uuid)
| PipeVertexQuery (inner : EdgeQuery) (limit : Z)
with EdgeQuery : Type :=
| SpecificEdgeQuery (keys : list EdgeKey)
| PipeEdgeQuery (inner : VertexQuery) (limit : Z) (t : option VType).

Definition u32_max : Z := 4294967295.

(** ** Property graphs *)

Record VData : Type := mkVData { vd_t : VType; vd_props : gmap string Value }.

Record Graph : Type := mkGraph {
  g_vertices : gmap Uuid VData;
  g_edges : gmap EdgeKey (gmap string Value);
}.

Definition empty_graph : Graph := mkGraph ∅ ∅.

Definition g_type (g : Graph) (i : Uuid) : option VType := vd_t <$> g_vertices g !! i.
Definition g_vprop (g : Graph) (i : Uuid) (name : string) : option Value :=
  g_vertices g !! i ≫= fun vd => vd_props vd !! name.
Definition g_eprop (g : Graph) (k : EdgeKey) (name : string) : option Value :=
  g_edges g !! k ≫= fun ps => ps !! name.

Definition g_add_vertex (v : IVertex) (g : Graph) : Graph :=
  mkGraph (<[v_id v := mkVData (v_t v) ∅]> (g_vertices g)) (g_edges g).
Definition g_set_vprop (i : Uuid) (name : string) (x : Value) (g : Graph) : Graph :=
  mkGraph (alter (fun vd => mkVData (vd_t vd) (<[name := x]> (vd_props vd))) i (g_vertices g))
          (g_edges g).
Definition g_add_edge (k : EdgeKey) (g : Graph) : Graph :=
  mkGraph (g_vertices g) (<[k := default ∅ (g_edges g !! k)]> (g_edges g)).
Definition g_set_eprop (k : EdgeKey) (name : string) (x : Value) (g : Graph) : Graph :=
  mkGraph (g_vertices g) (alter (fun ps => <[name := x]> ps) k (g_edges g)).

(** Every query the registry issues is bounded by [u32::MAX]; below that bound
    nothing is cut off. *)
Definition fits (g : Graph) : Prop :=
  (Z.of_nat (size (g_vertices g)) <= u32_max)%Z /\ (Z.of_nat (size (g_edges g)) <= u32_max)%Z.

(** ** What a query may return *)

Definition type_matches (t : option VType) (t' : VType) : Prop :=
  match t with None => True | Some t0 => t0 = t' end.

Fixpoint vq_result (g : Graph) (q : VertexQuery) (ids : list Uuid) {struct q} : Prop :=
  match q with
  | SpecificVertexQuery ids0 => ids = filter (fun i => is_Some (g_vertices g !! i)) ids0
  | RangeVertexQuery limit t =>
      NoDup ids /\
      (forall i, i ∈ ids -> exists vd, g_vertices g !! i = Some vd /\ type_matches t (vd_t vd)) /\
      ((Z.of_nat (size (g_vertices g)) <= limit)%Z ->
       forall i vd, g_vertices g !! i = Some vd -> type_matches t (vd_t vd) -> i ∈ ids)
  | PipeVertexQuery inner limit =>
      exists keys, eq_result g inner keys /\
      (forall i, i ∈ ids ->
        is_Some (g_vertices g !! i) /\ exists k, k ∈ keys /\ inbound_id k = i) /\
      ((Z.of_nat (size (g_edges g)) <= limit)%Z ->
       forall k, k ∈ keys -> is_Some (g_vertices g !! inbound_id k) -> inbound_id k ∈ ids)
  end
with eq_result (g : Graph) (q : EdgeQuery) (keys : list EdgeKey) {struct q} : Prop :=
  match q with
  | SpecificEdgeQuery keys0 => keys = filter (fun k => is_Some (g_edges g !! k)) keys0
  | PipeEdgeQuery inner limit t =>
      exists ids, vq_result g inner ids /\ NoDup keys /\
      (forall k, k ∈ keys ->
        is_Some (g_edges g !! k) /\ outbound_id k ∈ ids /\ type_matches t (ek_t k)) /\
      ((Z.of_nat (size (g_edges g)) <= limit)%Z ->
       forall k, is_Some (g_edges g !! k) -> outbound_id k ∈ ids -> type_matches t (ek_t k) ->
       k ∈ keys)
  end.

(** A stored property map as the unordered list of named properties in which
    the datastore hands it out. *)
Definition props_of (m : gmap string Value) (l : list NamedProperty) : Prop :=
  ((fun p => (prop_name p, prop_value p)) <$> l) ≡ₚ map_to_list m.

Definition vertex_of (g : Graph) (i : Uuid) (v : IVertex) : Prop :=
  v_id v = i /\ g_type g i = Some (v_t v).
Definition vertex_properties_of (g : Graph) (i : Uuid) (vp : VertexProperties) : Prop :=
  exists vd, g_vertices g !! i = Some vd /\
  vp_vertex vp = mkIVertex i (vd_t vd) /\ props_of (vd_props vd) (vp_props vp).
Definition edge_properties_of (g : Graph) (k : EdgeKey) (ep : EdgeProperties) : Prop :=
  exists ps, g_edges g !! k = Some ps /\ ep_key ep = k /\ props_of ps (ep_props ep).

(** ** The datastore and its laws *)

Class Datastore (D : Type) := {
  ds_transaction : D -> result string ();
  ds_create_vertex : IVertex -> M D string bool;
  ds_create_vertex_from_type : VType -> M D string Uuid;
  ds_set_vertex_properties : VertexQuery -> string -> Value -> M D string ();
  ds_create_edge : EdgeKey -> M D string bool;
  ds_set_edge_properties : EdgeQuery -> string -> Value -> M D string ();
  ds_get_vertices : VertexQuery -> D -> result string (list IVertex);
  ds_get_all_vertex_properties : VertexQuery -> D -> result string (list VertexProperties);
  ds_get_vertex_properties : VertexQuery -> string -> D -> result string (list VertexProperty);
  ds_get_edge_properties : EdgeQuery -> string -> D -> result string (list EdgeProperty);
  ds_get_all_edge_properties : EdgeQuery -> D -> result string (list EdgeProperties);
}.

(** A call either takes effect as documented or reports an error and leaves the
    graph as it was. *)
Class DatastoreLaws (D : Type) `{Datastore D} := {
  graph : D -> Graph;
  create_vertex_law v d :
    wp (ds_create_vertex v) d
      (fun b d' =>
        match g_vertices (graph d) !! v_id v with
        | None => b = true /\ graph d' = g_add_vertex v (graph d)
        | Some _ => b = false /\ graph d' = graph d
        end)
      (fun _ d' => graph d' = graph d);
  create_vertex_from_type_law t d :
    wp (ds_create_vertex_from_type t) d
      (fun i d' => g_vertices (graph d) !! i = None /\
                   graph d' = g_add_vertex (mkIVertex i t) (graph d))
      (fun _ d' => graph d' = graph d);
  set_vertex_properties_law i name x d :
    wp (ds_set_vertex_properties (SpecificVertexQuery [i]) name x) d
      (fun _ d' => graph d' = g_set_vprop i name x (graph d))
      (fun _ d' => graph d' = graph d);
  (* "Returns whether the edge was successfully created - if this is false, one
     of the specified vertices does not exist" *)
  create_edge_law k d :
    wp (ds_create_edge k) d
      (fun b d' =>
        match g_vertices (graph d) !! outbound_id k, g_vertices (graph d) !! inbound_id k with
        | Some _, Some _ => b = true /\ graph d' = g_add_edge k (graph d)
        | _, _ => b = false /\ graph d' = graph d
        end)
      (fun _ d' => graph d' = graph d);
  set_edge_properties_law k name x d :
    wp (ds_set_edge_properties (SpecificEdgeQuery [k]) name x) d
      (fun _ d' => graph d' = g_set_eprop k name x (graph d))
      (fun _ d' => graph d' = graph d);
  get_vertices_law q d l :
    ds_get_vertices q d = Ok l ->
    exists ids, vq_result (graph d) q ids /\ Forall2 (vertex_of (graph d)) ids l;
  get_all_vertex_properties_law q d l :
    ds_get_all_vertex_properties q d = Ok l ->
    exists ids, vq_result (graph d) q ids /\ Forall2 (vertex_properties_of (graph d)) ids l;
  get_vertex_properties_law q name d l :
    ds_get_vertex_properties q name d = Ok l ->
    exists ids, vq_result (graph d) q ids /\
    l = omap (fun i => mkVertexProperty i <$> g_vprop (graph d) i name) ids;
  get_edge_properties_law q name d l :
    ds_get_edge_properties q name d = Ok l ->
    exists keys, eq_result (graph d) q keys /\
    l = omap (fun k => mkEdgeProperty k <$> g_eprop (graph d) k name) keys;
  get_all_edge_properties_law q d l :
    ds_get_all_edge_properties q d = Ok l ->
    exists keys, eq_result (graph d) q keys /\ Forall2 (edge_properties_of (graph d)) keys l;
}.

(** A datastore whose storage never fails.  Drawing a fresh id may still clash. *)
Class ReliableDatastore (D : Type) `{Datastore D} : Prop := {
  reliable_transaction d : is_ok (ds_transaction d) = true;
  reliable_create_vertex v d : is_ok (ds_create_vertex v d).2 = true;
  reliable_set_vertex_properties q n x d : is_ok (ds_set_vertex_properties q n x d).2 = true;
  reliable_create_edge k d : is_ok (ds_create_edge k d).2 = true;
  reliable_set_edge_properties q n x d : is_ok (ds_set_edge_properties q n x d).2 = true;
  reliable_get_vertices q d : is_ok (ds_get_vertices q d) = true;
  reliable_get_all_vertex_properties q d : is_ok (ds_get_all_vertex_properties q d) = true;
  reliable_get_vertex_properties q n d : is_ok (ds_get_vertex_properties q n d) = true;
  reliable_get_edge_properties q n d : is_ok (ds_get_edge_properties q n d) = true;
  reliable_get_all_edge_properties q d : is_ok (ds_get_all_edge_properties q d) = true;
}.

(** ** Graph lemmas *)

Section graph.
Implicit Types (g : Graph) (i : Uuid) (k : EdgeKey).

Lemma lookup_add_vertex g v i :
  g_vertices (g_add_vertex v g) !! i =
  if decide (v_id v = i) then Some (mkVData (v_t v) ∅) else g_vertices g !! i.
Proof. simpl. apply lookup_insert. Qed.

Lemma lookup_set_vprop g i name x j :
  g_vertices (g_set_vprop i name x g) !! j =
  if decide (i = j)
  then (fun vd => mkVData (vd_t vd) (<[name := x]> (vd_props vd))) <$> g_vertices g !! j
  else g_vertices g !! j.
Proof. simpl. rewrite lookup_alter. by case_decide; subst. Qed.

Lemma g_type_set_vprop g i name x j : g_type (g_set_vprop i name x g) j = g_type g j.
Proof.
  unfold g_type. rewrite lookup_set_vprop. case_decide; [|done].
  by destruct (g_vertices g !! j).
Qed.

Lemma is_Some_set_vprop g i name x j :
  is_Some (g_vertices (g_set_vprop i name x g) !! j) <-> is_Some (g_vertices g !! j).
Proof.
  rewrite lookup_set_vprop. case_decide; [apply fmap_is_Some|done].
Qed.

Lemma g_vprop_set_vprop g i name x :
  is_Some (g_vertices g !! i) -> g_vprop (g_set_vprop i name x g) i name = Some x.
Proof.
  intros [vd Hvd]. unfold g_vprop. rewrite lookup_set_vprop, decide_True, Hvd by done.
  simpl. apply lookup_insert_eq.
Qed.

Lemma g_vprop_set_vprop_ne g i name x j name' :
  i <> j \/ name <> name' ->
  g_vprop (g_set_vprop i name x g) j name' = g_vprop g j name'.
Proof.
  intros Hne. unfold g_vprop. rewrite lookup_set_vprop. case_decide; [|done]. subst.
  destruct Hne as [?|Hne]; [done|]. destruct (g_vertices g !! j) as [vd|]; [|done].
  simpl. by rewrite lookup_insert_ne.
Qed.

Lemma vq_single g i ids :
  vq_result g (SpecificVertexQuery [i]) ids ->
  ids = match g_vertices g !! i with Some _ => [i] | None => [] end.
Proof.
  simpl. rewrite filter_cons, filter_nil. intros ->.
  destruct (g_vertices g !! i) eqn:Hi; case_decide as Hd; try done.
  destruct Hd. by eexists.
Qed.
End graph.

(** Pulling one named property out of a handed-out list. *)
Lemma props_of_lookup m l name x :
  props_of m l -> mkNamedProperty name x ∈ l <-> m !! name = Some x.
Proof.
  unfold props_of. intros Hl. rewrite <- elem_of_map_to_list, <- Hl.
  rewrite list_elem_of_fmap. split.
  - intros Hin. by exists (mkNamedProperty name x).
  - by intros ([n' x'] & [= -> ->] & Hin).
Qed.
