(* ===== verification/RegistryTypes.v ===== *)
(** The data of the schema registry: [crates/schema-registry/src/types.rs],
    [types/storage/{vertices,edges}.rs], [error.rs], and the schema type of
    [crates/rpc/src/schema_registry.rs]. *)
From stdpp Require Import prelude gmap strings list fin_maps.
From S2P Require Import Prelude Json Externals Indradb.

(** ** [rpc::schema_registry::types::SchemaType] *)

Inductive SchemaType : Type := DocumentStorage | Timeseries.

#[export] Instance SchemaType_eq_dec : EqDecision SchemaType.
Proof. solve_decision. Defined.

(** the generated protobuf enum [schema_type::Type], its numbers fixed by
    [proto/schema_registry.proto] *)
Inductive ProtoSchemaType : Type := PDocumentStorage | PTimeseries.
Definition proto_from_i32 (n : Z) : option ProtoSchemaType :=
  if (n =? 0)%Z then Some PDocumentStorage else if (n =? 1)%Z then Some PTimeseries else None.

Definition schema_type_from_proto (st : ProtoSchemaType) : SchemaType :=
  match st with PDocumentStorage => DocumentStorage | PTimeseries => Timeseries end.
Definition schema_type_into_proto (st : SchemaType) : ProtoSchemaType :=
  match st with DocumentStorage => PDocumentStorage | Timeseries => PTimeseries end.

(** [schema_type as i32] of the [repr(i32)] enum *)
Definition schema_type_as_i32 (st : SchemaType) : Z :=
  match st with DocumentStorage => 0 | Timeseries => 1 end.

Definition schema_type_to_string (st : SchemaType) : string :=
  match st with DocumentStorage => "DocumentStorage" | Timeseries => "Timeseries" end.

Definition schema_type_from_str (s : string) : result string SchemaType :=
  if decide (s = "DocumentStorage") then Ok DocumentStorage
  else if decide (s = "Timeseries") then Ok Timeseries
  else Err ("Invalid schema type: " +:+ s).

(** the derived [Deserialize]: a unit variant is its name, or an object whose
    single member has that name and a null value *)
Definition schema_type_variant (s : string) : option SchemaType :=
  if decide (s = "DocumentStorage") then Some DocumentStorage
  else if decide (s = "Timeseries") then Some Timeseries else None.
Definition schema_type_from_value (v : Value) : option SchemaType :=
  match v with
  | VString s => schema_type_variant s
  | Object m => match map_to_list m with [(k, Null)] => schema_type_variant k | _ => None end
  | _ => None
  end.

(** ** Helper structures of [types.rs] *)

Record ViewUpdate : Type := mkViewUpdate { vu_name : option string; vu_jmespath : option string }.

Record NewSchema : Type := mkNewSchema {
  ns_name : string;
  ns_definition : Value;
  ns_kafka_topic : string;
  ns_query_address : string;
  ns_schema_type : SchemaType;
}.

(** [vertices::Schema], [vertices::Definition] and [vertices::View] *)
Record Schema : Type := mkSchema {
  sc_name : string;
  sc_kafka_topic : string;
  sc_query_address : string;
  sc_schema_type : SchemaType;
}.
Record Definition' : Type := mkDefinition { definition : Value }.
Record View : Type := mkView { view_name : string; view_jmespath : string }.

(** [NewSchema::vertex] *)
Definition new_schema_vertex (s : NewSchema) : Schema * Value :=
  (mkSchema (ns_name s) (ns_kafka_topic s) (ns_query_address s) (ns_schema_type s),
   ns_definition s).

Section versioned.
Context `{SemVer}.

Record NewSchemaVersion : Type :=
  mkNewSchemaVersion { nv_version : Version; nv_definition : Value }.
Record SchemaDefinition : Type :=
  mkSchemaDefinition { sd_version : Version; sd_definition : Value }.

Record VersionedUuid : Type := mkVersionedUuid { vid_id : Uuid; vid_version_req : VersionReq }.
Definition versioned_new (id : Uuid) (req : VersionReq) : VersionedUuid := mkVersionedUuid id req.
Definition versioned_exact (id : Uuid) (v : Version) : VersionedUuid :=
  mkVersionedUuid id (req_exact v).
Definition versioned_any (id : Uuid) : VersionedUuid := mkVersionedUuid id req_any.

(** the edges of [types/storage/edges.rs] *)
Record SchemaDefinitionEdge : Type := mkSchemaDefinitionEdge {
  sde_schema_id : Uuid;
  sde_definition_id : Uuid;
  sde_version : Version;
}.
End versioned.

Record SchemaViewEdge : Type := mkSchemaViewEdge { sve_schema_id : Uuid; sve_view_id : Uuid }.

Record DbExport `{SemVer} : Type := mkDbExport {
  ex_schemas : gmap Uuid Schema;
  ex_definitions : gmap Uuid Definition';
  ex_views : gmap Uuid View;
  ex_schema_definitions : list SchemaDefinitionEdge;
  ex_schema_views : list SchemaViewEdge;
}.

(** ** Property extraction *)

(** [extract_vertex_property] and [extract_edge_property]: every property of
    that name is drained from the list and the first one is decoded. *)
Definition extract_vertex_property {T} (from_value : Value -> option T) (name : string)
    (props : list NamedProperty) : option T * list NamedProperty :=
  (head (filter (fun p => prop_name p = name) props) ≫= fun p => from_value (prop_value p),
   filter (fun p => prop_name p <> name) props).

Definition extract_edge_property {T} (from_value : Value -> option T) (name : string)
    (props : list NamedProperty) : option T * list NamedProperty :=
  (head (filter (fun p => prop_name p = name) props) ≫= fun p => from_value (prop_value p),
   filter (fun p => prop_name p <> name) props).

(** ** The [Vertex] and [Edge] traits *)

Class VertexTrait (V : Type) := {
  into_properties : V -> list (string * Value);
  from_properties : VertexProperties -> option (Uuid * V);
  vertex_db_type : VType;
}.
Arguments vertex_db_type V {_}.

Class EdgeTrait (E : Type) := {
  edge_db_type : VType;
  edge_info : E -> EdgeKey * list (string * Value);
  edge_from_properties : EdgeProperties -> option E;
}.
Arguments edge_db_type E {_}.

Definition SCHEMA_VERTEX_TYPE : VType := "SCHEMA".
Definition SCHEMA_DEFINITION_VERTEX_TYPE : VType := "DEFINITION".
Definition VIEW_VERTEX_TYPE : VType := "VIEW".
Definition SCHEMA_DEFINITION_EDGE_TYPE : VType := "SCHEMA_DEFINITION".
Definition SCHEMA_VIEW_EDGE_TYPE : VType := "SCHEMA_VIEW".

Definition Schema_NAME : string := "SCHEMA_NAME".
Definition Schema_TOPIC_NAME : string := "SCHEMA_TOPIC_NAME".
Definition Schema_QUERY_ADDRESS : string := "SCHEMA_QUERY_ADDRESS".
Definition Schema_SCHEMA_TYPE : string := "SCHEMA_TYPE".
Definition Definition_VALUE : string := "DEFINITION".
Definition View_NAME : string := "VIEW_NAME".
Definition View_EXPRESSION : string := "JMESPATH".
Definition SchemaDefinition_VERSION : string := "VERSION".

Definition schema_from_properties (vp : VertexProperties) : option (Uuid * Schema) :=
  let '(o_name, ps) := extract_vertex_property string_from_value Schema_NAME (vp_props vp) in
  name ← o_name;
  let '(o_topic, ps) := extract_vertex_property string_from_value Schema_TOPIC_NAME ps in
  kafka_topic ← o_topic;
  let '(o_addr, ps) := extract_vertex_property string_from_value Schema_QUERY_ADDRESS ps in
  query_address ← o_addr;
  let '(o_type, ps) := extract_vertex_property schema_type_from_value Schema_SCHEMA_TYPE ps in
  schema_type ← o_type;
  Some (v_id (vp_vertex vp), mkSchema name kafka_topic query_address schema_type).

Definition schema_into_properties (s : Schema) : list (string * Value) :=
  [ (Schema_NAME, VString (sc_name s));
    (Schema_TOPIC_NAME, VString (sc_kafka_topic s));
    (Schema_QUERY_ADDRESS, VString (sc_query_address s));
    (Schema_SCHEMA_TYPE, VString (schema_type_to_string (sc_schema_type s))) ].

#[export] Instance Schema_vertex : VertexTrait Schema := {
  into_properties := schema_into_properties;
  from_properties := schema_from_properties;
  vertex_db_type := SCHEMA_VERTEX_TYPE;
}.

Definition definition_from_properties (vp : VertexProperties) : option (Uuid * Definition') :=
  let '(o_def, ps) := extract_vertex_property Some Definition_VALUE (vp_props vp) in
  def ← o_def;
  Some (v_id (vp_vertex vp), mkDefinition def).

Definition definition_into_properties (d : Definition') : list (string * Value) :=
  [ (Definition_VALUE, definition d) ].

#[export] Instance Definition_vertex : VertexTrait Definition' := {
  into_properties := definition_into_properties;
  from_properties := definition_from_properties;
  vertex_db_type := SCHEMA_DEFINITION_VERTEX_TYPE;
}.

Definition view_from_properties (vp : VertexProperties) : option (Uuid * View) :=
  let '(o_name, ps) := extract_vertex_property string_from_value View_NAME (vp_props vp) in
  name ← o_name;
  let '(o_expr, ps) := extract_vertex_property string_from_value View_EXPRESSION ps in
  jmespath ← o_expr;
  Some (v_id (vp_vertex vp), mkView name jmespath).

Definition view_into_properties (v : View) : list (string * Value) :=
  [ (View_NAME, VString (view_name v)); (View_EXPRESSION, VString (view_jmespath v)) ].

#[export] Instance View_vertex : VertexTrait View := {
  into_properties := view_into_properties;
  from_properties := view_from_properties;
  vertex_db_type := VIEW_VERTEX_TYPE;
}.

Definition schema_view_edge_info (e : SchemaViewEdge) : EdgeKey * list (string * Value) :=
  (mkEdgeKey (sve_schema_id e) SCHEMA_VIEW_EDGE_TYPE (sve_view_id e), []).

Definition schema_view_from_properties (ep : EdgeProperties) : option SchemaViewEdge :=
  Some (mkSchemaViewEdge (outbound_id (ep_key ep)) (inbound_id (ep_key ep))).

#[export] Instance SchemaView_edge : EdgeTrait SchemaViewEdge := {
  edge_db_type := SCHEMA_VIEW_EDGE_TYPE;
  edge_info := schema_view_edge_info;
  edge_from_properties := schema_view_from_properties;
}.

Section schema_definition_edge.
Context `{SemVer}.

Definition schema_definition_edge_info (e : SchemaDefinitionEdge) :
    EdgeKey * list (string * Value) :=
  (mkEdgeKey (sde_schema_id e) SCHEMA_DEFINITION_EDGE_TYPE (sde_definition_id e),
   [(SchemaDefinition_VERSION, version_to_value (sde_version e))]).

Definition schema_definition_from_properties (ep : EdgeProperties) :
    option SchemaDefinitionEdge :=
  let '(o_version, ps) :=
    extract_edge_property version_from_value SchemaDefinition_VERSION (ep_props ep) in
  version ← o_version;
  Some (mkSchemaDefinitionEdge (outbound_id (ep_key ep)) (inbound_id (ep_key ep)) version).

#[export] Instance SchemaDefinition_edge : EdgeTrait SchemaDefinitionEdge := {
  edge_db_type := SCHEMA_DEFINITION_EDGE_TYPE;
  edge_info := schema_definition_edge_info;
  edge_from_properties := schema_definition_from_properties;
}.
End schema_definition_edge.

(** ** Errors *)

Inductive MalformedError : Type :=
| MalformedSchema (id : Uuid)
| MalformedDefinition (id : Uuid)
| MalformedSchemaVersion (id : Uuid)
| MalformedView (id : Uuid).

Inductive RegistryError `{SemVer} : Type :=
| NoSchemaWithId (id : Uuid)
| NoViewWithId (id : Uuid)
| DuplicatedUuid (id : Uuid)
| DbError (e : string)
| ConnectionError (e : string)
| NoTopic (topic : string)
| MQError (e : string)
| InvalidSchema
| InvalidSchemaType
| InvalidView (e : string)
| NoVersionMatchesRequirement (id : VersionedUuid)
| NewVersionMustBeGreatest (schema_id : Uuid) (max_version : Version)
| CacheError (e : string)
| Malformed (e : MalformedError).

(** a failure of the storage itself, which may leave a multi-step operation
    half done *)
Definition storage_failure `{SemVer} (e : RegistryError) : Prop :=
  match e with DbError _ | ConnectionError _ => True | _ => False end.

#[export] Instance storage_failure_dec `{SemVer} (e : RegistryError) :
  Decision (storage_failure e).
Proof. destruct e; simpl; apply _. Defined.

(** [tonic::Status]: the codes the registry uses and those only the transport
    produces, with the message *)
Inductive Code : Type := NotFound | Internal | InvalidArgument | TransportCode (n : Z).
Record Status : Type := mkStatus { code : Code; message : string }.

Section display.
Context `{SemVer, UuidLib}.

Definition malformed_display (e : MalformedError) : string :=
  match e with
  | MalformedSchema id => "Schema in database was malformed with id " +:+ uuid_to_string id
  | MalformedDefinition id =>
      "Schema definition in database was malformed with id " +:+ uuid_to_string id
  | MalformedSchemaVersion id =>
      "Schema version in database was malformed under schema with id " +:+ uuid_to_string id
  | MalformedView id =>
      "View in database was malformed for view with id " +:+ uuid_to_string id
  end.

(** a double quote character, which the messages put around identifiers *)
Definition dq : string := String (Ascii.ascii_of_nat 34) EmptyString.

Definition registry_error_display (e : RegistryError) : string :=
  match e with
  | NoSchemaWithId id => "No schema found with id " +:+ dq +:+ uuid_to_string id +:+ dq
  | NoViewWithId id => "No view found with id " +:+ dq +:+ uuid_to_string id +:+ dq
  | DuplicatedUuid id =>
      "Object with id " +:+ dq +:+ uuid_to_string id +:+ dq +:+ " already exists in database"
  | DbError e => "Error occurred while accessing sled database: " +:+ e
  | ConnectionError e => "Unable to connect to sled database: " +:+ e
  | NoTopic t => "No topic found named " +:+ dq +:+ t +:+ dq
  | MQError e => e
  | InvalidSchema => "Given schema was invalid"
  | InvalidSchemaType => "Given schema type is invalid"
  | InvalidView e => "Given view was invalid: " +:+ e
  | NoVersionMatchesRequirement id =>
      "No version of schema with id " +:+ uuid_to_string (vid_id id) +:+
      " matches the given requirement " +:+ version_req_to_string (vid_version_req id)
  | NewVersionMustBeGreatest id v =>
      "New schema version for schema with id " +:+ uuid_to_string id +:+
      " must be greater than the current max " +:+ version_to_string v
  | CacheError e => e
  | Malformed e => malformed_display e
  end.

(** [impl From<RegistryError> for Status] *)
Definition registry_error_to_status (e : RegistryError) : Status :=
  match e with
  | NoTopic _ | NoSchemaWithId _ | NoViewWithId _ =>
      mkStatus NotFound (registry_error_display e)
  | _ => mkStatus Internal (registry_error_display e)
  end.
End display.

(** ** Decoding is a function of the stored property map *)

Definition schema_of_map (m : gmap string Value) : option Schema :=
  name ← m !! Schema_NAME ≫= string_from_value;
  kafka_topic ← m !! Schema_TOPIC_NAME ≫= string_from_value;
  query_address ← m !! Schema_QUERY_ADDRESS ≫= string_from_value;
  schema_type ← m !! Schema_SCHEMA_TYPE ≫= schema_type_from_value;
  Some (mkSchema name kafka_topic query_address schema_type).
Definition definition_of_map (m : gmap string Value) : option Definition' :=
  mkDefinition <$> m !! Definition_VALUE.
Definition view_of_map (m : gmap string Value) : option View :=
  name ← m !! View_NAME ≫= string_from_value;
  jmespath ← m !! View_EXPRESSION ≫= string_from_value;
  Some (mkView name jmespath).
Definition version_of_map `{SemVer} (m : gmap string Value) : option Version :=
  m !! SchemaDefinition_VERSION ≫= version_from_value.

Section extract.
Context {T : Type} (from_value : Value -> option T).

Lemma extract_spec m l name :
  props_of m l ->
  exists l', extract_vertex_property from_value name l = (m !! name ≫= from_value, l') /\
             props_of (delete name m) l'.
Proof.
  intros Hl. eexists. split; [unfold extract_vertex_property; f_equal|].
  - destruct (filter (fun p => prop_name p = name) l) as [|[n x] l'] eqn:Hf; simpl.
    + destruct (m !! name) as [x|] eqn:Hm; [|done].
      apply (props_of_lookup _ _ _ _ Hl) in Hm.
      assert (mkNamedProperty name x ∈ filter (fun p => prop_name p = name) l) as Hin
        by (by apply list_elem_of_filter).
      rewrite Hf in Hin. by apply not_elem_of_nil in Hin.
    + assert (mkNamedProperty n x ∈ filter (fun p => prop_name p = name) l) as Hin
        by (rewrite Hf; set_solver).
      apply list_elem_of_filter in Hin as [Hn Hin]. simpl in Hn. subst n.
      apply (props_of_lookup _ _ _ _ Hl) in Hin. by rewrite Hin.
  - unfold props_of in *. apply NoDup_Permutation.
    + assert (NoDup ((fun p => (prop_name p, prop_value p)) <$> l)) as Hnd
        by (rewrite Hl; apply NoDup_map_to_list).
      apply NoDup_fmap_1 in Hnd. apply NoDup_fmap_2; [intros [] [] [=]; by subst|].
      by apply NoDup_filter.
    + apply NoDup_map_to_list.
    + intros [n x]. rewrite elem_of_map_to_list, lookup_delete_Some.
      rewrite <- (props_of_lookup m l n x Hl), list_elem_of_fmap. split.
      * intros ([n' x'] & [= -> ->] & Hin). apply list_elem_of_filter in Hin as [??].
        split; [by apply not_eq_sym | done].
      * intros [? ?]. exists (mkNamedProperty n x). split; [done|].
        apply list_elem_of_filter. split; [by apply not_eq_sym | done].
Qed.
End extract.

(** Step through a chain of extractions. *)
Ltac extract_all :=
  repeat match goal with
  | Hl : props_of ?m ?l |- context [extract_vertex_property ?f ?n ?l] =>
      let l' := fresh "ps" in
      destruct (extract_spec f m l n Hl) as (l' & -> & ?);
      rewrite ?lookup_delete_ne by discriminate;
      match goal with
      | |- context [?o ≫= f] => destruct (o ≫= f); [cbn [mbind option_bind]|done]
      end
  end.

Lemma schema_from_properties_spec v m l :
  props_of m l ->
  schema_from_properties (mkVertexProperties v l) = pair (v_id v) <$> schema_of_map m.
Proof.
  intros Hl. unfold schema_from_properties, schema_of_map; cbn [vp_props vp_vertex ep_props ep_key]. by extract_all.
Qed.

Lemma view_from_properties_spec v m l :
  props_of m l ->
  view_from_properties (mkVertexProperties v l) = pair (v_id v) <$> view_of_map m.
Proof.
  intros Hl. unfold view_from_properties, view_of_map; cbn [vp_props vp_vertex ep_props ep_key]. by extract_all.
Qed.

Lemma definition_from_properties_spec v m l :
  props_of m l ->
  definition_from_properties (mkVertexProperties v l) = pair (v_id v) <$> definition_of_map m.
Proof.
  intros Hl. unfold definition_from_properties, definition_of_map; cbn [vp_props vp_vertex ep_props ep_key].
  destruct (extract_spec Some m l Definition_VALUE Hl) as (l' & -> & ?).
  by destruct (m !! Definition_VALUE).
Qed.

Lemma schema_definition_from_properties_spec `{SemVer} k m l :
  props_of m l ->
  schema_definition_from_properties (mkEdgeProperties k l) =
  mkSchemaDefinitionEdge (outbound_id k) (inbound_id k) <$> version_of_map m.
Proof.
  intros Hl. unfold schema_definition_from_properties, version_of_map; cbn [vp_props vp_vertex ep_props ep_key].
  destruct (extract_spec version_from_value m l SchemaDefinition_VERSION Hl) as (l' & Hx & ?).
  change (extract_edge_property version_from_value SchemaDefinition_VERSION l)
    with (extract_vertex_property version_from_value SchemaDefinition_VERSION l).
  rewrite Hx.
  by destruct (m !! SchemaDefinition_VERSION ≫= version_from_value).
Qed.
