(* ===== verification/SchemaDb.v ===== *)
(** [SchemaDb] of [crates/schema-registry/src/db.rs] and [build_full_schema] of
    [schema.rs]: every method as a computation over an arbitrary datastore.
    A [?] on a datastore call turns its error into [DbError]; a failed
    [transaction()] is a [ConnectionError]; a failing method keeps whatever the
    calls before the failure have written. *)
From stdpp Require Import prelude gmap strings list fin_maps.
From S2P Require Import Prelude Json Externals Indradb RegistryTypes.

Section schema_db.
Context {D : Type} `{Datastore D, SemVer, UuidLib, JsonSchemaLib, JmespathLib, HashIter}.

#[local] Notation Db := (M D RegistryError).

Definition db_op {A} (m : M D string A) : Db A := with_err DbError m.
Definition db_read {A} (f : D -> result string A) : Db A :=
  reads (fun d => map_err DbError (f d)).

Definition connect : Db () := reads (fun d => map_err ConnectionError (ds_transaction d)).

(** ** Writing vertices and edges *)

Definition create_vertex_with_properties {V} `{VertexTrait V}
    (vertex : V) (uuid : option Uuid) : Db Uuid :=
  connect ;;
  let properties := into_properties vertex in
  new_id ← match uuid with
           | Some uuid =>
               inserted ← db_op (ds_create_vertex (mkIVertex uuid (vertex_db_type V)));
               if (inserted : bool) then mret uuid else fail (DuplicatedUuid uuid)
           | None => db_op (ds_create_vertex_from_type (vertex_db_type V))
           end;
  for_each (fun p : string * Value =>
    db_op (ds_set_vertex_properties (SpecificVertexQuery [new_id]) p.1 p.2)) properties ;;
  mret new_id.

Definition set_vertex_properties (id : Uuid) (properties : list (string * Value)) : Db () :=
  connect ;;
  for_each (fun p : string * Value =>
    db_op (ds_set_vertex_properties (SpecificVertexQuery [id]) p.1 p.2)) properties.

(** the result of [create_edge] is not looked at *)
Definition set_edge_properties {E} `{EdgeTrait E} (edge : E) : Db () :=
  connect ;;
  let '(key, properties) := edge_info edge in
  db_op (ds_create_edge key) ;;
  for_each (fun p : string * Value =>
    db_op (ds_set_edge_properties (SpecificEdgeQuery [key]) p.1 p.2)) properties.

(** ** Reading *)

Definition ensure_schema_exists (id : Uuid) : Db () :=
  connect ;;
  vertices ← db_read (ds_get_vertices (SpecificVertexQuery [id]));
  match vertices with
  | [] => fail (NoSchemaWithId id)
  | _ => mret ()
  end.

Definition get_schema (id : Uuid) : Db Schema :=
  connect ;;
  l ← db_read (ds_get_all_vertex_properties (SpecificVertexQuery [id]));
  props ← lift (ok_or (NoSchemaWithId id) (head l));
  let schema_id := v_id (vp_vertex props) in
  lift (ok_or (Malformed (MalformedSchema schema_id)) (snd <$> schema_from_properties props)).

(** Returns a schema's versions and their respective vertex ID's *)
Definition get_schema_versions (id : Uuid) : Db (list (Version * Uuid)) :=
  connect ;;
  l ← db_read (ds_get_edge_properties
        (PipeEdgeQuery (SpecificVertexQuery [id]) u32_max
           (Some (edge_db_type SchemaDefinitionEdge))) SchemaDefinition_VERSION);
  lift (try_map (fun prop =>
    match version_from_value (eprop_value prop) with
    | Some version => Ok (version, inbound_id (eprop_key prop))
    | None => Err (Malformed (MalformedSchemaVersion id))
    end) l).

Definition get_latest_valid_schema_version (id : VersionedUuid) : Db (Version * Uuid) :=
  versions ← get_schema_versions (vid_id id);
  lift (ok_or (NoVersionMatchesRequirement id)
    (max_by_key version_leb fst
       (filter (fun p => Is_true (req_matches (vid_version_req id) p.1)) versions))).

Definition get_schema_definition (id : VersionedUuid) : Db SchemaDefinition :=
  connect ;;
  '(version, version_vertex_id) ← get_latest_valid_schema_version id;
  l ← db_read (ds_get_vertex_properties (SpecificVertexQuery [version_vertex_id])
                 Definition_VALUE);
  prop ← lift (ok_or (NoVersionMatchesRequirement id) (head l));
  mret (mkSchemaDefinition version (vprop_value prop)).

(** the three metadata getters share this shape in the source *)
Definition get_metadata {T} (id : Uuid) (name : string) (from_value : Value -> option T) : Db T :=
  connect ;;
  l ← db_read (ds_get_vertex_properties (SpecificVertexQuery [id]) name);
  prop ← lift (ok_or (NoSchemaWithId id) (head l));
  lift (ok_or (Malformed (MalformedSchema id)) (from_value (vprop_value prop))).

Definition get_schema_topic (id : Uuid) : Db string :=
  get_metadata id Schema_TOPIC_NAME string_from_value.
Definition get_schema_query_address (id : Uuid) : Db string :=
  get_metadata id Schema_QUERY_ADDRESS string_from_value.
Definition get_schema_type (id : Uuid) : Db SchemaType :=
  get_metadata id Schema_SCHEMA_TYPE schema_type_from_value.

Definition get_view (id : Uuid) : Db View :=
  connect ;;
  l ← db_read (ds_get_all_vertex_properties (SpecificVertexQuery [id]));
  properties ← lift (ok_or (NoViewWithId id)
    (props ← head l;
     if decide (v_t (vp_vertex props) = vertex_db_type View) then Some props else None));
  lift (ok_or (Malformed (MalformedView id)) (snd <$> view_from_properties properties)).

(** ** [build_full_schema]: definitions given by a schema's id are inlined *)

Definition schemas_to_retrieve (defs : gmap string Value) : list (string * Uuid) :=
  omap (fun '(key, value) =>
    val ← as_str value; id ← result_ok (uuid_parse_str val); Some (key, id))
    (object_iter defs).

Fixpoint retrieve_schemas (l : list (string * Uuid)) (defs : gmap string Value) :
    Db (gmap string Value) :=
  match l with
  | [] => mret defs
  | (key, id) :: l' =>
      schema ← get_schema_definition (versioned_any id);
      retrieve_schemas l' (<[key := sd_definition schema]> defs)
  end.

Definition compile_schema (schema : Value) : result RegistryError () :=
  match jsonschema_compile schema with Ok _ => Ok () | Err _ => Err InvalidSchema end.

Definition build_full_schema (schema : Value) : Db Definition' :=
  schema ← match get_key "definitions" schema ≫= as_object with
           | Some defs =>
               defs' ← retrieve_schemas (schemas_to_retrieve defs) defs;
               mret (set_key "definitions" (Object defs') schema)
           | None => mret schema
           end;
  lift (compile_schema schema) ;;
  mret (mkDefinition schema).

(** ** Adding and updating *)

Definition add_schema (schema : NewSchema) (new_id : option Uuid) : Db Uuid :=
  let '(schema, definition) := new_schema_vertex schema in
  full_schema ← build_full_schema definition;
  new_id ← create_vertex_with_properties schema new_id;
  new_definition_vertex_id ← create_vertex_with_properties full_schema None;
  set_edge_properties
    (mkSchemaDefinitionEdge new_id new_definition_vertex_id (version_new 1 0 0)) ;;
  mret new_id.

Definition update_schema_name (id : Uuid) (new_name : string) : Db () :=
  ensure_schema_exists id ;;
  set_vertex_properties id [(Schema_NAME, VString new_name)].

Definition update_schema_topic (id : Uuid) (new_topic : string) : Db () :=
  ensure_schema_exists id ;;
  set_vertex_properties id [(Schema_TOPIC_NAME, VString new_topic)].

Definition update_schema_query_address (id : Uuid) (new_query_address : string) : Db () :=
  ensure_schema_exists id ;;
  set_vertex_properties id [(Schema_QUERY_ADDRESS, VString new_query_address)].

Definition update_schema_type (id : Uuid) (new_schema_type : SchemaType) : Db () :=
  ensure_schema_exists id ;;
  set_vertex_properties id
    [(Schema_SCHEMA_TYPE, VString (schema_type_to_string new_schema_type))].

Definition add_new_version_of_schema (id : Uuid) (schema : NewSchemaVersion) : Db () :=
  ensure_schema_exists id ;;
  versions ← get_schema_versions id;
  match max_by_key version_leb fst versions with
  | Some (max_version, _) =>
      if version_leb (nv_version schema) max_version
      then fail (NewVersionMustBeGreatest id max_version) else mret ()
  | None => mret ()
  end ;;
  full_schema ← build_full_schema (nv_definition schema);
  new_definition_vertex_id ← create_vertex_with_properties full_schema None;
  set_edge_properties (mkSchemaDefinitionEdge id new_definition_vertex_id (nv_version schema)).

Definition validate_view (view : string) : Db () :=
  lift (map_err InvalidView (jmespath_parse view)).

Definition add_view_to_schema (schema_id : Uuid) (view : View) (view_id : option Uuid) :
    Db Uuid :=
  ensure_schema_exists schema_id ;;
  validate_view (view_jmespath view) ;;
  view_id ← create_vertex_with_properties view view_id;
  set_edge_properties (mkSchemaViewEdge schema_id view_id) ;;
  mret view_id.

Definition update_view (id : Uuid) (view : ViewUpdate) : Db View :=
  old_view ← get_view id;
  match vu_jmespath view with Some jmespath => validate_view jmespath | None => mret () end ;;
  match vu_name view with
  | Some name => set_vertex_properties id [(View_NAME, VString name)]
  | None => mret ()
  end ;;
  match vu_jmespath view with
  | Some jmespath => set_vertex_properties id [(View_EXPRESSION, VString jmespath)]
  | None => mret ()
  end ;;
  mret old_view.

(** ** Listing *)

Definition schema_entry (props : VertexProperties) : result RegistryError (Uuid * Schema) :=
  ok_or (Malformed (MalformedSchema (v_id (vp_vertex props)))) (schema_from_properties props).
Definition definition_entry (props : VertexProperties) :
    result RegistryError (Uuid * Definition') :=
  ok_or (Malformed (MalformedDefinition (v_id (vp_vertex props))))
    (definition_from_properties props).
Definition view_entry (props : VertexProperties) : result RegistryError (Uuid * View) :=
  ok_or (Malformed (MalformedView (v_id (vp_vertex props)))) (view_from_properties props).
Definition schema_definition_entry (props : EdgeProperties) :
    result RegistryError SchemaDefinitionEdge :=
  ok_or (Malformed (MalformedSchemaVersion (outbound_id (ep_key props))))
    (schema_definition_from_properties props).
(** [SchemaViewEdge::from_properties] always answers [Some], so the [unwrap()] after
    it cannot fail *)
Definition schema_view_entry (props : EdgeProperties) : result RegistryError SchemaViewEdge :=
  Ok (mkSchemaViewEdge (outbound_id (ep_key props)) (inbound_id (ep_key props))).

Definition get_all_schemas : Db (gmap Uuid Schema) :=
  connect ;;
  all_schemas ← db_read (ds_get_all_vertex_properties
    (RangeVertexQuery u32_max (Some (vertex_db_type Schema))));
  l ← lift (try_map schema_entry all_schemas);
  mret (collect_map l).

Definition get_all_schema_names : Db (gmap Uuid string) :=
  connect ;;
  all_names ← db_read (ds_get_vertex_properties
    (RangeVertexQuery u32_max (Some (vertex_db_type Schema))) Schema_NAME);
  l ← lift (try_map (fun props =>
    match string_from_value (vprop_value props) with
    | Some name => Ok (vprop_id props, name)
    | None => Err (Malformed (MalformedSchema (vprop_id props)))
    end) all_names);
  mret (collect_map l).

Definition get_all_views_of_schema (schema_id : Uuid) : Db (gmap Uuid View) :=
  connect ;;
  ensure_schema_exists schema_id ;;
  all_views ← db_read (ds_get_all_vertex_properties
    (PipeVertexQuery
       (PipeEdgeQuery (SpecificVertexQuery [schema_id]) u32_max
          (Some (edge_db_type SchemaViewEdge))) u32_max));
  l ← lift (try_map view_entry all_views);
  mret (collect_map l).

(** ** Import and export *)

Definition import_all (imported : DbExport) : Db () :=
  names ← get_all_schema_names;
  if decide (names = ∅) then
    for_each (fun p : Uuid * Schema =>
      create_vertex_with_properties p.2 (Some p.1) ;; mret ()) (hash_iter (ex_schemas imported)) ;;
    for_each (fun p : Uuid * Definition' =>
      create_vertex_with_properties p.2 (Some p.1) ;; mret ())
      (hash_iter (ex_definitions imported)) ;;
    for_each (fun p : Uuid * View =>
      create_vertex_with_properties p.2 (Some p.1) ;; mret ()) (hash_iter (ex_views imported)) ;;
    for_each set_edge_properties (ex_schema_definitions imported) ;;
    for_each set_edge_properties (ex_schema_views imported)
  else mret ().

Definition export_all : Db DbExport :=
  connect ;;
  all_definitions ← db_read (ds_get_all_vertex_properties
    (RangeVertexQuery u32_max (Some (vertex_db_type Definition'))));
  all_schemas ← db_read (ds_get_all_vertex_properties
    (RangeVertexQuery u32_max (Some (vertex_db_type Schema))));
  all_views ← db_read (ds_get_all_vertex_properties
    (RangeVertexQuery u32_max (Some (vertex_db_type View))));
  all_schema_definitions ← db_read (ds_get_all_edge_properties
    (PipeEdgeQuery (RangeVertexQuery u32_max None) u32_max
       (Some (edge_db_type SchemaDefinitionEdge))));
  all_schema_views ← db_read (ds_get_all_edge_properties
    (PipeEdgeQuery (RangeVertexQuery u32_max None) u32_max
       (Some (edge_db_type SchemaViewEdge))));
  definitions ← lift (try_map definition_entry all_definitions);
  schemas ← lift (try_map schema_entry all_schemas);
  views ← lift (try_map view_entry all_views);
  schema_definitions ← lift (try_map schema_definition_entry all_schema_definitions);
  schema_views ← lift (try_map schema_view_entry all_schema_views);
  mret (mkDbExport _ (collect_map schemas) (collect_map definitions) (collect_map views)
          schema_definitions schema_views).
End schema_db.
