(* ===== verification/SchemaDbSpec.v ===== *)
(** What each method of [SchemaDb] does to the property graph, for any datastore
    that obeys its laws: weakest-precondition specifications of the readers and
    of the writers, the first in terms of graph lookups and the second as a
    transformation of the graph. *)
From stdpp Require Import prelude gmap strings list fin_maps.
From S2P Require Import Prelude Json Externals Indradb RegistryTypes SchemaDb.

(** ** Graph-level vocabulary *)

Definition sd_key (schema_id definition_id : Uuid) : EdgeKey :=
  mkEdgeKey schema_id SCHEMA_DEFINITION_EDGE_TYPE definition_id.
Definition sv_key (schema_id view_id : Uuid) : EdgeKey :=
  mkEdgeKey schema_id SCHEMA_VIEW_EDGE_TYPE view_id.

(** a vertex with its properties, and an edge with its properties *)
Definition g_new_vertex (i : Uuid) (t : VType) (ps : list (string * Value)) (g : Graph) : Graph :=
  mkGraph (<[i := mkVData t (collect_map ps)]> (g_vertices g)) (g_edges g).
Definition g_set_vprops (i : Uuid) (ps : list (string * Value)) (g : Graph) : Graph :=
  foldl (fun g p => g_set_vprop i p.1 p.2 g) g ps.
Definition g_link (k : EdgeKey) (ps : list (string * Value)) (g : Graph) : Graph :=
  foldl (fun g p => g_set_eprop k p.1 p.2 g)
    (match g_vertices g !! outbound_id k, g_vertices g !! inbound_id k with
     | Some _, Some _ => g_add_edge k g
     | _, _ => g
     end) ps.

(** every edge joins existing vertices, and no query is cut off *)
Definition closed (g : Graph) : Prop := forall k, is_Some (g_edges g !! k) ->
  is_Some (g_vertices g !! outbound_id k) /\ is_Some (g_vertices g !! inbound_id k).
Definition regular (g : Graph) : Prop := fits g /\ closed g.

Section vocabulary.
Context `{SemVer, UuidLib, JsonSchemaLib}.

(** [g_version g id i = Some v]: definition vertex [i] is version [v] of [id] *)
Definition g_version (g : Graph) (id i : Uuid) : option Version :=
  g_eprop g (sd_key id i) SchemaDefinition_VERSION ≫= version_from_value.

(** the greatest version of a schema that meets a requirement *)
Definition latest (g : Graph) (id : VersionedUuid) (v : Version) (i : Uuid) : Prop :=
  g_version g (vid_id id) i = Some v /\ req_matches (vid_version_req id) v = true /\
  forall w j, g_version g (vid_id id) j = Some w ->
    req_matches (vid_version_req id) w = true -> version_leb w v = true.

Definition latest_definition (g : Graph) (id : VersionedUuid) (def : Value) : Prop :=
  exists v i, latest g id v i /\ g_vprop g i Definition_VALUE = Some def.

(** a member of ["definitions"] that is the id of a schema stands for the
    latest definition of that schema *)
Definition resolved_member (g : Graph) (x y : Value) : Prop :=
  match as_str x ≫= fun s => result_ok (uuid_parse_str s) with
  | Some id => latest_definition g (versioned_any id) y
  | None => y = x
  end.

Definition resolved (g : Graph) (schema full : Value) : Prop :=
  match get_key "definitions" schema ≫= as_object with
  | Some defs => exists defs', full = set_key "definitions" (Object defs') schema /\
      forall k, option_Forall2 (resolved_member g) (defs !! k) (defs' !! k)
  | None => full = schema
  end /\ compile_schema full = Ok ().
End vocabulary.

(** ** Specifications of the methods *)

Section specs.
Context {D : Type} `{DatastoreLaws D, SemVerLaws, UuidLib, JsonSchemaLib, JmespathLib}.
Implicit Types (d : D) (id i : Uuid).

Lemma wp_connect d (Q : () -> D -> Prop) (R : RegistryError -> D -> Prop) :
  Q () d -> (forall e, R (ConnectionError e) d) -> wp connect d Q R.
Proof.
  intros HQ HR. unfold connect. apply wp_reads; intros a; destruct (ds_transaction d) as [[]|];
    simpl; intros [= <-]; auto.
Qed.

Lemma wp_db_read {A} (f : D -> result string A) d (Q : A -> D -> Prop)
    (R : RegistryError -> D -> Prop) :
  (forall a, f d = Ok a -> Q a d) -> (forall e, R (DbError e) d) -> wp (db_read f) d Q R.
Proof.
  intros HQ HR. unfold db_read. apply wp_reads; intros a; destruct (f d); simpl; intros [= <-]; auto.
Qed.

Lemma wp_db_op {A} (m : M D string A) d (Q : A -> D -> Prop) (R : RegistryError -> D -> Prop) :
  wp m d Q (fun e d' => R (DbError e) d') -> wp (db_op m) d Q R.
Proof. apply wp_with_err. Qed.

Lemma wp_ok_or {A} (e : RegistryError) (o : option A) d (Q : A -> D -> Prop) R :
  (forall a, o = Some a -> Q a d) -> (o = None -> R e d) -> wp (lift (ok_or e o)) d Q R.
Proof. intros HQ HR. apply wp_lift; destruct o; simpl; intros ? [= <-]; auto. Qed.

(** A reader keeps the state; it fails for the storage or for the reason [P]. *)
Definition read_err d (P : RegistryError -> Prop) : RegistryError -> D -> Prop :=
  fun e d' => d' = d /\ (storage_failure e \/ P e).

Lemma read_err_storage d P e : storage_failure e -> read_err d P e d.
Proof. unfold read_err. auto. Qed.

(** *** Readers *)

Lemma ensure_schema_exists_spec d id :
  wp (ensure_schema_exists id) d
    (fun _ d' => d' = d /\ is_Some (g_vertices (graph d) !! id))
    (read_err d (fun e => e = NoSchemaWithId id /\ g_vertices (graph d) !! id = None)).
Proof.
  unfold ensure_schema_exists. apply wp_bind, wp_connect; [|by intros; apply read_err_storage].
  apply wp_bind, wp_db_read; [|by intros; apply read_err_storage].
  intros l Hl. apply get_vertices_law in Hl as (ids & Hids & Hl).
  apply vq_single in Hids as ->. destruct (g_vertices (graph d) !! id) as [vd|] eqn:Hid.
  - inversion Hl; subst. apply wp_ret. split; [done|]. by eexists.
  - inversion Hl; subst. apply wp_fail. split; auto.
Qed.

(** the head of the property lists handed out for a single vertex *)
Lemma single_vertex_properties d id l :
  ds_get_all_vertex_properties (SpecificVertexQuery [id]) d = Ok l ->
  match g_vertices (graph d) !! id with
  | Some vd => exists ps, l = [mkVertexProperties (mkIVertex id (vd_t vd)) ps] /\
                          props_of (vd_props vd) ps
  | None => l = []
  end.
Proof.
  intros Hl. apply get_all_vertex_properties_law in Hl as (ids & Hids & Hl).
  apply vq_single in Hids as ->. destruct (g_vertices (graph d) !! id) as [vd|] eqn:Hid.
  - inversion Hl as [|? [v ps] ? ? (vd' & Hvd' & Hv & Hps) Hnil]; subst.
    inversion Hnil; subst. simpl in *. simplify_eq. eauto.
  - by inversion Hl.
Qed.

Lemma single_vertex_property d id name l :
  ds_get_vertex_properties (SpecificVertexQuery [id]) name d = Ok l ->
  head l = mkVertexProperty id <$> g_vprop (graph d) id name.
Proof.
  intros Hl. apply get_vertex_properties_law in Hl as (ids & Hids & ->).
  apply vq_single in Hids as ->. unfold g_vprop.
  destruct (g_vertices (graph d) !! id) as [vd|] eqn:Hid; simpl; [|done].
  unfold g_vprop. rewrite Hid. simpl. by destruct (vd_props vd !! name).
Qed.

Lemma get_schema_spec d id :
  wp (get_schema id) d
    (fun s d' => d' = d /\ exists vd, g_vertices (graph d) !! id = Some vd /\
                 schema_of_map (vd_props vd) = Some s)
    (read_err d (fun e =>
       (e = NoSchemaWithId id /\ g_vertices (graph d) !! id = None) \/
       (e = Malformed (MalformedSchema id) /\ exists vd,
          g_vertices (graph d) !! id = Some vd /\ schema_of_map (vd_props vd) = None))).
Proof.
  unfold get_schema. apply wp_bind, wp_connect; [|by intros; apply read_err_storage].
  apply wp_bind, wp_db_read; [|by intros; apply read_err_storage].
  intros l Hl%single_vertex_properties.
  destruct (g_vertices (graph d) !! id) as [vd|] eqn:Hid.
  - destruct Hl as (ps & -> & Hps). simpl. apply wp_bind, wp_lift; [|done].
    intros ? [= <-]. rewrite (schema_from_properties_spec _ _ _ Hps). simpl.
    apply wp_ok_or; destruct (schema_of_map (vd_props vd)) as [s|] eqn:Hs; simpl.
    + intros ? [= <-]. eauto.
    + done.
    + done.
    + intros _. split; [done|]. right. right. eauto.
  - subst l. simpl. apply wp_bind, wp_lift; [done|]. intros ? [= <-]. split; auto.
Qed.

Lemma get_view_spec d id :
  wp (get_view id) d
    (fun v d' => d' = d /\ exists vd, g_vertices (graph d) !! id = Some vd /\
                 vd_t vd = VIEW_VERTEX_TYPE /\ view_of_map (vd_props vd) = Some v)
    (read_err d (fun e =>
       (e = NoViewWithId id /\ g_type (graph d) id <> Some VIEW_VERTEX_TYPE) \/
       (e = Malformed (MalformedView id) /\ exists vd,
          g_vertices (graph d) !! id = Some vd /\ vd_t vd = VIEW_VERTEX_TYPE /\
          view_of_map (vd_props vd) = None))).
Proof.
  unfold get_view. apply wp_bind, wp_connect; [|by intros; apply read_err_storage].
  apply wp_bind, wp_db_read; [|by intros; apply read_err_storage].
  intros l Hl%single_vertex_properties. unfold g_type.
  destruct (g_vertices (graph d) !! id) as [vd|] eqn:Hid.
  - destruct Hl as (ps & -> & Hps). simpl. apply wp_bind, wp_ok_or.
    + case_decide as Ht; [|done]. intros ? [= <-].
      rewrite (view_from_properties_spec _ _ _ Hps). simpl.
      apply wp_ok_or; destruct (view_of_map (vd_props vd)) as [s|] eqn:Hs; simpl.
      * intros ? [= <-]. eauto 6.
      * done.
      * done.
      * intros _. split; [done|]. right. right. eauto.
    + case_decide as Ht; [done|]. intros _. split; [done|]. right. left.
      split; [done|]. simpl. congruence.
  - subst l. simpl. apply wp_bind, wp_lift; [done|]. intros ? [= <-].
    split; [done|]. right. by left.
Qed.

Lemma get_metadata_spec {T} d id name (from_value : Value -> option T) :
  wp (get_metadata id name from_value) d
    (fun x d' => d' = d /\ g_vprop (graph d) id name ≫= from_value = Some x)
    (read_err d (fun e =>
       (e = NoSchemaWithId id /\ g_vprop (graph d) id name = None) \/
       (e = Malformed (MalformedSchema id) /\ exists x,
          g_vprop (graph d) id name = Some x /\ from_value x = None))).
Proof.
  unfold get_metadata. apply wp_bind, wp_connect; [|by intros; apply read_err_storage].
  apply wp_bind, wp_db_read; [|by intros; apply read_err_storage].
  intros l Hl%single_vertex_property. rewrite Hl.
  destruct (g_vprop (graph d) id name) as [x|] eqn:Hx; simpl.
  - apply wp_bind, wp_lift; [|done]. intros ? [= <-]. simpl.
    apply wp_ok_or; [done|]. intros Hn. split; [done|]. right. right. eauto.
  - apply wp_bind, wp_lift; [done|]. intros ? [= <-]. split; auto.
Qed.

(** *** Versions *)

Lemma single_outbound_edges d id t keys :
  eq_result (graph d) (PipeEdgeQuery (SpecificVertexQuery [id]) u32_max (Some t)) keys ->
  NoDup keys /\ 
  (forall k, k ∈ keys -> is_Some (g_edges (graph d) !! k) /\ outbound_id k = id /\ ek_t k = t) /\ 
  (regular (graph d) ->
   forall k, is_Some (g_edges (graph d) !! k) -> outbound_id k = id -> ek_t k = t -> k ∈ keys).
Proof.
  intros (ids & Hids & Hnd & Hsound & Hcomplete). apply vq_single in Hids as ->.
  split_and!; [done| |].
  - intros k Hk. apply Hsound in Hk as (? & Hid & Ht). simpl in Ht.
    destruct (g_vertices (graph d) !! id); set_solver.
  - intros [[_ Hfits] Hclosed] k Hk Ho Ht. apply Hcomplete; [done..| |done].
    destruct (Hclosed k Hk) as [[vd Hvd] _]. subst id. rewrite Hvd. set_solver.
Qed.

(** what [get_schema_versions] may return *)
Definition versions_of (g : Graph) id (l : list (Version * Uuid)) : Prop :=
  NoDup l.*2 /\
  (forall v i, (v, i) ∈ l -> g_version g id i = Some v) /\
  (regular g -> forall v i, g_version g id i = Some v -> (v, i) ∈ l).

Lemma decoded_versions_NoDup id (keys : list EdgeKey) (f : EdgeKey -> option Value) l :
  NoDup keys -> (forall k, k ∈ keys -> k = sd_key id (inbound_id k)) ->
  Forall2 (fun prop y => match version_from_value (eprop_value prop) with
    | Some version => Ok (version, inbound_id (eprop_key prop))
    | None => Err (Malformed (MalformedSchemaVersion id))
    end = Ok y) (omap (fun k => mkEdgeProperty k <$> f k) keys) l -> NoDup l.*2.
Proof.
  intros Hnd Hkey Hl.
  assert (l.*2 = inbound_id ∘ eprop_key <$> omap (fun k => mkEdgeProperty k <$> f k) keys) as ->.
  { clear Hnd Hkey. revert Hl. generalize (omap (fun k => mkEdgeProperty k <$> f k) keys).
    intros ps Hl. induction Hl as [|p y ps l Hy _ IH]; csimpl; [done|].
    destruct (version_from_value (eprop_value p)); [|done]. simplify_eq. by rewrite IH. }
  clear Hl. induction keys as [|k keys IH]; csimpl; [apply NoDup_nil_2|].
  apply NoDup_cons in Hnd as [Hk Hnd].
  assert (NoDup (inbound_id ∘ eprop_key <$> omap (fun k => mkEdgeProperty k <$> f k) keys)) as IH'.
  { apply IH; [done|]. intros k' Hk'. apply Hkey. by right. }
  destruct (f k) as [x|]; csimpl; [|done]. apply NoDup_cons. split; [|done].
  intros (p & Hp & Hin)%list_elem_of_fmap. apply list_elem_of_omap in Hin as (k' & Hk' & Hfk).
  destruct (f k') as [x'|]; [|done]. injection Hfk as <-. simpl in Hp. apply Hk.
  rewrite (Hkey k) by left. rewrite Hp. rewrite <- (Hkey k') by (by right). done.
Qed.

Lemma get_schema_versions_spec d id :
  wp (get_schema_versions id) d
    (fun l d' => d' = d /\ versions_of (graph d) id l)
    (read_err d (fun e => e = Malformed (MalformedSchemaVersion id) /\ exists i x,
       g_eprop (graph d) (sd_key id i) SchemaDefinition_VERSION = Some x /\
       version_from_value x = None)).
Proof.
  unfold get_schema_versions. apply wp_bind, wp_connect; [|by intros; apply read_err_storage].
  apply wp_bind, wp_db_read; [|by intros; apply read_err_storage].
  intros l Hl. apply get_edge_properties_law in Hl as (keys & Hkeys & ->).
  apply single_outbound_edges in Hkeys as (Hnd & Hsound & Hcomplete).
  assert (forall k, k ∈ keys -> k = sd_key id (inbound_id k)) as Hkey.
  { intros [o t i] Hk. destruct (Hsound _ Hk) as (_ & Ho & Ht). simpl in *. by subst. }
  apply wp_lift.
  - intros l Hl. apply try_map_Ok in Hl. split; [done|]. split_and!.
    + by apply (decoded_versions_NoDup id keys
        (fun k => g_eprop (graph d) k SchemaDefinition_VERSION)).
    + intros v i Hin. eapply Forall2_flip, Forall2_forall_elem in Hl as (p & Hp & Hv); [|done].
      apply list_elem_of_omap in Hp as (k & Hk & Hp). rewrite (Hkey k Hk) in Hp.
      destruct (g_eprop (graph d) (sd_key id (inbound_id k)) SchemaDefinition_VERSION)
        as [x|] eqn:Hx; simpl in Hp; [|done]. simplify_eq. simpl in Hv.
      destruct (version_from_value x) as [w|] eqn:Hw; [|done]. simplify_eq.
      unfold g_version. by rewrite Hx.
    + intros Hreg v i Hv. unfold g_version in Hv.
      destruct (g_eprop (graph d) (sd_key id i) SchemaDefinition_VERSION) as [x|] eqn:Hx; [|done].
      simpl in Hv. assert (sd_key id i ∈ keys) as Hk.
      { apply Hcomplete; [done| |done|done]. unfold g_eprop in Hx.
        destruct (g_edges (graph d) !! sd_key id i); [by eexists|done]. }
      eapply Forall2_forall_elem in Hl as (y & Hy & Hf).
      2: { apply list_elem_of_omap. exists (sd_key id i). split; [done|]. by rewrite Hx. }
      simpl in Hf. rewrite Hv in Hf. by simplify_eq.
  - intros e He. apply try_map_Err in He as (p & Hp & He).
    apply list_elem_of_omap in Hp as (k & Hk & Hp). rewrite (Hkey k Hk) in Hp.
    destruct (g_eprop (graph d) (sd_key id (inbound_id k)) SchemaDefinition_VERSION)
      as [x|] eqn:Hx; simpl in Hp; [|done]. simplify_eq. simpl in He.
    destruct (version_from_value x) eqn:Hw; [done|]. simplify_eq. split; eauto 6.
Qed.

Lemma filter_matches (id : VersionedUuid) (l : list (Version * Uuid)) v i :
  (v, i) ∈ filter (fun p => Is_true (req_matches (vid_version_req id) p.1)) l <->
  req_matches (vid_version_req id) v = true /\ (v, i) ∈ l.
Proof. rewrite list_elem_of_filter. simpl. by rewrite Is_true_true. Qed.

Lemma get_latest_valid_schema_version_spec d (id : VersionedUuid) :
  regular (graph d) ->
  wp (get_latest_valid_schema_version id) d
    (fun p d' => d' = d /\ latest (graph d) id p.1 p.2)
    (read_err d (fun e =>
       (e = NoVersionMatchesRequirement id /\
        forall v i, g_version (graph d) (vid_id id) i = Some v ->
          req_matches (vid_version_req id) v = false) \/
       (e = Malformed (MalformedSchemaVersion (vid_id id)) /\ exists i x,
          g_eprop (graph d) (sd_key (vid_id id) i) SchemaDefinition_VERSION = Some x /\
          version_from_value x = None))).
Proof.
  intros Hreg. unfold get_latest_valid_schema_version.
  apply wp_bind. eapply wp_mono; [apply get_schema_versions_spec| |].
  - intros l d' [-> (_ & Hsound & Hcomplete)]. specialize (Hcomplete Hreg).
    apply wp_ok_or.
    + intros [v i] Hmax. split; [done|].
      apply max_by_key_Some in Hmax as [Hin Hmax];
        [|apply version_leb_total|apply version_leb_trans].
      apply filter_matches in Hin as [Hm Hin]. simpl in Hmax.
      split_and!; [by apply Hsound|done|]. intros w j Hw Hmw.
      apply (Hmax (w, j)). apply filter_matches. auto.
    + intros Hnone%max_by_key_None. split; [done|]. right. left. split; [done|].
      intros v i Hv. apply not_true_is_false. intros Hm.
      assert ((v, i) ∈ filter (fun p => Is_true (req_matches (vid_version_req id) p.1)) l) as Hin
        by (apply filter_matches; auto).
      rewrite Hnone in Hin. by apply not_elem_of_nil in Hin.
  - intros e d' [-> He]. split; [done|]. destruct He as [|(-> & ?)]; auto.
Qed.

(** why no definition can be returned *)
Definition version_err (g : Graph) (id : VersionedUuid) (e : RegistryError) : Prop :=
  (e = NoVersionMatchesRequirement id /\
   ((forall v i, g_version g (vid_id id) i = Some v ->
       req_matches (vid_version_req id) v = false) \/
    exists v i, latest g id v i /\ g_vprop g i Definition_VALUE = None)) \/
  (e = Malformed (MalformedSchemaVersion (vid_id id)) /\ exists i x,
     g_eprop g (sd_key (vid_id id) i) SchemaDefinition_VERSION = Some x /\
     version_from_value x = None).

Lemma get_schema_definition_spec d (id : VersionedUuid) :
  regular (graph d) ->
  wp (get_schema_definition id) d
    (fun sd d' => d' = d /\ exists i, latest (graph d) id (sd_version sd) i /\
                  g_vprop (graph d) i Definition_VALUE = Some (sd_definition sd))
    (read_err d (version_err (graph d) id)).
Proof.
  intros Hreg. unfold get_schema_definition.
  apply wp_bind, wp_connect; [|by intros; apply read_err_storage].
  apply wp_bind. eapply wp_mono; [by apply get_latest_valid_schema_version_spec| |].
  - intros [v i] d' [-> Hlatest]. simpl in Hlatest.
    apply wp_bind, wp_db_read; [|by intros; apply read_err_storage].
    intros l Hl%single_vertex_property. rewrite Hl.
    destruct (g_vprop (graph d) i Definition_VALUE) as [x|] eqn:Hx; simpl.
    + apply wp_bind, wp_lift; [|done]. intros ? [= <-]. apply wp_ret. simpl. eauto.
    + apply wp_bind, wp_lift; [done|]. intros ? [= <-]. split; [done|]. right. left. eauto 6.
  - intros e d' [-> He]. split; [done|]. unfold version_err.
    destruct He as [|[(-> & ?)|(-> & ?)]]; auto 6.
Qed.

(** *** Inlining *)

(** the members [build_full_schema] replaces *)
Lemma elem_of_schemas_to_retrieve (defs : gmap string Value) key id :
  (key, id) ∈ schemas_to_retrieve defs <->
  exists x, defs !! key = Some x /\ as_str x ≫= (fun s => result_ok (uuid_parse_str s)) = Some id.
Proof.
  unfold schemas_to_retrieve. rewrite list_elem_of_omap. split.
  - intros ([k x] & Hkx%elem_of_object_iter & Heq). exists x.
    destruct (as_str x) as [s|]; simpl in *; [|done].
    destruct (result_ok (uuid_parse_str s)); simpl in *; [|done]. by simplify_eq.
  - intros (x & Hx & Heq). exists (key, x). split; [by apply elem_of_object_iter|].
    destruct (as_str x) as [s|]; simpl in *; [|done]. by rewrite Heq.
Qed.

Lemma NoDup_schemas_to_retrieve (defs : gmap string Value) :
  NoDup (schemas_to_retrieve defs).*1.
Proof.
  unfold schemas_to_retrieve. pose proof (NoDup_object_iter defs) as Hnd.
  induction (object_iter defs) as [|[k x] l IH]; simpl in *; [constructor|].
  apply NoDup_cons in Hnd as [Hk Hnd]. specialize (IH Hnd).
  destruct (as_str x ≫= _) as [[k' id]|] eqn:Heq; simpl; [|done].
  assert (k' = k) as ->.
  { destruct (as_str x) as [s|]; simpl in Heq; [|done].
    destruct (result_ok (uuid_parse_str s)); simpl in Heq; [|done]. by simplify_eq. }
  constructor; [|done]. intros Hin. apply Hk.
  apply list_elem_of_fmap in Hin as ([k' id'] & -> & Hin). simpl.
  apply list_elem_of_omap in Hin as ([k x'] & Hin & Heq').
  apply list_elem_of_fmap. exists (k, x'). split; [|done]. simpl.
  destruct (as_str x') as [s|]; simpl in Heq'; [|done].
  destruct (result_ok (uuid_parse_str s)); simpl in Heq'; [|done]. by simplify_eq.
Qed.

(** the error of the first definition that cannot be retrieved *)
Definition retrieve_err (g : Graph) (e : RegistryError) : Prop :=
  exists id, version_err g (versioned_any id) e.

Lemma retrieve_schemas_spec d l (defs : gmap string Value) :
  regular (graph d) -> NoDup l.*1 ->
  wp (retrieve_schemas l defs) d
    (fun defs' d' => d' = d /\
       (forall k, k ∉ l.*1 -> defs' !! k = defs !! k) /\
       (forall k id, (k, id) ∈ l -> exists y, defs' !! k = Some y /\
          latest_definition (graph d) (versioned_any id) y))
    (read_err d (retrieve_err (graph d))).
Proof.
  intros Hreg. revert defs. induction l as [|[key id] l IH]; intros defs Hnd; simpl.
  - apply wp_ret. split_and!; [done|done|]. intros ? ? ?%not_elem_of_nil. done.
  - apply NoDup_cons in Hnd as [Hkey Hnd].
    apply wp_bind. eapply wp_mono; [by apply get_schema_definition_spec| |].
    + intros sd d' [-> (i & Hlatest & Hval)].
      eapply wp_mono; [by apply IH| |done].
      intros defs' d' (-> & Hout & Hin). split_and!; [done| |].
      * intros k [? ?]%not_elem_of_cons. rewrite Hout by done. by rewrite lookup_insert_ne.
      * intros k id' [[= -> ->]|Hk]%elem_of_cons; [|by apply Hin].
        exists (sd_definition sd). rewrite Hout by done. rewrite lookup_insert_eq.
        split; [done|]. unfold latest_definition. eauto.
    + intros e d' [-> He]. split; [done|].
      destruct He as [|He]; [by left|]. right. by exists id.
Qed.

Definition build_err (g : Graph) (e : RegistryError) : Prop :=
  e = InvalidSchema \/ retrieve_err g e.

Lemma compile_step d (schema : Value) (f : () -> M D RegistryError Definition') Q R :
  (compile_schema schema = Ok () -> wp (f ()) d Q R) ->
  (compile_schema schema = Err InvalidSchema -> R InvalidSchema d) ->
  wp (lift (compile_schema schema) ≫= f) d Q R.
Proof.
  intros HQ HR. apply wp_bind. unfold compile_schema in *.
  destruct (jsonschema_compile schema); apply wp_lift; intros ? [= <-]; auto.
Qed.

Lemma build_full_schema_spec d (schema : Value) :
  regular (graph d) ->
  wp (build_full_schema schema) d
    (fun full d' => d' = d /\ resolved (graph d) schema (definition full))
    (read_err d (build_err (graph d))).
Proof.
  intros Hreg. unfold build_full_schema, resolved. apply wp_bind.
  destruct (get_key "definitions" schema ≫= as_object) as [defs|] eqn:Hdefs.
  - apply wp_bind. eapply wp_mono;
      [apply retrieve_schemas_spec; [done|apply NoDup_schemas_to_retrieve]| |].
    + intros defs' d' (-> & Hout & Hin). apply wp_ret.
      apply compile_step; [|intros _; split; [done|right; by left]].
      intros Hcompile. apply wp_ret. split; [done|]. simpl. split; [|done].
      exists defs'. split; [done|]. intros k. destruct (defs !! k) as [x|] eqn:Hk.
      * destruct (as_str x ≫= fun s => result_ok (uuid_parse_str s)) as [id|] eqn:Hid.
        -- assert ((k, id) ∈ schemas_to_retrieve defs) as Hkid
             by (apply elem_of_schemas_to_retrieve; eauto).
           apply Hin in Hkid as (y & -> & Hy). constructor. unfold resolved_member. by rewrite Hid.
        -- rewrite Hout, Hk.
           ++ constructor. unfold resolved_member. by rewrite Hid.
           ++ intros ([k' id'] & -> & Hkid)%list_elem_of_fmap. simpl in *.
              apply elem_of_schemas_to_retrieve in Hkid as (x' & Hx' & ?). congruence.
      * rewrite Hout, Hk; [constructor|].
        intros ([k' id'] & -> & Hkid)%list_elem_of_fmap. simpl in *.
        apply elem_of_schemas_to_retrieve in Hkid as (x' & Hx' & ?). congruence.
    + intros e d' [-> He]. split; [done|]. unfold build_err. tauto.
  - apply wp_ret. apply compile_step; [|intros _; split; [done|right; by left]].
    intros Hcompile. apply wp_ret. done.
Qed.

(** *** Writers

    On success the graph is the stated function of the old one; the only other
    outcomes are the stated rejection, which changes nothing, and a storage
    failure, after which the graph may hold part of the work. *)
Definition write_err d (P : RegistryError -> Prop) : RegistryError -> D -> Prop :=
  fun e d' => storage_failure e \/ (P e /\ graph d' = graph d).

Lemma set_properties_loop d i (ps : list (string * Value)) P :
  wp (for_each (fun p : string * Value =>
        db_op (ds_set_vertex_properties (SpecificVertexQuery [i]) p.1 p.2)) ps) d
    (fun _ d' => graph d' = g_set_vprops i ps (graph d)) (write_err d P).
Proof.
  eapply wp_mono.
  - apply (wp_for_each _ _ (fun l s => g_set_vprops i l (graph s) = g_set_vprops i ps (graph d))
             d (fun e _ => storage_failure e)); [done|].
    intros [n x] l s HI. apply wp_db_op. eapply wp_mono; [apply set_vertex_properties_law| |].
    + intros [] s' Hs'. rewrite Hs'. exact HI.
    + done.
  - intros [] s'. done.
  - intros e s' He. by left.
Qed.

Lemma set_vertex_properties_spec d i ps P :
  wp (set_vertex_properties i ps) d
    (fun _ d' => graph d' = g_set_vprops i ps (graph d)) (write_err d P).
Proof.
  unfold set_vertex_properties. apply wp_bind, wp_connect; [|by intros; left].
  apply set_properties_loop.
Qed.

(** setting properties on a fresh vertex builds it in one go *)
Lemma g_set_vprops_fresh i t ps (g : Graph) :
  g_set_vprops i ps (g_add_vertex (mkIVertex i t) g) = g_new_vertex i t ps g.
Proof.
  unfold g_new_vertex, collect_map, g_add_vertex. simpl. generalize (∅ : gmap string Value).
  induction ps as [|[n x] ps IH]; intros m; [done|]. unfold g_set_vprops in *. cbn [foldl].
  rewrite <- IH. f_equal. unfold g_set_vprop. simpl. by rewrite alter_insert_eq.
Qed.

Lemma create_vertex_spec {V} `{VertexTrait V} d (v : V) (uuid : option Uuid) :
  wp (create_vertex_with_properties v uuid) d
    (fun i d' => g_vertices (graph d) !! i = None /\ (forall u, uuid = Some u -> i = u) /\
       graph d' = g_new_vertex i (vertex_db_type V) (into_properties v) (graph d))
    (write_err d (fun e => exists u, uuid = Some u /\ e = DuplicatedUuid u /\
       is_Some (g_vertices (graph d) !! u))).
Proof.
  unfold create_vertex_with_properties. apply wp_bind, wp_connect; [|by intros; left].
  assert (forall i d1, g_vertices (graph d) !! i = None -> (forall u, uuid = Some u -> i = u) ->
    graph d1 = g_add_vertex (mkIVertex i (vertex_db_type V)) (graph d) ->
    wp (for_each (fun p : string * Value =>
          db_op (ds_set_vertex_properties (SpecificVertexQuery [i]) p.1 p.2))
          (into_properties v) ≫= fun _ => mret i) d1
      (fun i d' => g_vertices (graph d) !! i = None /\ (forall u, uuid = Some u -> i = u) /\
       graph d' = g_new_vertex i (vertex_db_type V) (into_properties v) (graph d))
      (write_err d (fun e => exists u, uuid = Some u /\ e = DuplicatedUuid u /\
       is_Some (g_vertices (graph d) !! u)))) as Hprops.
  { intros i d1 Hi Hu Hd1. apply wp_bind.
    eapply wp_mono; [apply (set_properties_loop _ _ _ (fun _ => False))| |].
    - intros [] d2 Hd2. apply wp_ret. split_and!; [done|done|].
      by rewrite Hd2, Hd1, g_set_vprops_fresh.
    - intros e d2 [He|[[] _]]. by left. }
  apply wp_bind. destruct uuid as [u|].
  - apply wp_bind, wp_db_op. eapply wp_mono; [apply create_vertex_law| |by intros; left].
    intros b d1. simpl. destruct (g_vertices (graph d) !! u) as [vd|] eqn:Hu.
    + intros [-> Hd1]. apply wp_fail. right. split; [|done]. exists u. eauto.
    + intros [-> Hd1]. apply wp_ret. apply Hprops; [done| |done]. by intros ? [= <-].
  - apply wp_db_op. eapply wp_mono; [apply create_vertex_from_type_law| |by intros; left].
    intros i d1 [Hi Hd1]. by apply Hprops.
Qed.

Lemma set_edge_spec {E} `{EdgeTrait E} d (edge : E) P :
  wp (set_edge_properties edge) d
    (fun _ d' => graph d' = g_link (edge_info edge).1 (edge_info edge).2 (graph d))
    (write_err d P).
Proof.
  unfold set_edge_properties. apply wp_bind, wp_connect; [|by intros; left].
  destruct (edge_info edge) as [k ps]. simpl. apply wp_bind, wp_db_op.
  eapply wp_mono; [apply create_edge_law| |by intros; left].
  intros b d1 Hd1. unfold g_link.
  assert (graph d1 = match g_vertices (graph d) !! outbound_id k,
                           g_vertices (graph d) !! inbound_id k with
                     | Some _, Some _ => g_add_edge k (graph d) | _, _ => graph d end) as <-.
  { destruct (g_vertices (graph d) !! outbound_id k); [|by destruct Hd1].
    destruct (g_vertices (graph d) !! inbound_id k); by destruct Hd1. }
  eapply wp_mono.
  - apply (wp_for_each _ _ (fun l s =>
      foldl (fun g p => g_set_eprop k p.1 p.2 g) (graph s) l =
      foldl (fun g p => g_set_eprop k p.1 p.2 g) (graph d1) ps) d1
      (fun e _ => storage_failure e)); [done|].
    intros [n x] l s HI. apply wp_db_op. eapply wp_mono; [apply set_edge_properties_law| |].
    + intros [] s' Hs'. rewrite Hs'. exact HI.
    + done.
  - intros [] s'. done.
  - intros e s' He. by left.
Qed.
End specs.
