(* ===== verification/Registry.v ===== *)
(** The schema registry as a transition system over property graphs, the
    well-formedness invariant of the stored data, and the refinement that ties
    both to the methods of [SchemaDb]. *)
From stdpp Require Import prelude gmap strings list fin_maps.
From S2P Require Import Prelude Json Externals Indradb RegistryTypes SchemaDb SchemaDbSpec.

(** ** Operations *)

Inductive RegOp `{SemVer} : Type :=
| OpAddSchema (schema : NewSchema) (new_id : option Uuid)
| OpUpdateSchemaName (id : Uuid) (name : string)
| OpUpdateSchemaTopic (id : Uuid) (topic : string)
| OpUpdateSchemaQueryAddress (id : Uuid) (address : string)
| OpUpdateSchemaType (id : Uuid) (schema_type : SchemaType)
| OpAddSchemaVersion (id : Uuid) (schema : NewSchemaVersion)
| OpAddViewToSchema (schema_id : Uuid) (view : View) (view_id : option Uuid)
| OpUpdateView (id : Uuid) (view : ViewUpdate).

Definition run_op {D} `{Datastore D, SemVer, UuidLib, JsonSchemaLib, JmespathLib}
    (op : RegOp) : M D RegistryError () :=
  match op with
  | OpAddSchema schema new_id => add_schema schema new_id ;; mret ()
  | OpUpdateSchemaName id name => update_schema_name id name
  | OpUpdateSchemaTopic id topic => update_schema_topic id topic
  | OpUpdateSchemaQueryAddress id address => update_schema_query_address id address
  | OpUpdateSchemaType id t => update_schema_type id t
  | OpAddSchemaVersion id schema => add_new_version_of_schema id schema
  | OpAddViewToSchema schema_id view view_id => add_view_to_schema schema_id view view_id ;; mret ()
  | OpUpdateView id view => update_view id view ;; mret ()
  end.

(** ** The abstract transitions *)

Definition g_new_edge (k : EdgeKey) (ps : list (string * Value)) (g : Graph) : Graph :=
  mkGraph (g_vertices g) (<[k := collect_map ps]> (g_edges g)).

(** a new definition vertex [i] holding [full], attached to [id] as version [v] *)
Definition g_add_definition `{SemVer} (id i : Uuid) (v : Version) (full : Value) (g : Graph) : Graph :=
  g_new_edge (sd_key id i) [(SchemaDefinition_VERSION, version_to_value v)]
    (g_new_vertex i SCHEMA_DEFINITION_VERTEX_TYPE [(Definition_VALUE, full)] g).

Definition schema_update_properties (op : option string * option string) (name expr : string) :
    list (string * Value) :=
  match op.1 with Some n => [(name, VString n)] | None => [] end ++
  match op.2 with Some n => [(expr, VString n)] | None => [] end.

Section step.
Context `{SemVer, UuidLib, JsonSchemaLib, JmespathLib}.

Inductive reg_step (g : Graph) : RegOp -> Graph -> Prop :=
| step_add_schema s uuid id i full :
    resolved g (ns_definition s) full ->
    g_vertices g !! id = None -> (forall u, uuid = Some u -> id = u) ->
    g_vertices g !! i = None -> i <> id ->
    reg_step g (OpAddSchema s uuid)
      (g_add_definition id i (version_new 1 0 0) full
        (g_new_vertex id SCHEMA_VERTEX_TYPE
          (schema_into_properties (new_schema_vertex s).1) g))
| step_update_name id name :
    is_Some (g_vertices g !! id) ->
    reg_step g (OpUpdateSchemaName id name) (g_set_vprop id Schema_NAME (VString name) g)
| step_update_topic id topic :
    is_Some (g_vertices g !! id) ->
    reg_step g (OpUpdateSchemaTopic id topic)
      (g_set_vprop id Schema_TOPIC_NAME (VString topic) g)
| step_update_address id address :
    is_Some (g_vertices g !! id) ->
    reg_step g (OpUpdateSchemaQueryAddress id address)
      (g_set_vprop id Schema_QUERY_ADDRESS (VString address) g)
| step_update_type id t :
    is_Some (g_vertices g !! id) ->
    reg_step g (OpUpdateSchemaType id t)
      (g_set_vprop id Schema_SCHEMA_TYPE (VString (schema_type_to_string t)) g)
| step_add_version id s i full :
    is_Some (g_vertices g !! id) ->
    (forall j v, g_version g id j = Some v -> version_ltb v (nv_version s) = true) ->
    resolved g (nv_definition s) full ->
    g_vertices g !! i = None ->
    reg_step g (OpAddSchemaVersion id s) (g_add_definition id i (nv_version s) full g)
| step_add_view schema_id view uuid i :
    is_Some (g_vertices g !! schema_id) -> jmespath_parse (view_jmespath view) = Ok () ->
    g_vertices g !! i = None -> (forall u, uuid = Some u -> i = u) ->
    reg_step g (OpAddViewToSchema schema_id view uuid)
      (g_new_edge (sv_key schema_id i) []
        (g_new_vertex i VIEW_VERTEX_TYPE (view_into_properties view) g))
| step_update_view id u :
    g_type g id = Some VIEW_VERTEX_TYPE ->
    (forall e, vu_jmespath u = Some e -> jmespath_parse e = Ok ()) ->
    reg_step g (OpUpdateView id u)
      (g_set_vprops id (schema_update_properties (vu_name u, vu_jmespath u)
                          View_NAME View_EXPRESSION) g).
End step.

(** ** Well-formed registries *)

Definition vertex_ok (vd : VData) : Prop :=
  (vd_t vd = SCHEMA_VERTEX_TYPE -> is_Some (schema_of_map (vd_props vd))) /\
  (vd_t vd = SCHEMA_DEFINITION_VERTEX_TYPE -> is_Some (definition_of_map (vd_props vd))) /\
  (vd_t vd = VIEW_VERTEX_TYPE -> is_Some (view_of_map (vd_props vd))).

Record wf_graph `{SemVer} (g : Graph) : Prop := {
  (** every vertex decodes at its type *)
  wf_vertices : map_Forall (fun _ => vertex_ok) (g_vertices g);
  (** no dangling edge *)
  wf_closed : closed g;
  (** a version edge carries a version and leads to a definition *)
  wf_version_edges k ps : g_edges g !! k = Some ps -> ek_t k = SCHEMA_DEFINITION_EDGE_TYPE ->
    is_Some (version_of_map ps) /\ g_type g (inbound_id k) = Some SCHEMA_DEFINITION_VERTEX_TYPE;
  (** a view edge leads to a view *)
  wf_view_edges k : is_Some (g_edges g !! k) -> ek_t k = SCHEMA_VIEW_EDGE_TYPE ->
    g_type g (inbound_id k) = Some VIEW_VERTEX_TYPE;
  (** the versions of one schema are pairwise different *)
  wf_versions_distinct id i j v w :
    g_version g id i = Some v -> g_version g id j = Some w -> version_equiv v w -> i = j;
}.

(** every schema has a definition *)
Definition versioned `{SemVer} (g : Graph) : Prop :=
  forall id, g_type g id = Some SCHEMA_VERTEX_TYPE -> exists i v, g_version g id i = Some v.

Definition wf `{SemVer} (g : Graph) : Prop := wf_graph g /\ versioned g.

Section wf.
Context `{SemVerLaws}.
Implicit Types (g : Graph) (id i j : Uuid) (k : EdgeKey).

Lemma g_version_edges g g' id i :
  g_edges g = g_edges g' -> g_version g id i = g_version g' id i.
Proof. unfold g_version, g_eprop. by intros ->. Qed.

Lemma g_edges_set_vprops g i ps : g_edges (g_set_vprops i ps g) = g_edges g.
Proof.
  unfold g_set_vprops. revert g. induction ps as [|p ps IH]; intros g; [done|].
  simpl. by rewrite IH.
Qed.

Lemma wf_empty : wf empty_graph.
Proof.
  split; [split|].
  - apply map_Forall_empty.
  - by intros k [? Hk].
  - done.
  - by intros k [? Hk].
  - done.
  - done.
Qed.

(** *** Adding a vertex *)

Lemma g_type_new_vertex g i t ps j :
  g_type (g_new_vertex i t ps g) j = if decide (i = j) then Some t else g_type g j.
Proof. unfold g_type. simpl. rewrite lookup_insert. by case_decide. Qed.

Lemma g_type_new_vertex_keep g i t ps j t' :
  g_vertices g !! i = None -> g_type g j = Some t' -> g_type (g_new_vertex i t ps g) j = Some t'.
Proof.
  intros Hi Hj. rewrite g_type_new_vertex. case_decide; [|done]. subst.
  unfold g_type in Hj. by rewrite Hi in Hj.
Qed.

Lemma is_Some_new_vertex g i t ps j :
  is_Some (g_vertices g !! j) -> is_Some (g_vertices (g_new_vertex i t ps g) !! j).
Proof. intros Hj. simpl. rewrite lookup_insert. case_decide; [by eexists|done]. Qed.

Lemma wf_new_vertex g i t ps :
  wf_graph g -> g_vertices g !! i = None -> vertex_ok (mkVData t (collect_map ps)) ->
  wf_graph (g_new_vertex i t ps g).
Proof.
  intros [Hv Hc Hve Hvi Hd] Hi Hok. split.
  - simpl. by apply map_Forall_insert_2.
  - intros k Hk. destruct (Hc k Hk). split; by apply is_Some_new_vertex.
  - intros k ps' Hk Ht. destruct (Hve k ps' Hk Ht). split; [done|].
    by apply g_type_new_vertex_keep.
  - intros k Hk Ht. by apply g_type_new_vertex_keep, Hvi.
  - intros id i' j v w. rewrite !(g_version_edges (g_new_vertex i t ps g) g) by done. apply Hd.
Qed.

(** no edge reaches a vertex that is not there *)
Lemma wf_fresh_edge g k :
  wf_graph g -> g_vertices g !! inbound_id k = None -> g_edges g !! k = None.
Proof.
  intros Hwf Hi. destruct (g_edges g !! k) eqn:Hk; [|done].
  destruct (wf_closed g Hwf k) as [_ [? ?]]; [by eexists|congruence].
Qed.

(** *** Adding an edge *)

Lemma g_version_new_edge g k ps id i :
  g_version (g_new_edge k ps g) id i =
  if decide (k = sd_key id i) then version_of_map (collect_map ps) else g_version g id i.
Proof.
  unfold g_version, g_eprop. simpl. rewrite lookup_insert. by case_decide.
Qed.

Lemma wf_new_edge g k ps :
  wf_graph g -> is_Some (g_vertices g !! outbound_id k) ->
  is_Some (g_vertices g !! inbound_id k) ->
  (ek_t k = SCHEMA_DEFINITION_EDGE_TYPE ->
     g_type g (inbound_id k) = Some SCHEMA_DEFINITION_VERTEX_TYPE /\
     exists v, version_of_map (collect_map ps) = Some v /\
     forall j w, g_version g (outbound_id k) j = Some w -> ~ version_equiv v w) ->
  (ek_t k = SCHEMA_VIEW_EDGE_TYPE -> g_type g (inbound_id k) = Some VIEW_VERTEX_TYPE) ->
  wf_graph (g_new_edge k ps g).
Proof.
  intros [Hv Hc Hve Hvi Hd] Ho Hi Hsd Hsv. split.
  - done.
  - intros k' Hk'. simpl in *. rewrite lookup_insert in Hk'. case_decide; [by subst|by apply Hc].
  - intros k' ps' Hk' Ht. simpl in Hk'. rewrite lookup_insert in Hk'. case_decide; [|by eapply Hve].
    simplify_eq. destruct (Hsd Ht) as (? & v & Hver & _). split; [by eexists|done].
  - intros k' Hk' Ht. simpl in Hk'. rewrite lookup_insert in Hk'. case_decide; [|by apply Hvi].
    subst. auto.
  - assert (forall id i j v w, k = sd_key id i -> version_of_map (collect_map ps) = Some v ->
      g_version g id j = Some w -> ~ version_equiv v w) as Hnew.
    { intros id i j v w -> Hv' Hw. destruct Hsd as (_ & v0 & ? & Hne); [done|].
      simplify_eq. by eapply Hne. }
    intros id i j v w. rewrite !g_version_new_edge. repeat case_decide; intros Hv' Hw Heq.
    + subst k. by simplify_eq.
    + by destruct (Hnew id i j v w).
    + destruct (Hnew id j i w v); [done..|]. by symmetry.
    + by eapply Hd.
Qed.

(** *** Setting a property *)

Definition keeps_ok (name : string) (x : Value) : Prop :=
  forall t m, vertex_ok (mkVData t m) -> vertex_ok (mkVData t (<[name := x]> m)).

Lemma wf_set_vprop g i name x : wf_graph g -> keeps_ok name x -> wf_graph (g_set_vprop i name x g).
Proof.
  intros [Hv Hc Hve Hvi Hd] Hok. split.
  - intros j vd. rewrite lookup_set_vprop. case_decide; [|apply Hv]. subst.
    intros ([t m] & Hj & ->)%fmap_Some. by apply Hok, (Hv _ _ Hj).
  - intros k Hk. rewrite !is_Some_set_vprop. by apply Hc.
  - intros k ps Hk Ht. rewrite g_type_set_vprop. by apply Hve.
  - intros k Hk Ht. rewrite g_type_set_vprop. by apply Hvi.
  - intros id i' j v w. rewrite !(g_version_edges (g_set_vprop i name x g) g) by done. apply Hd.
Qed.

Lemma wf_set_vprops g i ps :
  wf_graph g -> Forall (fun p => keeps_ok p.1 p.2) ps -> wf_graph (g_set_vprops i ps g).
Proof.
  intros Hwf Hps. revert g Hwf. unfold g_set_vprops.
  induction Hps as [|p ps Hp _ IH]; intros g Hwf; [done|]. simpl. by apply IH, wf_set_vprop.
Qed.

Lemma g_type_set_vprops g i ps j : g_type (g_set_vprops i ps g) j = g_type g j.
Proof.
  unfold g_set_vprops. revert g. induction ps as [|p ps IH]; intros g; [done|].
  simpl. by rewrite IH, g_type_set_vprop.
Qed.

Lemma versioned_set_vprops g i ps : versioned g -> versioned (g_set_vprops i ps g).
Proof.
  intros Hg id. rewrite g_type_set_vprops. intros Hid.
  destruct (Hg id Hid) as (j & v & Hv). exists j, v.
  rewrite <- Hv. apply g_version_edges, g_edges_set_vprops.
Qed.
End wf.

(** ** Decoding survives the updates the registry makes *)

Lemma schema_of_map_is_Some m :
  is_Some (schema_of_map m) <->
  is_Some (m !! Schema_NAME ≫= string_from_value) /\
  is_Some (m !! Schema_TOPIC_NAME ≫= string_from_value) /\
  is_Some (m !! Schema_QUERY_ADDRESS ≫= string_from_value) /\
  is_Some (m !! Schema_SCHEMA_TYPE ≫= schema_type_from_value).
Proof.
  unfold schema_of_map.
  destruct (m !! Schema_NAME ≫= string_from_value); simpl; [|by split; [intros [? ?]|intros [[? ?] ?]]].
  destruct (m !! Schema_TOPIC_NAME ≫= string_from_value); simpl;
    [|by split; [intros [? ?]|intros (? & [? ?] & ?)]].
  destruct (m !! Schema_QUERY_ADDRESS ≫= string_from_value); simpl;
    [|by split; [intros [? ?]|intros (? & ? & [? ?] & ?)]].
  destruct (m !! Schema_SCHEMA_TYPE ≫= schema_type_from_value); simpl;
    [|by split; [intros [? ?]|intros (? & ? & ? & [? ?])]].
  split; intros; [split_and!|]; by eexists.
Qed.

Lemma view_of_map_is_Some m :
  is_Some (view_of_map m) <->
  is_Some (m !! View_NAME ≫= string_from_value) /\ is_Some (m !! View_EXPRESSION ≫= string_from_value).
Proof.
  unfold view_of_map.
  destruct (m !! View_NAME ≫= string_from_value); simpl; [|by split; [intros [? ?]|intros [[? ?] ?]]].
  destruct (m !! View_EXPRESSION ≫= string_from_value); simpl;
    [|by split; [intros [? ?]|intros (? & [? ?])]].
  split; intros; [split_and!|]; by eexists.
Qed.

Lemma is_Some_insert_bind {T} (f : Value -> option T) (m : gmap string Value) name x n :
  (name = n -> is_Some (f x)) -> is_Some (m !! n ≫= f) -> is_Some (<[name := x]> m !! n ≫= f).
Proof. intros Hx Hm. rewrite lookup_insert. case_decide; simpl; auto. Qed.

Lemma keeps_ok_intro name x :
  (name = Schema_NAME \/ name = Schema_TOPIC_NAME \/ name = Schema_QUERY_ADDRESS \/
   name = View_NAME \/ name = View_EXPRESSION -> is_Some (string_from_value x)) ->
  (name = Schema_SCHEMA_TYPE -> is_Some (schema_type_from_value x)) ->
  keeps_ok name x.
Proof.
  intros Hs Ht t m (Hsc & Hdef & Hview). split_and!; simpl in *; intros Hty.
  - apply schema_of_map_is_Some. apply Hsc, schema_of_map_is_Some in Hty as (? & ? & ? & ?).
    split_and!; apply is_Some_insert_bind; tauto.
  - unfold definition_of_map in *. apply fmap_is_Some. rewrite lookup_insert. case_decide; [by eexists|].
    by apply Hdef, fmap_is_Some in Hty.
  - apply view_of_map_is_Some. apply Hview, view_of_map_is_Some in Hty as (? & ?).
    split_and!; apply is_Some_insert_bind; tauto.
Qed.

Lemma keeps_ok_string name s : name <> Schema_SCHEMA_TYPE -> keeps_ok name (VString s).
Proof. intros Hn. apply keeps_ok_intro; [by eexists|done]. Qed.

Lemma schema_type_value_roundtrip t :
  schema_type_from_value (VString (schema_type_to_string t)) = Some t.
Proof. by destruct t. Qed.

Lemma keeps_ok_type t : keeps_ok Schema_SCHEMA_TYPE (VString (schema_type_to_string t)).
Proof.
  apply keeps_ok_intro; [by eexists|]. intros _. rewrite schema_type_value_roundtrip. by eexists.
Qed.

Lemma keeps_ok_update_view u :
  Forall (fun p => keeps_ok p.1 p.2)
    (schema_update_properties (vu_name u, vu_jmespath u) View_NAME View_EXPRESSION).
Proof.
  unfold schema_update_properties. simpl. apply Forall_app. split.
  - destruct (vu_name u); [|done]. apply Forall_singleton. by apply keeps_ok_string.
  - destruct (vu_jmespath u); [|done]. apply Forall_singleton. by apply keeps_ok_string.
Qed.

(** *** What a freshly written vertex decodes to *)

Lemma schema_of_new_map s : schema_of_map (collect_map (schema_into_properties s)) = Some s.
Proof. by destruct s as [? ? ? []]. Qed.

Lemma view_of_new_map v : view_of_map (collect_map (view_into_properties v)) = Some v.
Proof. by destruct v. Qed.

Lemma definition_of_new_map x :
  definition_of_map (collect_map [(Definition_VALUE, x)]) = Some (mkDefinition x).
Proof. done. Qed.

Lemma version_of_new_map `{SemVerLaws} v :
  version_of_map (collect_map [(SchemaDefinition_VERSION, version_to_value v)]) = Some v.
Proof.
  unfold version_of_map. simpl. unfold collect_map. simpl. rewrite lookup_insert_eq. simpl.
  apply version_value_roundtrip.
Qed.

Lemma vertex_ok_schema s : vertex_ok (mkVData SCHEMA_VERTEX_TYPE (collect_map (schema_into_properties s))).
Proof. split_and!; simpl; intros Ht; try discriminate Ht. rewrite schema_of_new_map. by eexists. Qed.
Lemma vertex_ok_view v : vertex_ok (mkVData VIEW_VERTEX_TYPE (collect_map (view_into_properties v))).
Proof. split_and!; simpl; intros Ht; try discriminate Ht. rewrite view_of_new_map. by eexists. Qed.
Lemma vertex_ok_definition x :
  vertex_ok (mkVData SCHEMA_DEFINITION_VERTEX_TYPE (collect_map [(Definition_VALUE, x)])).
Proof. split_and!; simpl; intros Ht; try discriminate Ht. by eexists. Qed.

(** ** The transitions preserve well-formedness *)

Section preservation.
Context `{SemVerLaws, UuidLib, JsonSchemaLib, JmespathLib}.
Implicit Types (g : Graph) (id i j : Uuid).

Lemma g_version_add_definition g id i v full id' j :
  g_version (g_add_definition id i v full g) id' j =
  if decide (id = id' /\ i = j) then Some v else g_version g id' j.
Proof.
  unfold g_add_definition. rewrite g_version_new_edge, version_of_new_map.
  repeat case_decide; try done; naive_solver.
Qed.

Lemma g_type_add_definition g id i v full j :
  g_type (g_add_definition id i v full g) j =
  if decide (i = j) then Some SCHEMA_DEFINITION_VERTEX_TYPE else g_type g j.
Proof. unfold g_add_definition. apply g_type_new_vertex. Qed.

Lemma wf_add_definition g id i v full :
  wf_graph g -> is_Some (g_vertices g !! id) -> g_vertices g !! i = None ->
  (forall j w, g_version g id j = Some w -> ~ version_equiv v w) ->
  wf_graph (g_add_definition id i v full g).
Proof.
  intros Hwf Hid Hi Hv. unfold g_add_definition. apply wf_new_edge; simpl.
  - apply wf_new_vertex; [done|done|apply vertex_ok_definition].
  - by apply is_Some_new_vertex.
  - rewrite lookup_insert_eq. by eexists.
  - intros _. rewrite g_type_new_vertex, decide_True by done. split; [done|].
    exists v. split; [apply version_of_new_map|]. intros j w.
    rewrite (g_version_edges _ g) by done. apply Hv.
  - done.
Qed.

Lemma versioned_add_definition g id i v full :
  versioned g -> g_vertices g !! i = None -> versioned (g_add_definition id i v full g).
Proof.
  intros Hg Hi id' Hid'. rewrite g_type_add_definition in Hid'. case_decide; [done|].
  destruct (Hg id' Hid') as (j & w & Hw). exists j.
  rewrite g_version_add_definition. case_decide; eauto.
Qed.

(** nothing is a version of a vertex that is not there *)
Lemma g_version_absent g id j v :
  wf_graph g -> g_vertices g !! id = None -> g_version g id j <> Some v.
Proof.
  intros Hwf Hid Hv. unfold g_version, g_eprop in Hv.
  destruct (g_edges g !! sd_key id j) as [ps|] eqn:Hk; [|done].
  destruct (wf_closed g Hwf (sd_key id j)) as [[? ?] _]; [by eexists|]. simpl in *. congruence.
Qed.

Lemma version_ltb_not_equiv v w : version_ltb w v = true -> ~ version_equiv v w.
Proof. unfold version_ltb. intros Hlt [Hle _]. by rewrite Hle in Hlt. Qed.

Lemma wf_add_schema g id i v s full :
  wf g -> g_vertices g !! id = None -> g_vertices g !! i = None -> i <> id ->
  wf (g_add_definition id i v full
       (g_new_vertex id SCHEMA_VERTEX_TYPE (schema_into_properties s) g)).
Proof.
  intros [Hwf Hver] Hid Hi Hne. split.
  - apply wf_add_definition.
    + apply wf_new_vertex; [done|done|apply vertex_ok_schema].
    + simpl. rewrite lookup_insert_eq. by eexists.
    + simpl. by rewrite lookup_insert_ne.
    + intros j w. rewrite (g_version_edges _ g) by done. intros Hw.
      by apply g_version_absent in Hw.
  - intros id' Hid'. destruct (decide (id = id')) as [<-|Hidne].
    + exists i, v. rewrite g_version_add_definition. by rewrite decide_True.
    + rewrite g_type_add_definition, g_type_new_vertex in Hid'.
      rewrite (decide_False (P := id = id')) in Hid' by done. case_decide; [done|].
      destruct (Hver id' Hid') as (j & w & Hw). exists j, w.
      rewrite g_version_add_definition, decide_False by naive_solver.
      by rewrite (g_version_edges _ g).
Qed.

Lemma wf_add_view g schema_id i view :
  wf g -> is_Some (g_vertices g !! schema_id) -> g_vertices g !! i = None ->
  wf (g_new_edge (sv_key schema_id i) []
       (g_new_vertex i VIEW_VERTEX_TYPE (view_into_properties view) g)).
Proof.
  intros [Hwf Hver] Hs Hi. split.
  - apply wf_new_edge; simpl.
    + apply wf_new_vertex; [done|done|apply vertex_ok_view].
    + by apply is_Some_new_vertex.
    + rewrite lookup_insert_eq. by eexists.
    + done.
    + intros _. by rewrite g_type_new_vertex, decide_True.
  - intros id. unfold g_type. simpl. rewrite lookup_insert. case_decide; [done|].
    intros Hid. destruct (Hver id Hid) as (j & v & Hv). exists j, v.
    rewrite g_version_new_edge, decide_False by done.
    by rewrite (g_version_edges _ g).
Qed.

(** a single-property update is a list of updates *)
Lemma wf_update g id name x :
  wf g -> keeps_ok name x -> wf (g_set_vprop id name x g).
Proof.
  intros [Hwf Hver] Hok. split; [by apply wf_set_vprop|].
  change (g_set_vprop id name x g) with (g_set_vprops id [(name, x)] g).
  by apply versioned_set_vprops.
Qed.

Lemma wf_step g op g' : wf g -> reg_step g op g' -> wf g'.
Proof.
  intros Hwf Hstep.
  destruct Hstep as [ | | | | |id s i full Hid Hnew _ Hi| |id u Hid _].
  - by apply wf_add_schema.
  - by apply wf_update, keeps_ok_string.
  - by apply wf_update, keeps_ok_string.
  - by apply wf_update, keeps_ok_string.
  - by apply wf_update, keeps_ok_type.
  - destruct Hwf as [Hwf Hver]. split; [|by apply versioned_add_definition].
    apply wf_add_definition; [done..|]. intros j w Hw. by eapply version_ltb_not_equiv, Hnew.
  - by apply wf_add_view.
  - destruct Hwf as [Hwf Hver]. split; [|by apply versioned_set_vprops].
    apply wf_set_vprops; [done|apply keeps_ok_update_view].
Qed.
End preservation.

(** ** Refinement *)

Section refinement.
Context {D : Type} `{DatastoreLaws D, SemVerLaws, UuidLib, JsonSchemaLib, JmespathLib}.
Implicit Types (d : D) (g : Graph) (id i j : Uuid).

(** why an operation is turned down *)
Definition definition_rejected g (e : RegistryError) : Prop :=
  e = InvalidSchema \/
  exists id, e = NoVersionMatchesRequirement (versioned_any id) /\
             forall i v, g_version g id i <> Some v.
Definition duplicated g (uuid : option Uuid) (e : RegistryError) : Prop :=
  exists u, uuid = Some u /\ e = DuplicatedUuid u /\ is_Some (g_vertices g !! u).
Definition absent g id (e : RegistryError) : Prop :=
  e = NoSchemaWithId id /\ g_vertices g !! id = None.

Definition rejected g (op : RegOp) (e : RegistryError) : Prop :=
  match op with
  | OpAddSchema _ uuid => definition_rejected g e \/ duplicated g uuid e
  | OpUpdateSchemaName id _ | OpUpdateSchemaTopic id _
  | OpUpdateSchemaQueryAddress id _ | OpUpdateSchemaType id _ => absent g id e
  | OpAddSchemaVersion id s =>
      absent g id e \/
      (exists v i, e = NewVersionMustBeGreatest id v /\ g_version g id i = Some v /\
         version_leb (nv_version s) v = true) \/
      definition_rejected g e
  | OpAddViewToSchema schema_id view uuid =>
      absent g schema_id e \/
      (exists m, e = InvalidView m /\ jmespath_parse (view_jmespath view) = Err m) \/
      duplicated g uuid e
  | OpUpdateView id u =>
      (e = NoViewWithId id /\ g_type g id <> Some VIEW_VERTEX_TYPE) \/
      (exists x m, e = InvalidView m /\ vu_jmespath u = Some x /\ jmespath_parse x = Err m)
  end.

Lemma wf_regular g : wf g -> fits g -> regular g.
Proof. intros [Hwf _] Hfits. split; [done|apply Hwf]. Qed.

(** in a well-formed registry every stored version decodes *)
Lemma wf_version_decodes g id i x :
  wf_graph g -> g_eprop g (sd_key id i) SchemaDefinition_VERSION = Some x ->
  version_from_value x <> None.
Proof.
  intros Hwf Hx. unfold g_eprop in Hx.
  destruct (g_edges g !! sd_key id i) as [ps|] eqn:Hk; [|done]. simpl in Hx.
  destruct (wf_version_edges g Hwf _ _ Hk) as [[v Hv] _]; [done|].
  unfold version_of_map in Hv. rewrite Hx in Hv. simpl in Hv. congruence.
Qed.

(** ... and leads to a stored definition *)
Lemma wf_version_definition g id i v :
  wf_graph g -> g_version g id i = Some v -> is_Some (g_vprop g i Definition_VALUE).
Proof.
  intros Hwf Hv. unfold g_version, g_eprop in Hv.
  destruct (g_edges g !! sd_key id i) as [ps|] eqn:Hk; [|done].
  destruct (wf_version_edges g Hwf _ _ Hk) as [_ Hty]; [done|]. simpl in Hty.
  unfold g_type in Hty. apply fmap_Some in Hty as (vd & Hvd & Hty).
  destruct (wf_vertices g Hwf i vd Hvd) as (_ & Hdef & _).
  unfold g_vprop. rewrite Hvd. simpl. apply eq_sym, Hdef in Hty.
  by apply fmap_is_Some in Hty.
Qed.

Lemma version_err_wf g (id : VersionedUuid) e :
  wf_graph g -> version_err g id e ->
  e = NoVersionMatchesRequirement id /\
  forall i v, g_version g (vid_id id) i = Some v -> req_matches (vid_version_req id) v = false.
Proof.
  intros Hwf [[-> [Hno|(v & i & (Hv & _) & Hx)]]|(-> & i & x & Hx & Hn)].
  - eauto.
  - apply wf_version_definition in Hv as [? Hv]; [congruence|done].
  - by eapply wf_version_decodes in Hx.
Qed.

Lemma build_err_wf g e : wf_graph g -> build_err g e -> definition_rejected g e.
Proof.
  intros Hwf [->|(id & He)]; [by left|]. right. exists id.
  apply version_err_wf in He as [-> Hno]; [|done]. split; [done|].
  intros i v Hv. specialize (Hno i v Hv). simpl in Hno. by rewrite req_any_matches in Hno.
Qed.

Lemma g_link_fresh k ps g :
  is_Some (g_vertices g !! outbound_id k) -> is_Some (g_vertices g !! inbound_id k) ->
  g_edges g !! k = None -> g_link k ps g = g_new_edge k ps g.
Proof.
  intros [vo Ho] [vi Hi] Hk. unfold g_link, g_new_edge, collect_map. rewrite Ho, Hi.
  unfold g_add_edge. rewrite Hk. simpl. generalize (∅ : gmap string Value).
  induction ps as [|[n x] ps IH]; intros m; [done|]. cbn [foldl]. rewrite <- IH. f_equal.
  unfold g_set_eprop. simpl. by rewrite alter_insert_eq.
Qed.

(** attaching a fresh vertex *)
Lemma g_link_new_vertex k t vps ps g :
  wf_graph g -> is_Some (g_vertices g !! outbound_id k) -> g_vertices g !! inbound_id k = None ->
  g_link k ps (g_new_vertex (inbound_id k) t vps g) =
  g_new_edge k ps (g_new_vertex (inbound_id k) t vps g).
Proof.
  intros Hwf Ho Hi. apply g_link_fresh.
  - by apply is_Some_new_vertex.
  - simpl. rewrite lookup_insert_eq. by eexists.
  - simpl. by apply wf_fresh_edge.
Qed.

(** the common shape of the specifications below *)
Lemma write_err_weaken d d1 (P P' : RegistryError -> Prop) e d' :
  graph d1 = graph d -> (P e -> P' e) -> write_err d1 P e d' -> write_err d P' e d'.
Proof. intros Hd HP [He|[He Hd']]; [by left|right]. split; [auto|congruence]. Qed.

Lemma read_err_write d (P P' : RegistryError -> Prop) e d' :
  (P e -> P' e) -> read_err d P e d' -> write_err d P' e d'.
Proof. intros HP [-> [He|He]]; [by left|right; auto]. Qed.

Lemma attach_definition_spec d id v full P :
  wf_graph (graph d) -> is_Some (g_vertices (graph d) !! id) ->
  wp (i ← create_vertex_with_properties full None;
      set_edge_properties (mkSchemaDefinitionEdge id i v)) d
    (fun _ d' => exists i, g_vertices (graph d) !! i = None /\
       graph d' = g_add_definition id i v (definition full) (graph d))
    (write_err d P).
Proof.
  intros Hwf Hid. apply wp_bind. eapply wp_mono; [apply create_vertex_spec| |].
  - intros i d1 (Hi & _ & Hd1). eapply wp_mono; [apply (set_edge_spec _ _ (fun _ => False))| |].
    + intros [] d2 Hd2. exists i. split; [done|]. rewrite Hd2, Hd1. simpl.
      by apply (g_link_new_vertex (sd_key id i)).
    + intros e d2 [He|[[] _]]. by left.
  - intros e d1 [He|[(u & Hu & _) _]]; [by left|done].
Qed.

Lemma add_schema_spec d s uuid :
  wf (graph d) -> fits (graph d) ->
  wp (add_schema s uuid) d
    (fun id d' => exists i full,
       resolved (graph d) (ns_definition s) full /\ g_vertices (graph d) !! id = None /\
       (forall u, uuid = Some u -> id = u) /\ g_vertices (graph d) !! i = None /\ i <> id /\
       graph d' = g_add_definition id i (version_new 1 0 0) full
         (g_new_vertex id SCHEMA_VERTEX_TYPE (schema_into_properties (new_schema_vertex s).1)
            (graph d)))
    (write_err d (rejected (graph d) (OpAddSchema s uuid))).
Proof.
  intros Hwf Hfits. unfold add_schema. simpl. apply wp_bind.
  eapply wp_mono; [by apply build_full_schema_spec, wf_regular| |].
  2: { intros e d1. apply read_err_write. intros He. left. apply build_err_wf; [apply Hwf|done]. }
  intros full d0 [-> Hres]. apply wp_bind. eapply wp_mono; [apply create_vertex_spec| |].
  2: { intros e d1. apply write_err_weaken; [done|]. by right. }
  intros id d1 (Hid & Hu & Hd1). apply wp_bind_assoc, wp_bind.
  eapply wp_mono; [apply (attach_definition_spec _ _ _ _ (fun _ => False))| |].
  - rewrite Hd1. apply wf_new_vertex; [apply Hwf|done|apply vertex_ok_schema].
  - rewrite Hd1. simpl. rewrite lookup_insert_eq. by eexists.
  - intros [] d2 (i & Hi & Hd2). apply wp_ret. exists i, (definition full).
    rewrite Hd1 in Hi, Hd2. simpl in Hi. apply lookup_insert_None in Hi as [? ?].
    split_and!; done.
  - intros e d2 [He|[[] _]]. by left.
Qed.

Lemma update_property_spec d id name x (P : RegistryError -> Prop) :
  (forall e, absent (graph d) id e -> P e) ->
  wp (ensure_schema_exists id ;; set_vertex_properties id [(name, x)]) d
    (fun _ d' => is_Some (g_vertices (graph d) !! id) /\
                 graph d' = g_set_vprop id name x (graph d))
    (write_err d P).
Proof.
  intros HP. apply wp_bind. eapply wp_mono; [apply ensure_schema_exists_spec| |].
  - intros [] d1 [-> Hid]. eapply wp_mono; [apply (set_vertex_properties_spec _ _ _ P)| |done].
    intros [] d2 Hd2. by split.
  - intros e d1. apply read_err_write. apply HP.
Qed.

(** the greatest stored version is checked before anything is written *)
Lemma version_check_spec d id (s : NewSchemaVersion) (P : RegistryError -> Prop) l :
  wf (graph d) -> fits (graph d) -> versions_of (graph d) id l ->
  (forall v i, g_version (graph d) id i = Some v -> version_leb (nv_version s) v = true ->
     P (NewVersionMustBeGreatest id v)) ->
  wp (match max_by_key version_leb fst l with
      | Some (max_version, _) =>
          if version_leb (nv_version s) max_version
          then fail (NewVersionMustBeGreatest id max_version) else mret ()
      | None => mret ()
      end) d
    (fun _ d' => d' = d /\ forall j v, g_version (graph d) id j = Some v ->
       version_ltb v (nv_version s) = true)
    (write_err d P).
Proof.
  intros Hwf Hfits (_ & Hsound & Hcomplete) HP. specialize (Hcomplete (wf_regular _ Hwf Hfits)).
  destruct (max_by_key version_leb fst l) as [[v i]|] eqn:Hmax.
  - apply max_by_key_Some in Hmax as [Hin Hmax];
      [|apply version_leb_total|apply version_leb_trans]. simpl in Hmax.
    destruct (version_leb (nv_version s) v) eqn:Hle.
    + apply wp_fail. right. split; [|done]. by eapply HP; [apply Hsound|].
    + apply wp_ret. split; [done|]. intros j w Hw.
      eapply version_leb_ltb_trans; [by apply (Hmax (w, j)), Hcomplete|].
      unfold version_ltb. by rewrite Hle.
  - apply max_by_key_None in Hmax as ->. apply wp_ret. split; [done|].
    intros j v Hv%Hcomplete. by apply not_elem_of_nil in Hv.
Qed.

Lemma add_version_spec d id (s : NewSchemaVersion) :
  wf (graph d) -> fits (graph d) ->
  wp (add_new_version_of_schema id s) d
    (fun _ d' => exists i full,
       is_Some (g_vertices (graph d) !! id) /\
       (forall j v, g_version (graph d) id j = Some v -> version_ltb v (nv_version s) = true) /\
       resolved (graph d) (nv_definition s) full /\ g_vertices (graph d) !! i = None /\
       graph d' = g_add_definition id i (nv_version s) full (graph d))
    (write_err d (rejected (graph d) (OpAddSchemaVersion id s))).
Proof.
  intros Hwf Hfits. unfold add_new_version_of_schema. apply wp_bind.
  eapply wp_mono; [apply ensure_schema_exists_spec| |].
  2: { intros e d1. apply read_err_write. by left. }
  intros [] d0 [-> Hid]. apply wp_bind. eapply wp_mono; [apply get_schema_versions_spec| |].
  2: { intros e d1. apply read_err_write. intros (_ & i & x & Hx & Hn). exfalso.
       by eapply wf_version_decodes in Hx; [|apply Hwf]. }
  intros l d0 [-> Hl]. apply wp_bind.
  eapply wp_mono; [apply (version_check_spec d id s (rejected (graph d) (OpAddSchemaVersion id s)));
    [done..|intros v i Hv Hle; right; left; eauto]| |].
  2: { intros e d1. by apply write_err_weaken. }
  intros [] d0 [-> Hnew]. apply wp_bind.
  eapply wp_mono; [by apply build_full_schema_spec, wf_regular| |].
  2: { intros e d1. apply read_err_write. intros He. right. right.
       apply build_err_wf; [apply Hwf|done]. }
  intros full d0 [-> Hres].
  eapply wp_mono; [apply (attach_definition_spec _ _ _ _ (fun _ => False)); [apply Hwf|done]| |].
  - intros [] d1 (i & Hi & Hd1). exists i, (definition full). by split_and!.
  - intros e d1 [He|[[] _]]. by left.
Qed.

Lemma validate_view_step d (view : string) (f : () -> M D RegistryError Uuid) Q R :
  (jmespath_parse view = Ok () -> wp (f ()) d Q R) ->
  (forall m, jmespath_parse view = Err m -> R (InvalidView m) d) ->
  wp (validate_view view ≫= f) d Q R.
Proof.
  intros HQ HR. apply wp_bind. unfold validate_view.
  apply wp_lift; destruct (jmespath_parse view) as [[]|m]; simpl; intros ? [= <-]; auto.
Qed.

Lemma add_view_spec d schema_id view uuid :
  wf (graph d) ->
  wp (add_view_to_schema schema_id view uuid) d
    (fun i d' => is_Some (g_vertices (graph d) !! schema_id) /\
       jmespath_parse (view_jmespath view) = Ok () /\
       g_vertices (graph d) !! i = None /\ (forall u, uuid = Some u -> i = u) /\
       graph d' = g_new_edge (sv_key schema_id i) []
         (g_new_vertex i VIEW_VERTEX_TYPE (view_into_properties view) (graph d)))
    (write_err d (rejected (graph d) (OpAddViewToSchema schema_id view uuid))).
Proof.
  intros Hwf. unfold add_view_to_schema. apply wp_bind.
  eapply wp_mono; [apply ensure_schema_exists_spec| |].
  2: { intros e d1. apply read_err_write. by left. }
  intros [] d0 [-> Hid]. apply validate_view_step.
  2: { intros m Hm. right. split; [|done]. right. left. eauto. }
  intros Hparse. apply wp_bind. eapply wp_mono; [apply create_vertex_spec| |].
  2: { intros e d1. apply write_err_weaken; [done|]. right. by right. }
  intros i d1 (Hi & Hu & Hd1). apply wp_bind.
  eapply wp_mono; [apply (set_edge_spec _ _ (fun _ => False))| |].
  - intros [] d2 Hd2. apply wp_ret. split_and!; [done..|].
    rewrite Hd2, Hd1. by apply (g_link_new_vertex (sv_key schema_id i)); [apply Hwf| |].
  - intros e d2 [He|[[] _]]. by left.
Qed.

Lemma optional_property_spec d id name (o : option string) :
  wp (match o with
      | Some x => set_vertex_properties id [(name, VString x)]
      | None => mret ()
      end) d
    (fun _ d' => graph d' =
       g_set_vprops id (match o with Some x => [(name, VString x)] | None => [] end) (graph d))
    (fun e _ => storage_failure e).
Proof.
  destruct o as [x|]; [|by apply wp_ret].
  eapply wp_mono; [apply (set_vertex_properties_spec _ _ _ (fun _ => False))|done|].
  intros e d' [He|[[] _]]. done.
Qed.

Lemma update_view_spec d id u :
  wf (graph d) ->
  wp (update_view id u) d
    (fun old d' => g_type (graph d) id = Some VIEW_VERTEX_TYPE /\
       (exists vd, g_vertices (graph d) !! id = Some vd /\ view_of_map (vd_props vd) = Some old) /\
       (forall e, vu_jmespath u = Some e -> jmespath_parse e = Ok ()) /\
       graph d' = g_set_vprops id (schema_update_properties (vu_name u, vu_jmespath u)
                                     View_NAME View_EXPRESSION) (graph d))
    (write_err d (rejected (graph d) (OpUpdateView id u))).
Proof.
  intros Hwf. unfold update_view. apply wp_bind. eapply wp_mono; [apply get_view_spec| |].
  2: { intros e d1. apply read_err_write. intros [?|(_ & vd & Hvd & Hty & Hnone)]; [by left|].
       exfalso. destruct (wf_vertices _ (proj1 Hwf) id vd Hvd) as (_ & _ & Hok).
       destruct (Hok Hty). congruence. }
  intros old d0 (-> & vd & Hvd & Hty & Hold). apply wp_bind.
  apply (wp_mono _ _ (fun _ d' => d' = d /\
    (forall e, vu_jmespath u = Some e -> jmespath_parse e = Ok ())) _
    (write_err d (rejected (graph d) (OpUpdateView id u)))); [| |done].
  { destruct (vu_jmespath u) as [x|] eqn:Hx; [|by apply wp_ret].
    unfold validate_view. apply wp_lift; destruct (jmespath_parse x) as [[]|m] eqn:Hm; simpl;
      intros ? [= <-].
    - split; [done|]. by intros ? [= <-].
    - right. split; [|done]. right. simpl. eauto. }
  intros [] d0 [-> Hparse]. apply wp_bind.
  eapply wp_mono; [apply optional_property_spec| |by intros; left].
  intros [] d1 Hd1. apply wp_bind.
  eapply wp_mono; [apply optional_property_spec| |by intros; left].
  intros [] d2 Hd2. apply wp_ret. split_and!; [|by exists vd|done|].
  - unfold g_type. rewrite Hvd. simpl. by f_equal.
  - rewrite Hd2, Hd1. unfold schema_update_properties, g_set_vprops. by rewrite foldl_app.
Qed.

(** Every method either performs its transition, or is turned down for a
    stated reason with the graph unchanged, or hits a storage failure. *)
Lemma run_op_spec d op :
  wf (graph d) -> fits (graph d) ->
  wp (run_op op) d
    (fun _ d' => reg_step (graph d) op (graph d'))
    (write_err d (rejected (graph d) op)).
Proof.
  intros Hwf Hfits. destruct op as [s uuid|id x|id x|id x|id t|id s|schema_id view uuid|id u]; simpl.
  - apply wp_bind. eapply wp_mono; [by apply add_schema_spec| |done].
    intros id d' (i & full & ? & ? & ? & ? & ? & Hd'). apply wp_ret. rewrite Hd'. by constructor.
  - eapply wp_mono; [by apply update_property_spec| |done].
    intros [] d' [? Hd']. cbv beta. rewrite Hd'. by constructor.
  - eapply wp_mono; [by apply update_property_spec| |done].
    intros [] d' [? Hd']. cbv beta. rewrite Hd'. by constructor.
  - eapply wp_mono; [by apply update_property_spec| |done].
    intros [] d' [? Hd']. cbv beta. rewrite Hd'. by constructor.
  - eapply wp_mono; [by apply update_property_spec| |done].
    intros [] d' [? Hd']. cbv beta. rewrite Hd'. by constructor.
  - eapply wp_mono; [by apply add_version_spec| |done].
    intros [] d' (i & full & ? & ? & ? & ? & Hd'). cbv beta. rewrite Hd'. by constructor.
  - apply wp_bind. eapply wp_mono; [by apply add_view_spec| |done].
    intros i d' (? & ? & ? & ? & Hd'). apply wp_ret. rewrite Hd'. by constructor.
  - apply wp_bind. eapply wp_mono; [by apply update_view_spec| |done].
    intros old d' (? & _ & ? & Hd'). apply wp_ret. rewrite Hd'. by constructor.
Qed.
End refinement.
