(* ===== verification/Instances.v ===== *)
(** Concrete instances of the interfaces: an in-memory datastore (the
    counterpart of the [MemoryDatastore] the tests of [db.rs] run on) and small
    implementations of the library classes.  They discharge the laws, which
    shows that the laws are consistent, and the example runs of the development
    evaluate on them. *)
From Stdlib Require Import Ascii.
From stdpp Require Import prelude gmap strings list fin_maps.
From S2P Require Import Prelude Json Externals Indradb RegistryTypes.

(** ** Text for any countable type *)

Fixpoint pos_to_string (p : positive) : string :=
  match p with
  | xH => "H" | xO p => "O" +:+ pos_to_string p | xI p => "I" +:+ pos_to_string p
  end.
Fixpoint pos_of_string (s : string) : option positive :=
  match s with
  | EmptyString => None
  | String c s' =>
      if Ascii.eqb c "H" then match s' with EmptyString => Some xH | _ => None end
      else if Ascii.eqb c "O" then xO <$> pos_of_string s'
      else if Ascii.eqb c "I" then xI <$> pos_of_string s'
      else None
  end.

Lemma pos_string_roundtrip p : pos_of_string (pos_to_string p) = Some p.
Proof.
  induction p as [p IH|p IH|]; [| |done].
  - change (xI <$> pos_of_string (pos_to_string p) = Some (xI p)). by rewrite IH.
  - change (xO <$> pos_of_string (pos_to_string p) = Some (xO p)). by rewrite IH.
Qed.

Definition show {A} `{Countable A} (a : A) : string := pos_to_string (encode a).
Definition read {A} `{Countable A} (s : string) : result string A :=
  match pos_of_string s ≫= decode with Some a => Ok a | None => Err "malformed text" end.

Lemma read_show {A} `{Countable A} (a : A) : read (show a) = Ok a.
Proof. unfold read, show. rewrite pos_string_roundtrip. simpl. by rewrite decode_encode. Qed.

(** ** Libraries *)

#[export] Instance uuid_inst : UuidLib := {
  uuid_to_string := fun u => show u;
  uuid_parse_str := read;
}.
#[export] Instance uuid_laws_inst : UuidLaws.
Proof.
  split; [exact read_show|]. intros u. unfold uuid_to_string; simpl. unfold show.
  by destruct (encode u).
Qed.

(** versions are (major, minor, patch), compared lexicographically *)
Definition triple_leb (x y : Z * Z * Z) : bool :=
  let '(a, b, c) := x in let '(a', b', c') := y in
  (a <? a')%Z || ((a =? a')%Z && ((b <? b')%Z || ((b =? b')%Z && (c <=? c')%Z))).

#[export] Instance semver_inst : SemVer := {
  Version := Z * Z * Z;
  VersionReq := option (Z * Z * Z);
  version_new := fun a b c => (a, b, c);
  version_leb := triple_leb;
  req_any := None;
  req_exact := Some;
  req_matches := fun r v => match r with None => true | Some w => bool_decide (v = w) end;
  version_to_string := show;
  version_parse := read;
  version_req_to_string := show;
  version_req_parse := fun s => match s with
    | String "=" v => Some <$> read v
    | _ => read s
    end;
  version_to_value := fun v => let '(a, b, c) := v in
    Array [Number (PosInt a); Number (PosInt b); Number (PosInt c)];
  version_from_value := fun x =>
    match x with
    | Array [Number (PosInt a); Number (PosInt b); Number (PosInt c)] => Some (a, b, c)
    | _ => None
    end;
}.
#[export] Instance semver_laws_inst : SemVerLaws.
Proof.
  split; simpl.
  - intros [[a b] c] [[a' b'] c']. unfold triple_leb. lia.
  - intros [[a b] c] [[a' b'] c'] [[a'' b''] c'']. unfold triple_leb. lia.
  - done.
  - by intros [[a b] c].
  - exact read_show.
Qed.

#[export] Instance exact_req_laws_inst : ExactReqLaws.
Proof.
  split. intros v. exists (Some v). split.
  { change (Some <$> read (A := Z * Z * Z) (show v) = Ok (Some v)). by rewrite read_show. }
  intros w. simpl. rewrite bool_decide_eq_true. split; [by intros ->; destruct v as [[a b] c]; unfold triple_leb; lia|].
  destruct v as [[a b] c], w as [[a' b'] c']. unfold triple_leb. intros Hvw.
  assert (a' = a /\ b' = b /\ c' = c) as (-> & -> & ->) by lia. done.
Qed.

(** a schema must be an object or a boolean; every value conforms *)
#[export] Instance jsonschema_inst : JsonSchemaLib := {
  jsonschema_compile := fun v =>
    match v with Object _ | VBool _ => Ok (fun _ => []) | _ => Err "not a schema" end;
}.
#[export] Instance jmespath_inst : JmespathLib := {
  jmespath_parse := fun s => if decide (s = EmptyString) then Err "empty expression" else Ok ();
}.
#[export] Instance hash_iter_inst : HashIter := { hash_iter := fun A => map_to_list }.
#[export] Instance hash_iter_laws_inst : HashIterLaws.
Proof. split. done. Qed.
#[export] Instance string_hash_iter_inst : StringHashIter := {
  string_hash_iter := fun A => map_to_list;
}.
#[export] Instance string_hash_iter_laws_inst : StringHashIterLaws.
Proof. by split. Qed.

(** ** The in-memory datastore *)

Record MemoryDatastore : Type := mkMemory { mem_graph : Graph; mem_next : Uuid }.
Definition memory_default : MemoryDatastore := mkMemory empty_graph 1000.

Definition limited {A} (limit : Z) (l : list A) : list A :=
  if (Z.of_nat (length l) <=? limit)%Z then l else take (Z.to_nat limit) l.

#[export] Instance type_matches_dec t t' : Decision (type_matches t t').
Proof. destruct t; simpl; apply _. Defined.

Fixpoint vq_eval (g : Graph) (q : VertexQuery) : list Uuid :=
  match q with
  | SpecificVertexQuery ids => filter (fun i => is_Some (g_vertices g !! i)) ids
  | RangeVertexQuery limit t =>
      limited limit (filter (fun p => type_matches t (vd_t p.2)) (map_to_list (g_vertices g))).*1
  | PipeVertexQuery inner limit =>
      limited limit
        (filter (fun i => is_Some (g_vertices g !! i))
           (inbound_id <$> remove_dups (eq_eval g inner)))
  end
with eq_eval (g : Graph) (q : EdgeQuery) : list EdgeKey :=
  match q with
  | SpecificEdgeQuery keys => filter (fun k => is_Some (g_edges g !! k)) keys
  | PipeEdgeQuery inner limit t =>
      limited limit
        (filter (fun k => outbound_id k ∈ vq_eval g inner /\ type_matches t (ek_t k))
           (map_to_list (g_edges g)).*1)
  end.

Definition named_properties (m : gmap string Value) : list NamedProperty :=
  (fun p => mkNamedProperty p.1 p.2) <$> map_to_list m.

Definition with_graph (d : MemoryDatastore) (g : Graph) : MemoryDatastore := mkMemory g (mem_next d).

#[export] Instance memory_inst : Datastore MemoryDatastore := {
  ds_transaction := fun _ => Ok ();
  ds_create_vertex := fun v d =>
    match g_vertices (mem_graph d) !! v_id v with
    | Some _ => (d, Ok false)
    | None => (with_graph d (g_add_vertex v (mem_graph d)), Ok true)
    end;
  ds_create_vertex_from_type := fun t d =>
    let i := mem_next d in
    match g_vertices (mem_graph d) !! i with
    | Some _ => (mkMemory (mem_graph d) (N.succ i), Err "uuid taken")
    | None => (mkMemory (g_add_vertex (mkIVertex i t) (mem_graph d)) (N.succ i), Ok i)
    end;
  ds_set_vertex_properties := fun q name x d =>
    (with_graph d (foldl (fun g i => g_set_vprop i name x g) (mem_graph d)
                     (vq_eval (mem_graph d) q)), Ok ());
  ds_create_edge := fun k d =>
    match g_vertices (mem_graph d) !! outbound_id k, g_vertices (mem_graph d) !! inbound_id k with
    | Some _, Some _ => (with_graph d (g_add_edge k (mem_graph d)), Ok true)
    | _, _ => (d, Ok false)
    end;
  ds_set_edge_properties := fun q name x d =>
    (with_graph d (foldl (fun g k => g_set_eprop k name x g) (mem_graph d)
                     (eq_eval (mem_graph d) q)), Ok ());
  ds_get_vertices := fun q d =>
    Ok (omap (fun i => mkIVertex i <$> g_type (mem_graph d) i) (vq_eval (mem_graph d) q));
  ds_get_all_vertex_properties := fun q d =>
    Ok (omap (fun i => (fun vd => mkVertexProperties (mkIVertex i (vd_t vd))
                                    (named_properties (vd_props vd)))
                         <$> g_vertices (mem_graph d) !! i) (vq_eval (mem_graph d) q));
  ds_get_vertex_properties := fun q name d =>
    Ok (omap (fun i => mkVertexProperty i <$> g_vprop (mem_graph d) i name)
          (vq_eval (mem_graph d) q));
  ds_get_edge_properties := fun q name d =>
    Ok (omap (fun k => mkEdgeProperty k <$> g_eprop (mem_graph d) k name)
          (eq_eval (mem_graph d) q));
  ds_get_all_edge_properties := fun q d =>
    Ok (omap (fun k => (fun ps => mkEdgeProperties k (named_properties ps))
                         <$> g_edges (mem_graph d) !! k) (eq_eval (mem_graph d) q));
}.

(** *** The laws *)

Lemma limited_incl {A} limit (l : list A) x : x ∈ limited limit l -> x ∈ l.
Proof.
  unfold limited. destruct (_ <=? _)%Z; [done|]. intros Hx. by eapply elem_of_take in Hx as (? & ? & _); eapply list_elem_of_lookup_2.
Qed.

Lemma limited_NoDup {A} limit (l : list A) : NoDup l -> NoDup (limited limit l).
Proof.
  unfold limited. destruct (_ <=? _)%Z; [done|]. intros Hl. eapply sublist_NoDup; [exact Hl|apply sublist_take].
Qed.

Lemma limited_all {A} limit (l : list A) : (Z.of_nat (length l) <= limit)%Z -> limited limit l = l.
Proof. unfold limited. intros Hl. by rewrite (proj2 (Z.leb_le _ _) Hl). Qed.

Lemma length_filter_keys {K A} `{Countable K} (P : K -> Prop) `{!forall k, Decision (P k)}
    (m : gmap K A) : length (filter P (map_to_list m).*1) <= size m.
Proof.
  etrans; [apply length_filter|]. rewrite length_fmap. by rewrite length_map_to_list.
Qed.

Lemma NoDup_length_le {A} (l k : list A) :
  NoDup l -> (forall x, x ∈ l -> x ∈ k) -> length l <= length k.
Proof. intros Hl Hincl. by apply submseteq_length, NoDup_submseteq. Qed.

Lemma limited_spec {A} limit (l : list A) :
  (forall x, x ∈ limited limit l -> x ∈ l) /\
  (forall n, length l <= n -> (Z.of_nat n <= limit)%Z -> forall x, x ∈ l -> x ∈ limited limit l).
Proof.
  split; [by intros x; apply limited_incl|].
  intros n Hl Hn x. rewrite limited_all by lia. done.
Qed.

Scheme VertexQuery_mut := Induction for VertexQuery Sort Prop
with EdgeQuery_mut := Induction for EdgeQuery Sort Prop.
Combined Scheme query_ind from VertexQuery_mut, EdgeQuery_mut.

Lemma length_typed_vertices (t : option VType) (m : gmap Uuid VData) :
  length (filter (fun p : Uuid * VData => type_matches t (vd_t p.2)) (map_to_list m)).*1 <= size m.
Proof. rewrite length_fmap. etrans; [apply length_filter|]. by rewrite length_map_to_list. Qed.

Lemma range_spec g limit t :
  vq_result g (RangeVertexQuery limit t) (vq_eval g (RangeVertexQuery limit t)).
Proof.
  simpl. set (l := (filter _ (map_to_list (g_vertices g))).*1).
  assert (forall i, i ∈ l <-> exists vd, g_vertices g !! i = Some vd /\ type_matches t (vd_t vd))
    as Hl.
  { intros i. unfold l. rewrite list_elem_of_fmap. split.
    - intros ([j vd] & -> & [Ht Hin]%list_elem_of_filter). exists vd.
      by rewrite <- elem_of_map_to_list.
    - intros (vd & Hvd & Ht). exists (i, vd). split; [done|]. apply list_elem_of_filter.
      by rewrite elem_of_map_to_list. }
  destruct (limited_spec limit l) as [Hincl Hall]. split_and!.
  - apply limited_NoDup. unfold l. eapply sublist_NoDup; [apply (NoDup_fst_map_to_list (g_vertices g))|].
    apply fmap_sublist, sublist_filter.
  - intros i Hi%Hincl. by apply Hl.
  - intros Hsize i vd Hvd Ht. eapply Hall; [apply length_typed_vertices|done|]. apply Hl. eauto.
Qed.

Lemma eval_spec (g : Graph) :
  (forall q : VertexQuery, vq_result g q (vq_eval g q)) /\
  (forall q : EdgeQuery, eq_result g q (eq_eval g q) /\
     forall k, k ∈ eq_eval g q -> is_Some (g_edges g !! k)).
Proof.
  apply query_ind.
  - intros limit t. apply range_spec.
  - done.
  - intros inner [IH Hkeys] limit. exists (eq_eval g inner). split; [done|]. simpl.
    set (l := filter _ (inbound_id <$> remove_dups (eq_eval g inner))).
    assert (forall i, i ∈ l <-> is_Some (g_vertices g !! i) /\
              exists k, k ∈ eq_eval g inner /\ inbound_id k = i) as Hl.
    { intros i. unfold l. rewrite list_elem_of_filter, list_elem_of_fmap.
      split; intros (? & k & H1 & H2); (split; [done|]); exists k;
        rewrite elem_of_remove_dups in *; auto. }
    destruct (limited_spec limit l) as [Hincl Hall]. split.
    + intros i Hi%Hincl. by apply Hl.
    + intros Hsize k Hk Hi. eapply Hall; [|exact Hsize|].
      * unfold l. etrans; [apply length_filter|]. rewrite length_fmap.
        rewrite <- length_map_to_list, <- (length_fmap fst). apply NoDup_length_le.
        -- apply NoDup_remove_dups.
        -- intros k' Hk'. rewrite elem_of_remove_dups in Hk'. destruct (Hkeys _ Hk') as [ps Hps].
           apply list_elem_of_fmap. exists (k', ps). by rewrite elem_of_map_to_list.
      * apply Hl. eauto.
  - intros keys. split; [done|]. simpl. by intros k [? _]%list_elem_of_filter.
  - intros inner IH limit t. simpl.
    set (l := filter _ (map_to_list (g_edges g)).*1).
    assert (forall k, k ∈ l <-> is_Some (g_edges g !! k) /\
              outbound_id k ∈ vq_eval g inner /\ type_matches t (ek_t k)) as Hl.
    { intros k. unfold l. rewrite list_elem_of_filter, list_elem_of_fmap. split.
      - intros (? & [k' ps] & -> & Hin). apply elem_of_map_to_list in Hin.
        split; [by eexists|done].
      - intros ([ps Hps] & ?). split; [done|]. exists (k, ps). by rewrite elem_of_map_to_list. }
    destruct (limited_spec limit l) as [Hincl Hall].
    split; [|intros k Hk%Hincl; by apply Hl].
    exists (vq_eval g inner). split_and!; [done| | |].
    + apply limited_NoDup. unfold l. eapply sublist_NoDup; [apply (NoDup_fst_map_to_list (g_edges g))|].
      apply sublist_filter.
    + intros k Hk%Hincl. by apply Hl.
    + intros Hsize k Hk Ho Ht. eapply Hall; [apply length_filter_keys|done|]. by apply Hl.
Qed.

Lemma vq_eval_spec g q : vq_result g q (vq_eval g q).
Proof. apply eval_spec. Qed.
Lemma eq_eval_spec g q : eq_result g q (eq_eval g q).
Proof. apply eval_spec. Qed.

(** only existing vertices and edges are selected *)
Lemma vq_eval_exists g q i : i ∈ vq_eval g q -> is_Some (g_vertices g !! i).
Proof.
  destruct q as [limit t|ids|inner limit]; simpl.
  - intros Hi. destruct (range_spec g limit t) as (_ & Hs & _).
    destruct (Hs i Hi) as (? & ? & _). by eexists.
  - by intros [? _]%list_elem_of_filter.
  - intros [? _]%limited_incl%list_elem_of_filter. done.
Qed.
Lemma eq_eval_exists g q k : k ∈ eq_eval g q -> is_Some (g_edges g !! k).
Proof. apply eval_spec. Qed.

Lemma props_of_named m : props_of m (named_properties m).
Proof.
  unfold props_of, named_properties. rewrite <- list_fmap_compose.
  rewrite (list_fmap_ext _ id); [by rewrite list_fmap_id|]. by intros ? [].
Qed.

Lemma omap_Forall2 {A B} (f : A -> option B) (P : A -> B -> Prop) l :
  (forall x, x ∈ l -> exists y, f x = Some y /\ P x y) -> Forall2 P l (omap f l).
Proof.
  induction l as [|x l IH]; intros H; [constructor|].
  destruct (H x) as (y & Hy & HP); [set_solver|]. simpl. rewrite Hy. constructor; [done|].
  apply IH. intros; apply H; set_solver.
Qed.

(** setting through a query for one existing object is setting on that object *)
Lemma alter_none {K A} `{Countable K} (f : A -> A) (m : gmap K A) k :
  m !! k = None -> alter f k m = m.
Proof.
  intros Hk. apply map_eq. intros j. rewrite lookup_alter. case_decide; [|done].
  subst. by rewrite Hk.
Qed.

#[export] Instance memory_laws : DatastoreLaws MemoryDatastore.
Proof.
  refine {| graph := mem_graph |}; unfold wp; simpl.
  - intros v d. destruct (g_vertices (mem_graph d) !! v_id v); by split.
  - intros t d. by destruct (g_vertices (mem_graph d) !! mem_next d) eqn:Hi.
  - intros i name x d. rewrite filter_cons, filter_nil. case_decide as Hi; simpl; [done|].
    unfold g_set_vprop. rewrite alter_none; [by destruct (mem_graph d)|].
    by apply eq_None_not_Some.
  - intros k d. destruct (g_vertices (mem_graph d) !! outbound_id k); [|done].
    by destruct (g_vertices (mem_graph d) !! inbound_id k).
  - intros k name x d. rewrite filter_cons, filter_nil. case_decide as Hi; simpl; [done|].
    unfold g_set_eprop. rewrite alter_none; [by destruct (mem_graph d)|].
    by apply eq_None_not_Some.
  - intros q d l [= <-]. eexists. split; [apply vq_eval_spec|]. apply omap_Forall2.
    intros i [vd Hi]%vq_eval_exists. unfold vertex_of, g_type. rewrite Hi. simpl. eauto.
  - intros q d l [= <-]. eexists. split; [apply vq_eval_spec|]. apply omap_Forall2.
    intros i [vd Hi]%vq_eval_exists. unfold vertex_properties_of. rewrite Hi. simpl.
    eexists. split; [done|]. exists vd. split_and!; [done..|]. apply props_of_named.
  - intros q name d l [= <-]. eexists. split; [apply vq_eval_spec|done].
  - intros q name d l [= <-]. eexists. split; [apply eq_eval_spec|done].
  - intros q d l [= <-]. eexists. split; [apply eq_eval_spec|]. apply omap_Forall2.
    intros k [ps Hk]%eq_eval_exists. unfold edge_properties_of. rewrite Hk. simpl.
    eexists. split; [done|]. exists ps. split_and!; [done..|]. apply props_of_named.
Defined.
Lemma graph_memory d : graph d = mem_graph d.
Proof. done. Qed.

#[export] Instance memory_reliable : ReliableDatastore MemoryDatastore.
Proof.
  split; try done; simpl.
  - intros v d. by destruct (g_vertices (mem_graph d) !! v_id v).
  - intros k d. destruct (g_vertices (mem_graph d) !! outbound_id k); [|done].
    by destruct (g_vertices (mem_graph d) !! inbound_id k).
Qed.
