(* ===== verification/RegistryRun.v ===== *)
(** Histories of the schema registry: what holds of any sequence of requests,
    what a client reads back after a write, and the immutability of published
    definitions.  The theorems are about the methods of [SchemaDb] over any
    lawful datastore; their witnesses run them on the in-memory one. *)
From stdpp Require Import prelude gmap strings list fin_maps relations.
From S2P Require Import Prelude Json Externals Indradb RegistryTypes SchemaDb SchemaDbSpec.
From S2P Require Import Registry Instances.

(** ** Serving a sequence of requests *)

(** A rejected request does not stop the server. *)
Fixpoint serve {D} `{Datastore D, SemVer, UuidLib, JsonSchemaLib, JmespathLib}
    (ops : list RegOp) (d : D) : D * list (result RegistryError ()) :=
  match ops with
  | [] => (d, [])
  | op :: ops' =>
      let '(d1, r) := run_op op d in
      let '(d2, rs) := serve ops' d1 in (d2, r :: rs)
  end.

Definition no_storage_failure `{SemVer} (r : result RegistryError ()) : Prop :=
  forall e, r = Err e -> ~ storage_failure e.

(** the registry only ever holds its three kinds of vertices *)
Definition typed (g : Graph) : Prop := forall i vd, g_vertices g !! i = Some vd ->
  vd_t vd = SCHEMA_VERTEX_TYPE \/ vd_t vd = SCHEMA_DEFINITION_VERTEX_TYPE \/
  vd_t vd = VIEW_VERTEX_TYPE.

(** a published version stays, with its definition *)
Definition history_kept `{SemVer} (g g' : Graph) : Prop := forall id i v def,
  g_version g id i = Some v -> g_vprop g i Definition_VALUE = Some def ->
  g_version g' id i = Some v /\ g_vprop g' i Definition_VALUE = Some def.

(** room for [n] more requests below the query limit *)
Definition room (n : nat) (g : Graph) : Prop :=
  (Z.of_nat (size (g_vertices g)) + 2 * Z.of_nat n <= u32_max)%Z /\
  (Z.of_nat (size (g_edges g)) + Z.of_nat n <= u32_max)%Z.

Section steps.
Context `{SemVerLaws, UuidLib, JsonSchemaLib, JmespathLib}.
Implicit Types (g : Graph) (id i j : Uuid).

Definition reg_steps : Graph -> Graph -> Prop := rtc (fun g g' => exists op, reg_step g op g').

#[export] Instance history_kept_preorder : PreOrder history_kept.
Proof.
  split.
  - by intros g id i v def.
  - intros g1 g2 g3 H12 H23 id i v def Hv Hd. destruct (H12 _ _ _ _ Hv Hd). by apply H23.
Qed.

Lemma g_vprop_new_vertex g i t ps j name x :
  g_vertices g !! i = None -> g_vprop g j name = Some x ->
  g_vprop (g_new_vertex i t ps g) j name = Some x.
Proof.
  unfold g_vprop. simpl. intros Hi. rewrite lookup_insert. case_decide; [|done].
  subst. by rewrite Hi.
Qed.

Lemma history_new_vertex g i t ps :
  g_vertices g !! i = None -> history_kept g (g_new_vertex i t ps g).
Proof.
  intros Hi id j v def Hv Hd. split; [|by apply g_vprop_new_vertex].
  by rewrite (g_version_edges _ g).
Qed.

Lemma history_add_definition g id i v full :
  wf_graph g -> g_vertices g !! i = None -> history_kept g (g_add_definition id i v full g).
Proof.
  intros Hwf Hi id' j w def Hw Hd. split.
  - rewrite g_version_add_definition. case_decide as Hij; [|done]. destruct Hij as [-> ->].
    apply wf_version_definition in Hw as [? Hx]; [|done].
    unfold g_vprop in Hx. by rewrite Hi in Hx.
  - by apply (g_vprop_new_vertex g).
Qed.

Lemma history_set_vprop g id name x :
  name <> Definition_VALUE -> history_kept g (g_set_vprop id name x g).
Proof.
  intros Hname id' i v def Hv Hd. split; [by rewrite (g_version_edges _ g)|].
  rewrite g_vprop_set_vprop_ne; auto.
Qed.

Lemma history_step g op g' : wf g -> reg_step g op g' -> history_kept g g'.
Proof.
  intros [Hwf Hver] Hstep.
  destruct Hstep as [s uuid id i full _ Hid _ Hi Hne| | | | |id s i full _ _ _ Hi
    |schema_id view uuid i _ _ Hi _|id u _ _]; try by apply history_set_vprop.
  - transitivity (g_new_vertex id SCHEMA_VERTEX_TYPE
      (schema_into_properties (new_schema_vertex s).1) g); [by apply history_new_vertex|].
    apply history_add_definition; [|simpl; by rewrite lookup_insert_ne].
    apply wf_new_vertex; [done|done|apply vertex_ok_schema].
  - by apply history_add_definition.
  - intros id j v def Hv Hd. split; [|by apply (g_vprop_new_vertex g)].
    rewrite g_version_new_edge, decide_False by done. by rewrite (g_version_edges _ g).
  - unfold schema_update_properties, g_set_vprops. simpl.
    destruct (vu_name u) as [n|], (vu_jmespath u) as [e|]; simpl; try done;
      repeat (etransitivity; [|by apply history_set_vprop]); done.
Qed.

Lemma typed_new_vertex g i t ps :
  typed g ->
  t = SCHEMA_VERTEX_TYPE \/ t = SCHEMA_DEFINITION_VERTEX_TYPE \/ t = VIEW_VERTEX_TYPE ->
  typed (g_new_vertex i t ps g).
Proof.
  intros Hg Ht j vd. simpl. rewrite lookup_insert. case_decide; [|apply Hg].
  intros ?. by simplify_eq.
Qed.

Lemma typed_set_vprop g i name x : typed g -> typed (g_set_vprop i name x g).
Proof.
  intros Hg j vd. rewrite lookup_set_vprop. case_decide; [|apply Hg].
  intros (vd' & Hvd & ->)%fmap_Some. by apply Hg in Hvd.
Qed.

Lemma typed_step g op g' : typed g -> reg_step g op g' -> typed g'.
Proof.
  intros Hg Hstep. destruct Hstep; try by apply typed_set_vprop.
  - apply (typed_new_vertex (g_new_vertex _ _ _ _)); [|auto]. apply typed_new_vertex; auto.
  - apply (typed_new_vertex _ _ _ [_]); auto.
  - apply (typed_new_vertex _ _ _ (view_into_properties _)); auto.
  - unfold schema_update_properties, g_set_vprops. simpl.
    destruct (vu_name u), (vu_jmespath u); simpl; repeat apply typed_set_vprop; done.
Qed.

Lemma size_insert_le {K A} `{Countable K} (m : gmap K A) k x : size (<[k := x]> m) <= S (size m).
Proof. rewrite map_size_insert. destruct (m !! k); simpl; lia. Qed.

Lemma size_alter {K A} `{Countable K} (f : A -> A) (m : gmap K A) k : size (alter f k m) = size m.
Proof.
  destruct (m !! k) as [x|] eqn:Hk; [|by rewrite alter_none].
  assert (alter f k m = <[k := f x]> m) as ->.
  { apply map_eq. intros j. rewrite lookup_alter, lookup_insert. case_decide; [|done].
    subst. by rewrite Hk. }
  rewrite map_size_insert, Hk. done.
Qed.

Lemma size_set_vprops g i ps : size (g_vertices (g_set_vprops i ps g)) = size (g_vertices g).
Proof.
  unfold g_set_vprops. revert g. induction ps as [|p ps IH]; intros g; [done|].
  cbn [foldl]. rewrite IH. simpl. apply size_alter.
Qed.

Lemma size_step g op g' : reg_step g op g' ->
  size (g_vertices g') <= 2 + size (g_vertices g) /\ size (g_edges g') <= 1 + size (g_edges g).
Proof.
  intros Hstep. destruct Hstep; unfold g_add_definition, g_new_edge, g_new_vertex, g_set_vprop;
    cbn [g_vertices g_edges]; rewrite ?size_alter.
  - split; [|apply size_insert_le]. etrans; [apply size_insert_le|].
    apply le_n_S, size_insert_le.
  - lia.
  - lia.
  - lia.
  - lia.
  - split; [|apply size_insert_le]. etrans; [apply size_insert_le|]. lia.
  - split; [|apply size_insert_le]. etrans; [apply size_insert_le|]. lia.
  - rewrite size_set_vprops, g_edges_set_vprops. lia.
Qed.

Lemma room_step n g op g' : room (S n) g -> reg_step g op g' -> room n g'.
Proof. intros [? ?] [? ?]%size_step. split; lia. Qed.
Lemma room_fits n g : room n g -> fits g.
Proof. intros [? ?]. split; lia. Qed.
Lemma room_pred n g : room (S n) g -> room n g.
Proof. intros [? ?]. split; lia. Qed.

Lemma steps_invariant g g' :
  reg_steps g g' -> wf g -> typed g -> wf g' /\ typed g' /\ history_kept g g'.
Proof.
  induction 1 as [g|g1 g2 g3 [op Hop] _ IH]; [done|]. intros Hwf Ht.
  destruct IH as (? & ? & ?); [by eapply wf_step|by eapply typed_step|].
  split_and!; [done..|]. etransitivity; [by eapply history_step|done].
Qed.
End steps.

(** ** Reads never fail for the storage of a reliable datastore *)

Section safe.
Context {D : Type} `{ReliableDatastore D, SemVerLaws, UuidLib, JsonSchemaLib, JmespathLib}.

Definition safe {A} (m : M D RegistryError A) : Prop :=
  forall d, wp m d (fun _ _ => True) (fun e _ => ~ storage_failure e).

Lemma safe_ret {A} (a : A) : safe (mret a).
Proof. done. Qed.
Lemma safe_fail {A} (e : RegistryError) : ~ storage_failure e -> safe (fail (A := A) e).
Proof. by intros He d. Qed.
Lemma safe_bind {A B} (m : M D RegistryError A) (f : A -> M D RegistryError B) :
  safe m -> (forall a, safe (f a)) -> safe (m ≫= f).
Proof.
  intros Hm Hf d. apply wp_bind. eapply wp_mono; [apply Hm| |done]. intros a d' _. apply Hf.
Qed.
Lemma safe_ok_or {A} (e : RegistryError) (o : option A) :
  ~ storage_failure e -> safe (lift (ok_or e o)).
Proof. intros He d. apply wp_lift; destruct o; simpl; intros ? [= <-]; done. Qed.
Lemma safe_try_map {A B} (f : A -> result RegistryError B) (l : list A) :
  (forall x e, f x = Err e -> ~ storage_failure e) -> safe (lift (try_map f l)).
Proof.
  intros Hf d. apply wp_lift; [done|]. intros e (x & _ & Hx)%try_map_Err. by eapply Hf.
Qed.
Lemma safe_connect : safe connect.
Proof.
  intros d. unfold connect. apply wp_reads; [done|]. pose proof (reliable_transaction d) as Hd.
  by destruct (ds_transaction d).
Qed.
Lemma safe_db_read {A} (f : D -> result string A) :
  (forall d, is_ok (f d) = true) -> safe (db_read f).
Proof. intros Hf d. apply wp_reads; [done|]. specialize (Hf d). by destruct (f d). Qed.
Lemma safe_db_op {A} (m : M D string A) :
  (forall d, is_ok (m d).2 = true) -> safe (db_op m).
Proof.
  intros Hm d. apply wp_with_err. unfold wp. specialize (Hm d).
  by destruct (m d) as [d' []].
Qed.
Lemma safe_for_each {A} (f : A -> M D RegistryError ()) l :
  (forall x, safe (f x)) -> safe (for_each f l).
Proof.
  intros Hf. induction l as [|x l IH]; simpl; [apply safe_ret|]. by apply safe_bind.
Qed.
End safe.

Create HintDb safe.
#[export] Hint Resolve safe_ret safe_fail safe_bind safe_ok_or safe_connect safe_db_read
  safe_db_op safe_for_each : safe.
#[export] Hint Resolve reliable_get_vertices reliable_get_all_vertex_properties
  reliable_get_vertex_properties reliable_get_edge_properties
  reliable_get_all_edge_properties reliable_set_vertex_properties reliable_create_vertex
  reliable_create_edge reliable_set_edge_properties : safe.
#[export] Hint Extern 1 (~ storage_failure _) => (intros []) : safe.

Section safe_readers.
Context {D : Type} `{ReliableDatastore D, SemVerLaws, UuidLib, JsonSchemaLib, JmespathLib}.

Lemma safe_get_schema id : safe (get_schema id).
Proof. unfold get_schema. auto 20 with safe. Qed.

Lemma safe_get_schema_versions id : safe (get_schema_versions id).
Proof.
  unfold get_schema_versions. apply safe_bind; [auto with safe|]. intros _.
  apply safe_bind; [auto with safe|]. intros l. apply safe_try_map.
  intros x e. destruct (version_from_value _); [done|]. intros [= <-]. auto with safe.
Qed.

Lemma safe_get_latest (id : VersionedUuid) : safe (get_latest_valid_schema_version id).
Proof.
  unfold get_latest_valid_schema_version. auto 10 using safe_get_schema_versions with safe.
Qed.

Lemma safe_get_schema_definition (id : VersionedUuid) : safe (get_schema_definition id).
Proof.
  unfold get_schema_definition. apply safe_bind; [auto with safe|]. intros _.
  apply safe_bind; [apply safe_get_latest|]. intros [v i]. auto 20 with safe.
Qed.

Lemma safe_ensure_schema_exists id : safe (ensure_schema_exists id).
Proof.
  unfold ensure_schema_exists. apply safe_bind; [auto with safe|]. intros _.
  apply safe_bind; [auto with safe|]. intros []; auto with safe.
Qed.

Lemma safe_set_vertex id ps : safe (set_vertex_properties id ps).
Proof. unfold set_vertex_properties. auto 10 with safe. Qed.

(** a safe reader that cannot be rejected returns *)
Lemma safe_returns {A} (m : M D RegistryError A) d (Q : A -> D -> Prop) (R : RegistryError -> D -> Prop) :
  safe m -> wp m d Q R -> (forall e d', R e d' -> storage_failure e) ->
  exists a d', m d = (d', Ok a) /\ Q a d'.
Proof.
  intros Hs Hwp HR. specialize (Hs d). unfold wp in *.
  destruct (m d) as [d' [a|e]]; [by eauto|]. by destruct Hs; eapply HR.
Qed.
End safe_readers.

Section serve.
Context {D : Type} `{DatastoreLaws D, SemVerLaws, UuidLib, JsonSchemaLib, JmespathLib}.

Lemma serve_steps ops (d d' : D) rs :
  wf (graph d) -> room (length ops) (graph d) ->
  serve ops d = (d', rs) -> Forall no_storage_failure rs ->
  reg_steps (graph d) (graph d') /\ wf (graph d') /\ length rs = length ops /\ fits (graph d').
Proof.
  revert d rs. induction ops as [|op ops IH]; intros d rs Hwf Hroom Hrun Hrs; simpl in Hrun.
  - simplify_eq. split_and!; [done..|by eapply room_fits].
  - destruct (run_op op d) as [d1 r] eqn:Hop. destruct (serve ops d1) as [d2 rs'] eqn:Hserve.
    simplify_eq. apply Forall_cons in Hrs as [Hr Hrs].
    pose proof (run_op_spec d op Hwf (room_fits _ _ Hroom)) as Hspec. unfold wp in Hspec.
    rewrite Hop in Hspec. destruct r as [[]|e].
    + edestruct IH as (? & ? & ? & ?); [| |done..|]; [by eapply wf_step|by eapply room_step|].
      split_and!; [|done|simpl; lia|done]. eapply rtc_l; eauto.
    + destruct Hspec as [Hs|[_ Hd1]]; [by destruct (Hr e)|].
      edestruct IH as (? & ? & ? & ?); [| |done..|]; rewrite ?Hd1; [done|by apply room_pred|].
      rewrite Hd1 in *. split_and!; [done..|simpl; lia|done].
Qed.
End serve.

(** ** Properties *)

Section properties.
Context {D : Type} `{DatastoreLaws D, SemVerLaws, UuidLib, JsonSchemaLib, JmespathLib}.

(** C2: a mutating request that succeeds performs exactly its transition of
    the property graph ([reg_step] lists, per request, the checks that passed
    and the vertices, properties and edges written), and the registry is
    well formed afterwards. *)
Theorem run_op_refines (d d' : D) op :
  wf (graph d) -> fits (graph d) -> run_op op d = (d', Ok ()) ->
  reg_step (graph d) op (graph d') /\ wf (graph d').
Proof.
  intros Hwf Hfits Hrun.
  pose proof (wp_ok _ _ _ _ _ _ (run_op_spec d op Hwf Hfits) Hrun) as Hstep.
  cbv beta in Hstep. split; [done|by eapply wf_step].
Qed.

(** C3: a mutating request that is turned down for anything but a storage
    failure is turned down for one of the reasons the registry documents
    (unknown id, taken id, invalid schema or view, version not greater, an
    unresolvable reference), which does hold of the stored data, and leaves
    the whole graph as it was. *)
Theorem run_op_rejects (d d' : D) op e :
  wf (graph d) -> fits (graph d) -> run_op op d = (d', Err e) -> ~ storage_failure e ->
  rejected (graph d) op e /\ graph d' = graph d.
Proof.
  intros Hwf Hfits Hrun He.
  by destruct (wp_err _ _ _ _ _ _ (run_op_spec d op Hwf Hfits) Hrun).
Qed.

(** C4: whatever sequence of requests clients send, accepted or rejected, the
    registry stays well formed as long as the storage does not fail: every
    vertex decodes, every edge joins existing vertices of the right kinds,
    every schema has a version and no two versions of a schema are equal. *)
Theorem serve_keeps_wf (d d' : D) ops rs :
  wf (graph d) -> room (length ops) (graph d) ->
  serve ops d = (d', rs) -> Forall no_storage_failure rs ->
  wf (graph d') /\ reg_steps (graph d) (graph d') /\ length rs = length ops.
Proof.
  intros Hwf Hroom Hrun Hrs. by destruct (serve_steps ops d d' rs Hwf Hroom Hrun Hrs) as (? & ? & ? & ?).
Qed.

(** C5: published definitions are immutable: as long as the storage does not
    fail, no sequence of requests removes a version of a schema or changes the
    definition it leads to. *)
Theorem serve_keeps_definitions (d d' : D) ops rs id i v def :
  wf (graph d) -> typed (graph d) -> room (length ops) (graph d) ->
  serve ops d = (d', rs) -> Forall no_storage_failure rs ->
  g_version (graph d) id i = Some v -> g_vprop (graph d) i Definition_VALUE = Some def ->
  g_version (graph d') id i = Some v /\ g_vprop (graph d') i Definition_VALUE = Some def.
Proof.
  intros Hwf Ht Hroom Hrun Hrs Hv Hd.
  destruct (serve_steps ops d d' rs Hwf Hroom Hrun Hrs) as (Hsteps & _).
  apply steps_invariant in Hsteps as (_ & _ & Hkept); [by apply Hkept|done..].
Qed.
End properties.

Section reading_back.
Context {D : Type} `{DatastoreLaws D, !ReliableDatastore D, SemVerLaws, UuidLib,
  JsonSchemaLib, JmespathLib}.

Lemma get_definition_wf (d : D) (id : VersionedUuid) v i def :
  wf (graph d) -> fits (graph d) ->
  latest (graph d) id v i -> (forall w j, latest (graph d) id w j -> j = i) ->
  g_vprop (graph d) i Definition_VALUE = Some def ->
  get_schema_definition id d = (d, Ok (mkSchemaDefinition v def)).
Proof.
  intros Hwf Hfits Hlatest Huniq Hdef.
  destruct (safe_returns (get_schema_definition id) d _ _ (safe_get_schema_definition id)
    (get_schema_definition_spec d id (wf_regular _ Hwf Hfits)))
    as ([w x] & d' & Hrun & -> & j & Hl & Hx).
  - intros e d' [-> [He|He]]; [done|]. exfalso.
    apply version_err_wf in He as [_ Hno]; [|apply Hwf].
    destruct Hlatest as (Hv & Hm & _). rewrite (Hno i v Hv) in Hm. done.
  - rewrite Hrun. simpl in *. pose proof (Huniq w j Hl) as ->.
    destruct Hl as (Hw & _), Hlatest as (Hv & _). rewrite Hw in Hv. by simplify_eq.
Qed.

(** the newest version is the unique latest one *)
Lemma latest_new_definition g id i v full :
  (forall j w, g_version g id j = Some w -> version_ltb w v = true) ->
  latest (g_add_definition id i v full g) (versioned_any id) v i /\
  forall w j, latest (g_add_definition id i v full g) (versioned_any id) w j -> j = i.
Proof.
  intros Hnew. unfold latest. simpl.
  assert (g_version (g_add_definition id i v full g) id i = Some v) as Hi
    by (by rewrite g_version_add_definition, decide_True).
  assert (forall j w, g_version (g_add_definition id i v full g) id j = Some w -> i <> j ->
    version_ltb w v = true) as Hlt.
  { intros j w. rewrite g_version_add_definition. case_decide; [by naive_solver|].
    intros; by eapply Hnew. }
  split.
  - split_and!; [done|apply req_any_matches|]. intros w j Hw _.
    destruct (decide (i = j)) as [<-|Hne].
    + rewrite Hi in Hw. simplify_eq. apply version_leb_refl.
    + by eapply version_ltb_leb, Hlt.
  - intros w j (Hw & _ & Hmax). destruct (decide (i = j)) as [|Hne]; [done|].
    exfalso. pose proof (Hlt j w Hw Hne) as Hwv.
    assert (version_leb v w = true) by (eapply Hmax; [exact Hi|apply req_any_matches]).
    unfold version_ltb in Hwv. by destruct (version_leb v w).
Qed.

Lemma g_vprop_add_definition g id i v full :
  g_vprop (g_add_definition id i v full g) i Definition_VALUE = Some full.
Proof. unfold g_vprop. simpl. by rewrite lookup_insert_eq. Qed.

(** C7: over a storage that does not fail, a new version is accepted only above
    every stored one, and from then on a client that asks for the schema without
    a version constraint gets exactly that version, with the references of the
    submitted definition resolved against the registry as it was. *)
Theorem add_version_becomes_latest (d d' : D) id s :
  wf (graph d) -> fits (graph d) -> fits (graph d') ->
  add_new_version_of_schema id s d = (d', Ok ()) ->
  (forall j v, g_version (graph d) id j = Some v -> version_ltb v (nv_version s) = true) /\
  exists full, resolved (graph d) (nv_definition s) full /\
    get_schema_definition (versioned_any id) d' =
      (d', Ok (mkSchemaDefinition (nv_version s) full)).
Proof.
  intros Hwf Hfits Hfits' Hrun.
  destruct (wp_ok _ _ _ _ _ _ (add_version_spec d id s Hwf Hfits) Hrun) as (i & full & Hid & Hnew & Hres & Hi & Hd').
  split; [done|]. exists full. split; [done|].
  destruct (latest_new_definition (graph d) id i (nv_version s) full Hnew) as [Hl Hu].
  apply (get_definition_wf _ _ _ i); rewrite ?Hd'; [| |done|done|apply g_vprop_add_definition].
  - eapply wf_step; [done|]. by apply step_add_version.
  - by rewrite <- Hd'.
Qed.

(** the state in which a call to [add_schema] leaves its schema *)
Lemma add_schema_back (d d' : D) s uuid id :
  wf (graph d) -> fits (graph d) -> fits (graph d') ->
  add_schema s uuid d = (d', Ok id) ->
  wf (graph d') /\ (forall u, uuid = Some u -> id = u) /\
  g_vertices (graph d') !! id = Some (mkVData SCHEMA_VERTEX_TYPE
    (collect_map (schema_into_properties (new_schema_vertex s).1))) /\
  exists i full, (forall j v, g_version (graph d') id j = Some v <-> j = i /\ v = version_new 1 0 0) /\
    g_vprop (graph d') i Definition_VALUE = Some full /\
    resolved (graph d) (ns_definition s) full /\
    get_schema_definition (versioned_any id) d' =
      (d', Ok (mkSchemaDefinition (version_new 1 0 0) full)).
Proof.
  intros Hwf Hfits Hfits' Hrun.
  destruct (wp_ok _ _ _ _ _ _ (add_schema_spec d s uuid Hwf Hfits) Hrun)
    as (i & full & Hres & Hid & Hu & Hi & Hne & Hd').
  assert (wf (graph d')) as Hwf' by (rewrite Hd'; by apply wf_add_schema).
  split_and!; [done|done|rewrite Hd'; simpl; by rewrite lookup_insert_ne, lookup_insert_eq|].
  exists i, full. split; [|split; [rewrite Hd'; apply g_vprop_add_definition|split; [done|]]].
  { intros j v. rewrite Hd', g_version_add_definition.
    rewrite (g_version_edges _ (graph d)) by done. case_decide as Hij; [naive_solver|].
    split; [|naive_solver]. intros Hv. by apply g_version_absent in Hv; [|apply Hwf|]. }
  edestruct (latest_new_definition (g_new_vertex id SCHEMA_VERTEX_TYPE
    (schema_into_properties (new_schema_vertex s).1) (graph d)) id i (version_new 1 0 0) full)
    as [Hl Hlu].
  { intros j w. rewrite (g_version_edges _ (graph d)) by done. intros Hw.
    by apply g_version_absent in Hw; [|apply Hwf|]. }
  apply (get_definition_wf _ _ _ i); rewrite ?Hd';
    [by rewrite <- Hd'|by rewrite <- Hd'|done|done|apply g_vprop_add_definition].
Qed.

Lemma get_schema_stored (d : D) id t s :
  g_vertices (graph d) !! id = Some (mkVData t (collect_map (schema_into_properties s))) ->
  get_schema id d = (d, Ok s).
Proof.
  intros Hv.
  destruct (safe_returns (get_schema id) d _ _ (safe_get_schema id) (get_schema_spec d id))
    as (x & d2 & -> & -> & vd & Hvd & Hx).
  - intros e d2 [-> [He|He]]; [done|]. exfalso.
    destruct He as [[_ He]|(_ & vd & Hvd & He)]; [congruence|].
    rewrite Hv in Hvd. injection Hvd as <-. simpl in He. by rewrite schema_of_new_map in He.
  - rewrite Hv in Hvd. injection Hvd as <-. simpl in Hx. rewrite schema_of_new_map in Hx.
    by simplify_eq.
Qed.

(** A schema just added is returned as it was submitted, under the id the
    call returned (the requested one if there was one), and its only
    definition is version 1.0.0 of the resolved definition. *)
Theorem add_schema_reads_back (d d' : D) s uuid id :
  wf (graph d) -> fits (graph d) -> fits (graph d') ->
  add_schema s uuid d = (d', Ok id) ->
  (forall u, uuid = Some u -> id = u) /\
  get_schema id d' = (d', Ok (new_schema_vertex s).1) /\
  exists full, resolved (graph d) (ns_definition s) full /\
    get_schema_definition (versioned_any id) d' =
      (d', Ok (mkSchemaDefinition (version_new 1 0 0) full)).
Proof.
  intros Hwf Hfits Hfits' Hrun.
  destruct (add_schema_back d d' s uuid id Hwf Hfits Hfits' Hrun) as (_ & Hu & Hv & i & full & _ & _ & Hdef).
  split; [done|]. split; [by eapply get_schema_stored|by exists full].
Qed.

Lemma get_definition_outcome (d : D) (id : VersionedUuid) :
  wf (graph d) -> fits (graph d) ->
  match get_schema_definition id d with
  | (d', Ok sd) => d' = d /\ exists i, latest (graph d) id (sd_version sd) i /\
      g_vprop (graph d) i Definition_VALUE = Some (sd_definition sd)
  | (d', Err e) => d' = d /\ e = NoVersionMatchesRequirement id /\
      forall i v, g_version (graph d) (vid_id id) i = Some v ->
        req_matches (vid_version_req id) v = false
  end.
Proof.
  intros Hwf Hfits.
  pose proof (get_schema_definition_spec d id (wf_regular _ Hwf Hfits)) as Hspec.
  pose proof (safe_get_schema_definition id d) as Hsafe. unfold wp in *.
  destruct (get_schema_definition id d) as [d' [sd|e]]; [done|].
  destruct Hspec as [-> [He|He]]; [done|]. split; [done|].
  apply version_err_wf; [apply Hwf|done].
Qed.
(** C8: asked for a schema under a version requirement, the registry returns
    the greatest stored version that meets it together with the definition
    stored for that very version; over a storage that does not fail, it fails
    exactly when no stored version meets the requirement. *)
Theorem get_schema_definition_greatest (d : D) (id : VersionedUuid) :
  wf (graph d) -> fits (graph d) ->
  match get_schema_definition id d with
  | (d', Ok sd) => d' = d /\ exists i, latest (graph d) id (sd_version sd) i /\
      g_vprop (graph d) i Definition_VALUE = Some (sd_definition sd)
  | (d', Err e) => d' = d /\ e = NoVersionMatchesRequirement id /\
      forall i v, g_version (graph d) (vid_id id) i = Some v ->
        req_matches (vid_version_req id) v = false
  end.
Proof. apply get_definition_outcome. Qed.
End reading_back.

(** ** The properties on concrete runs *)

Lemma wf_after {D} `{DatastoreLaws D, SemVerLaws, UuidLib, JsonSchemaLib, JmespathLib}
    (d d' : D) op :
  wf (graph d) -> fits (graph d) -> run_op op d = (d', Ok ()) -> wf (graph d').
Proof.
  intros Hwf Hfits Hrun.
  pose proof (wp_ok _ _ _ _ _ _ (run_op_spec d op Hwf Hfits) Hrun) as Hstep. cbv beta in Hstep. by eapply wf_step.
Qed.

Lemma typed_after {D} `{DatastoreLaws D, SemVerLaws, UuidLib, JsonSchemaLib, JmespathLib}
    (d d' : D) op :
  wf (graph d) -> typed (graph d) -> fits (graph d) -> run_op op d = (d', Ok ()) ->
  typed (graph d').
Proof.
  intros Hwf Hty Hfits Hrun.
  pose proof (wp_ok _ _ _ _ _ _ (run_op_spec d op Hwf Hfits) Hrun) as Hstep. cbv beta in Hstep.
  by eapply typed_step.
Qed.

Lemma typed_empty : typed empty_graph.
Proof. done. Qed.

Definition demo_schema : NewSchema :=
  mkNewSchema "orders" (Object {["type" := VString "object"]}) "orders.topic" "http://qs"
    DocumentStorage.
Definition ver (a b c : Z) : @Version semver_inst := (a, b, c).
Definition demo_version (v : @Version semver_inst) : NewSchemaVersion :=
  mkNewSchemaVersion v (Object {["title" := VString "v2"]}).
Definition demo_add : RegOp := OpAddSchema demo_schema (Some 7%N).
(** the store after adding the schema under the id 7 *)
Definition demo_state : MemoryDatastore := (run_op demo_add memory_default).1.
Definition demo_state2 : MemoryDatastore :=
  (run_op (OpAddSchemaVersion 7%N (demo_version (ver 1 2 0))) demo_state).1.
Definition demo_ops : list RegOp :=
  [ demo_add; OpAddSchemaVersion 7%N (demo_version (ver 1 2 0));
    OpAddSchemaVersion 7%N (demo_version (ver 1 1 0));
    OpAddViewToSchema 7%N (mkView "v" "a.b") None; OpUpdateSchemaName 8%N "x";
    OpUpdateSchemaType 7%N Timeseries ].

Lemma fits_compute (g : Graph) :
  (Z.of_nat (size (g_vertices g)) <=? u32_max)%Z && (Z.of_nat (size (g_edges g)) <=? u32_max)%Z
    = true -> fits g.
Proof. intros [? ?]%andb_true_iff. split; by apply Z.leb_le. Qed.

Lemma demo_state_wf : wf (graph demo_state).
Proof.
  apply (wf_after memory_default _ demo_add); [apply wf_empty|by apply fits_compute|].
  vm_eq.
Qed.
Lemma demo_state_fits : fits (graph demo_state).
Proof. apply fits_compute. vm_eq. Qed.
Lemma demo_state2_fits : fits (graph demo_state2).
Proof. apply fits_compute. vm_eq. Qed.
Lemma demo_state_typed : typed (graph demo_state).
Proof.
  apply (typed_after memory_default _ demo_add);
    [apply wf_empty|apply typed_empty|by apply fits_compute|vm_eq].
Qed.

Lemma run_op_refines_witness :
  reg_step (graph memory_default) demo_add (graph demo_state) /\ wf (graph demo_state).
Proof.
  apply (run_op_refines memory_default demo_state demo_add);
    [apply wf_empty|by apply fits_compute|vm_eq].
Defined.

Lemma run_op_rejects_witness :
  rejected (graph demo_state) (OpAddSchemaVersion 7%N (demo_version (ver 0 9 0)))
    (NewVersionMustBeGreatest 7%N (ver 1 0 0)) /\ graph demo_state = graph demo_state.
Proof.
  apply (run_op_rejects demo_state demo_state
    (OpAddSchemaVersion 7%N (demo_version (ver 0 9 0)))
    (NewVersionMustBeGreatest 7%N (ver 1 0 0)));
    [apply demo_state_wf|apply demo_state_fits|vm_eq|by intros []].
Defined.

Lemma demo_serve_ok :
  Forall no_storage_failure (serve demo_ops memory_default).2.
Proof.
  vm_compute (serve demo_ops memory_default).2.
  repeat constructor; intros e [=]; subst; intros [].
Qed.

Lemma serve_keeps_wf_witness :
  wf (graph (serve demo_ops memory_default).1) /\
  reg_steps (graph memory_default) (graph (serve demo_ops memory_default).1) /\
  length (serve demo_ops memory_default).2 = 6.
Proof.
  apply (serve_keeps_wf memory_default (serve demo_ops memory_default).1 demo_ops
    (serve demo_ops memory_default).2);
    [apply wf_empty|split; vm_compute; discriminate|by destruct (serve demo_ops memory_default)|
     apply demo_serve_ok].
Defined.

Lemma serve_keeps_definitions_witness :
  let d' := (serve [OpAddSchemaVersion 7%N (demo_version (ver 1 2 0))] demo_state).1 in
  g_version (graph d') 7%N 1000%N = Some (ver 1 0 0) /\
  g_vprop (graph d') 1000%N Definition_VALUE = Some (ns_definition demo_schema).
Proof.
  apply (serve_keeps_definitions demo_state
    (serve [OpAddSchemaVersion 7%N (demo_version (ver 1 2 0))] demo_state).1
    [OpAddSchemaVersion 7%N (demo_version (ver 1 2 0))] [Ok ()]);
    [apply demo_state_wf|apply demo_state_typed|split; vm_compute; discriminate|vm_eq
    |repeat constructor; by intros e|vm_eq|vm_eq].
Defined.

Lemma add_version_becomes_latest_witness :
  (forall j v, g_version (graph demo_state) 7%N j = Some v ->
     version_ltb v (ver 1 2 0) = true) /\
  exists full, resolved (graph demo_state) (nv_definition (demo_version (ver 1 2 0))) full /\
    get_schema_definition (versioned_any 7%N) demo_state2 =
      (demo_state2, Ok (mkSchemaDefinition (ver 1 2 0) full)).
Proof.
  apply (add_version_becomes_latest demo_state demo_state2 7%N (demo_version (ver 1 2 0)));
    [apply demo_state_wf|apply demo_state_fits|apply demo_state2_fits|vm_eq].
Defined.

Lemma add_schema_reads_back_witness :
  (forall u, Some 7%N = Some u -> 7%N = u) /\
  get_schema 7%N demo_state = (demo_state, Ok (new_schema_vertex demo_schema).1) /\
  exists full, resolved (graph memory_default) (ns_definition demo_schema) full /\
    get_schema_definition (versioned_any 7%N) demo_state =
      (demo_state, Ok (mkSchemaDefinition (version_new 1 0 0) full)).
Proof.
  apply (add_schema_reads_back memory_default demo_state demo_schema (Some 7%N) 7%N);
    [apply wf_empty|by apply fits_compute|apply demo_state_fits|vm_eq].
Defined.

Lemma get_schema_definition_greatest_witness :
  match get_schema_definition (versioned_any 7%N) demo_state with
  | (d', Ok sd) => d' = demo_state /\ exists i,
      latest (graph demo_state) (versioned_any 7%N) (sd_version sd) i /\
      g_vprop (graph demo_state) i Definition_VALUE = Some (sd_definition sd)
  | (d', Err e) => d' = demo_state /\ e = NoVersionMatchesRequirement (versioned_any 7%N) /\
      forall i v, g_version (graph demo_state) 7%N i = Some v -> req_matches req_any v = false
  end.
Proof.
  apply (get_schema_definition_greatest demo_state (versioned_any 7%N));
    [apply demo_state_wf|apply demo_state_fits].
Defined.
