(* ===== verification/RegistryExport.v ===== *)
(** Import and export: [export_all] and [import_all] of
    [crates/schema-registry/src/db.rs], the description of a registry that an
    export is, and the round trip between two registries. *)
From stdpp Require Import prelude gmap strings list fin_maps.
From S2P Require Import Prelude Json Externals Indradb RegistryTypes SchemaDb SchemaDbSpec.
From S2P Require Import Registry Instances RegistryRun.

(** ** What an export says of a graph *)

Definition holds_vertices {V} (t : VType) (of_map : gmap string Value -> option V)
    (m : gmap Uuid V) (g : Graph) : Prop :=
  forall i v, m !! i = Some v <-> exists vd,
    g_vertices g !! i = Some vd /\ vd_t vd = t /\ of_map (vd_props vd) = Some v.

Definition sd_edge_key `{SemVer} (e : SchemaDefinitionEdge) : EdgeKey :=
  sd_key (sde_schema_id e) (sde_definition_id e).
Definition sv_edge_key (e : SchemaViewEdge) : EdgeKey := sv_key (sve_schema_id e) (sve_view_id e).

Record describes `{SemVer} (x : DbExport) (g : Graph) : Prop := {
  desc_schemas : holds_vertices SCHEMA_VERTEX_TYPE schema_of_map (ex_schemas x) g;
  desc_definitions :
    holds_vertices SCHEMA_DEFINITION_VERTEX_TYPE definition_of_map (ex_definitions x) g;
  desc_views : holds_vertices VIEW_VERTEX_TYPE view_of_map (ex_views x) g;
  desc_versions s i v :
    mkSchemaDefinitionEdge s i v ∈ ex_schema_definitions x <-> g_version g s i = Some v;
  desc_versions_nodup : NoDup (sd_edge_key <$> ex_schema_definitions x);
  desc_view_edges s i :
    mkSchemaViewEdge s i ∈ ex_schema_views x <-> is_Some (g_edges g !! sv_key s i);
  desc_view_edges_nodup : NoDup (sv_edge_key <$> ex_schema_views x);
}.

(** the same registry content, the edge lists in any order *)
Record export_equiv `{SemVer} (x y : DbExport) : Prop := {
  eqv_schemas : ex_schemas x = ex_schemas y;
  eqv_definitions : ex_definitions x = ex_definitions y;
  eqv_views : ex_views x = ex_views y;
  eqv_versions : ex_schema_definitions x ≡ₚ ex_schema_definitions y;
  eqv_view_edges : ex_schema_views x ≡ₚ ex_schema_views y;
}.

#[export] Instance export_equiv_equivalence `{SemVer} : Equivalence export_equiv.
Proof.
  split.
  - by intros x.
  - intros x y []. by split.
  - intros x y z [] []. split; by etransitivity.
Qed.

Section describes.
Context `{SemVerLaws}.

Lemma holds_vertices_unique {V} t of_map (m m' : gmap Uuid V) g :
  holds_vertices t of_map m g -> holds_vertices t of_map m' g -> m = m'.
Proof.
  intros Hm Hm'. apply map_eq. intros i. apply option_eq. intros v. by rewrite (Hm i v), (Hm' i v).
Qed.

Lemma describes_unique x y g : describes x g -> describes y g -> export_equiv x y.
Proof.
  intros [S1 D1 V1 E1 N1 W1 K1] [S2 D2 V2 E2 N2 W2 K2]. split.
  - by eapply holds_vertices_unique.
  - by eapply holds_vertices_unique.
  - by eapply holds_vertices_unique.
  - apply NoDup_Permutation; [by eapply NoDup_fmap_1|by eapply NoDup_fmap_1|].
    intros [s i v]. by rewrite E1, E2.
  - apply NoDup_Permutation; [by eapply NoDup_fmap_1|by eapply NoDup_fmap_1|].
    intros [s i]. by rewrite W1, W2.
Qed.

#[export] Instance describes_proper :
  Proper (export_equiv ==> eq ==> iff) describes.
Proof.
  assert (forall x y g, export_equiv x y -> describes x g -> describes y g) as Himp.
  { intros x y g [Hs Hd Hv He Hw] [S1 D1 V1 E1 N1 W1 K1]. split.
    - by rewrite <- Hs.
    - by rewrite <- Hd.
    - by rewrite <- Hv.
    - intros s i v. by rewrite <- He.
    - by rewrite <- He.
    - intros s i. by rewrite <- Hw.
    - by rewrite <- Hw. }
  intros x y Hxy g ? <-. split; apply Himp; [done|by symmetry].
Qed.
End describes.

(** ** Export *)

Section export.
Context {D : Type} `{DatastoreLaws D, SemVerLaws, UuidLib, JsonSchemaLib, JmespathLib}.
Implicit Types (d : D).

Lemma all_vertices d t l :
  fits (graph d) ->
  ds_get_all_vertex_properties (RangeVertexQuery u32_max (Some t)) d = Ok l ->
  NoDup ((fun vp => v_id (vp_vertex vp)) <$> l) /\
  forall vp, vp ∈ l -> exists vd, g_vertices (graph d) !! v_id (vp_vertex vp) = Some vd /\
    vd_t vd = t /\ props_of (vd_props vd) (vp_props vp).
Proof.
  intros [Hfits _] Hl. apply get_all_vertex_properties_law in Hl as (ids & (Hnd & Hs & _) & Hl).
  split.
  - assert ((fun vp => v_id (vp_vertex vp)) <$> l = ids) as ->; [|done].
    clear Hnd Hs. induction Hl as [|i vp ids l (vd & _ & Hv & _) _ IH]; [done|].
    cbn. by rewrite Hv, IH.
  - intros vp Hvp. eapply Forall2_flip, Forall2_forall_elem in Hl as (i & Hi & vd & Hvd & Hv & Hps);
      [|done].
    destruct (Hs i Hi) as (vd' & Hvd' & Ht). simplify_eq. exists vd. rewrite Hv. simpl in *. auto.
Qed.

Lemma all_vertices_complete d t l i vd :
  fits (graph d) ->
  ds_get_all_vertex_properties (RangeVertexQuery u32_max (Some t)) d = Ok l ->
  g_vertices (graph d) !! i = Some vd -> vd_t vd = t ->
  exists ps, mkVertexProperties (mkIVertex i t) ps ∈ l /\ props_of (vd_props vd) ps.
Proof.
  intros [Hfits _] Hl Hvd Ht.
  apply get_all_vertex_properties_law in Hl as (ids & (_ & _ & Hc) & Hl).
  eapply Forall2_forall_elem in Hl as ([v ps] & Hin & vd' & Hvd' & Hv & Hps); [|by eapply Hc].
  simpl in *. simplify_eq. eauto.
Qed.

(** listing the vertices of a type and decoding each *)
Lemma decode_all {V} (entry : VertexProperties -> result RegistryError (Uuid * V))
    (of_map : gmap string Value -> option V) d t l :
  (forall v m ps, props_of m ps ->
    match entry (mkVertexProperties v ps) with
    | Ok p => p.1 = v_id v /\ of_map m = Some p.2
    | Err _ => of_map m = None
    end) ->
  fits (graph d) -> (forall i vd, g_vertices (graph d) !! i = Some vd -> vd_t vd = t ->
    is_Some (of_map (vd_props vd))) ->
  ds_get_all_vertex_properties (RangeVertexQuery u32_max (Some t)) d = Ok l ->
  exists k, try_map entry l = Ok k /\ holds_vertices t of_map (collect_map k) (graph d).
Proof.
  intros Hentry Hfits Hok Hl.
  destruct (all_vertices d t l Hfits Hl) as [Hnd Hsound].
  destruct (try_map entry l) as [k|e] eqn:Hk.
  2: { exfalso. apply try_map_Err in Hk as ([v ps] & Hin & He).
       destruct (Hsound _ Hin) as (vd & Hvd & Ht & Hps). specialize (Hentry v _ _ Hps).
       simpl in *. rewrite He in Hentry. destruct (Hok _ _ Hvd Ht). congruence. }
  exists k. split; [done|]. apply try_map_Ok in Hk.
  assert (k.*1 = (fun vp => v_id (vp_vertex vp)) <$> l) as Hids.
  { clear Hnd Hl. revert Hsound. induction Hk as [|[v ps] p l k Hp _ IH]; intros Hsound; [done|].
    cbn. destruct (Hsound (mkVertexProperties v ps)) as (vd & _ & _ & Hps); [set_solver|].
    specialize (Hentry v _ _ Hps). cbn in Hentry. rewrite Hp in Hentry. destruct Hentry as [-> _].
    f_equal. apply IH. intros vp Hvp. apply Hsound. set_solver. }
  intros i v. rewrite lookup_collect_map by (by rewrite Hids). split.
  - intros Hin. eapply Forall2_flip, Forall2_forall_elem in Hk as ([w ps] & Hvp & Hp); [|done].
    destruct (Hsound _ Hvp) as (vd & Hvd & Ht & Hps). specialize (Hentry w _ _ Hps).
    cbn in Hentry. rewrite Hp in Hentry. destruct Hentry as [Hi Hv]. simpl in *. subst i. eauto.
  - intros (vd & Hvd & Ht & Hv).
    destruct (all_vertices_complete d t l i vd Hfits Hl Hvd Ht) as (ps & Hin & Hps).
    specialize (Hentry (mkIVertex i t) _ _ Hps).
    eapply Forall2_forall_elem in Hk as ([j w] & Hjw & Hp); [|done].
    rewrite Hp in Hentry. simpl in Hentry. destruct Hentry as [-> Hw].
    rewrite Hv in Hw. by simplify_eq.
Qed.

Lemma all_edges d t l :
  regular (graph d) ->
  ds_get_all_edge_properties (PipeEdgeQuery (RangeVertexQuery u32_max None) u32_max (Some t)) d
    = Ok l ->
  NoDup (ep_key <$> l) /\
  (forall ep, ep ∈ l -> exists ps, g_edges (graph d) !! ep_key ep = Some ps /\
     ek_t (ep_key ep) = t /\ props_of ps (ep_props ep)) /\
  (forall k ps, g_edges (graph d) !! k = Some ps -> ek_t k = t ->
     exists l', mkEdgeProperties k l' ∈ l /\ props_of ps l').
Proof.
  intros [[Hfv Hfe] Hclosed] Hl.
  apply get_all_edge_properties_law in Hl as (keys & (ids & (_ & _ & Hids) & Hnd & Hs & Hc) & Hl).
  split_and!.
  - assert (ep_key <$> l = keys) as ->; [|done].
    clear Hnd Hs Hc. induction Hl as [|k ep keys l (ps & _ & Hk & _) _ IH]; [done|].
    cbn. by rewrite Hk, IH.
  - intros ep Hep. eapply Forall2_flip, Forall2_forall_elem in Hl as (k & Hk & ps & Hps & He & Hp);
      [|done].
    destruct (Hs k Hk) as (_ & _ & Ht). simpl in Ht. subst. eauto.
  - intros k ps Hk Ht.
    assert (k ∈ keys) as Hin.
    { apply Hc; [done|by eexists| |done]. destruct (Hclosed k) as [[vd Hvd] _]; [by eexists|].
      by eapply Hids. }
    eapply Forall2_forall_elem in Hl as ([k' l'] & Hin' & ps' & Hps' & He & Hp); [|done].
    simpl in *. subst. simplify_eq. eauto.
Qed.

Lemma decode_version_edges d l :
  wf_graph (graph d) -> fits (graph d) ->
  ds_get_all_edge_properties (PipeEdgeQuery (RangeVertexQuery u32_max None) u32_max
    (Some SCHEMA_DEFINITION_EDGE_TYPE)) d = Ok l ->
  exists k, try_map schema_definition_entry l = Ok k /\ NoDup (sd_edge_key <$> k) /\
    forall s i v, mkSchemaDefinitionEdge s i v ∈ k <-> g_version (graph d) s i = Some v.
Proof.
  intros Hwf Hfits Hl.
  destruct (all_edges d _ l (conj Hfits (wf_closed _ Hwf)) Hl) as (Hnd & Hsound & Hcomplete).
  assert (forall ep, ep ∈ l -> exists v, schema_definition_entry ep =
    Ok (mkSchemaDefinitionEdge (outbound_id (ep_key ep)) (inbound_id (ep_key ep)) v) /\
    g_version (graph d) (outbound_id (ep_key ep)) (inbound_id (ep_key ep)) = Some v) as Hentry.
  { intros [[o t i] ps'] Hin. destruct (Hsound _ Hin) as (ps & Hk & Ht & Hps). simpl in *. subst t.
    destruct (wf_version_edges _ Hwf _ _ Hk eq_refl) as [[v Hv] _]. exists v.
    unfold schema_definition_entry.
    rewrite (schema_definition_from_properties_spec _ _ _ Hps), Hv. split; [done|].
    unfold g_version, g_eprop, sd_key. by rewrite Hk. }
  destruct (try_map schema_definition_entry l) as [k|e] eqn:Hk.
  2: { exfalso. apply try_map_Err in Hk as (ep & Hin & He).
       destruct (Hentry ep Hin) as (v & Hv & _). by rewrite Hv in He. }
  exists k. split; [done|]. apply try_map_Ok in Hk. split.
  - assert (sd_edge_key <$> k = ep_key <$> l) as ->; [|done].
    clear Hnd Hl Hcomplete. revert Hsound Hentry.
    induction Hk as [|ep x l k Hx _ IH]; intros Hsound Hentry; [done|]. cbn.
    destruct (Hentry ep) as (v & Hv & _); [set_solver|]. rewrite Hx in Hv. simplify_eq.
    f_equal; [|apply IH; intros ? ?; [apply Hsound|apply Hentry]; set_solver].
    destruct (Hsound ep) as (_ & _ & Ht & _); [set_solver|].
    destruct ep as [[o t i] ps]. simpl in *. by subst.
  - intros s i v. split.
    + intros Hin. eapply Forall2_flip, Forall2_forall_elem in Hk as (ep & Hep & Hx); [|done].
      destruct (Hentry ep Hep) as (w & Hw & Hg). rewrite Hx in Hw. by simplify_eq.
    + intros Hv. pose proof Hv as Hv'. unfold g_version, g_eprop in Hv'.
      destruct (g_edges (graph d) !! sd_key s i) as [ps|] eqn:He; [|done].
      destruct (Hcomplete _ _ He eq_refl) as (l' & Hin & _).
      eapply Forall2_forall_elem in Hk as (x & Hx & Hr); [|done].
      destruct (Hentry _ Hin) as (w & Hw & Hg). simpl in *. rewrite Hr in Hw. simplify_eq. done.
Qed.

Lemma decode_view_edges d l :
  regular (graph d) ->
  ds_get_all_edge_properties (PipeEdgeQuery (RangeVertexQuery u32_max None) u32_max
    (Some SCHEMA_VIEW_EDGE_TYPE)) d = Ok l ->
  exists k, try_map schema_view_entry l = Ok k /\ NoDup (sv_edge_key <$> k) /\
    forall s i, mkSchemaViewEdge s i ∈ k <-> is_Some (g_edges (graph d) !! sv_key s i).
Proof.
  intros Hreg Hl. destruct (all_edges d _ l Hreg Hl) as (Hnd & Hsound & Hcomplete).
  eexists. split; [by apply (try_map_all_ok _ (fun ep =>
    mkSchemaViewEdge (outbound_id (ep_key ep)) (inbound_id (ep_key ep))))|]. split.
  - assert (sv_edge_key <$> ((fun ep => mkSchemaViewEdge (outbound_id (ep_key ep))
      (inbound_id (ep_key ep))) <$> l) = ep_key <$> l) as ->; [|done].
    rewrite <- list_fmap_compose. apply list_fmap_ext. intros n ep Hep.
    apply list_elem_of_lookup_2 in Hep. destruct (Hsound ep Hep) as (_ & _ & Ht & _).
    destruct ep as [[o t i] ps]. simpl in *. by subst.
  - intros s i. rewrite list_elem_of_fmap. split.
    + intros ([[o t j] ps] & [= -> ->] & Hin). destruct (Hsound _ Hin) as (ps' & Hk & Ht & _).
      simpl in *. subst t. by exists ps'.
    + intros [ps Hk]. destruct (Hcomplete _ _ Hk eq_refl) as (l' & Hin & _).
      by exists (mkEdgeProperties (sv_key s i) l').
Qed.

(** the three vertex kinds decode in a well-formed graph *)
Lemma decode_schemas d l :
  wf_graph (graph d) -> fits (graph d) ->
  ds_get_all_vertex_properties (RangeVertexQuery u32_max (Some SCHEMA_VERTEX_TYPE)) d = Ok l ->
  exists k, try_map schema_entry l = Ok k /\
    holds_vertices SCHEMA_VERTEX_TYPE schema_of_map (collect_map k) (graph d).
Proof.
  intros Hwf Hfits. apply decode_all; [|done|].
  - intros v m ps Hps. unfold schema_entry. rewrite (schema_from_properties_spec v m ps Hps).
    by destruct (schema_of_map m).
  - intros i vd Hvd Ht. by apply (wf_vertices _ Hwf i vd Hvd).
Qed.

Lemma decode_definitions d l :
  wf_graph (graph d) -> fits (graph d) ->
  ds_get_all_vertex_properties
    (RangeVertexQuery u32_max (Some SCHEMA_DEFINITION_VERTEX_TYPE)) d = Ok l ->
  exists k, try_map definition_entry l = Ok k /\
    holds_vertices SCHEMA_DEFINITION_VERTEX_TYPE definition_of_map (collect_map k) (graph d).
Proof.
  intros Hwf Hfits. apply decode_all; [|done|].
  - intros v m ps Hps. unfold definition_entry.
    rewrite (definition_from_properties_spec v m ps Hps). by destruct (definition_of_map m).
  - intros i vd Hvd Ht. by apply (wf_vertices _ Hwf i vd Hvd).
Qed.

Lemma decode_views d l :
  wf_graph (graph d) -> fits (graph d) ->
  ds_get_all_vertex_properties (RangeVertexQuery u32_max (Some VIEW_VERTEX_TYPE)) d = Ok l ->
  exists k, try_map view_entry l = Ok k /\
    holds_vertices VIEW_VERTEX_TYPE view_of_map (collect_map k) (graph d).
Proof.
  intros Hwf Hfits. apply decode_all; [|done|].
  - intros v m ps Hps. unfold view_entry. rewrite (view_from_properties_spec v m ps Hps).
    by destruct (view_of_map m).
  - intros i vd Hvd Ht. by apply (wf_vertices _ Hwf i vd Hvd).
Qed.

Lemma lift_ok {A B} (x : A) (f : A -> M D RegistryError B) r d Q R :
  r = Ok x -> wp (f x) d Q R -> wp (lift r ≫= f) d Q R.
Proof. intros ->. done. Qed.

Lemma export_all_spec d :
  wf (graph d) -> fits (graph d) ->
  wp export_all d (fun x d' => d' = d /\ describes x (graph d)) (read_err d (fun _ => False)).
Proof.
  intros [Hwf _] Hfits. unfold export_all.
  apply wp_bind, wp_connect; [|by intros; apply read_err_storage].
  apply wp_bind, wp_db_read; [|by intros; apply read_err_storage].
  intros ld (kd & Hkd & Hd)%decode_definitions; [|done..].
  apply wp_bind, wp_db_read; [|by intros; apply read_err_storage].
  intros ls (ks & Hks & Hs)%decode_schemas; [|done..].
  apply wp_bind, wp_db_read; [|by intros; apply read_err_storage].
  intros lv (kv & Hkv & Hv)%decode_views; [|done..].
  apply wp_bind, wp_db_read; [|by intros; apply read_err_storage].
  intros le (ke & Hke & Hne & He)%decode_version_edges; [|done..].
  apply wp_bind, wp_db_read; [|by intros; apply read_err_storage].
  intros lw (kw & Hkw & Hnw & Hw)%decode_view_edges; [|by split; [|apply Hwf]].
  do 5 (eapply lift_ok; [eassumption|]). apply wp_ret. split; [done|]. by split.
Qed.
End export.

(** ** Import *)

(** the vertices and edges that importing entry after entry adds *)
Definition g_import_vertices {V} `{VertexTrait V} (l : list (Uuid * V)) (g : Graph) : Graph :=
  foldl (fun g p => g_new_vertex p.1 (vertex_db_type V) (into_properties p.2) g) g l.
Definition g_import_edges {E} `{EdgeTrait E} (l : list E) (g : Graph) : Graph :=
  foldl (fun g e => g_link (edge_info e).1 (edge_info e).2 g) g l.

Section import_graph.
Implicit Types (g : Graph) (i : Uuid).

Lemma import_vertices_edges {V} `{VertexTrait V} (l : list (Uuid * V)) g :
  g_edges (g_import_vertices l g) = g_edges g.
Proof. unfold g_import_vertices. revert g. induction l as [|p l IH]; intros g; [done|]. cbn [foldl]. by rewrite IH. Qed.

Lemma import_vertices_notin {V} `{VertexTrait V} (l : list (Uuid * V)) g i :
  i ∉ l.*1 -> g_vertices (g_import_vertices l g) !! i = g_vertices g !! i.
Proof.
  unfold g_import_vertices. revert g. induction l as [|p l IH]; intros g Hi; [done|]. cbn [foldl].
  apply not_elem_of_cons in Hi as [? ?]. rewrite IH by done. simpl. by rewrite lookup_insert_ne.
Qed.

Lemma import_vertices_in {V} `{VertexTrait V} (l : list (Uuid * V)) g i v :
  NoDup l.*1 -> (i, v) ∈ l ->
  g_vertices (g_import_vertices l g) !! i =
    Some (mkVData (vertex_db_type V) (collect_map (into_properties v))).
Proof.
  unfold g_import_vertices. revert g. induction l as [|p l IH]; intros g Hnd Hin; [set_solver|].
  apply NoDup_cons in Hnd as [Hp Hnd]. cbn [foldl].
  apply elem_of_cons in Hin as [<-|Hin]; [|by apply IH].
  etransitivity; [by apply (import_vertices_notin l)|]. simpl. by rewrite lookup_insert_eq.
Qed.

(** importing a map adds exactly its entries *)
Lemma import_map_lookup {V} `{VertexTrait V} (m : gmap Uuid V) l g i :
  l ≡ₚ map_to_list m ->
  g_vertices (g_import_vertices l g) !! i =
    match m !! i with
    | Some v => Some (mkVData (vertex_db_type V) (collect_map (into_properties v)))
    | None => g_vertices g !! i
    end.
Proof.
  intros Hl. assert (NoDup l.*1) by (rewrite Hl; apply NoDup_fst_map_to_list).
  destruct (m !! i) as [v|] eqn:Hi.
  - apply import_vertices_in; [done|]. rewrite Hl. by apply elem_of_map_to_list.
  - apply import_vertices_notin. rewrite Hl. intros ([j v] & -> & Hin)%list_elem_of_fmap.
    apply elem_of_map_to_list in Hin. simpl in *. congruence.
Qed.

Lemma import_edges_spec {E} `{EdgeTrait E} (l : list E) g :
  NoDup ((fun e => (edge_info e).1) <$> l) ->
  (forall e, e ∈ l -> is_Some (g_vertices g !! outbound_id (edge_info e).1) /\
     is_Some (g_vertices g !! inbound_id (edge_info e).1) /\
     g_edges g !! (edge_info e).1 = None) ->
  g_vertices (g_import_edges l g) = g_vertices g /\
  (forall e, e ∈ l ->
     g_edges (g_import_edges l g) !! (edge_info e).1 = Some (collect_map (edge_info e).2)) /\
  (forall k, (forall e, e ∈ l -> (edge_info e).1 <> k) ->
     g_edges (g_import_edges l g) !! k = g_edges g !! k).
Proof.
  unfold g_import_edges. revert g. induction l as [|e l IH]; intros g Hnd Hok.
  - split_and!; [done|set_solver|done].
  - apply NoDup_cons in Hnd as [He Hnd].
    destruct (Hok e) as (Ho & Hi & Hk); [set_solver|]. cbn [foldl].
    rewrite g_link_fresh by done.
    assert (forall e', e' ∈ l -> (edge_info e).1 <> (edge_info e').1) as Hne.
    { intros e' He' Heq. apply He. rewrite Heq. apply list_elem_of_fmap. eauto. }
    destruct (IH (g_new_edge (edge_info e).1 (edge_info e).2 g) Hnd) as (Hv & Hin & Hout).
    { intros e' He'. destruct (Hok e') as (? & ? & ?); [set_solver|].
      split_and!; [done..|]. simpl. rewrite lookup_insert_ne; auto. }
    split_and!.
    + by rewrite Hv.
    + intros e' [->|He']%elem_of_cons; [|by apply Hin].
      rewrite Hout by (intros e' He' Heq; by apply (Hne e')). simpl. by rewrite lookup_insert_eq.
    + intros k Hk'. rewrite Hout by set_solver. simpl. rewrite lookup_insert_ne; [done|].
      apply Hk'. set_solver.
Qed.
End import_graph.

Section import.
Context {D : Type} `{DatastoreLaws D, SemVerLaws, UuidLib, JsonSchemaLib, JmespathLib,
  HashIter, !HashIterLaws}.
Implicit Types (d : D).

Lemma import_vertices_loop {V} `{VertexTrait V} (l : list (Uuid * V)) d :
  NoDup l.*1 -> (forall i, i ∈ l.*1 -> g_vertices (graph d) !! i = None) ->
  wp (for_each (fun p : Uuid * V =>
        create_vertex_with_properties p.2 (Some p.1) ;; mret ()) l) d
    (fun _ d' => graph d' = g_import_vertices l (graph d)) (fun e _ => storage_failure e).
Proof.
  intros Hnd Hfresh. eapply wp_mono.
  - apply (wp_for_each _ _ (fun l' s => NoDup l'.*1 /\
      (forall i, i ∈ l'.*1 -> g_vertices (graph s) !! i = None) /\
      g_import_vertices l' (graph s) = g_import_vertices l (graph d)) d
      (fun e _ => storage_failure e)); [done|].
    intros [i v] l' s (Hnd' & Hf & Heq). apply NoDup_cons in Hnd' as [Hi Hnd'].
    apply wp_bind. eapply wp_mono; [apply create_vertex_spec| |].
    + intros j s' (_ & Hj & Hs'). specialize (Hj i eq_refl). subst j. apply wp_ret.
      rewrite Hs'. split_and!; [done| |done]. intros j Hj. simpl.
      rewrite lookup_insert_ne by (intros ->; done). apply Hf. set_solver.
    + intros e s' [He|[(u & [= <-] & _ & Hu) _]]; [done|]. exfalso.
      rewrite (Hf i) in Hu by set_solver. by destruct Hu.
  - intros [] d' (_ & _ & Hd'). by rewrite <- Hd'.
  - done.
Qed.

Lemma import_edges_loop {E} `{EdgeTrait E} (l : list E) d :
  wp (for_each set_edge_properties l) d
    (fun _ d' => graph d' = g_import_edges l (graph d)) (fun e _ => storage_failure e).
Proof.
  eapply wp_mono.
  - apply (wp_for_each _ _ (fun l' s => g_import_edges l' (graph s) = g_import_edges l (graph d))
      d (fun e _ => storage_failure e)); [done|].
    intros e l' s Heq. eapply wp_mono; [apply (set_edge_spec _ _ (fun _ => False))| |].
    + intros [] s' Hs'. rewrite Hs'. exact Heq.
    + intros e' s' [He|[[] _]]. done.
  - intros [] d' Hd'. by rewrite <- Hd'.
  - done.
Qed.

Definition g_import (x : DbExport) (g : Graph) : Graph :=
  g_import_edges (ex_schema_views x) (g_import_edges (ex_schema_definitions x)
    (g_import_vertices (hash_iter (ex_views x)) (g_import_vertices (hash_iter (ex_definitions x))
      (g_import_vertices (hash_iter (ex_schemas x)) g)))).

Lemma hash_iter_NoDup {A} (m : gmap Uuid A) : NoDup (hash_iter m).*1.
Proof. rewrite hash_iter_perm. apply NoDup_fst_map_to_list. Qed.
Lemma hash_iter_elem {A} (m : gmap Uuid A) i : i ∈ (hash_iter m).*1 <-> is_Some (m !! i).
Proof.
  rewrite hash_iter_perm, list_elem_of_fmap. split.
  - intros ([j a] & -> & Hin%elem_of_map_to_list). by eexists.
  - intros [a Ha]. exists (i, a). by rewrite elem_of_map_to_list.
Qed.

(** the three kinds of imported vertices have different ids *)
Definition disjoint_ids (x : DbExport) : Prop := forall i,
  (is_Some (ex_schemas x !! i) -> ex_definitions x !! i = None /\ ex_views x !! i = None) /\
  (is_Some (ex_definitions x !! i) -> ex_views x !! i = None).

Lemma describes_disjoint x g : describes x g -> disjoint_ids x.
Proof.
  intros Hx i. split.
  - intros [s (vd & Hvd & Ht & _)%(desc_schemas _ _ Hx)]. split; apply eq_None_not_Some.
    + intros [y (vd' & ? & Ht' & _)%(desc_definitions _ _ Hx)]. simplify_eq. by rewrite Ht in Ht'.
    + intros [y (vd' & ? & Ht' & _)%(desc_views _ _ Hx)]. simplify_eq. by rewrite Ht in Ht'.
  - intros [s (vd & Hvd & Ht & _)%(desc_definitions _ _ Hx)]. apply eq_None_not_Some.
    intros [y (vd' & ? & Ht' & _)%(desc_views _ _ Hx)]. simplify_eq. by rewrite Ht in Ht'.
Qed.

Lemma get_all_schema_names_empty d :
  graph d = empty_graph ->
  wp get_all_schema_names d (fun m d' => d' = d /\ m = ∅) (fun e _ => storage_failure e).
Proof.
  intros Hd. unfold get_all_schema_names. apply wp_bind, wp_connect; [|done].
  apply wp_bind, wp_db_read; [|done]. intros l Hl.
  apply get_vertex_properties_law in Hl as (ids & (_ & Hs & _) & ->).
  rewrite Hd in Hs. destruct ids as [|i ids].
  - apply wp_bind. by apply wp_ret.
  - destruct (Hs i) as (vd & Hvd & _); [set_solver|done].
Qed.

Lemma import_all_spec (x : DbExport) d :
  disjoint_ids x -> graph d = empty_graph ->
  wp (import_all x) d (fun _ d' => graph d' = g_import x empty_graph)
    (fun e _ => storage_failure e).
Proof.
  intros Hdisj Hd. unfold import_all. apply wp_bind.
  eapply wp_mono; [by apply get_all_schema_names_empty| |done].
  intros m d0 [-> ->]. rewrite decide_True by done.
  apply wp_bind. eapply wp_mono; [apply import_vertices_loop; [apply hash_iter_NoDup|]| |done].
  { by rewrite Hd. }
  intros [] d1 Hd1. apply wp_bind.
  eapply wp_mono; [apply import_vertices_loop; [apply hash_iter_NoDup|]| |done].
  { intros i Hi%hash_iter_elem. rewrite Hd1, Hd, import_vertices_notin; [done|].
    rewrite hash_iter_elem. intros Hs. apply Hdisj in Hs as [Hs _]. rewrite Hs in Hi.
    by destruct Hi. }
  intros [] d2 Hd2. apply wp_bind.
  eapply wp_mono; [apply import_vertices_loop; [apply hash_iter_NoDup|]| |done].
  { intros i Hi%hash_iter_elem. rewrite Hd2, Hd1, Hd, !import_vertices_notin; [done| |];
      rewrite hash_iter_elem; intros Hs; apply Hdisj in Hs; destruct Hi; destruct_and?; congruence. }
  intros [] d3 Hd3. apply wp_bind. eapply wp_mono; [apply import_edges_loop| |done].
  intros [] d4 Hd4. eapply wp_mono; [apply import_edges_loop| |done].
  intros [] d5 Hd5. unfold g_import. by rewrite Hd5, Hd4, Hd3, Hd2, Hd1, Hd.
Qed.
End import.

(** ** The imported registry *)

Section imported.
Context `{SemVerLaws, HashIter, !HashIterLaws}.
Implicit Types (g : Graph) (i : Uuid).

(** the vertices an export stands for *)
Definition x_vertex (x : DbExport) i : option VData :=
  match ex_schemas x !! i, ex_definitions x !! i, ex_views x !! i with
  | Some s, _, _ => Some (mkVData SCHEMA_VERTEX_TYPE (collect_map (schema_into_properties s)))
  | _, Some d, _ =>
      Some (mkVData SCHEMA_DEFINITION_VERTEX_TYPE (collect_map (definition_into_properties d)))
  | _, _, Some v => Some (mkVData VIEW_VERTEX_TYPE (collect_map (view_into_properties v)))
  | _, _, _ => None
  end.

Lemma x_vertex_types x g i :
  wf_graph g -> typed g -> describes x g -> g_type g i = vd_t <$> x_vertex x i.
Proof.
  intros Hwf Hty Hx. unfold g_type, x_vertex.
  destruct (ex_schemas x !! i) as [s|] eqn:Hs.
  { apply (desc_schemas _ _ Hx) in Hs as (vd & -> & Ht & _). simpl. by f_equal. }
  destruct (ex_definitions x !! i) as [s'|] eqn:Hd.
  { apply (desc_definitions _ _ Hx) in Hd as (vd & -> & Ht & _). simpl. by f_equal. }
  destruct (ex_views x !! i) as [v|] eqn:Hv.
  { apply (desc_views _ _ Hx) in Hv as (vd & -> & Ht & _). simpl. by f_equal. }
  destruct (g_vertices g !! i) as [vd|] eqn:Hi; [|done]. exfalso.
  destruct (wf_vertices g Hwf i vd Hi) as (H1' & H2' & H3').
  destruct (Hty i vd Hi) as [Ht|[Ht|Ht]].
  - destruct (H1' Ht) as [s Hs']. assert (ex_schemas x !! i = Some s); [|congruence].
    apply (desc_schemas _ _ Hx). eauto.
  - destruct (H2' Ht) as [s Hs']. assert (ex_definitions x !! i = Some s); [|congruence].
    apply (desc_definitions _ _ Hx). eauto.
  - destruct (H3' Ht) as [s Hs']. assert (ex_views x !! i = Some s); [|congruence].
    apply (desc_views _ _ Hx). eauto.
Qed.

Lemma version_edge_exists g s i v : g_version g s i = Some v -> is_Some (g_edges g !! sd_key s i).
Proof.
  unfold g_version, g_eprop. destruct (g_edges g !! sd_key s i); [by eexists|done].
Qed.

Lemma fmap_is_Some_vd (o : option VData) (o' : option VData) :
  vd_t <$> o = vd_t <$> o' -> is_Some o <-> is_Some o'.
Proof. rewrite <- (fmap_is_Some vd_t o), <- (fmap_is_Some vd_t o'). by intros ->. Qed.

Lemma x_endpoints x g k :
  wf_graph g -> typed g -> describes x g -> is_Some (g_edges g !! k) ->
  is_Some (x_vertex x (outbound_id k)) /\ is_Some (x_vertex x (inbound_id k)).
Proof.
  intros Hwf Hty Hx Hk. destruct (wf_closed g Hwf k Hk) as [Ho Hi].
  pose proof (x_vertex_types x g (outbound_id k) Hwf Hty Hx) as H1'.
  pose proof (x_vertex_types x g (inbound_id k) Hwf Hty Hx) as H2'. unfold g_type in *.
  by rewrite <- (fmap_is_Some_vd _ _ H1'), <- (fmap_is_Some_vd _ _ H2').
Qed.

Definition g_import_all_vertices (x : DbExport) : Graph :=
  g_import_vertices (hash_iter (ex_views x)) (g_import_vertices (hash_iter (ex_definitions x))
    (g_import_vertices (hash_iter (ex_schemas x)) empty_graph)).

Lemma imported_vertex x i :
  disjoint_ids x -> g_vertices (g_import_all_vertices x) !! i = x_vertex x i.
Proof.
  intros Hdisj. unfold g_import_all_vertices.
  rewrite !(import_map_lookup _ _ _ _ (hash_iter_perm _)). unfold x_vertex.
  destruct (Hdisj i) as [H1' H2'].
  destruct (ex_schemas x !! i) as [s|].
  { by destruct H1' as [-> ->]. }
  destruct (ex_definitions x !! i) as [s'|]; [by rewrite H2'|].
  by destruct (ex_views x !! i).
Qed.

Lemma g_import_lookup x g :
  wf_graph g -> typed g -> describes x g ->
  (forall i, g_vertices (g_import x empty_graph) !! i = x_vertex x i) /\
  (forall s i v, g_version g s i = Some v ->
     g_edges (g_import x empty_graph) !! sd_key s i =
       Some (collect_map [(SchemaDefinition_VERSION, version_to_value v)])) /\
  (forall s i, is_Some (g_edges g !! sv_key s i) ->
     g_edges (g_import x empty_graph) !! sv_key s i = Some ∅) /\
  (forall k, g_edges g !! k = None -> g_edges (g_import x empty_graph) !! k = None) /\
  (forall k, ek_t k <> SCHEMA_DEFINITION_EDGE_TYPE -> ek_t k <> SCHEMA_VIEW_EDGE_TYPE ->
     g_edges (g_import x empty_graph) !! k = None).
Proof.
  intros Hwf Hty Hx. pose proof (describes_disjoint x g Hx) as Hdisj.
  unfold g_import. fold (g_import_all_vertices x). set (g0 := g_import_all_vertices x).
  assert (forall i, g_vertices g0 !! i = x_vertex x i) as Hg0
    by (intros; by apply imported_vertex).
  assert (g_edges g0 = ∅) as He0 by (unfold g0, g_import_all_vertices; by rewrite !import_vertices_edges).
  destruct (import_edges_spec (ex_schema_definitions x) g0) as (Hv1 & Hin1 & Hout1).
  { rewrite (list_fmap_ext _ sd_edge_key); [apply (desc_versions_nodup _ _ Hx)|done]. }
  { intros [s i v] Hin%(desc_versions _ _ Hx)%version_edge_exists. simpl.
    rewrite !Hg0, He0. destruct (x_endpoints x g _ Hwf Hty Hx Hin). done. }
  set (g1 := g_import_edges (ex_schema_definitions x) g0) in *.
  destruct (import_edges_spec (ex_schema_views x) g1) as (Hv2 & Hin2 & Hout2).
  { rewrite (list_fmap_ext _ sv_edge_key); [apply (desc_view_edges_nodup _ _ Hx)|done]. }
  { intros [s i] Hin%(desc_view_edges _ _ Hx). simpl. rewrite Hv1, !Hg0.
    destruct (x_endpoints x g _ Hwf Hty Hx Hin). split_and!; [done..|].
    rewrite Hout1; [by rewrite He0|done]. }
  split_and!.
  - intros i. by rewrite Hv2, Hv1.
  - intros s i v Hv. rewrite Hout2 by done.
    apply (Hin1 (mkSchemaDefinitionEdge s i v)). by apply (desc_versions _ _ Hx).
  - intros s i Hk. apply (Hin2 (mkSchemaViewEdge s i)). by apply (desc_view_edges _ _ Hx).
  - intros k Hk. rewrite Hout2, Hout1, He0; [done| |].
    + intros [s i v] Hin%(desc_versions _ _ Hx)%version_edge_exists <-. destruct Hin.
      unfold sd_key in *. simpl in *. congruence.
    + intros [s i] Hin%(desc_view_edges _ _ Hx) <-. destruct Hin.
      unfold sv_key in *. simpl in *. congruence.
  - intros k Hsd Hsv. rewrite Hout2, Hout1, He0; [done| |].
    + by intros [s i v] _ <-.
    + by intros [s i] _ <-.
Qed.

(** every decoded vertex of the imported graph is the imported one *)
Lemma import_describes x g :
  wf_graph g -> typed g -> describes x g -> describes x (g_import x empty_graph).
Proof.
  intros Hwf Hty Hx. pose proof (describes_disjoint x g Hx) as Hdisj.
  destruct (g_import_lookup x g Hwf Hty Hx) as (Hv & Hsd & Hsv & Hnone & _).
  assert (forall s i v, g_version g s i = Some v <->
    g_version (g_import x empty_graph) s i = Some v) as Hver.
  { intros s i v. destruct (g_version g s i) as [w|] eqn:Hw.
    - unfold g_version, g_eprop. rewrite (Hsd s i w Hw). cbn [mbind option_bind].
      pose proof (version_of_new_map w) as Hn. unfold version_of_map in Hn. by rewrite Hn.
    - unfold g_version, g_eprop. destruct (g_edges g !! sd_key s i) as [ps|] eqn:Hk.
      + exfalso. destruct (wf_version_edges g Hwf _ _ Hk eq_refl) as [[u Hu] _].
        unfold g_version, g_eprop in Hw. rewrite Hk in Hw. unfold version_of_map in Hu.
        simpl in Hw. congruence.
      + rewrite (Hnone _ Hk). done. }
  destruct Hx as [S1 D1 V1 E1 N1 W1 K1]. split; [| | | |done| |done].
  - intros i s. rewrite Hv. unfold x_vertex. split.
    + intros ->. eexists. split_and!; [done..|]. apply schema_of_new_map.
    + intros (vd & Hvd & Ht & Hs). destruct (ex_schemas x !! i) as [s0|].
      * injection Hvd as <-. simpl in Hs. by rewrite schema_of_new_map in Hs.
      * destruct (ex_definitions x !! i), (ex_views x !! i); simplify_eq; done.
  - intros i s. rewrite Hv. unfold x_vertex. destruct (Hdisj i) as [H1' H2']. split.
    + intros Hs. destruct (ex_schemas x !! i) as [s0|]; [destruct H1'; [done|congruence]|].
      rewrite Hs. eexists. split_and!; [done..|]. by destruct s.
    + intros (vd & Hvd & Ht & Hs). destruct (ex_schemas x !! i) as [s0|]; [by simplify_eq|].
      destruct (ex_definitions x !! i) as [[y]|]; [by simplify_eq|].
      by destruct (ex_views x !! i); simplify_eq.
  - intros i s. rewrite Hv. unfold x_vertex. destruct (Hdisj i) as [H1' H2']. split.
    + intros Hs. destruct (ex_schemas x !! i) as [s0|]; [destruct H1'; [done|congruence]|].
      destruct (ex_definitions x !! i) as [y|]; [by rewrite H2' in Hs|].
      rewrite Hs. eexists. split_and!; [done..|]. apply view_of_new_map.
    + intros (vd & Hvd & Ht & Hs). destruct (ex_schemas x !! i) as [s0|]; [by simplify_eq|].
      destruct (ex_definitions x !! i) as [y|]; [by simplify_eq|].
      destruct (ex_views x !! i) as [y|]; [|done]. simplify_eq. simpl in Hs.
      by rewrite view_of_new_map in Hs.
  - intros s i v. by rewrite E1, Hver.
  - intros s i. rewrite W1. split.
    + intros Hk. rewrite (Hsv s i Hk). by eexists.
    + intros Hk. destruct (g_edges g !! sv_key s i) eqn:Hk'; [by eexists|].
      rewrite (Hnone _ Hk') in Hk. by destruct Hk.
Qed.
End imported.

Section imported_wf.
Context `{SemVerLaws, HashIter, !HashIterLaws}.
Implicit Types (g : Graph) (i : Uuid).

Lemma size_le_dom {K A B} `{Countable K} (m : gmap K A) (m' : gmap K B) :
  (forall k, is_Some (m !! k) -> is_Some (m' !! k)) -> size m <= size m'.
Proof.
  intros Hincl. rewrite <- !length_map_to_list, <- !(length_fmap fst). apply NoDup_length_le.
  - apply NoDup_fst_map_to_list.
  - intros k ([k' a] & -> & Hin%elem_of_map_to_list)%list_elem_of_fmap.
    destruct (Hincl k') as [b Hb]; [by eexists|]. apply list_elem_of_fmap.
    exists (k', b). by rewrite elem_of_map_to_list.
Qed.

Lemma import_version x g s i v :
  wf_graph g -> typed g -> describes x g ->
  g_version (g_import x empty_graph) s i = Some v <-> g_version g s i = Some v.
Proof.
  intros Hwf Hty Hx. rewrite <- (desc_versions _ _ Hx).
  by rewrite (desc_versions _ _ (import_describes x g Hwf Hty Hx)).
Qed.

Lemma import_type x g i :
  wf_graph g -> typed g -> describes x g -> g_type (g_import x empty_graph) i = g_type g i.
Proof.
  intros Hwf Hty Hx. rewrite (x_vertex_types x g) by done. unfold g_type.
  by rewrite (proj1 (g_import_lookup x g Hwf Hty Hx)).
Qed.

Lemma import_edge x g k :
  wf_graph g -> typed g -> describes x g ->
  is_Some (g_edges (g_import x empty_graph) !! k) -> is_Some (g_edges g !! k).
Proof.
  intros Hwf Hty Hx Hk. destruct (g_import_lookup x g Hwf Hty Hx) as (_ & _ & _ & Hnone & _).
  destruct (g_edges g !! k) eqn:Hg; [by eexists|]. rewrite (Hnone k Hg) in Hk. by destruct Hk.
Qed.

Lemma import_wf x g :
  wf g -> typed g -> fits g -> describes x g ->
  wf (g_import x empty_graph) /\ typed (g_import x empty_graph) /\ fits (g_import x empty_graph).
Proof.
  intros [Hwf Hver] Hty [Hfv Hfe] Hx.
  destruct (g_import_lookup x g Hwf Hty Hx) as (Hv & Hsd & _).
  assert (forall i vd, g_vertices (g_import x empty_graph) !! i = Some vd -> vertex_ok vd /\
    (vd_t vd = SCHEMA_VERTEX_TYPE \/ vd_t vd = SCHEMA_DEFINITION_VERTEX_TYPE \/
     vd_t vd = VIEW_VERTEX_TYPE)) as Hok.
  { intros i vd. rewrite Hv. unfold x_vertex.
    destruct (ex_schemas x !! i); [intros [= <-]; auto using vertex_ok_schema|].
    destruct (ex_definitions x !! i);
      [intros [= <-]; split; [apply vertex_ok_definition|auto]|].
    destruct (ex_views x !! i); intros [= <-]. auto using vertex_ok_view. }
  split_and!; [split; [split|]| |split].
  - intros i vd Hvd. by apply Hok in Hvd as [? _].
  - intros k Hk%(import_edge x g k Hwf Hty Hx). rewrite !Hv. by eapply x_endpoints.
  - intros k ps Hk Ht. rewrite (import_type x g) by done.
    destruct (import_edge x g k Hwf Hty Hx) as [ps' Hps']; [by eexists|].
    destruct (wf_version_edges g Hwf k ps' Hps' Ht) as [[v Hv'] Hi]. split; [|done].
    destruct k as [s t i]. simpl in Ht. subst t.
    assert (Some ps = Some (collect_map [(SchemaDefinition_VERSION, version_to_value v)]))
      as [= ->].
    { rewrite <- Hk. apply (Hsd s i v). unfold g_version, g_eprop, sd_key. by rewrite Hps'. }
    rewrite version_of_new_map. by eexists.
  - intros k Hk Ht. rewrite (import_type x g) by done.
    apply (wf_view_edges g Hwf); [by eapply import_edge|done].
  - intros id i j v w. rewrite !(import_version x g) by done. apply (wf_versions_distinct g Hwf).
  - intros id. rewrite (import_type x g) by done. intros Hid.
    destruct (Hver id Hid) as (i & v & Hiv). exists i, v. by apply (import_version x g).
  - intros i vd Hvd. by apply Hok in Hvd as [_ ?].
  - etrans; [|exact Hfv]. apply Nat2Z.inj_le, size_le_dom. intros i [vd Hi].
    pose proof (import_type x g i Hwf Hty Hx) as Ht. unfold g_type in Ht. rewrite Hi in Ht.
    simpl in Ht. apply eq_sym, fmap_Some in Ht as (vd' & -> & _). by eexists.
  - etrans; [|exact Hfe]. apply Nat2Z.inj_le, size_le_dom. intros k. by apply import_edge.
Qed.
End imported_wf.

(** ** Properties *)

Section properties.
Context {D : Type} `{DatastoreLaws D, !ReliableDatastore D, SemVerLaws, UuidLib, JsonSchemaLib,
  JmespathLib, HashIter, !HashIterLaws}.
Implicit Types (d : D).

Lemma safe_create_vertex {V} `{VertexTrait V} (v : V) u :
  safe (create_vertex_with_properties v (Some u) : M D RegistryError Uuid).
Proof.
  unfold create_vertex_with_properties. apply safe_bind; [auto with safe|]. intros _.
  apply safe_bind; [apply safe_bind; [auto with safe|]; intros []; auto with safe|].
  intros i. apply safe_bind; [|auto with safe]. apply safe_for_each. auto with safe.
Qed.

Lemma safe_set_edge {E} `{EdgeTrait E} (e : E) :
  safe (set_edge_properties e : M D RegistryError ()).
Proof.
  unfold set_edge_properties. apply safe_bind; [auto with safe|]. intros _.
  destruct (edge_info e) as [k ps]. apply safe_bind; [auto with safe|]. intros _.
  apply safe_for_each. auto with safe.
Qed.

Lemma safe_names : safe (get_all_schema_names : M D RegistryError _).
Proof.
  unfold get_all_schema_names. apply safe_bind; [auto with safe|]. intros _.
  apply safe_bind; [auto with safe|]. intros l. apply safe_bind; [|auto with safe].
  apply safe_try_map. intros x e. destruct (string_from_value _); [done|].
  intros [= <-]. auto with safe.
Qed.

Lemma safe_import (x : DbExport) : safe (import_all x : M D RegistryError ()).
Proof.
  unfold import_all. apply safe_bind; [apply safe_names|]. intros m.
  case_decide; [|auto with safe].
  repeat (apply safe_bind; [apply safe_for_each; intros; apply safe_bind;
    [apply safe_create_vertex|auto with safe]|intros _]).
  apply safe_bind; [|intros _]; apply safe_for_each; intros; apply safe_set_edge.
Qed.

Lemma safe_export : safe (export_all : M D RegistryError DbExport).
Proof.
  unfold export_all. apply safe_bind; [auto with safe|]. intros _.
  do 5 (apply safe_bind; [auto with safe|]; intros ?).
  repeat (apply safe_bind; [apply safe_try_map; intros p e|intros ?]); try apply safe_ret;
    unfold definition_entry, schema_entry, view_entry, schema_definition_entry, schema_view_entry;
    try (destruct p; discriminate);
    match goal with |- ok_or _ ?o = _ -> _ => destruct o end; intros [=]; subst; by intros [].
Qed.

Lemma export_import_back d1 d1' x d2 :
  wf (graph d1) -> typed (graph d1) -> fits (graph d1) -> export_all d1 = (d1', Ok x) ->
  graph d2 = empty_graph ->
  exists d3 x', import_all x d2 = (d3, Ok ()) /\ wf (graph d3) /\
    export_all d3 = (d3, Ok x') /\ export_equiv x x'.
Proof.
  intros Hwf Hty Hfits Hexport Hd2.
  destruct (wp_ok _ _ _ _ _ _ (export_all_spec d1 Hwf Hfits) Hexport) as [_ Hx].
  destruct (import_wf x _ Hwf Hty Hfits Hx) as (Hwf3 & Hty3 & Hfits3).
  destruct (safe_returns (import_all x) d2 _ _ (safe_import x)
    (import_all_spec x d2 (describes_disjoint _ _ Hx) Hd2)) as ([] & d3 & Himport & Hd3); [done|].
  simpl in Hd3. rewrite <- Hd3 in Hwf3, Hfits3.
  destruct (safe_returns export_all d3 _ _ safe_export (export_all_spec d3 Hwf3 Hfits3))
    as (x' & d4 & Hexport3 & -> & Hx').
  { by intros e d' [-> [He|[]]]. }
  exists d3, x'. split_and!; [done..|]. apply (describes_unique _ _ (graph d3)); [|done].
  rewrite Hd3. apply (import_describes x (graph d1)); [apply Hwf|done..].
Qed.

(** C9: export and import are a round trip over a storage that does not fail.  The export of a well-formed
    registry, imported into an empty one, produces a well-formed registry
    whose own export has the same schemas, definitions and views under the
    same ids and the same version and view links. *)
Theorem export_import_export d1 d1' x d2 :
  wf (graph d1) -> typed (graph d1) -> fits (graph d1) -> export_all d1 = (d1', Ok x) ->
  graph d2 = empty_graph ->
  exists d3 x', import_all x d2 = (d3, Ok ()) /\ wf (graph d3) /\
    export_all d3 = (d3, Ok x') /\ export_equiv x x'.
Proof. apply export_import_back. Qed.

(** importing into a registry that already has a schema changes nothing
    and reports success. *)
Theorem import_nonempty_ignored d id (x : DbExport) :
  wf (graph d) -> fits (graph d) -> g_type (graph d) id = Some SCHEMA_VERTEX_TYPE ->
  import_all x d = (d, Ok ()).
Proof.
  intros [Hwf _] [Hfits _] Hid. unfold g_type in Hid. apply fmap_Some in Hid as (vd & Hvd & Ht).
  destruct (wf_vertices _ Hwf id vd Hvd) as (Hs & _). destruct (Hs (eq_sym Ht)) as [s Hs'].
  assert (wp (get_all_schema_names) d (fun m d' => d' = d /\ m <> ∅)
    (fun e d' => storage_failure e)) as Hwp.
  { unfold get_all_schema_names. apply wp_bind, wp_connect; [|done].
    apply wp_bind, wp_db_read; [|done]. intros l Hl.
    apply get_vertex_properties_law in Hl as (ids & (Hnd & Hsound & Hcomplete) & ->).
    assert (forall i, i ∈ ids -> exists n, g_vprop (graph d) i Schema_NAME = Some (VString n))
      as Hname.
    { intros i Hi. destruct (Hsound i Hi) as (vd' & Hvd' & Ht').
      destruct (wf_vertices _ Hwf i vd' Hvd') as (Hok & _). simpl in Ht'.
      apply eq_sym, Hok, schema_of_map_is_Some in Ht' as ((n & Hn) & _).
      unfold g_vprop. rewrite Hvd'. simpl. unfold string_from_value, as_str in Hn.
      destruct (vd_props vd' !! Schema_NAME) as [[]|]; simplify_eq/=. eauto. }
    apply wp_bind, wp_lift.
    - intros k Hk. apply wp_ret. split; [done|]. apply try_map_Ok in Hk.
      assert (id ∈ ids) as Hin by (eapply Hcomplete; [done|exact Hvd|done]).
      destruct (Hname id Hin) as [n Hn].
      eapply Forall2_forall_elem in Hk as ([j y] & Hy & _).
      2: { apply list_elem_of_omap. exists id. split; [done|]. rewrite Hn. done. }
      intros Hempty. destruct (collect_map_is_Some k j) as [b Hb].
      { apply list_elem_of_fmap. by exists (j, y). }
      by rewrite Hempty in Hb.
    - intros e He. exfalso. apply try_map_Err in He as (p & Hp & He).
      apply list_elem_of_omap in Hp as (i & Hi & Hp). destruct (Hname i Hi) as [n Hn].
      rewrite Hn in Hp. simpl in Hp. injection Hp as <-. done. }
  destruct (safe_returns get_all_schema_names d _ _ safe_names Hwp) as (m & d' & Hrun & -> & Hm);
    [done|].
  unfold import_all, mbind, M_bind. rewrite Hrun. by rewrite decide_False.
Qed.
End properties.

Definition demo_export : DbExport :=
  match (export_all demo_state2).2 with Ok x => x | Err _ => mkDbExport _ ∅ ∅ ∅ [] [] end.

Lemma demo_state2_wf : wf (graph demo_state2).
Proof.
  apply (wf_after demo_state _ (OpAddSchemaVersion 7%N (demo_version (ver 1 2 0))));
    [apply demo_state_wf|apply demo_state_fits|vm_eq].
Qed.
Lemma demo_state2_typed : typed (graph demo_state2).
Proof.
  apply (typed_after demo_state _ (OpAddSchemaVersion 7%N (demo_version (ver 1 2 0))));
    [apply demo_state_wf|apply demo_state_typed|apply demo_state_fits|vm_eq].
Qed.

Lemma export_import_export_witness :
  exists (d3 : MemoryDatastore) x', import_all demo_export memory_default = (d3, Ok ()) /\
    wf (graph d3) /\ export_all d3 = (d3, Ok x') /\ export_equiv demo_export x'.
Proof.
  apply (export_import_export demo_state2 demo_state2 demo_export memory_default);
    [apply demo_state2_wf|apply demo_state2_typed|apply demo_state2_fits|vm_eq|done].
Defined.

Lemma import_nonempty_ignored_witness : import_all demo_export demo_state = (demo_state, Ok ()).
Proof.
  apply (import_nonempty_ignored demo_state 7%N demo_export);
    [apply demo_state_wf|apply demo_state_fits|vm_eq].
Defined.
