(* ===== verification/RegistryTyped.v ===== *)
(** Type soundness of the stored data: whatever requests a registry has served,
    its readers find every stored schema, definition, view and version in the
    form they decode. *)
From stdpp Require Import prelude gmap strings list fin_maps.
From S2P Require Import Prelude Json Externals Indradb RegistryTypes SchemaDb SchemaDbSpec.
From S2P Require Import Registry Instances RegistryRun RegistryExport.

Section readers.
Context {D : Type} `{DatastoreLaws D, SemVerLaws, UuidLib, JsonSchemaLib, JmespathLib}.
Implicit Types (d : D) (g : Graph) (id : Uuid).

(** a reader that only the storage can make fail *)
Definition sure {A} (m : M D RegistryError A) d : Prop :=
  wp m d (fun _ d' => d' = d) (fun e _ => storage_failure e).

Lemma sure_read {A} (m : M D RegistryError A) d (Q : A -> Prop) (P : RegistryError -> Prop) :
  wp m d (fun a d' => d' = d /\ Q a) (read_err d P) -> (forall e, P e -> storage_failure e) -> sure m d.
Proof.
  intros Hwp HP. eapply wp_mono; [exact Hwp| |]; cbv beta.
  - by intros a d' [-> _].
  - intros e d' [_ [He|He]]; [done|by apply HP].
Qed.

Lemma sure_db_read {A B} (f : D -> result string A) (k : A -> M D RegistryError B) d :
  (forall a, f d = Ok a -> sure (k a) d) -> sure (connect ;; x ← db_read f; k x) d.
Proof.
  intros Hk. unfold sure. apply wp_bind, wp_connect; [|done]. apply wp_bind, wp_db_read; [|done]. apply Hk.
Qed.

Lemma schema_decodes g id :
  wf_graph g -> g_type g id = Some SCHEMA_VERTEX_TYPE ->
  exists vd, g_vertices g !! id = Some vd /\ is_Some (schema_of_map (vd_props vd)).
Proof.
  intros Hwf Ht. unfold g_type in Ht. apply fmap_Some in Ht as (vd & Hvd & Ht). exists vd. split; [done|].
  by apply (wf_vertices g Hwf id vd Hvd).
Qed.

(** every reader of a registry that holds [g] *)
Definition readers_sure d : Prop :=
  (forall id, g_type (graph d) id = Some SCHEMA_VERTEX_TYPE ->
     sure (get_schema id) d /\ sure (get_schema_topic id) d /\
     sure (get_schema_query_address id) d /\ sure (get_schema_type id) d /\
     sure (get_schema_definition (versioned_any id)) d /\ sure (get_all_views_of_schema id) d) /\
  (forall id, g_type (graph d) id = Some VIEW_VERTEX_TYPE -> sure (get_view id) d) /\
  (forall id, sure (get_schema_versions id) d) /\
  sure get_all_schemas d /\ sure get_all_schema_names d /\ sure export_all d.

Lemma sure_get_schema d id :
  wf_graph (graph d) -> g_type (graph d) id = Some SCHEMA_VERTEX_TYPE -> sure (get_schema id) d.
Proof.
  intros Hwf Ht. destruct (schema_decodes _ _ Hwf Ht) as (vd & Hvd & Hs).
  eapply sure_read; [apply get_schema_spec|]. intros e [[_ Hn]|(_ & vd' & Hvd' & Hn)]; simplify_eq.
  by rewrite Hn in Hs; destruct Hs.
Qed.

Lemma sure_get_metadata {T} d id name (from_value : Value -> option T) :
  is_Some (g_vprop (graph d) id name ≫= from_value) -> sure (get_metadata id name from_value) d.
Proof.
  intros [x Hx]. eapply sure_read; [apply get_metadata_spec|].
  intros e [[_ Hn]|(_ & y & Hy & Hn)]; [by rewrite Hn in Hx|]. rewrite Hy in Hx. simpl in Hx. congruence.
Qed.

Lemma schema_property_decodes {T} d id name (from_value : Value -> option T) vd :
  g_vertices (graph d) !! id = Some vd -> is_Some (vd_props vd !! name ≫= from_value) ->
  is_Some (g_vprop (graph d) id name ≫= from_value).
Proof. intros Hvd Hx. unfold g_vprop. by rewrite Hvd. Qed.

Lemma sure_schema_fields d id :
  wf_graph (graph d) -> g_type (graph d) id = Some SCHEMA_VERTEX_TYPE ->
  sure (get_schema_topic id) d /\ sure (get_schema_query_address id) d /\ sure (get_schema_type id) d.
Proof.
  intros Hwf Ht. destruct (schema_decodes _ _ Hwf Ht) as (vd & Hvd & Hs).
  apply schema_of_map_is_Some in Hs as (_ & Htopic & Haddress & Htype).
  split_and!; apply sure_get_metadata; by eapply schema_property_decodes.
Qed.

Lemma sure_get_view d id :
  wf_graph (graph d) -> g_type (graph d) id = Some VIEW_VERTEX_TYPE -> sure (get_view id) d.
Proof.
  intros Hwf Ht. unfold g_type in Ht. eapply sure_read; [apply get_view_spec|].
  intros e [[_ Hn]|(_ & vd & Hvd & Hty & Hn)]; [by destruct Hn|].
  destruct (wf_vertices _ Hwf id vd Hvd) as (_ & _ & Hv). destruct (Hv Hty). congruence.
Qed.

Lemma sure_get_schema_versions d id : wf_graph (graph d) -> sure (get_schema_versions id) d.
Proof.
  intros Hwf. eapply sure_read; [apply get_schema_versions_spec|].
  intros e (_ & i & x & Hx & Hn). by eapply wf_version_decodes in Hx.
Qed.

Lemma sure_get_schema_definition d id :
  wf (graph d) -> fits (graph d) -> g_type (graph d) id = Some SCHEMA_VERTEX_TYPE ->
  sure (get_schema_definition (versioned_any id)) d.
Proof.
  intros Hwf Hfits Ht. destruct (proj2 Hwf id Ht) as (i & v & Hv).
  unfold sure. eapply wp_mono; [by apply get_schema_definition_spec, wf_regular| |]; cbv beta.
  - by intros a d' [-> _].
  - intros e d' [_ [He|He]]; [done|]. apply version_err_wf in He as [_ Hno]; [|apply Hwf].
    specialize (Hno i v Hv). cbn in Hno. by rewrite req_any_matches in Hno.
Qed.

Lemma sure_collect {A B} (f : A -> result RegistryError (Uuid * B)) (l : list A) k d :
  try_map f l = Ok k -> sure (k ← lift (try_map f l); mret (collect_map k)) d.
Proof. intros Hk. unfold sure. eapply lift_ok; [exact Hk|]. by apply wp_ret. Qed.

Lemma sure_get_all_schemas d : wf_graph (graph d) -> fits (graph d) -> sure get_all_schemas d.
Proof.
  intros Hwf Hfits. apply sure_db_read. intros l Hl.
  destruct (decode_schemas d l Hwf Hfits Hl) as (k & Hk & _). by eapply sure_collect.
Qed.

Lemma sure_get_all_schema_names d : wf_graph (graph d) -> sure get_all_schema_names d.
Proof.
  intros Hwf. apply sure_db_read. intros l Hl.
  apply get_vertex_properties_law in Hl as (ids & (_ & Hsound & _) & ->).
  destruct (try_map _ _) as [k|e] eqn:Hk; [unfold sure; by apply wp_bind, wp_lift; intros ? [= <-]; apply wp_ret|].
  exfalso. apply try_map_Err in Hk as (p & Hin & He). apply list_elem_of_omap in Hin as (i & Hi & Hp).
  destruct (Hsound i Hi) as (vd & Hvd & Ht). simpl in Ht.
  destruct (wf_vertices _ Hwf i vd Hvd) as (Hs & _).
  apply eq_sym, Hs, schema_of_map_is_Some in Ht as ([n Hn] & _).
  unfold g_vprop in Hp. rewrite Hvd in Hp. simpl in Hp.
  destruct (vd_props vd !! Schema_NAME) as [x|]; simpl in Hp, Hn; [|done]. injection Hp as <-. simpl in He.
  by rewrite Hn in He.
Qed.

Lemma sure_export_all d : wf (graph d) -> fits (graph d) -> sure export_all d.
Proof. intros Hwf Hfits. by eapply sure_read; [by apply export_all_spec|]. Qed.

(** the vertices at the other end of a schema's view edges are views *)
Lemma sure_get_all_views d id :
  wf_graph (graph d) -> is_Some (g_vertices (graph d) !! id) -> sure (get_all_views_of_schema id) d.
Proof.
  intros Hwf Hid. unfold get_all_views_of_schema, sure.
  apply wp_bind, wp_connect; [|done]. apply wp_bind.
  eapply wp_mono; [apply ensure_schema_exists_spec| |]; cbv beta.
  2: { intros e d' [_ [He|[_ Hn]]]; [done|]. rewrite Hn in Hid. by destruct Hid. }
  intros [] d' [-> _]. apply wp_bind, wp_db_read; [|done].
  intros l (ids & (keys & Hkeys & Hids & _) & Hl)%get_all_vertex_properties_law.
  apply single_outbound_edges in Hkeys as (_ & Hsound & _).
  destruct (try_map view_entry l) as [k|e] eqn:Hk; [eapply lift_ok; [done|by apply wp_ret]|].
  exfalso. apply try_map_Err in Hk as (vp & Hin & He).
  eapply Forall2_flip, Forall2_forall_elem in Hl as (i & Hi & vd & Hvd & Hv & Hps); [|done].
  destruct (Hids i Hi) as (_ & key & Hkey & <-). destruct (Hsound key Hkey) as (Hex & _ & Ht).
  pose proof (wf_view_edges _ Hwf key Hex Ht) as Hty. unfold g_type in Hty. rewrite Hvd in Hty.
  injection Hty as Hty. destruct (wf_vertices _ Hwf _ vd Hvd) as (_ & _ & Hview).
  destruct (Hview Hty) as [w Hw]. destruct vp as [v ps]. simpl in *. subst v.
  unfold view_entry in He. rewrite (view_from_properties_spec _ _ _ Hps), Hw in He. done.
Qed.
Lemma wf_readers_sure d : wf (graph d) -> fits (graph d) -> readers_sure d.
Proof.
  intros Hwf Hfits. pose proof (proj1 Hwf) as Hg. unfold readers_sure. split_and!; intros.
  - split; [by apply sure_get_schema|]. destruct (sure_schema_fields d id) as (? & ? & ?); [done..|].
    destruct (schema_decodes (graph d) id) as (vd & Hvd & _); [apply Hwf|done|].
    split_and!; [done..|by apply sure_get_schema_definition|].
    apply sure_get_all_views; [apply Hwf|by exists vd].
  - by apply sure_get_view.
  - by apply sure_get_schema_versions.
  - by apply sure_get_all_schemas.
  - by apply sure_get_all_schema_names.
  - by apply sure_export_all.
Qed.

(** C6: type soundness of the store: after any sequence of requests to an
    empty registry, accepted or rejected, every reader of a schema finds at
    the id of a schema the strings, the schema type and the definition it
    decodes, every reader of a view a view, and the listings and the export
    decode every vertex and edge they meet: no reader answers a "malformed"
    error, or any other, for a reason that is not a failure of the storage. *)
Theorem served_data_decodes (d d' : D) ops rs :
  graph d = empty_graph -> room (length ops) (graph d) ->
  serve ops d = (d', rs) -> Forall no_storage_failure rs ->
  readers_sure d'.
Proof.
  intros He Hroom Hrun Hrs. assert (wf (graph d)) as Hwf by (rewrite He; apply wf_empty).
  destruct (serve_steps ops d d' rs Hwf Hroom Hrun Hrs) as (_ & ? & _ & ?).
  by apply wf_readers_sure.
Qed.
End readers.

Lemma served_data_decodes_witness :
  readers_sure (serve demo_ops memory_default).1.
Proof.
  apply (served_data_decodes memory_default (serve demo_ops memory_default).1 demo_ops
    (serve demo_ops memory_default).2);
    [done|split; vm_compute; discriminate|by destruct (serve demo_ops memory_default)|
     apply demo_serve_ok].
Defined.

(** The types are what makes the readers sure: the id of a view is let through
    by [ensure_schema_exists], and reading it as a schema is a malformed schema. *)
Example view_read_as_schema :
  let d := (run_op (OpAddViewToSchema 7%N (mkView "v" "a.b") (Some 9%N)) demo_state).1 in
  snd (ensure_schema_exists 9%N d) = Ok () /\
  snd (get_schema 9%N d) = Err (Malformed (MalformedSchema 9%N)).
Proof. split; vm_compute; reflexivity. Qed.
