(* ===== verification/Messaging.v ===== *)
(** [crates/utils/src/messaging_system]: errors, messages, publisher, consumer
    and metadata fetcher of the two message brokers.  The Kafka and AMQP client
    libraries are the class [Broker]; the code around them is modelled. *)
From Stdlib Require Import Ascii.
From stdpp Require Import prelude gmap strings list.
From S2P Require Import Prelude Json Externals.

(** ** Errors *)

Inductive MessagingError : Type :=
| CommunicationError (e : string)
| RuntimeError (e : string).

Definition quoted (s : string) : string :=
  let dq := String (ascii_of_nat 34) EmptyString in dq +:+ s +:+ dq.

Definition messaging_error_display (e : MessagingError) : string :=
  match e with
  | CommunicationError s => "Error during communication via message queue " +:+ quoted s
  | RuntimeError s => "Error during joining blocking task " +:+ quoted s
  end.

(** ** UTF-8, as [std::str::from_utf8] checks it (RFC 3629) *)

Definition byte_in (lo hi : N) (c : ascii) : bool :=
  ((lo <=? N_of_ascii c) && (N_of_ascii c <=? hi))%N.
Definition continuation : ascii -> bool := byte_in 128 191.

Fixpoint utf8_valid (s : string) : bool :=
  match s with
  | EmptyString => true
  | String b r =>
      if byte_in 0 127 b then utf8_valid r
      else match r with
      | EmptyString => false
      | String c1 r1 =>
          if byte_in 194 223 b then continuation c1 && utf8_valid r1
          else match r1 with
          | EmptyString => false
          | String c2 r2 =>
              if byte_in 224 239 b then
                (if (N_of_ascii b =? 224)%N then byte_in 160 191 c1
                 else if (N_of_ascii b =? 237)%N then byte_in 128 159 c1 else continuation c1)
                && continuation c2 && utf8_valid r2
              else match r2 with
              | EmptyString => false
              | String c3 r3 =>
                  if byte_in 240 244 b then
                    (if (N_of_ascii b =? 240)%N then byte_in 144 191 c1
                     else if (N_of_ascii b =? 244)%N then byte_in 128 143 c1 else continuation c1)
                    && continuation c2 && continuation c3 && utf8_valid r3
                  else false
              end
          end
      end
  end.

(** the text of a [Utf8Error] is not looked at by any caller *)
Class StdText := { utf8_error_display : string -> string }.

Definition from_utf8 `{StdText} (bytes : string) : result string string :=
  if utf8_valid bytes then Ok bytes else Err (utf8_error_display bytes).

(** ** Messages *)

(** [CommunicationMessage] and its two implementations *)
Inductive CommMessage : Type :=
| KafkaCommunicationMessage (msg_key msg_payload : option string) (partition offset : Z)
| AmqpCommunicationMessage (routing_key data : string) (delivery_tag : Z).
#[export] Instance CommMessage_eq_dec : EqDecision CommMessage.
Proof. solve_decision. Defined.

Section message.
Context `{StdText}.

Definition message_key (m : CommMessage) : result MessagingError string :=
  match m with
  | KafkaCommunicationMessage k _ _ _ =>
      key ← ok_or (CommunicationError "Message has no key") k;
      map_err CommunicationError (from_utf8 key)
  | AmqpCommunicationMessage routing_key _ _ => Ok routing_key
  end.

Definition message_payload (m : CommMessage) : result MessagingError string :=
  match m with
  | KafkaCommunicationMessage _ p _ _ =>
      payload ← ok_or (CommunicationError "Message has no payload") p;
      map_err CommunicationError (from_utf8 payload)
  | AmqpCommunicationMessage _ data _ =>
      map_err (fun _ => CommunicationError "Payload was not valid UTF-8") (from_utf8 data)
  end.

(** [get_order_group_id] *)
Definition get_order_group_id (m : CommMessage) : option string :=
  key ← result_ok (message_key m);
  if decide (key = EmptyString) then None else Some key.
End message.

(** ** Brokers *)

Inductive AmqpError : Type :=
| AmqpNotFound (e : string)            (* a soft [NOTFOUND] protocol error *)
| AmqpOther (e : string).
Definition amqp_error_display (e : AmqpError) : string :=
  match e with AmqpNotFound s | AmqpOther s => s end.

(** what the client libraries offer over a broker state [B] *)
Class Broker (B : Type) := {
  kafka_produce : string -> string -> string -> M B string ();
  amqp_basic_publish : string -> string -> string -> M B string ();
  (* names of the topics in the fetched metadata; the fetch runs on a blocking
     thread, which may fail to join *)
  kafka_fetch_metadata : string -> B -> result MessagingError (list string);
  amqp_create_channel : B -> result string ();
  amqp_exchange_declare_passive : string -> B -> result AmqpError ();
}.

Inductive CommonPublisher : Type := PublisherKafka | PublisherAmqp.
Inductive MetadataFetcher : Type := FetcherKafka | FetcherAmqp.

Section broker.
Context {B : Type} `{Broker B}.

Definition publish_message (p : CommonPublisher) (topic_or_exchange key payload : string) :
    M B MessagingError () :=
  match p with
  | PublisherKafka => with_err CommunicationError (kafka_produce topic_or_exchange key payload)
  | PublisherAmqp => with_err CommunicationError (amqp_basic_publish topic_or_exchange key payload)
  end.

Definition topic_or_exchange_exists (f : MetadataFetcher) (topic_or_exchange : string) (b : B) :
    result MessagingError bool :=
  match f with
  | FetcherAmqp =>
      match amqp_create_channel b with
      | Err _ => Err (CommunicationError "Metadata fetcher AMQP channel creation failed")
      | Ok _ =>
          match amqp_exchange_declare_passive topic_or_exchange b with
          | Err (AmqpNotFound _) => Ok false
          | Err (AmqpOther e) => Err (CommunicationError e)
          | Ok _ => Ok true
          end
      end
  | FetcherKafka =>
      names ← kafka_fetch_metadata topic_or_exchange b;
      Ok (bool_decide (topic_or_exchange ∈ names))
  end.
End broker.

(** what was published, in order: a successful publication appends to it, and a
    failed one (which may have been delivered all the same) takes nothing away *)
Class BrokerLaws (B : Type) `{Broker B} := {
  sent : B -> list (string * string * string);
  kafka_produce_law topic key payload b :
    wp (kafka_produce topic key payload) b
      (fun _ b' => sent b' = sent b ++ [(topic, key, payload)]) (fun _ b' => sent b `prefix_of` sent b');
  amqp_publish_law exchange key payload b :
    wp (amqp_basic_publish exchange key payload) b
      (fun _ b' => sent b' = sent b ++ [(exchange, key, payload)]) (fun _ b' => sent b `prefix_of` sent b');
}.

Lemma publish_message_spec {B} `{BrokerLaws B} p topic key payload (b : B) :
  wp (publish_message p topic key payload) b
    (fun _ b' => sent b' = sent b ++ [(topic, key, payload)]) (fun _ b' => sent b `prefix_of` sent b').
Proof.
  destruct p; apply wp_with_err; [apply kafka_produce_law|apply amqp_publish_law].
Qed.

(** acknowledgement of a message at the consumer [K]: the record of what has
    been acknowledged grows by the message, or stays when the call fails *)
Class Acker (K : Type) := { ack_message : CommMessage -> M K MessagingError () }.
Class AckerLaws (K : Type) `{Acker K} := {
  acked : K -> list CommMessage;
  ack_message_law m k :
    wp (ack_message m) k (fun _ k' => acked k' = acked k ++ [m]) (fun _ k' => acked k' = acked k);
}.

(** ** Consumer *)

(** [lapin]'s options: the callers set [exclusive] and leave the rest default *)
Record BasicConsumeOptions : Type := mkBasicConsumeOptions { exclusive : bool }.

Inductive CommonConsumerConfig : Type :=
| ConsumerKafka (brokers group_id topic : string)
| ConsumerAmqp (connection_string consumer_tag queue_name : string)
    (options : option BasicConsumeOptions).

(** [CommonConsumer::consume]: the stream hands out what the client delivers
    and ends with the first error ([try_stream!] stops after a failed [?]) *)
Fixpoint consume (deliveries : list (result string CommMessage)) :
    list (result MessagingError CommMessage) :=
  match deliveries with
  | [] => []
  | Ok m :: l => Ok m :: consume l
  | Err e :: _ => [Err (CommunicationError e)]
  end.

(** a message that hands over what was published under a key *)
Definition carries (m : CommMessage) (key payload : string) : Prop :=
  match m with
  | KafkaCommunicationMessage k p _ _ => k = Some key /\ p = Some payload
  | AmqpCommunicationMessage routing_key data _ => routing_key = key /\ data = payload
  end.

Lemma message_payload_carries `{StdText} m key payload text :
  carries m key payload -> message_payload m = Ok text -> text = payload.
Proof.
  destruct m as [k p part off|rk data tag]; intros [Hk Hp]; subst; simpl; unfold from_utf8;
    destruct (utf8_valid payload); simpl; intros; by simplify_eq.
Qed.

(** ** Lemmas *)

(** the order group is the message key, when there is a nonempty one *)
Lemma get_order_group_id_Some `{StdText} m k :
  get_order_group_id m = Some k <-> message_key m = Ok k /\ k <> EmptyString.
Proof.
  unfold get_order_group_id. destruct (message_key m) as [k'|e]; simpl; [|naive_solver].
  case_decide; naive_solver.
Qed.

(** messages are handed out in delivery order, up to the first failure *)
Lemma consume_prefix (l : list (result string CommMessage)) ms :
  consume (map Ok ms ++ l) = map Ok ms ++ consume l.
Proof. induction ms as [|m ms IH]; simpl; [done|by rewrite IH]. Qed.

(** ** An in-memory broker *)

(** the existing topics, and everything published *)
Record MemoryBroker : Type := mkMemoryBroker {
  mb_topics : list string;
  mb_log : list (string * string * string);
}.

Definition mb_publish (topic key payload : string) : M MemoryBroker string () := fun b =>
  if bool_decide (topic ∈ mb_topics b)
  then (mkMemoryBroker (mb_topics b) (mb_log b ++ [(topic, key, payload)]), Ok ())
  else (b, Err "unknown topic").

#[export] Instance memory_broker : Broker MemoryBroker := {
  kafka_produce := mb_publish;
  amqp_basic_publish := mb_publish;
  kafka_fetch_metadata := fun _ b => Ok (mb_topics b);
  amqp_create_channel := fun _ => Ok ();
  amqp_exchange_declare_passive := fun t b =>
    if bool_decide (t ∈ mb_topics b) then Ok () else Err (AmqpNotFound "no exchange");
}.

#[export] Instance memory_broker_laws : BrokerLaws MemoryBroker.
Proof.
  refine {| sent := mb_log |}; intros t k p b; unfold wp; simpl; unfold mb_publish;
    by destruct (bool_decide _).
Defined.

(** a consumer that records acknowledgements *)
#[export] Instance list_acker : Acker (list CommMessage) := {
  ack_message := fun m k => (k ++ [m], Ok ());
}.
#[export] Instance list_acker_laws : AckerLaws (list CommMessage).
Proof. by refine {| acked := fun k => k |}. Defined.

#[export] Instance std_text_inst : StdText := {
  utf8_error_display := fun _ => "invalid utf-8 sequence";
}.

(** a text format for the empty object and the empty array *)
#[export] Instance json_text_inst : JsonText := {
  json_parse := fun s =>
    if decide (s = "{}") then Ok (Object ∅)
    else if decide (s = "[]") then Ok (Array []) else Err "unexpected character";
  json_to_string := fun v =>
    match v with Object _ => Ok "{}" | Array _ => Ok "[]" | _ => Ok "null" end;
}.
