(* ===== verification/JsonExact.v ===== *)
(** The JSON values that survive being written and read again.  [serde_json] reads
    back what it wrote if the value's numbers are integers that it holds as such,
    its strings are text, and it is nested less than the limit of the parser's
    recursion; a floating-point number may come back as a neighbouring one
    (the [float_roundtrip] feature is off in every Cargo.toml). *)
From stdpp Require Import prelude gmap strings list fin_maps countable.
From S2P Require Import Prelude Json Externals Messaging.

(** nested at most [depth] deep, and without floating-point numbers *)
Inductive exact (depth : nat) : Value -> Prop :=
| exact_null : exact depth Null
| exact_bool b : exact depth (VBool b)
| exact_pos n : (0 <= n < 2 ^ 64)%Z -> exact depth (Number (PosInt n))
| exact_neg n : (- 2 ^ 63 <= n < 0)%Z -> exact depth (Number (NegInt n))
| exact_string s : utf8_valid s = true -> exact depth (VString s)
| exact_array inner l : depth = S inner -> Forall (exact inner) l -> exact depth (Array l)
| exact_object inner m :
    depth = S inner -> map_Forall (fun k v => utf8_valid k = true /\ exact inner v) m -> exact depth (Object m).

(** the recursion limit of [serde_json]'s parser is 128, which it must not reach *)
Definition MAX_DEPTH : nat := 127.

(** the text of [Display for Value] is read back *)
Class ExactText `{JsonText, ValueText} : Prop := {
  value_display_exact v : exact MAX_DEPTH v -> json_parse (value_display v) = Ok v;
}.

(** so is the text of [serde_json::to_string] *)
Class ExactJson `{JsonText} : Prop := {
  json_to_string_exact v text : exact MAX_DEPTH v -> json_to_string v = Ok text -> json_parse text = Ok v;
}.

(** ** A text for every value *)

(** a value as a tree, and back *)
Definition Leaf : Type := bool + (nat * Z) + string.
Definition number_code (n : JNumber) : nat * Z :=
  match n with PosInt z => (0, z) | NegInt z => (1, z) | Float bits => (2, bits) end.
Definition code_number (c : nat * Z) : JNumber :=
  match c with (0, z) => PosInt z | (1, z) => NegInt z | (_, bits) => Float bits end.
Fixpoint value_tree (v : Value) : gen_tree Leaf :=
  match v with
  | Null => GenNode 0 []
  | VBool b => GenLeaf (inl (inl b))
  | Number n => GenLeaf (inl (inr (number_code n)))
  | VString s => GenLeaf (inr s)
  | Array l => GenNode 1 (map value_tree l)
  | Object m => GenNode 2 (map_fold (fun k v l => GenLeaf (inr k) :: value_tree v :: l) [] m)
  end.
Fixpoint tree_value (t : gen_tree Leaf) : Value :=
  match t with
  | GenLeaf (inl (inl b)) => VBool b
  | GenLeaf (inl (inr c)) => Number (code_number c)
  | GenLeaf (inr s) => VString s
  | GenNode 1 l => Array (map tree_value l)
  | GenNode 2 l =>
      Object ((fix members (l : list (gen_tree Leaf)) : gmap string Value :=
        match l with
        | GenLeaf (inr k) :: t :: l' => <[k := tree_value t]> (members l')
        | _ => ∅
        end) l)
  | GenNode _ _ => Null
  end.

Lemma element_size (l : list Value) v : v ∈ l -> value_size v < value_size (Array l).
Proof.
  intros Hv. simpl. induction l as [|w l IH]; [by apply not_elem_of_nil in Hv|].
  apply elem_of_cons in Hv as [->|Hv%IH]; simpl; lia.
Qed.

Lemma tree_value_tree v : tree_value (value_tree v) = v.
Proof.
  remember (value_size v) as n eqn:Hn. revert v Hn. induction n as [n IH] using lt_wf_ind. intros v ->.
  destruct v as [|b|c|s|l|m]; try done; [by destruct c|..]; simpl; f_equal.
  - rewrite <- (list_fmap_id l) at 2. rewrite map_map. apply list_fmap_ext. intros i v Hv%list_elem_of_lookup_2.
    by apply (IH (value_size v)); [apply element_size|].
  - assert (forall k v, m !! k = Some v -> tree_value (value_tree v) = v) as Hm.
    { intros k v Hv. by apply (IH (value_size v)); [eapply member_size|]. }
    clear IH. revert Hm. apply (map_fold_weak_ind (fun r m => (forall k v, m !! k = Some v -> tree_value (value_tree v) = v) ->
      (fix members (l : list (gen_tree Leaf)) : gmap string Value :=
        match l with GenLeaf (inr k) :: t :: l' => <[k := tree_value t]> (members l') | _ => ∅ end) r = m)); [done|].
    intros i x m' r Hi IHm Hm. simpl. rewrite (Hm i x) by apply lookup_insert_eq. f_equal. apply IHm. intros k v Hk.
    apply (Hm k). rewrite lookup_insert_ne; [done|]. congruence.
Qed.

#[export] Instance value_eq_dec : EqDecision Value.
Proof.
  refine (fun v w => cast_if (decide (value_tree v = value_tree w))); [|by intros ->].
  rewrite <- (tree_value_tree v), <- (tree_value_tree w). by f_equal.
Defined.
#[export] Instance value_countable : Countable Value := inj_countable' value_tree tree_value tree_value_tree.
