(* ===== verification/MessagingClients.v ===== *)
(** The constructors of [crates/utils/src/messaging_system]: [CommonConsumer::new],
    [CommonPublisher::new_*], [MetadataFetcher::new_*], and the conversions of
    library errors.  The client libraries are the class [BrokerClients] over the
    state of the brokers they talk to. *)
From stdpp Require Import prelude gmap strings list.
From S2P Require Import Prelude Messaging.

(** ** Errors *)

(** [impl From<KafkaError>], [From<lapin::Error>] and [From<Utf8Error>], each by
    the text it displays; of an [anyhow::Error] that is its outermost context *)
Definition from_client_error (e : string) : MessagingError := CommunicationError e.
Definition from_join_error (e : string) : MessagingError := RuntimeError e.
Definition from_anyhow (context : string) (cause : string) : MessagingError := CommunicationError context.

(** ** Clients *)

(** [rdkafka::ClientConfig]: a later [set] of a key replaces an earlier one *)
Abbreviation ClientConfig := (gmap string string) (only parsing).
Definition config_set (key value : string) (c : ClientConfig) : ClientConfig := <[key := value]> c.

Class BrokerClients (N : Type) := {
  kafka_create : ClientConfig -> M N string ();            (* [ClientConfig::create] *)
  kafka_subscribe : ClientConfig -> list string -> M N string ();
  amqp_connect : string -> M N string ();                  (* [Connection::connect] *)
  amqp_open_channel : string -> M N string ();             (* of that connection *)
  amqp_basic_consume : string -> string -> string -> BasicConsumeOptions -> M N string ();
}.

(** [BasicConsumeOptions::default] *)
Definition default_consume_options : BasicConsumeOptions := mkBasicConsumeOptions false.

Definition consumer_settings (group_id brokers : string) : ClientConfig :=
  config_set "auto.offset.reset" "earliest"
    (config_set "enable.auto.offset.store" "false"
      (config_set "enable.auto.commit" "true"
        (config_set "session.timeout.ms" "6000"
          (config_set "enable.partition.eof" "false"
            (config_set "bootstrap.servers" brokers (config_set "group.id" group_id ∅)))))).
Definition publisher_settings (brokers : string) : ClientConfig :=
  config_set "max.in.flight.requests.per.connection" "1"
    (config_set "compression.type" "none"
      (config_set "acks" "all"
        (config_set "message.timeout.ms" "5000" (config_set "bootstrap.servers" brokers ∅)))).
Definition fetcher_settings (brokers : string) : ClientConfig :=
  config_set "bootstrap.servers" brokers ∅.

(** a consumer that has been created *)
Inductive CommonConsumer : Type :=
| CreatedKafka (settings : ClientConfig) (topics : list string)
| CreatedAmqp (connection_string queue_name consumer_tag : string) (options : BasicConsumeOptions).

Section clients.
Context {N : Type} `{BrokerClients N}.
Abbreviation Net A := (M N MessagingError A) (only parsing).

(** [.context(c)?] *)
Definition or_context {A} (context : string) (m : M N string A) : Net A := with_err (from_anyhow context) m.
Definition or_fail {A} (m : M N string A) : Net A := with_err from_client_error m.

Definition new_kafka (group_id brokers : string) (topics : list string) : Net CommonConsumer :=
  let settings := consumer_settings group_id brokers in
  or_context "Consumer creation failed" (kafka_create settings) ;;
  or_context "Can't subscribe to specified topics" (kafka_subscribe settings topics) ;;
  mret (CreatedKafka settings topics).

Definition new_amqp (connection_string consumer_tag queue_name : string)
    (consume_options : option BasicConsumeOptions) : Net CommonConsumer :=
  let consume_options := default default_consume_options consume_options in
  or_fail (amqp_connect connection_string) ;;
  or_fail (amqp_open_channel connection_string) ;;
  or_fail (amqp_basic_consume connection_string queue_name consumer_tag consume_options) ;;
  mret (CreatedAmqp connection_string queue_name consumer_tag consume_options).

(** [CommonConsumer::new] *)
Definition consumer_new (config : CommonConsumerConfig) : Net CommonConsumer :=
  match config with
  | ConsumerKafka brokers group_id topic => new_kafka group_id brokers [topic]
  | ConsumerAmqp connection_string consumer_tag queue_name options =>
      new_amqp connection_string consumer_tag queue_name options
  end.

Definition publisher_new_kafka (brokers : string) : Net CommonPublisher :=
  or_fail (kafka_create (publisher_settings brokers)) ;; mret PublisherKafka.
Definition publisher_new_amqp (connection_string : string) : Net CommonPublisher :=
  or_fail (amqp_connect connection_string) ;; or_fail (amqp_open_channel connection_string) ;;
  mret PublisherAmqp.

Definition fetcher_new_kafka (brokers : string) : Net MetadataFetcher :=
  or_context "Metadata fetcher creation failed" (kafka_create (fetcher_settings brokers)) ;;
  mret FetcherKafka.
Definition fetcher_new_amqp (connection_string : string) : Net MetadataFetcher :=
  or_context "Metadata fetcher creation failed" (amqp_connect connection_string) ;; mret FetcherAmqp.
End clients.

(** ** What AMQP says of consumers *)

(** the queue a configuration reads, if it is an AMQP one: its broker and name *)
Section brokers.
Context (broker_of : string -> string).

Definition consumed_queue (c : CommonConsumerConfig) : option (string * string) :=
  match c with
  | ConsumerKafka _ _ _ => None
  | ConsumerAmqp connection_string _ queue_name _ => Some (broker_of connection_string, queue_name)
  end.
Definition is_exclusive (c : CommonConsumerConfig) : bool :=
  match c with ConsumerAmqp _ _ _ (Some options) => exclusive options | _ => false end.
End brokers.

(** RabbitMQ grants an exclusive consumer only on a queue without consumers, and
    refuses every consumer on a queue that has an exclusive one.  The connections
    of this process and of others are open while the state lists their consumers,
    each with its broker, its queue and whether it is exclusive. *)
Class AmqpLaws (N : Type) `{BrokerClients N} := {
  broker_of : string -> string;
  amqp_consumers : N -> list (string * string * bool);
  kafka_create_law c n : wp (kafka_create c) n
    (fun _ n' => amqp_consumers n' = amqp_consumers n) (fun _ n' => amqp_consumers n' = amqp_consumers n);
  kafka_subscribe_law c l n : wp (kafka_subscribe c l) n
    (fun _ n' => amqp_consumers n' = amqp_consumers n) (fun _ n' => amqp_consumers n' = amqp_consumers n);
  amqp_connect_law s n : wp (amqp_connect s) n
    (fun _ n' => amqp_consumers n' = amqp_consumers n) (fun _ n' => amqp_consumers n' = amqp_consumers n);
  amqp_open_channel_law s n : wp (amqp_open_channel s) n
    (fun _ n' => amqp_consumers n' = amqp_consumers n) (fun _ n' => amqp_consumers n' = amqp_consumers n);
  amqp_basic_consume_law s q tag o n : wp (amqp_basic_consume s q tag o) n
    (fun _ n' => amqp_consumers n' = amqp_consumers n ++ [(broker_of s, q, exclusive o)] /\
       (forall e, (broker_of s, q, e) ∈ amqp_consumers n -> e = false /\ exclusive o = false))
    (fun _ n' => amqp_consumers n' = amqp_consumers n);
}.

(** what a created consumer adds to the brokers *)
Definition consumer_entry (broker : string -> string) (c : CommonConsumerConfig) : list (string * string * bool) :=
  match consumed_queue broker c with Some (b, q) => [(b, q, is_exclusive c)] | None => [] end.

(** two consumers that may exist together *)
Definition compatible (x y : string * string * bool) : Prop := x.1 = y.1 -> x.2 = false /\ y.2 = false.

Section laws.
Context {N : Type} `{AmqpLaws N}.

Lemma consumer_new_spec c n :
  wp (consumer_new c) n
    (fun _ n' => amqp_consumers n' = amqp_consumers n ++ consumer_entry broker_of c /\
       forall b q e, consumed_queue broker_of c = Some (b, q) -> (b, q, e) ∈ amqp_consumers n ->
         e = false /\ is_exclusive c = false)
    (fun _ n' => amqp_consumers n' = amqp_consumers n).
Proof.
  destruct c as [brokers group_id topic|s tag q options]; unfold consumer_entry; simpl.
  - apply wp_bind, wp_with_err. eapply wp_mono; [apply kafka_create_law| |done]. intros [] n1 H1.
    apply wp_bind, wp_with_err. eapply wp_mono; [apply kafka_subscribe_law| |by intros ? ? ->]. intros [] n2 H2.
    apply wp_ret. rewrite app_nil_r, H2, H1. by split.
  - apply wp_bind, wp_with_err. eapply wp_mono; [apply amqp_connect_law| |done]. intros [] n1 H1.
    apply wp_bind, wp_with_err. eapply wp_mono; [apply amqp_open_channel_law| |by intros ? ? ->]. intros [] n2 H2.
    apply wp_bind, wp_with_err. eapply wp_mono; [apply amqp_basic_consume_law| |intros ? ? ->; by rewrite H2, H1].
    intros [] n3 [H3 Hnew]. apply wp_ret. rewrite H3, H2, H1. rewrite H2, H1 in Hnew.
    destruct options as [options|]; (split; [done|]); intros b q' e [= <- <-]; apply Hnew.
Qed.

Lemma publisher_new_kafka_spec brokers n :
  wp (publisher_new_kafka brokers) n (fun p n' => p = PublisherKafka /\ amqp_consumers n' = amqp_consumers n)
    (fun _ n' => amqp_consumers n' = amqp_consumers n).
Proof.
  apply wp_bind, wp_with_err. eapply wp_mono; [apply kafka_create_law| |done]. intros [] n1 H1. by apply wp_ret.
Qed.
Lemma publisher_new_amqp_spec s n :
  wp (publisher_new_amqp s) n (fun p n' => p = PublisherAmqp /\ amqp_consumers n' = amqp_consumers n)
    (fun _ n' => amqp_consumers n' = amqp_consumers n).
Proof.
  apply wp_bind, wp_with_err. eapply wp_mono; [apply amqp_connect_law| |done]. intros [] n1 H1.
  apply wp_bind, wp_with_err. eapply wp_mono; [apply amqp_open_channel_law| |by intros ? ? ->]. intros [] n2 H2.
  apply wp_ret. by rewrite H2.
Qed.
End laws.

(** ** Brokers in memory: the consumers of a RabbitMQ server, no Kafka failures *)

#[export] Instance memory_clients : BrokerClients (list (string * string * bool)) := {
  kafka_create := fun _ n => (n, Ok ());
  kafka_subscribe := fun _ _ n => (n, Ok ());
  amqp_connect := fun s n => (n, if decide (s = "") then Err "no host" else Ok ());
  amqp_open_channel := fun _ n => (n, Ok ());
  amqp_basic_consume := fun s q tag o n =>
    if existsb (fun x => bool_decide (x.1 = (s, q)) && (x.2 || exclusive o)) n
    then (n, Err "ACCESS_REFUSED") else (n ++ [(s, q, exclusive o)], Ok ());
}.
#[export] Instance memory_clients_laws : AmqpLaws (list (string * string * bool)).
Proof.
  refine {| broker_of := id; amqp_consumers := id |}; try done.
  - intros s n. unfold wp; simpl. by destruct (decide _).
  - intros s q tag o n. unfold wp; simpl. destruct (existsb _ n) eqn:Hex; [done|]. split; [done|].
    intros e Hin%list_elem_of_In. destruct (e || exclusive o) eqn:Heo.
    + assert (existsb (fun x => bool_decide (x.1 = (s, q)) && (x.2 || exclusive o)) n = true) as Ht; [|congruence].
      apply existsb_exists. exists (s, q, e). simpl. by rewrite bool_decide_true.
    + by apply orb_false_iff.
Defined.
