(* ===== verification/Replication.v ===== *)
(** Replication of the schema registry: [crates/schema-registry/src/replication].
    [ReplicationState] with its channels and spawned tasks as a transition
    system, the master's publishing loop, and the slave's consumption of events.
    Channels and tasks are kept in a [World] because roles, threads and tasks
    share them. *)
From stdpp Require Import prelude gmap strings list.
From S2P Require Import Prelude Json Externals Indradb RegistryTypes SchemaDb Instances Messaging.

(** ** Events and configuration *)

Inductive ReplicationEvent `{SemVer} : Type :=
| EvAddSchema (schema : NewSchema) (id : Uuid)
| EvAddSchemaVersion (id : Uuid) (new_version : NewSchemaVersion)
| EvUpdateSchemaMetadata (id : Uuid) (name topic query_address : option string)
    (schema_type : option SchemaType)
| EvAddViewToSchema (schema_id : Uuid) (view : View) (view_id : Uuid)
| EvUpdateView (id : Uuid) (view : ViewUpdate).

Inductive ReplicationRole : Type := Master | Slave | NoRole.
#[export] Instance ReplicationRole_eq_dec : EqDecision ReplicationRole.
Proof. solve_decision. Defined.

Record KafkaConfig : Type := mkKafkaConfig { kc_brokers : string; kc_group_id : string }.
Record AmqpConfig : Type := mkAmqpConfig { ac_connection_string : string; ac_consumer_tag : string }.
Inductive MessageQueue : Type := MqKafka (c : KafkaConfig) | MqAmqp (c : AmqpConfig).
Record MessageQueueConfig : Type := mkMessageQueueConfig {
  mq_queue : MessageQueue;
  mq_topic_or_queue : string;
  mq_topic_or_exchange : string;
}.

(** the serde-derived text of an event *)
Class EventText `{SemVer} := {
  event_to_string : ReplicationEvent -> string;
  event_from_str : string -> result string ReplicationEvent;
}.

(** ** Channels and tasks *)

(** a [oneshot] channel whose sender is held or used up: whether the unit was
    sent, and whether the receiver still exists *)
Record OneShot : Type := mkOneShot { os_sent : bool; os_receiver : bool }.
(** an unbounded [mpsc] channel of events with its receiver *)
Record Mpsc `{SemVer} : Type := mkMpsc { mp_buffer : list ReplicationEvent; mp_receiver : bool }.

Arguments mkMpsc {_}.

(** a thread that has been spawned and will run its closure *)
Record MasterThread : Type := mkMasterThread { mt_recv : nat; mt_kill : nat }.
#[export] Instance MasterThread_eq_dec : EqDecision MasterThread.
Proof. solve_decision. Defined.

Record World `{SemVer} : Type := mkWorld {
  w_oneshots : list OneShot;
  w_mpscs : list Mpsc;
  w_threads : list MasterThread;   (* spawned, closure not finished *)
  w_slaves : list nat;             (* running slave tasks, by kill channel *)
}.

Arguments mkWorld {_}.

Record ReplicationState `{SemVer} : Type := mkReplicationState {
  replication_role : ReplicationRole;
  stop_channel : option nat;
  master_replication_channel : option nat;
  message_queue_config : MessageQueueConfig;
  world : World;
}.

Arguments mkReplicationState {_}.

(** [unwrap] on a failed [oneshot] send *)
Inductive Panic : Type := UnwrapOnErr.

Section replication_state.
Context `{SemVer}.

#[local] Notation Rep := (M ReplicationState Panic).

Definition replication_state_new (config : MessageQueueConfig) : ReplicationState :=
  mkReplicationState NoRole None None config (mkWorld [] [] [] []).

Definition set_world (f : World -> World) (s : ReplicationState) : ReplicationState :=
  mkReplicationState (replication_role s) (stop_channel s) (master_replication_channel s)
    (message_queue_config s) (f (world s)).

(** [oneshot::Sender::send]: it fails when the receiver is gone *)
Definition oneshot_send_unwrap (c : nat) : Rep () := fun s =>
  match w_oneshots (world s) !! c with
  | Some (mkOneShot _ true) =>
      (set_world (fun w => mkWorld (<[c := mkOneShot true true]> (w_oneshots w)) (w_mpscs w)
                             (w_threads w) (w_slaves w)) s, Ok ())
  | _ => (s, Err UnwrapOnErr)
  end.

(** the channel and the thread of [start_replication_master] *)
Definition start_replication_master (kill_signal : nat) : Rep () := fun s =>
  let w := world s in
  let recv := length (w_mpscs w) in
  (mkReplicationState (replication_role s) (stop_channel s) (Some recv) (message_queue_config s)
     (mkWorld (w_oneshots w) (w_mpscs w ++ [mkMpsc [] true])
        (w_threads w ++ [mkMasterThread recv kill_signal]) (w_slaves w)), Ok ()).

Definition start_replication_slave (kill_signal : nat) : Rep () := fun s =>
  (set_world (fun w => mkWorld (w_oneshots w) (w_mpscs w) (w_threads w)
                         (w_slaves w ++ [kill_signal])) s, Ok ()).

(** a new [oneshot] channel, its sender kept as [stop_channel] *)
Definition new_stop_channel : Rep nat := fun s =>
  let w := world s in
  let c := length (w_oneshots w) in
  (mkReplicationState (replication_role s) (Some c) (master_replication_channel s)
     (message_queue_config s)
     (mkWorld (w_oneshots w ++ [mkOneShot false true]) (w_mpscs w) (w_threads w) (w_slaves w)),
   Ok c).

Definition take_stop_channel : Rep (option nat) := fun s =>
  (mkReplicationState (replication_role s) None (master_replication_channel s)
     (message_queue_config s) (world s), Ok (stop_channel s)).
Definition drop_master_channel : Rep () := fun s =>
  (mkReplicationState (replication_role s) (stop_channel s) None
     (message_queue_config s) (world s), Ok ()).
Definition put_role (role : ReplicationRole) : Rep () := fun s =>
  (mkReplicationState role (stop_channel s) (master_replication_channel s)
     (message_queue_config s) (world s), Ok ()).

Definition set_role (role : ReplicationRole) : Rep () :=
  old_channel ← take_stop_channel;
  match old_channel with Some c => oneshot_send_unwrap c | None => mret () end ;;
  drop_master_channel ;;
  put_role role ;;
  match role with
  | Master => receiver ← new_stop_channel; start_replication_master receiver
  | Slave => receiver ← new_stop_channel; start_replication_slave receiver
  | NoRole => mret ()
  end.

(** a failed [send] is logged and the event is lost *)
Definition replicate_message (event : ReplicationEvent) (s : ReplicationState) :
    ReplicationState :=
  if decide (replication_role s = Master) then
    match master_replication_channel s with
    | Some c =>
        match w_mpscs (world s) !! c with
        | Some (mkMpsc buffer true) =>
            set_world (fun w => mkWorld (w_oneshots w)
              (<[c := mkMpsc (buffer ++ [event]) true]> (w_mpscs w)) (w_threads w) (w_slaves w)) s
        | _ => s
        end
    | None => s
    end
  else s.

(** ** What the runtime does between calls *)

Definition drop_receiver (c : nat) (l : list OneShot) : list OneShot :=
  alter (fun o => mkOneShot (os_sent o) false) c l.
Definition drop_mpsc_receiver (c : nat) (l : list Mpsc) : list Mpsc :=
  alter (fun m => mkMpsc (mp_buffer m) false) c l.

(** The closure given to [thread::spawn] only calls [replicate_db_events]: an
    [async fn], so the call builds a future that owns both receivers.  Nothing
    polls it; it is the value of the thread, whose handle was dropped, and is
    dropped with it. *)
Definition thread_exit (t : MasterThread) (w : World) : World :=
  mkWorld (drop_receiver (mt_kill t) (w_oneshots w)) (drop_mpsc_receiver (mt_recv t) (w_mpscs w))
    (w_threads w) (w_slaves w).

Inductive runtime_step : ReplicationState -> ReplicationState -> Prop :=
| rt_thread_exit s before t after :
    w_threads (world s) = before ++ t :: after ->
    runtime_step s (set_world (fun w =>
      let w' := thread_exit t w in
      mkWorld (w_oneshots w') (w_mpscs w') (before ++ after) (w_slaves w')) s)
(* a slave task returns: after a message that follows the kill signal, or at
   the end of the stream *)
| rt_slave_exit s before c after :
    w_slaves (world s) = before ++ c :: after ->
    runtime_step s (set_world (fun w =>
      mkWorld (drop_receiver c (w_oneshots w)) (w_mpscs w) (w_threads w) (before ++ after)) s).

(** states reachable from start-up through role changes, events and the
    progress of threads and tasks *)
Inductive reachable (config : MessageQueueConfig) : ReplicationState -> Prop :=
| reach_new : reachable config (replication_state_new config)
| reach_role s role s' :
    reachable config s -> set_role role s = (s', Ok ()) -> reachable config s'
| reach_event s ev : reachable config s -> reachable config (replicate_message ev s)
| reach_runtime s s' : reachable config s -> runtime_step s s' -> reachable config s'.

(** ** The master's loop *)

Definition event_key (event : ReplicationEvent) : Uuid :=
  match event with
  | EvAddSchema _ id | EvAddSchemaVersion id _ | EvUpdateSchemaMetadata id _ _ _ _
  | EvUpdateView id _ => id
  | EvAddViewToSchema schema_id _ _ => schema_id
  end.

(** one [recv]: an event, with the state of the kill signal found after it, or
    a closed channel *)
Inductive Received : Type := RecvEvent (event : ReplicationEvent) (killed : bool) | RecvClosed.
Inductive LoopEnd : Type := LoopWaiting | LoopReturned | LoopAborted.

Definition send_messages_to_kafka `{UuidLib, !EventText} (topic_or_exchange : string)
    (event : ReplicationEvent) : string * string * string :=
  (topic_or_exchange, uuid_to_string (event_key event), event_to_string event).

(** the messages handed to the publisher, and how the loop ended *)
Fixpoint replicate_db_events `{UuidLib, !EventText} (topic_or_exchange : string)
    (received : list Received) : list (string * string * string) * LoopEnd :=
  match received with
  | [] => ([], LoopWaiting)
  | RecvClosed :: _ => ([], LoopAborted)
  | RecvEvent event killed :: received' =>
      if (killed : bool) then ([], LoopReturned)
      else
        let '(sent, e) := replicate_db_events topic_or_exchange received' in
        (send_messages_to_kafka topic_or_exchange event :: sent, e)
  end.
End replication_state.

(** ** The slave *)

Section slave.
Context {D : Type} `{Datastore D, SemVer, UuidLib, JsonSchemaLib, JmespathLib, !EventText,
  StdText}.
(** acknowledgement of a message at the broker *)
Context {K : Type} (ack : CommMessage -> M K MessagingError ()).

(** the database calls of [consume_message] *)
Definition consume_event (event : ReplicationEvent) : M D RegistryError () :=
  match event with
  | EvAddSchema schema id => add_schema schema (Some id) ;; mret ()
  | EvAddSchemaVersion id new_version => add_new_version_of_schema id new_version
  | EvAddViewToSchema schema_id view view_id =>
      add_view_to_schema schema_id view (Some view_id) ;; mret ()
  | EvUpdateSchemaMetadata id name topic query_address schema_type =>
      match name with Some name => update_schema_name id name | None => mret () end ;;
      match topic with Some topic => update_schema_topic id topic | None => mret () end ;;
      match query_address with
      | Some address => update_schema_query_address id address | None => mret ()
      end ;;
      match schema_type with Some t => update_schema_type id t | None => mret () end
  | EvUpdateView id view => update_view id view ;; mret ()
  end.

(** computations on one half of the slave's state *)
Definition on_db {E A} (m : M D E A) : M (D * K) E A := fun s =>
  let '(d, r) := m s.1 in ((d, s.2), r).
Definition on_broker {E A} (m : M K E A) : M (D * K) E A := fun s =>
  let '(k, r) := m s.2 in ((s.1, k), r).

Definition consume_message (message : CommMessage) : M (D * K) string () :=
  payload ← lift (map_err messaging_error_display (message_payload message));
  event ← lift (map_err (fun _ => "Payload deserialization failed") (event_from_str payload));
  with_err registry_error_display (on_db (consume_event event)) ;;
  with_err messaging_error_display (on_broker (ack message)).

(** [consume_mq]: each element is what the stream yields, with the state of
    the kill signal found then; failures are logged and the loop goes on *)
Fixpoint consume_mq (stream : list (result MessagingError CommMessage * bool)) (s : D * K) :
    D * K :=
  match stream with
  | [] => s
  | (message, killed) :: stream' =>
      if (killed : bool) then s
      else match message with
           | Err _ => consume_mq stream' s
           | Ok message => consume_mq stream' (consume_message message s).1
           end
  end.
End slave.

(** ** Roles, channels and threads *)

Section invariant.
Context `{SemVer}.
Implicit Types (s : ReplicationState) (w : World).

(** a master's two receivers are owned by its thread, or are gone *)
Definition owned_by_thread w (recv kill : nat) : Prop :=
  mkMasterThread recv kill ∈ w_threads w \/
  (os_receiver <$> w_oneshots w !! kill = Some false /\
   mp_receiver <$> w_mpscs w !! recv = Some false).

Definition master_ok s : Prop :=
  replication_role s = Master ->
  exists kill recv, stop_channel s = Some kill /\ master_replication_channel s = Some recv /\
    owned_by_thread (world s) recv kill.

Definition threads_ok w : Prop := forall t, t ∈ w_threads w ->
  mt_kill t < length (w_oneshots w) /\ mt_recv t < length (w_mpscs w).

(** dropping receivers elsewhere does not bring one back *)
Lemma dropped_oneshot (l : list OneShot) c k :
  os_receiver <$> l !! k = Some false -> os_receiver <$> drop_receiver c l !! k = Some false.
Proof.
  unfold drop_receiver. rewrite list_lookup_alter. intros Hl. case_decide; [subst|done].
  by destruct (l !! k).
Qed.
Lemma dropped_mpsc (l : list Mpsc) c k :
  mp_receiver <$> l !! k = Some false -> mp_receiver <$> drop_mpsc_receiver c l !! k = Some false.
Proof.
  unfold drop_mpsc_receiver. rewrite list_lookup_alter. intros Hl. case_decide; [subst|done].
  by destruct (l !! k).
Qed.

Lemma owned_after_thread w t before after recv kill :
  w_threads w = before ++ t :: after -> threads_ok w -> owned_by_thread w recv kill ->
  owned_by_thread (mkWorld (drop_receiver (mt_kill t) (w_oneshots w))
    (drop_mpsc_receiver (mt_recv t) (w_mpscs w)) (before ++ after) (w_slaves w)) recv kill.
Proof.
  intros Hthreads Hok [Hin|[Hos Hmp]].
  - destruct (decide (mkMasterThread recv kill = t)) as [<-|Hne].
    + right. destruct (Hok _ Hin) as [Hk Hr]. simpl in *.
      apply lookup_lt_is_Some in Hk as [o Ho], Hr as [m Hm].
      unfold drop_receiver, drop_mpsc_receiver. by rewrite !list_lookup_alter_eq, Ho, Hm.
    + left. rewrite Hthreads in Hin. set_solver.
  - right. split; [by apply dropped_oneshot|by apply dropped_mpsc].
Qed.

Definition rep_inv s : Prop := master_ok s /\ threads_ok (world s).

Lemma rep_inv_replicate s ev : rep_inv s -> rep_inv (replicate_message ev s).
Proof.
  intros [Hm Ht]. unfold replicate_message. case_decide as Hrole; [|done].
  destruct (Hm Hrole) as (kill & recv & Hstop & Hch & Hown). rewrite Hch.
  destruct (w_mpscs (world s) !! recv) as [[buf []]|] eqn:Hr; [|done|done].
  split.
  - intros _. exists kill, recv. simpl. split_and!; [done..|].
    destruct Hown as [?|[_ Hmp]]; [by left|]. by rewrite Hr in Hmp.
  - intros t Hin. simpl. rewrite length_insert. by apply Ht.
Qed.

Lemma rep_inv_runtime s s' : rep_inv s -> runtime_step s s' -> rep_inv s'.
Proof.
  intros [Hm Ht] Hstep. destruct Hstep as [s before t after Hth|s before c after Hsl]; split.
  - intros Hrole. destruct (Hm Hrole) as (kill & recv & ? & ? & Hown). exists kill, recv.
    split_and!; [done..|]. exact (owned_after_thread _ _ _ _ _ _ Hth Ht Hown).
  - intros t' Hin. simpl in *. unfold drop_receiver, drop_mpsc_receiver.
    rewrite !length_alter. apply Ht. rewrite Hth. set_solver.
  - intros Hrole. destruct (Hm Hrole) as (kill & recv & ? & ? & [Hin|[Hos Hmp]]);
      exists kill, recv; (split_and!; [done..|]); [by left|right].
    split; [by apply dropped_oneshot|done].
  - intros t' Hin. simpl. unfold drop_receiver. rewrite length_alter. by apply Ht.
Qed.

(** the kill channels once the old task has been signalled *)
Definition signalled s : list OneShot :=
  match stop_channel s with
  | Some c => <[c := mkOneShot true true]> (w_oneshots (world s))
  | None => w_oneshots (world s)
  end.

(** the part of [set_role] after the old channels are gone *)
Lemma set_role_cases s role s' :
  set_role role s = (s', Ok ()) ->
  (forall c, stop_channel s = Some c ->
     exists b, w_oneshots (world s) !! c = Some (mkOneShot b true)) /\
  let old := signalled s in
  let w := world s in
  replication_role s' = role /\
  match role with
  | Master => s' = mkReplicationState Master (Some (length old)) (Some (length (w_mpscs w)))
      (message_queue_config s)
      (mkWorld (old ++ [mkOneShot false true]) (w_mpscs w ++ [mkMpsc [] true])
         (w_threads w ++ [mkMasterThread (length (w_mpscs w)) (length old)]) (w_slaves w))
  | Slave => s' = mkReplicationState Slave (Some (length old)) None (message_queue_config s)
      (mkWorld (old ++ [mkOneShot false true]) (w_mpscs w) (w_threads w)
         (w_slaves w ++ [length old]))
  | NoRole => s' = mkReplicationState NoRole None None (message_queue_config s)
      (mkWorld old (w_mpscs w) (w_threads w) (w_slaves w))
  end.
Proof.
  destruct s as [r [c|] mc cfg w]; unfold set_role, mbind, M_bind, oneshot_send_unwrap; simpl.
  - destruct (w_oneshots w !! c) as [[b []]|] eqn:Hc; try done.
    intros Hrun. split; [intros ? [= <-]; eauto|].
    destruct role; injection Hrun as <-; done.
  - intros Hrun. split; [done|]. destruct w, role; injection Hrun as <-; done.
Qed.

Lemma rep_inv_set_role s role s' : rep_inv s -> set_role role s = (s', Ok ()) -> rep_inv s'.
Proof.
  intros [_ Ht] (_ & _ & Hs')%set_role_cases. set (old := signalled s) in *.
  assert (length old = length (w_oneshots (world s))) as Hlen
    by (unfold old, signalled; destruct (stop_channel s); by rewrite ?length_insert).
  destruct role; subst s'; split; simpl; try done.
  - intros _. eexists _, _. split_and!; [done..|]. left. simpl. set_solver.
  - intros t. simpl. rewrite !length_app, Hlen. simpl.
    intros [Hin| ->%list_elem_of_singleton]%elem_of_app; [|simpl; lia].
    destruct (Ht t Hin). lia.
  - intros t Hin. simpl. rewrite !length_app, Hlen. destruct (Ht t Hin). simpl. lia.
  - intros t Hin. simpl. rewrite Hlen. by apply Ht.
Qed.

Lemma reachable_inv config s : reachable config s -> rep_inv s.
Proof.
  induction 1; [|by eapply rep_inv_set_role|by apply rep_inv_replicate|by eapply rep_inv_runtime].
  split; [done|]. intros t Hin. by apply not_elem_of_nil in Hin.
Qed.
End invariant.

(** ** Properties *)

Section properties.
Context `{SemVer}.

(** C11: a registry that has become the master replicates nothing: as soon as
    the thread it started has run (which happens without any further event),
    an event given to [replicate_message] is lost, and the next role change,
    a second promotion to master for instance, panics on the closed stop
    channel.  The thread builds the future of the [async] publishing loop and
    drops it without polling it. *)
Theorem master_is_inert config s :
  reachable config s -> replication_role s = Master -> w_threads (world s) = [] ->
  (forall ev, replicate_message ev s = s) /\
  (forall role, exists s', set_role role s = (s', Err UnwrapOnErr)).
Proof.
  intros Hs Hrole Hth. destruct (reachable_inv config s Hs) as [Hm _].
  destruct (Hm Hrole) as (kill & recv & Hstop & Hch & [Hin|[Hos Hmp]]).
  { rewrite Hth in Hin. by apply not_elem_of_nil in Hin. }
  apply fmap_Some in Hos as ([b rx] & Hos & Hrx), Hmp as ([buf rx'] & Hmp & Hrx').
  simpl in *. subst rx rx'. split.
  - intros ev. unfold replicate_message. by rewrite decide_True, Hch, Hmp.
  - intros role. unfold set_role, mbind, M_bind, oneshot_send_unwrap. simpl.
    rewrite Hstop. simpl. rewrite Hos. by eexists.
Qed.

(** The publishing loop, if it were run, publishes the received events in
    order, each under the id of the object it concerns, and returns without
    publishing the event after which it finds the kill signal. *)
Theorem replicate_db_events_in_order `{UuidLib, !EventText} topic events last rest :
  replicate_db_events topic
    (((fun ev => RecvEvent ev false) <$> events) ++ RecvEvent last true :: rest) =
  ((fun ev => (topic, uuid_to_string (event_key ev), event_to_string ev)) <$> events,
   LoopReturned).
Proof.
  induction events as [|ev events IH]; simpl; [done|]. unfold fmap in IH. by rewrite IH.
Qed.
End properties.

Definition demo_config : MessageQueueConfig :=
  mkMessageQueueConfig (MqKafka (mkKafkaConfig "kafka:9092" "registry")) "replication" "replication".
(** promoted to master, its thread finished *)
Definition demo_master : ReplicationState :=
  mkReplicationState Master (Some 0) (Some 0) demo_config
    (mkWorld [mkOneShot false false] [mkMpsc [] false] [] []).

Lemma demo_master_reachable : reachable demo_config demo_master.
Proof.
  set (s := (set_role Master (replication_state_new demo_config)).1).
  apply (reach_runtime _ s).
  - apply (reach_role _ (replication_state_new demo_config) Master); [apply reach_new|reflexivity].
  - exact (rt_thread_exit s [] (mkMasterThread 0 0) [] eq_refl).
Qed.

Lemma master_is_inert_witness :
  (forall ev, replicate_message ev demo_master = demo_master) /\
  (forall role, exists s', set_role role demo_master = (s', Err UnwrapOnErr)).
Proof.
  apply (master_is_inert demo_config demo_master); [apply demo_master_reachable|reflexivity..].
Defined.
