(* ===== verification/RegistryRpc.v ===== *)
(** The gRPC surface of the schema registry: [SchemaRegistryImpl] of
    [crates/schema-registry/src/rpc.rs].  Each handler parses its request, calls
    the database and, when it changes something, hands the change to
    replication. *)
From stdpp Require Import prelude gmap strings list fin_maps.
From S2P Require Import Prelude Json Externals Indradb RegistryTypes SchemaDb Messaging.
From S2P Require Import Replication.

(** ** Requests and responses (generated from [proto/schema_registry.proto]) *)

Record ReqNewSchema : Type := mkReqNewSchema {
  rns_id : string; rns_name : string; rns_query_address : string; rns_topic : string;
  rns_definition : string; rns_schema_type : Z }.
Record ReqNewSchemaVersion : Type := mkReqNewSchemaVersion {
  rnv_id : string; rnv_version : string; rnv_definition : string }.
Record SchemaMetadataUpdate : Type := mkSchemaMetadataUpdate {
  smu_id : string; smu_name : option string; smu_topic : option string;
  smu_address : option string; smu_schema_type : option Z }.
Record ReqNewSchemaView : Type := mkReqNewSchemaView {
  rnw_schema_id : string; rnw_view_id : string; rnw_name : string; rnw_jmespath : string }.
Record UpdatedView : Type := mkUpdatedView {
  uv_id : string; uv_name : option string; uv_jmespath : option string }.
Record VersionedId : Type := mkVersionedId { vi_id : string; vi_version_req : string }.
Record ValueToValidate : Type := mkValueToValidate { vtv_schema_id : string; vtv_value : string }.

Record RespSchema : Type := mkRespSchema {
  rs_name : string; rs_topic : string; rs_query_address : string; rs_schema_type : Z }.
Record RespDefinition : Type := mkRespDefinition { rd_version : string; rd_definition : string }.

(** the prost getter of a required enum field: an unknown number is the default *)
Definition schema_type_or_default (n : Z) : ProtoSchemaType :=
  default PDocumentStorage (proto_from_i32 n).

Section parse.
Context `{SemVer, UuidLib, JsonText}.

Definition parse_version_req (req : string) : result Status VersionReq :=
  map_err (fun err => mkStatus InvalidArgument ("Invalid version requirement provided: " +:+ err))
    (version_req_parse req).
Definition parse_version (req : string) : result Status Version :=
  map_err (fun err => mkStatus InvalidArgument ("Invalid version provided: " +:+ err))
    (version_parse req).
Definition parse_json (json : string) : result Status Value :=
  map_err (fun err => mkStatus InvalidArgument ("Invalid JSON provided: " +:+ err))
    (json_parse json).
Definition parse_uuid (id : string) : result Status Uuid :=
  map_err (fun err => mkStatus InvalidArgument ("Failed to parse UUID: " +:+ err))
    (uuid_parse_str id).
Definition parse_optional_uuid (id : string) : result Status (option Uuid) :=
  if decide (id = EmptyString) then Ok None
  else map_err (fun err => mkStatus InvalidArgument ("Failed to parse optional UUID: " +:+ err))
         (Some <$> uuid_parse_str id).
Definition serialize_json (json : Value) : result Status string :=
  map_err (fun err => mkStatus Internal ("Unable to serialize JSON: " +:+ err))
    (json_to_string json).
End parse.

(** ** The service *)

Record SchemaRegistryImpl (D B : Type) `{SemVer} : Type := mkSchemaRegistryImpl {
  impl_db : D;
  impl_broker : B;
  impl_mq_metadata : MetadataFetcher;
  impl_replication : ReplicationState;
  impl_pod_name : option string;
}.
Arguments mkSchemaRegistryImpl {D B _}.
Arguments impl_db {D B _}.
Arguments impl_broker {D B _}.
Arguments impl_mq_metadata {D B _}.
Arguments impl_replication {D B _}.
Arguments impl_pod_name {D B _}.

Section service.
Context {D B : Type} `{Datastore D, Broker B, SemVer, UuidLib, JsonText, JsonSchemaLib,
  JmespathLib, HashIter}.

#[local] Notation Impl := (SchemaRegistryImpl D B).
#[local] Notation Rpc := (M Impl Status).

(** [self.db.f()?]: the error becomes a [Status] *)
Definition on_database {A} (m : M D RegistryError A) : Rpc A := fun s =>
  let '(d, r) := m (impl_db s) in
  (mkSchemaRegistryImpl d (impl_broker s) (impl_mq_metadata s) (impl_replication s)
     (impl_pod_name s), map_err registry_error_to_status r).

Definition replicate (event : ReplicationEvent) : Rpc () := fun s =>
  (mkSchemaRegistryImpl (impl_db s) (impl_broker s) (impl_mq_metadata s)
     (replicate_message event (impl_replication s)) (impl_pod_name s), Ok ()).

(** the check that a topic exists *)
Definition require_topic (topic : string) : Rpc () := fun s =>
  (s, match topic_or_exchange_exists (impl_mq_metadata s) topic (impl_broker s) with
      | Err e => Err (registry_error_to_status (MQError (messaging_error_display e)))
      | Ok true => Ok ()
      | Ok false => Err (registry_error_to_status (NoTopic topic))
      end).

Definition rpc_add_schema (request : ReqNewSchema) : Rpc string :=
  schema_id ← lift (parse_optional_uuid (rns_id request));
  let schema_type := schema_type_from_proto (schema_type_or_default (rns_schema_type request)) in
  definition ← lift (parse_json (rns_definition request));
  let new_schema := mkNewSchema (rns_name request) definition (rns_topic request)
                      (rns_query_address request) schema_type in
  require_topic (ns_kafka_topic new_schema) ;;
  new_id ← on_database (add_schema new_schema schema_id);
  replicate (EvAddSchema new_schema new_id) ;;
  mret (uuid_to_string new_id).

Definition rpc_add_schema_version (request : ReqNewSchemaVersion) : Rpc () :=
  schema_id ← lift (parse_uuid (rnv_id request));
  version ← lift (parse_version (rnv_version request));
  definition ← lift (parse_json (rnv_definition request));
  let new_version := mkNewSchemaVersion version definition in
  on_database (add_new_version_of_schema schema_id new_version) ;;
  replicate (EvAddSchemaVersion schema_id new_version).

Definition rpc_update_schema_metadata (request : SchemaMetadataUpdate) : Rpc () :=
  schema_id ← lift (parse_uuid (smu_id request));
  match smu_topic request with Some topic => require_topic topic | None => mret () end ;;
  match smu_name request with
  | Some name => on_database (update_schema_name schema_id name) | None => mret ()
  end ;;
  match smu_topic request with
  | Some topic => on_database (update_schema_topic schema_id topic) | None => mret ()
  end ;;
  match smu_address request with
  | Some address => on_database (update_schema_query_address schema_id address) | None => mret ()
  end ;;
  match smu_schema_type request with
  | Some schema_type =>
      schema_type ← lift (ok_or (registry_error_to_status InvalidSchemaType)
                            (proto_from_i32 schema_type));
      on_database (update_schema_type schema_id (schema_type_from_proto schema_type))
  | None => mret ()
  end ;;
  replicate (EvUpdateSchemaMetadata schema_id (smu_name request) (smu_topic request)
               (smu_address request) None).

Definition rpc_add_view_to_schema (request : ReqNewSchemaView) : Rpc string :=
  schema_id ← lift (parse_uuid (rnw_schema_id request));
  replicated_view_id ← lift (parse_optional_uuid (rnw_view_id request));
  let view := mkView (rnw_name request) (rnw_jmespath request) in
  view_id ← on_database (add_view_to_schema schema_id view replicated_view_id);
  replicate (EvAddViewToSchema schema_id view view_id) ;;
  mret (uuid_to_string view_id).

Definition rpc_update_view (request : UpdatedView) : Rpc View :=
  view_id ← lift (parse_uuid (uv_id request));
  let view := mkViewUpdate (uv_name request) (uv_jmespath request) in
  old_view ← on_database (update_view view_id view);
  replicate (EvUpdateView view_id view) ;;
  mret old_view.

Definition rpc_get_schema (request : VersionedId) : Rpc RespDefinition :=
  id ← lift (parse_uuid (vi_id request));
  version_req ← lift (parse_version_req (vi_version_req request));
  definition ← on_database (get_schema_definition (versioned_new id version_req));
  text ← lift (serialize_json (sd_definition definition));
  mret (mkRespDefinition (version_to_string (sd_version definition)) text).

Definition resp_schema (schema : Schema) : RespSchema :=
  mkRespSchema (sc_name schema) (sc_kafka_topic schema) (sc_query_address schema)
    (schema_type_as_i32 (sc_schema_type schema)).

Definition rpc_get_schema_metadata (id : string) : Rpc RespSchema :=
  schema_id ← lift (parse_uuid id);
  schema ← on_database (get_schema schema_id);
  mret (resp_schema schema).

Definition rpc_get_schema_topic (id : string) : Rpc string :=
  schema_id ← lift (parse_uuid id);
  on_database (get_schema_topic schema_id).

Definition rpc_get_schema_query_address (id : string) : Rpc string :=
  schema_id ← lift (parse_uuid id);
  on_database (get_schema_query_address schema_id).

Definition rpc_get_schema_versions (id : string) : Rpc (list string) :=
  schema_id ← lift (parse_uuid id);
  all_versions ← on_database (get_schema_versions schema_id);
  mret ((fun p => version_to_string p.1) <$> all_versions).

Definition rpc_get_schema_type (id : string) : Rpc Z :=
  schema_id ← lift (parse_uuid id);
  schema_type ← on_database (get_schema_type schema_id);
  mret (schema_type_as_i32 schema_type).

Definition rpc_get_view (id : string) : Rpc View :=
  view_id ← lift (parse_uuid id);
  on_database (get_view view_id).

Definition rpc_get_all_schemas : Rpc (gmap string RespSchema) :=
  schemas ← on_database get_all_schemas;
  mret (collect_map ((fun p => (uuid_to_string p.1, resp_schema p.2)) <$> hash_iter schemas)).

Definition rpc_get_all_schema_names : Rpc (gmap string string) :=
  names ← on_database get_all_schema_names;
  mret (collect_map ((fun p => (uuid_to_string p.1, p.2)) <$> hash_iter names)).

Definition rpc_get_all_views_of_schema (id : string) : Rpc (gmap string View) :=
  schema_id ← lift (parse_uuid id);
  views ← on_database (get_all_views_of_schema schema_id);
  mret (collect_map ((fun p => (uuid_to_string p.1, p.2)) <$> hash_iter views)).

Definition rpc_validate_value (request : ValueToValidate) : Rpc (list string) :=
  schema_id ← lift (parse_uuid (vtv_schema_id request));
  json ← lift (parse_json (vtv_value request));
  full_schema ← on_database (get_schema_definition (versioned_any schema_id));
  match jsonschema_compile (sd_definition full_schema) with
  | Err _ => fail (registry_error_to_status InvalidSchema)
  | Ok validate => mret (validate json)
  end.

(** a panic in [set_role] poisons the lock; RegistryProcess says what follows *)
Definition rpc_promote_to_master : Impl -> Impl * result Panic string := fun s =>
  let '(rep, r) := set_role Master (impl_replication s) in
  (mkSchemaRegistryImpl (impl_db s) (impl_broker s) (impl_mq_metadata s) rep (impl_pod_name s),
   match r with Ok _ => Ok (default EmptyString (impl_pod_name s)) | Err p => Err p end).

Definition rpc_heartbeat : Rpc () := mret ().

Definition set_replication_role (role : ReplicationRole) : Impl -> Impl * result Panic () := fun s =>
  let '(rep, r) := set_role role (impl_replication s) in
  (mkSchemaRegistryImpl (impl_db s) (impl_broker s) (impl_mq_metadata s) rep (impl_pod_name s), r).

(** [SchemaRegistryImpl::new] *)
Definition impl_new (db : D) (broker : B) (replication_role : ReplicationRole)
    (config : MessageQueueConfig) (pod_name : option string) : Impl * result Panic () :=
  set_replication_role replication_role
    (mkSchemaRegistryImpl db broker
       match mq_queue config with MqKafka _ => FetcherKafka | MqAmqp _ => FetcherAmqp end
       (replication_state_new config) pod_name).
End service.
