(* ===== verification/ReplicaSpec.v ===== *)
(** Replication preserves registries: two registries that hold the same schemas
    and views, and the same definition under every version, still do after one
    has served a request and the other has consumed the event of that request.
    Definition vertices get their own random ids in every registry, so the
    relation is coarser than equality of graphs. *)
From stdpp Require Import prelude gmap strings list fin_maps.
From S2P Require Import Prelude Json Externals Indradb RegistryTypes SchemaDb SchemaDbSpec.
From S2P Require Import Registry Instances RegistryRun Messaging Replication RegistryRpc.

(** version [v] of schema [id] has definition [def] *)
Definition published `{SemVer} (g : Graph) (id : Uuid) (v : Version) (def : Value) : Prop :=
  exists i, g_version g id i = Some v /\ g_vprop g i Definition_VALUE = Some def.

(** [i] is a schema or a view with the given properties *)
Definition entity (g : Graph) (i : Uuid) (vd : VData) : Prop :=
  g_vertices g !! i = Some vd /\ vd_t vd <> SCHEMA_DEFINITION_VERTEX_TYPE.

Record replica `{SemVer} (g g' : Graph) : Prop := {
  rp_entities i vd : entity g i vd <-> entity g' i vd;
  rp_published id v def : published g id v def <-> published g' id v def;
  rp_views s i : is_Some (g_edges g !! sv_key s i) <-> is_Some (g_edges g' !! sv_key s i);
}.

#[export] Instance replica_equivalence `{SemVer} : Equivalence replica.
Proof.
  split.
  - by intros g.
  - intros g g' [He Hp Hv]. split; intros; symmetry; auto.
  - intros g1 g2 g3 [He Hp Hv] [He' Hp' Hv']. split; intros; etransitivity; eauto.
Qed.

Section replica.
Context `{SemVerLaws, UuidLib, JsonSchemaLib, JmespathLib}.
Implicit Types (g : Graph) (id i j : Uuid).

(** *** The same request resolves to the same definition *)

Lemma latest_definition_published g (id : VersionedUuid) def :
  latest_definition g id def -> exists v, published g (vid_id id) v def /\
    req_matches (vid_version_req id) v = true /\
    forall w d', wf_graph g -> published g (vid_id id) w d' ->
      req_matches (vid_version_req id) w = true -> version_leb w v = true.
Proof.
  intros (v & i & (Hv & Hm & Hmax) & Hdef). exists v. split; [by exists i|]. split; [done|].
  intros w d' Hwf (j & Hw & _) Hmw. by eapply Hmax.
Qed.

Lemma latest_definition_replica g g' (id : VersionedUuid) def def' :
  wf_graph g -> wf_graph g' -> replica g g' ->
  latest_definition g id def -> latest_definition g' id def' -> def = def'.
Proof.
  intros Hwf Hwf' Hr Hd Hd'.
  apply latest_definition_published in Hd as (v & Hv & Hm & Hmax).
  apply latest_definition_published in Hd' as (v' & Hv' & Hm' & Hmax').
  apply (rp_published _ _ Hr) in Hv as Hv2. apply (rp_published _ _ Hr) in Hv' as Hv2'.
  assert (version_equiv v v') as Heq.
  { split; [by eapply Hmax'|by eapply Hmax]. }
  destruct Hv2 as (i & Hi & Hdi), Hv' as (j & Hj & Hdj).
  assert (i = j) as -> by (by eapply (wf_versions_distinct g')). by simplify_eq.
Qed.

Lemma resolved_replica g g' schema full full' :
  wf_graph g -> wf_graph g' -> replica g g' ->
  resolved g schema full -> resolved g' schema full' -> full = full'.
Proof.
  intros Hwf Hwf' Hr [Hf _] [Hf' _].
  destruct (get_key "definitions" schema ≫= as_object) as [defs|]; [|by subst].
  destruct Hf as (m & -> & Hm), Hf' as (m' & -> & Hm'). do 2 f_equal.
  apply map_eq. intros k. specialize (Hm k). specialize (Hm' k).
  destruct (defs !! k) as [x|], (m !! k) as [y|], (m' !! k) as [y'|];
    inversion Hm as [? ? Hy|]; inversion Hm' as [? ? Hy'|]; subst; [|done].
  f_equal. unfold resolved_member in *.
  destruct (as_str x ≫= fun s => result_ok (uuid_parse_str s)) as [u|]; [|by subst].
  by apply (latest_definition_replica g g' (versioned_any u)).
Qed.

(** *** Each transition preserves the relation *)

Lemma published_new_vertex g i t ps id v def :
  wf_graph g -> g_vertices g !! i = None ->
  published (g_new_vertex i t ps g) id v def <-> published g id v def.
Proof.
  intros Hwf Hi. unfold published. split; intros (j & Hv & Hd); exists j.
  - rewrite (g_version_edges _ g) in Hv by done. split; [done|].
    unfold g_vprop in *. simpl in Hd. rewrite lookup_insert_ne in Hd; [done|].
    intros <-. apply wf_version_definition in Hv as [? Hv]; [|done].
    unfold g_vprop in Hv. by rewrite Hi in Hv.
  - split; [by rewrite (g_version_edges _ g)|by apply g_vprop_new_vertex].
Qed.

Lemma published_add_definition g id i v full id' v' def :
  wf_graph g -> g_vertices g !! i = None ->
  published (g_add_definition id i v full g) id' v' def <->
  (id' = id /\ v' = v /\ def = full) \/ published g id' v' def.
Proof.
  intros Hwf Hi. unfold published. split.
  - intros (j & Hv & Hd). rewrite g_version_add_definition in Hv. case_decide as Hij.
    + destruct Hij as [-> ->]. simplify_eq.
      rewrite g_vprop_add_definition in Hd. simplify_eq. by left.
    + right. exists j. split; [done|].
      apply wf_version_definition in Hv as [x Hx]; [|done].
      assert (g_vprop (g_add_definition id i v full g) j Definition_VALUE = Some x)
        by (by apply (g_vprop_new_vertex g)).
      congruence.
  - intros [(-> & -> & ->)|(j & Hv & Hd)].
    + exists i. rewrite g_version_add_definition, decide_True by done.
      by rewrite g_vprop_add_definition.
    + exists j. by apply history_add_definition.
Qed.

Lemma published_set_vprop g i name x id v def :
  name <> Definition_VALUE ->
  published (g_set_vprop i name x g) id v def <-> published g id v def.
Proof.
  intros Hname. unfold published. split; intros (j & Hv & Hd); exists j.
  - rewrite (g_version_edges _ g) in Hv by done. split; [done|].
    by rewrite g_vprop_set_vprop_ne in Hd by auto.
  - rewrite (g_version_edges _ g) by done. split; [done|].
    by rewrite g_vprop_set_vprop_ne by auto.
Qed.

Lemma published_edges_only g g' id v def :
  g_vertices g = g_vertices g' -> (forall j, g_version g id j = g_version g' id j) ->
  published g id v def <-> published g' id v def.
Proof.
  intros Hv He. unfold published, g_vprop. rewrite Hv. split; intros (j & Hj & ?); exists j.
  - by rewrite <- He.
  - by rewrite He.
Qed.

(** ids of entities are free in both registries or in none *)
Lemma entity_fresh g g' i vd :
  replica g g' -> g_vertices g' !! i = None -> ~ entity g i vd.
Proof. intros Hr Hi [Hv _]%(rp_entities _ _ Hr). congruence. Qed.

Lemma entity_insert g i t ps j vd :
  entity (g_new_vertex i t ps g) j vd <->
  (i = j /\ vd = mkVData t (collect_map ps) /\ t <> SCHEMA_DEFINITION_VERTEX_TYPE) \/
  (i <> j /\ entity g j vd).
Proof.
  unfold entity. simpl. rewrite lookup_insert. case_decide; naive_solver.
Qed.

Lemma entity_add_definition g id i v full j vd :
  entity (g_add_definition id i v full g) j vd <-> i <> j /\ entity g j vd.
Proof.
  unfold g_add_definition. etransitivity; [apply (entity_insert g i)|]. naive_solver.
Qed.

Lemma entity_fresh_ne g i j vd : g_vertices g !! i = None -> entity g j vd -> i <> j.
Proof. intros Hi [Hj _] ->. congruence. Qed.

Lemma replica_add_definition g g' id i i' v full :
  wf_graph g -> wf_graph g' -> replica g g' ->
  g_vertices g !! i = None -> g_vertices g' !! i' = None ->
  replica (g_add_definition id i v full g) (g_add_definition id i' v full g').
Proof.
  intros Hwf Hwf' Hr Hi Hi'. split.
  - intros j vd. rewrite !entity_add_definition. split; intros [_ He]; split.
    + apply (rp_entities _ _ Hr) in He. by eapply entity_fresh_ne.
    + by apply (rp_entities _ _ Hr).
    + apply (rp_entities _ _ Hr) in He. by eapply entity_fresh_ne.
    + by apply (rp_entities _ _ Hr).
  - intros id' v' def. rewrite !published_add_definition by done.
    by rewrite (rp_published _ _ Hr).
  - intros s j. unfold g_add_definition, g_new_edge. simpl.
    rewrite !lookup_insert_ne by done. apply Hr.
Qed.

Lemma replica_new_vertex g g' i t ps :
  wf_graph g -> wf_graph g' -> replica g g' -> g_vertices g !! i = None ->
  g_vertices g' !! i = None -> replica (g_new_vertex i t ps g) (g_new_vertex i t ps g').
Proof.
  intros Hwf Hwf' Hr Hi Hi'. split.
  - intros j vd. rewrite !entity_insert. by rewrite (rp_entities _ _ Hr).
  - intros id v def. rewrite !published_new_vertex by done. apply Hr.
  - apply Hr.
Qed.

Lemma replica_new_view_edge g g' s i :
  replica g g' -> replica (g_new_edge (sv_key s i) [] g) (g_new_edge (sv_key s i) [] g').
Proof.
  intros Hr. split.
  - apply Hr.
  - intros id v def.
    rewrite (published_edges_only (g_new_edge (sv_key s i) [] g) g),
      (published_edges_only (g_new_edge (sv_key s i) [] g') g');
      [apply Hr|done| |done|]; intros j; by rewrite g_version_new_edge, decide_False.
  - intros s' j. simpl. rewrite !lookup_insert. case_decide; [|apply Hr].
    split; intros _; by eexists.
Qed.

Lemma entity_set_vprop g i name x j vd :
  entity (g_set_vprop i name x g) j vd <->
  (i <> j /\ entity g j vd) \/
  (i = j /\ exists vd0, entity g j vd0 /\ vd = mkVData (vd_t vd0) (<[name := x]> (vd_props vd0))).
Proof.
  unfold entity. rewrite lookup_set_vprop. case_decide as Hij; [subst|naive_solver].
  destruct (g_vertices g !! j) as [vd0|]; simpl; naive_solver.
Qed.

Lemma replica_set_vprop g g' i name x :
  name <> Definition_VALUE -> replica g g' ->
  replica (g_set_vprop i name x g) (g_set_vprop i name x g').
Proof.
  intros Hname Hr. split.
  - intros j vd. rewrite !entity_set_vprop. setoid_rewrite (rp_entities _ _ Hr). done.
  - intros id v def. rewrite !published_set_vprop by done. apply Hr.
  - apply Hr.
Qed.

Lemma replica_set_vprops g g' i ps :
  Forall (fun p => p.1 <> Definition_VALUE) ps -> replica g g' ->
  replica (g_set_vprops i ps g) (g_set_vprops i ps g').
Proof.
  unfold g_set_vprops. intros Hps. revert g g'.
  induction Hps as [|p ps Hp _ IH]; intros g g' Hr; [done|]. by apply IH, replica_set_vprop.
Qed.
End replica.

(** ** Events carry the changes of the handlers *)

Section carries.
Context {D : Type} `{DatastoreLaws D, SemVerLaws, UuidLib, JsonSchemaLib, JmespathLib}.
Implicit Types (g : Graph) (d : D) (id i : Uuid).

(** a replica of [g] that consumes [ev] becomes a replica of [g1] *)
Definition carries (ev : ReplicationEvent) g g1 : Prop := forall (s s' : D),
  wf (graph s) -> fits (graph s) -> replica g (graph s) ->
  consume_event ev s = (s', Ok ()) -> replica g1 (graph s').

Lemma carries_intro ev g g1 :
  (forall s, wf (graph s) -> fits (graph s) -> replica g (graph s) ->
     wp (consume_event ev) s (fun _ s' => replica g1 (graph s')) (fun _ _ => True)) ->
  carries ev g g1.
Proof.
  intros Hwp s s' Hwf Hfits Hr Hrun. exact (wp_ok _ _ _ _ _ _ (Hwp s Hwf Hfits Hr) Hrun).
Qed.

Lemma add_schema_carries g sch id i full :
  wf g -> resolved g (ns_definition sch) full -> g_vertices g !! id = None ->
  g_vertices g !! i = None -> i <> id ->
  carries (EvAddSchema sch id) g
    (g_add_definition id i (version_new 1 0 0) full
      (g_new_vertex id SCHEMA_VERTEX_TYPE (schema_into_properties (new_schema_vertex sch).1) g)).
Proof.
  intros [Hwf _] Hres Hid Hi Hne. apply carries_intro. intros s Hwfs Hfits Hr. simpl.
  apply wp_bind. eapply wp_mono; [by apply add_schema_spec| |done].
  intros id' s' (i' & full' & Hres' & Hid' & Hu & Hi' & Hne' & Hs'). apply wp_ret.
  specialize (Hu id eq_refl). subst id'. rewrite Hs'.
  rewrite <- (resolved_replica g (graph s) (ns_definition sch) full full');
    [|done|apply Hwfs|done..].
  pose proof (vertex_ok_schema (new_schema_vertex sch).1) as Hok.
  apply replica_add_definition; simpl.
  - by apply wf_new_vertex.
  - apply wf_new_vertex; [apply Hwfs|done..].
  - by apply replica_new_vertex; [|apply Hwfs| | |].
  - by rewrite lookup_insert_ne.
  - by rewrite lookup_insert_ne.
Qed.

Lemma add_version_carries g id v i full :
  wf g -> resolved g (nv_definition v) full -> g_vertices g !! i = None ->
  carries (EvAddSchemaVersion id v) g (g_add_definition id i (nv_version v) full g).
Proof.
  intros [Hwf _] Hres Hi. apply carries_intro. intros s Hwfs Hfits Hr. simpl.
  eapply wp_mono; [by apply add_version_spec| |done].
  intros [] s' (i' & full' & Hid & Hnew & Hres' & Hi' & Hs'). cbv beta. rewrite Hs'.
  rewrite <- (resolved_replica g (graph s) (nv_definition v) full full');
    [|done|apply Hwfs|done..].
  by apply replica_add_definition; [|apply Hwfs| | |].
Qed.

Lemma add_view_carries g schema_id view i :
  wf g -> g_vertices g !! i = None ->
  carries (EvAddViewToSchema schema_id view i) g
    (g_new_edge (sv_key schema_id i) []
      (g_new_vertex i VIEW_VERTEX_TYPE (view_into_properties view) g)).
Proof.
  intros [Hwf _] Hi. apply carries_intro. intros s Hwfs Hfits Hr. simpl. apply wp_bind.
  eapply wp_mono; [by apply add_view_spec| |done].
  intros i' s' (Hid & Hparse & Hi' & Hu & Hs'). apply wp_ret.
  specialize (Hu i eq_refl). subst i'. rewrite Hs'. apply replica_new_view_edge.
  by apply replica_new_vertex; [|apply Hwfs| | |].
Qed.

Lemma update_view_carries g id u :
  carries (EvUpdateView id u) g
    (g_set_vprops id (schema_update_properties (vu_name u, vu_jmespath u)
                        View_NAME View_EXPRESSION) g).
Proof.
  apply carries_intro. intros s Hwfs Hfits Hr. simpl. apply wp_bind.
  eapply wp_mono; [by apply update_view_spec| |done].
  intros old s' (_ & _ & _ & Hs'). apply wp_ret. rewrite Hs'. apply replica_set_vprops; [|done].
  unfold schema_update_properties. simpl.
  destruct (vu_name u), (vu_jmespath u); repeat constructor; done.
Qed.

(** an optional metadata update *)
Definition g_opt_set id name (o : option Value) g : Graph :=
  match o with Some x => g_set_vprop id name x g | None => g end.

Lemma opt_update_spec {A} (f : A -> M D RegistryError ()) (val : A -> Value) id name
    (o : option A) d :
  (forall x, f x = (ensure_schema_exists id ;; set_vertex_properties id [(name, val x)])) ->
  wp (match o with Some x => f x | None => mret () end) d
    (fun _ d' => graph d' = g_opt_set id name (val <$> o) (graph d)) (fun _ _ => True).
Proof.
  intros Hf. destruct o as [x|]; [|by apply wp_ret]. rewrite Hf. simpl.
  eapply wp_mono; [by apply (update_property_spec d id name (val x) (fun _ => True))| |done].
  intros [] d' [_ Hd']. done.
Qed.

(** the graph after the updates an event names *)
Definition g_metadata id (name topic address : option string) (t : option SchemaType) g : Graph :=
  g_opt_set id Schema_SCHEMA_TYPE ((fun t => VString (schema_type_to_string t)) <$> t)
    (g_opt_set id Schema_QUERY_ADDRESS (VString <$> address)
      (g_opt_set id Schema_TOPIC_NAME (VString <$> topic)
        (g_opt_set id Schema_NAME (VString <$> name) g))).

Lemma consume_metadata_spec id name topic address t d :
  wp (consume_event (EvUpdateSchemaMetadata id name topic address t)) d
    (fun _ d' => graph d' = g_metadata id name topic address t (graph d)) (fun _ _ => True).
Proof.
  simpl. apply wp_bind. eapply wp_mono; [by apply (opt_update_spec _ VString id Schema_NAME)| |done].
  intros [] d1 Hd1. apply wp_bind.
  eapply wp_mono; [by apply (opt_update_spec _ VString id Schema_TOPIC_NAME)| |done].
  intros [] d2 Hd2. apply wp_bind.
  eapply wp_mono; [by apply (opt_update_spec _ VString id Schema_QUERY_ADDRESS)| |done].
  intros [] d3 Hd3.
  eapply wp_mono; [by apply (opt_update_spec _ (fun t => VString (schema_type_to_string t)) id
    Schema_SCHEMA_TYPE)| |done].
  intros [] d4 Hd4. cbv beta. unfold g_metadata. by rewrite Hd4, Hd3, Hd2, Hd1.
Qed.

Lemma replica_opt_set g g' id name o :
  name <> Definition_VALUE -> replica g g' ->
  replica (g_opt_set id name o g) (g_opt_set id name o g').
Proof. destruct o; simpl; [by apply replica_set_vprop|done]. Qed.

Lemma metadata_carries g id name topic address :
  carries (EvUpdateSchemaMetadata id name topic address None) g
    (g_metadata id name topic address None g).
Proof.
  apply carries_intro. intros s _ _ Hr. eapply wp_mono; [apply consume_metadata_spec| |done].
  intros [] s' Hs'. cbv beta. rewrite Hs'. unfold g_metadata. simpl.
  by repeat apply replica_opt_set.
Qed.
End carries.

(** ** The handlers *)

Inductive MutRequest : Type :=
| RqAddSchema (r : ReqNewSchema)
| RqAddSchemaVersion (r : ReqNewSchemaVersion)
| RqUpdateSchemaMetadata (r : SchemaMetadataUpdate)
| RqAddViewToSchema (r : ReqNewSchemaView)
| RqUpdateView (r : UpdatedView).

Section handlers.
Context {D B : Type} `{DatastoreLaws D, Broker B, SemVerLaws, UuidLib, JsonText, JsonSchemaLib,
  JmespathLib}.
Implicit Types (s : SchemaRegistryImpl D B).

Definition handle (rq : MutRequest) : M (SchemaRegistryImpl D B) Status () :=
  match rq with
  | RqAddSchema r => rpc_add_schema r ;; mret ()
  | RqAddSchemaVersion r => rpc_add_schema_version r
  | RqUpdateSchemaMetadata r => rpc_update_schema_metadata r
  | RqAddViewToSchema r => rpc_add_view_to_schema r ;; mret ()
  | RqUpdateView r => rpc_update_view r ;; mret ()
  end.

(** the impl after its database changed, and after it also replicated *)
Definition with_db s (d : D) : SchemaRegistryImpl D B :=
  mkSchemaRegistryImpl d (impl_broker s) (impl_mq_metadata s) (impl_replication s)
    (impl_pod_name s).
Definition with_event s (ev : ReplicationEvent) : SchemaRegistryImpl D B :=
  mkSchemaRegistryImpl (impl_db s) (impl_broker s) (impl_mq_metadata s)
    (replicate_message ev (impl_replication s)) (impl_pod_name s).

Lemma wp_on_database {A} (m : M D RegistryError A) s Q R :
  wp m (impl_db s) (fun a d => Q a (with_db s d))
    (fun e d => R (registry_error_to_status e) (with_db s d)) ->
  wp (on_database m) s Q R.
Proof. unfold wp, on_database. by destruct (m (impl_db s)) as [d [a|e]]. Qed.

Lemma wp_parse {A C} (r : result Status A) (f : A -> M (SchemaRegistryImpl D B) Status C) s
    (Q : C -> SchemaRegistryImpl D B -> Prop) :
  (forall a, r = Ok a -> wp (f a) s Q (fun _ _ => True)) ->
  wp (lift r ≫= f) s Q (fun _ _ => True).
Proof. intros HQ. apply wp_bind, wp_lift; [done|done]. Qed.

Lemma wp_require_topic {C} topic (f : () -> M (SchemaRegistryImpl D B) Status C) s
    (Q : C -> SchemaRegistryImpl D B -> Prop) :
  wp (f ()) s Q (fun _ _ => True) -> wp (require_topic topic ≫= f) s Q (fun _ _ => True).
Proof.
  intros HQ. apply wp_bind. unfold wp at 1, require_topic.
  by destruct (topic_or_exchange_exists _ _ _) as [[]|].
Qed.

(** what a successful mutating handler has done: changed the database, and
    replicated one event that carries the change *)
Definition handled s s' : Prop := exists ev d',
  s' = with_event (with_db s d') ev /\ carries (D := D) ev (graph (impl_db s)) (graph d').

Lemma handled_intro s d' ev :
  carries (D := D) ev (graph (impl_db s)) (graph d') ->
  wp (replicate ev) (with_db s d') (fun _ s' => handled s s') (fun _ _ => True).
Proof. intros Hev. unfold wp, replicate. by exists ev, d'. Qed.

Lemma handled_add_schema r s :
  wf (graph (impl_db s)) -> fits (graph (impl_db s)) ->
  wp (handle (RqAddSchema r)) s (fun _ s' => handled s s') (fun _ _ => True).
Proof.
  intros Hwf Hfits. unfold handle, rpc_add_schema.
  apply wp_bind, wp_parse. intros schema_id _. apply wp_parse. intros definition _.
  apply wp_require_topic, wp_bind, wp_on_database.
  eapply wp_mono; [by apply add_schema_spec| |done].
  intros id d' (i & full & Hres & Hid & Hu & Hi & Hne & Hd').
  apply wp_bind. eapply wp_mono; [apply handled_intro| |done].
  - rewrite Hd'. by apply add_schema_carries.
  - intros [] s' Hs'. by do 2 apply wp_ret.
Qed.

Lemma handled_add_version r s :
  wf (graph (impl_db s)) -> fits (graph (impl_db s)) ->
  wp (handle (RqAddSchemaVersion r)) s (fun _ s' => handled s s') (fun _ _ => True).
Proof.
  intros Hwf Hfits. unfold handle, rpc_add_schema_version.
  apply wp_parse. intros id _. apply wp_parse. intros v _. apply wp_parse. intros def _.
  apply wp_bind, wp_on_database. eapply wp_mono; [by apply add_version_spec| |done].
  intros [] d' (i & full & Hid & Hnew & Hres & Hi & Hd'). apply handled_intro.
  rewrite Hd'. by apply (add_version_carries _ id (mkNewSchemaVersion v def)).
Qed.

Lemma handled_add_view r s :
  wf (graph (impl_db s)) -> fits (graph (impl_db s)) ->
  wp (handle (RqAddViewToSchema r)) s (fun _ s' => handled s s') (fun _ _ => True).
Proof.
  intros Hwf Hfits. unfold handle, rpc_add_view_to_schema.
  apply wp_bind, wp_parse. intros schema_id _. apply wp_parse. intros view_id _.
  apply wp_bind, wp_on_database. eapply wp_mono; [by apply add_view_spec| |done].
  intros i d' (Hid & Hparse & Hi & Hu & Hd').
  apply wp_bind. eapply wp_mono; [apply handled_intro| |done].
  - rewrite Hd'. by apply add_view_carries.
  - intros [] s' Hs'. by do 2 apply wp_ret.
Qed.

Lemma handled_update_view r s :
  wf (graph (impl_db s)) ->
  wp (handle (RqUpdateView r)) s (fun _ s' => handled s s') (fun _ _ => True).
Proof.
  intros Hwf. unfold handle, rpc_update_view.
  apply wp_bind, wp_parse. intros view_id _.
  apply wp_bind, wp_on_database. eapply wp_mono; [by apply update_view_spec| |done].
  intros old d' (_ & _ & _ & Hd').
  apply wp_bind. eapply wp_mono; [apply handled_intro| |done].
  - rewrite Hd'. apply update_view_carries.
  - intros [] s' Hs'. by do 2 apply wp_ret.
Qed.

Lemma wp_opt_database {A} (f : A -> M D RegistryError ()) (val : A -> Value) id name
    (o : option A) s d1 :
  (forall x, f x = (ensure_schema_exists id ;; set_vertex_properties id [(name, val x)])) ->
  wp (match o with Some x => on_database (f x) | None => mret () end) (with_db s d1)
    (fun _ s' => exists d2, s' = with_db s d2 /\
       graph d2 = g_opt_set id name (val <$> o) (graph d1)) (fun _ _ => True).
Proof.
  intros Hf. destruct o as [x|]; [|by apply wp_ret; exists d1]. apply wp_on_database.
  eapply wp_mono; [apply (opt_update_spec f val id name (Some x) d1 Hf)| |done].
  intros [] d2 Hd2. by exists d2.
Qed.

(** the database and the event after a metadata update; the new type is in
    the database but not in the event *)
Lemma update_metadata_spec r s :
  wp (rpc_update_schema_metadata r) s
    (fun _ s' => exists id t d', parse_uuid (smu_id r) = Ok id /\
       (smu_schema_type r ≫= proto_from_i32) = t /\
       (is_Some (smu_schema_type r) -> is_Some t) /\
       graph d' = g_metadata id (smu_name r) (smu_topic r) (smu_address r)
         (schema_type_from_proto <$> t) (graph (impl_db s)) /\
       s' = with_event (with_db s d')
         (EvUpdateSchemaMetadata id (smu_name r) (smu_topic r) (smu_address r) None))
    (fun _ _ => True).
Proof.
  unfold rpc_update_schema_metadata. apply wp_parse. intros id Hid.
  apply wp_bind. apply (wp_mono _ _ (fun _ s' => s' = with_db s (impl_db s)) _ (fun _ _ => True));
    [|intros [] ? ->|done].
  { destruct (smu_topic r) as [topic|]; [|by apply wp_ret; destruct s].
    unfold wp, require_topic.
    by destruct s, (topic_or_exchange_exists _ _ _) as [[]|]. }
  apply wp_bind. eapply wp_mono; [by apply (wp_opt_database _ VString id Schema_NAME)| |done].
  intros [] s1 (d1 & -> & Hd1). apply wp_bind.
  eapply wp_mono; [by apply (wp_opt_database _ VString id Schema_TOPIC_NAME)| |done].
  intros [] s2 (d2 & -> & Hd2). apply wp_bind.
  eapply wp_mono; [by apply (wp_opt_database _ VString id Schema_QUERY_ADDRESS)| |done].
  intros [] s3 (d3 & -> & Hd3). apply wp_bind.
  destruct (smu_schema_type r) as [n|]; simpl.
  - apply wp_parse. intros t Ht. apply wp_on_database.
    eapply wp_mono; [by apply (opt_update_spec (update_schema_type id)
      (fun t => VString (schema_type_to_string t)) id Schema_SCHEMA_TYPE
      (Some (schema_type_from_proto t)) d3)| |done].
    intros [] d4 Hd4. exists id, (Some t), d4. split_and!; [done| |by eexists| |done].
    + by destruct (proto_from_i32 n); simplify_eq/=.
    + unfold g_metadata. by rewrite Hd4, Hd3, Hd2, Hd1.
  - apply wp_ret. exists id, None, d3. split_and!; [done|done| | |done].
    + by intros [? ?].
    + unfold g_metadata. simpl. by rewrite Hd3, Hd2, Hd1.
Qed.

Lemma handled_update_metadata r s :
  smu_schema_type r = None ->
  wp (handle (RqUpdateSchemaMetadata r)) s (fun _ s' => handled s s') (fun _ _ => True).
Proof.
  intros Hr. eapply wp_mono; [apply update_metadata_spec| |done].
  intros [] s' (id & t & d' & _ & <- & _ & Hd' & ->). rewrite Hr in Hd'. eexists _, _.
  split; [done|]. rewrite Hd'. apply metadata_carries.
Qed.
End handlers.

(** ** Properties *)

Section properties.
Context {D B : Type} `{DatastoreLaws D, Broker B, SemVerLaws, UuidLib, JsonText, JsonSchemaLib,
  JmespathLib}.
Implicit Types (s : SchemaRegistryImpl D B).

(** the sending end of a master's replication channel, still connected *)
Definition sending (rep : ReplicationState) (c : nat) (buf : list ReplicationEvent) : Prop :=
  replication_role rep = Master /\ master_replication_channel rep = Some c /\
  w_mpscs (world rep) !! c = Some (mkMpsc buf true).

Lemma sending_replicate rep c buf ev :
  sending rep c buf -> sending (replicate_message ev rep) c (buf ++ [ev]).
Proof.
  intros (Hrole & Hch & Hc). unfold replicate_message. rewrite decide_True, Hch, Hc by done.
  split_and!; [done..|]. simpl. apply list_lookup_insert_eq. by eapply lookup_lt_Some.
Qed.

Lemma handle_handled rq s :
  wf (graph (impl_db s)) -> fits (graph (impl_db s)) ->
  match rq with RqUpdateSchemaMetadata r => smu_schema_type r = None | _ => True end ->
  wp (handle rq) s (fun _ s' => handled s s') (fun _ _ => True).
Proof.
  intros Hwf Hfits Hty. destruct rq.
  - by apply handled_add_schema.
  - by apply handled_add_version.
  - by apply handled_update_metadata.
  - by apply handled_add_view.
  - by apply handled_update_view.
Qed.

(** C12: every mutating request a connected master serves (a change of the
    schema type apart) puts exactly one event on the replication channel, and
    a replica of the master's registry that consumes that event becomes a
    replica of the registry the request has produced: the same schemas and
    views with the same properties, the same definition under every version,
    the same views of every schema. *)
Theorem handle_replicates rq s s' c buf :
  wf (graph (impl_db s)) -> fits (graph (impl_db s)) -> sending (impl_replication s) c buf ->
  match rq with RqUpdateSchemaMetadata r => smu_schema_type r = None | _ => True end ->
  handle rq s = (s', Ok ()) ->
  exists ev, sending (impl_replication s') c (buf ++ [ev]) /\
    forall (r r' : D), wf (graph r) -> fits (graph r) ->
      replica (graph (impl_db s)) (graph r) -> consume_event ev r = (r', Ok ()) ->
      replica (graph (impl_db s')) (graph r').
Proof.
  intros Hwf Hfits Hsend Hty Hrun.
  destruct (wp_ok _ _ _ _ _ _ (handle_handled rq s Hwf Hfits Hty) Hrun) as (ev & d' & -> & Hev).
  exists ev. split; [by apply sending_replicate|exact Hev].
Qed.

Lemma g_vprop_opt_set_ne g id name o j n :
  name <> n -> g_vprop (g_opt_set id name o g) j n = g_vprop g j n.
Proof. intros Hn. destruct o; simpl; [|done]. by apply g_vprop_set_vprop_ne; right. Qed.

Lemma g_opt_set_is_Some g id name o j :
  is_Some (g_vertices (g_opt_set id name o g) !! j) <-> is_Some (g_vertices g !! j).
Proof. destruct o; simpl; [apply is_Some_set_vprop|done]. Qed.

(** A change of the schema type is not replicated.  The master stores the
    new type, but the event it sends leaves the type of any replica that
    consumes it as it was. *)
Theorem schema_type_not_replicated r s s' c buf id n :
  sending (impl_replication s) c buf -> parse_uuid (smu_id r) = Ok id ->
  is_Some (g_vertices (graph (impl_db s)) !! id) -> smu_schema_type r = Some n ->
  rpc_update_schema_metadata r s = (s', Ok ()) ->
  exists t ev, proto_from_i32 n = Some t /\
    g_vprop (graph (impl_db s')) id Schema_SCHEMA_TYPE =
      Some (VString (schema_type_to_string (schema_type_from_proto t))) /\
    sending (impl_replication s') c (buf ++ [ev]) /\
    forall (d d' : D), consume_event ev d = (d', Ok ()) -> forall i,
      g_vprop (graph d') i Schema_SCHEMA_TYPE = g_vprop (graph d) i Schema_SCHEMA_TYPE.
Proof.
  intros Hsend Hid Hex Hn Hrun.
  destruct (wp_ok _ _ _ _ _ _ (update_metadata_spec r s) Hrun)
    as (id' & t & d' & Hid' & Ht & Hsome & Hd' & ->).
  rewrite Hid in Hid'. injection Hid' as <-. rewrite Hn in Ht, Hsome. simpl in Ht.
  destruct Hsome as [t' Ht']; [by eexists|]. rewrite Ht' in Ht, Hd'.
  exists t', (EvUpdateSchemaMetadata id (smu_name r) (smu_topic r) (smu_address r) None).
  split_and!; [done| |by apply sending_replicate|].
  - simpl. rewrite Hd'. unfold g_metadata. simpl. apply g_vprop_set_vprop.
    by rewrite !g_opt_set_is_Some.
  - intros d1 d2 Hrun' i.
    pose proof (wp_ok _ _ _ _ _ _ (consume_metadata_spec (D := D) id _ _ _ None d1) Hrun') as Hd2.
    cbv beta in Hd2. rewrite Hd2. unfold g_metadata. simpl.
    by rewrite !g_vprop_opt_set_ne.
Qed.
End properties.

(** a connected master over the store that holds schema 7 *)
Definition demo_sending : ReplicationState :=
  mkReplicationState Master (Some 0) (Some 0) demo_config
    (mkWorld [mkOneShot false true] [mkMpsc [] true] [mkMasterThread 0 0] []).
Definition demo_impl : SchemaRegistryImpl MemoryDatastore MemoryBroker :=
  mkSchemaRegistryImpl demo_state (mkMemoryBroker ["orders.topic"] []) FetcherKafka demo_sending
    None.
Definition demo_new_version : ReqNewSchemaVersion :=
  mkReqNewSchemaVersion (uuid_to_string 7%N) (version_to_string (ver 1 1 0)) "{}".
Definition demo_type_update : SchemaMetadataUpdate :=
  mkSchemaMetadataUpdate (uuid_to_string 7%N) None None None (Some 1%Z).

Lemma handle_replicates_witness :
  exists ev, sending (impl_replication (handle (RqAddSchemaVersion demo_new_version) demo_impl).1)
      0 [ev] /\
    forall (r r' : MemoryDatastore), wf (graph r) -> fits (graph r) ->
      replica (graph demo_state) (graph r) -> consume_event ev r = (r', Ok ()) ->
      replica (graph (impl_db (handle (RqAddSchemaVersion demo_new_version) demo_impl).1)) (graph r').
Proof.
  apply (handle_replicates (RqAddSchemaVersion demo_new_version) demo_impl
    (handle (RqAddSchemaVersion demo_new_version) demo_impl).1 0 []);
    [apply demo_state_wf|apply demo_state_fits|by split_and!|done|vm_eq].
Defined.

Lemma schema_type_not_replicated_witness :
  exists t ev, proto_from_i32 1 = Some t /\
    g_vprop (graph (impl_db (rpc_update_schema_metadata demo_type_update demo_impl).1)) 7%N
      Schema_SCHEMA_TYPE = Some (VString (schema_type_to_string (schema_type_from_proto t))) /\
    sending (impl_replication (rpc_update_schema_metadata demo_type_update demo_impl).1) 0 [ev] /\
    forall (d d' : MemoryDatastore), consume_event ev d = (d', Ok ()) -> forall i,
      g_vprop (graph d') i Schema_SCHEMA_TYPE = g_vprop (graph d) i Schema_SCHEMA_TYPE.
Proof.
  apply (schema_type_not_replicated demo_type_update demo_impl
    (rpc_update_schema_metadata demo_type_update demo_impl).1 0 [] 7%N 1%Z);
    [by split_and!|vm_eq|by eexists|done|vm_eq].
Defined.
