(* ===== verification/RpcSpec.v ===== *)
(** What clients of the schema registry's gRPC service observe: what a stored
    schema reads back as, how malformed requests are turned down, and the update
    that is applied in part. *)
From stdpp Require Import prelude gmap strings list fin_maps.
From S2P Require Import Prelude Json Externals Indradb RegistryTypes SchemaDb SchemaDbSpec.
From S2P Require Import Registry Instances RegistryRun Messaging Replication RegistryRpc.
From S2P Require Import ReplicaSpec.

Section rpc.
Context {D B : Type} `{DatastoreLaws D, !ReliableDatastore D, Broker B, SemVerLaws, UuidLaws,
  JsonText, JsonSchemaLib, JmespathLib}.
Implicit Types (s : SchemaRegistryImpl D B).

Lemma parse_uuid_display (id : Uuid) : parse_uuid (uuid_to_string id) = Ok id.
Proof. unfold parse_uuid. by rewrite uuid_parse_to_string. Qed.

Lemma on_database_run {A} (m : M D RegistryError A) s d r :
  m (impl_db s) = (d, r) -> on_database m s = (with_db s d, map_err registry_error_to_status r).
Proof. intros Hm. unfold on_database. by rewrite Hm. Qed.

(** ** Reading back through the service *)

(** the schema a request submits *)
Definition request_schema (r : ReqNewSchema) (def : Value) : NewSchema :=
  mkNewSchema (rns_name r) def (rns_topic r) (rns_query_address r)
    (schema_type_from_proto (schema_type_or_default (rns_schema_type r))).

(** what a successful [rpc_add_schema] has done *)
Lemma rpc_add_schema_spec r s :
  wp (rpc_add_schema r) s
    (fun text s' => exists id def u, text = uuid_to_string id /\
       parse_json (rns_definition r) = Ok def /\ parse_optional_uuid (rns_id r) = Ok u /\
       topic_or_exchange_exists (impl_mq_metadata s) (rns_topic r) (impl_broker s) = Ok true /\
       add_schema (request_schema r def) u (impl_db s) = (impl_db s', Ok id))
    (fun _ _ => True).
Proof.
  unfold rpc_add_schema. apply wp_parse. intros u Hu. apply wp_parse. intros def Hdef.
  apply wp_bind. unfold wp at 1, require_topic. simpl.
  destruct (topic_or_exchange_exists _ _ _) as [[]|] eqn:Htopic; [|done|done].
  apply wp_bind. unfold wp at 1, on_database.
  destruct (add_schema _ u (impl_db s)) as [d' [id|e]] eqn:Hadd; [simpl|done].
  apply wp_bind. unfold wp at 1, replicate. apply wp_ret. exists id, def, u. done.
Qed.

(** A schema added over the service is readable under the id text the
    call answered: its metadata are the submitted ones, and an unconstrained
    request for its definition returns version 1.0.0 of the resolved
    definition in JSON text; the topic named in the request existed when it
    was accepted. *)
Theorem rpc_add_schema_then_read r s s' text req :
  wf (graph (impl_db s)) -> fits (graph (impl_db s)) -> fits (graph (impl_db s')) ->
  rpc_add_schema r s = (s', Ok text) -> parse_version_req req = Ok req_any ->
  topic_or_exchange_exists (impl_mq_metadata s) (rns_topic r) (impl_broker s) = Ok true /\
  rpc_get_schema_metadata text s' = (s', Ok (mkRespSchema (rns_name r) (rns_topic r)
    (rns_query_address r) (schema_type_as_i32
      (schema_type_from_proto (schema_type_or_default (rns_schema_type r)))))) /\
  exists def full, parse_json (rns_definition r) = Ok def /\
    resolved (graph (impl_db s)) def full /\
    rpc_get_schema (mkVersionedId text req) s' =
      (s', mkRespDefinition (version_to_string (version_new 1 0 0)) <$> serialize_json full).
Proof.
  intros Hwf Hfits Hfits' Hrun Hreq.
  destruct (wp_ok _ _ _ _ _ _ (rpc_add_schema_spec r s) Hrun)
    as (id & def & u & -> & Hdef & Hu & Htopic & Hadd).
  destruct (add_schema_back _ _ _ _ _ Hwf Hfits Hfits' Hadd) as (Hwf' & _ & Hv & i & full & _ & _ & Hres & Hget).
  split; [done|]. split; [|exists def, full; split; [done|split; [done|]]].
  - unfold rpc_get_schema_metadata, mbind, M_bind, lift. rewrite parse_uuid_display.
    erewrite on_database_run by (by eapply get_schema_stored). by destruct s'.
  - unfold rpc_get_schema, mbind, M_bind, lift. simpl. rewrite parse_uuid_display, Hreq.
    erewrite on_database_run by exact Hget. simpl.
    destruct s' as [d' b f rep pod]; unfold with_db; simpl.
    by destruct (serialize_json full).
Qed.

(** ** Rejected requests *)

(** A request for a new schema whose id, definition text or topic is no
    good is turned down with the matching status before anything is written
    or replicated. *)
Theorem rpc_add_schema_validates r s :
  (forall st, parse_optional_uuid (rns_id r) = Err st ->
     code st = InvalidArgument /\ rpc_add_schema r s = (s, Err st)) /\
  (forall st, is_ok (parse_optional_uuid (rns_id r)) = true ->
     parse_json (rns_definition r) = Err st ->
     code st = InvalidArgument /\ rpc_add_schema r s = (s, Err st)) /\
  (is_ok (parse_optional_uuid (rns_id r)) = true -> is_ok (parse_json (rns_definition r)) = true ->
     topic_or_exchange_exists (impl_mq_metadata s) (rns_topic r) (impl_broker s) = Ok false ->
     exists st, code st = NotFound /\ rpc_add_schema r s = (s, Err st)).
Proof.
  unfold rpc_add_schema, mbind, M_bind, lift, require_topic. split_and!.
  - intros st Hst. rewrite Hst. split; [|done]. unfold parse_optional_uuid in Hst.
    case_decide; [done|]. destruct (uuid_parse_str (rns_id r)); simpl in Hst; by simplify_eq.
  - intros st Hok Hst. destruct (parse_optional_uuid (rns_id r)); [|done]. rewrite Hst.
    split; [|done]. unfold parse_json in Hst.
    destruct (json_parse (rns_definition r)); simpl in Hst; by simplify_eq.
  - intros Hid Hdef Htopic. destruct (parse_optional_uuid (rns_id r)); [|done].
    destruct (parse_json (rns_definition r)); [|done]. simpl. rewrite Htopic.
    eexists. split; [|done]. done.
Qed.

(** ** The update that is applied in part *)

Lemma reliable_update (d : D) id name x :
  is_Some (g_vertices (graph d) !! id) ->
  exists d', (ensure_schema_exists id ;; set_vertex_properties id [(name, x)]) d = (d', Ok ()) /\
    graph d' = g_set_vprop id name x (graph d).
Proof.
  intros Hid.
  destruct (safe_returns (ensure_schema_exists id ;; set_vertex_properties id [(name, x)]) d
    _ _ (safe_bind _ _ (safe_ensure_schema_exists id) (fun _ => safe_set_vertex id [(name, x)]))
    (update_property_spec d id name x (absent (graph d) id) (fun e He => He)))
    as ([] & d' & Hrun & _ & Hd'); [|by exists d'].
  intros e d' [He|[[_ Hnone] _]]; [done|]. rewrite Hnone in Hid. by destruct Hid.
Qed.

(** A metadata update with an unknown schema type number is answered with
    an error, but the fields checked before the type have been stored by
    then, and the stored part is not replicated. *)
Theorem update_metadata_applied_in_part r s id name n :
  parse_uuid (smu_id r) = Ok id -> is_Some (g_vertices (graph (impl_db s)) !! id) ->
  smu_name r = Some name -> smu_topic r = None -> smu_address r = None ->
  smu_schema_type r = Some n -> proto_from_i32 n = None ->
  exists s', rpc_update_schema_metadata r s =
      (s', Err (mkStatus Internal "Given schema type is invalid")) /\
    graph (impl_db s') = g_set_vprop id Schema_NAME (VString name) (graph (impl_db s)) /\
    impl_replication s' = impl_replication s.
Proof.
  intros Hid Hex Hname Htopic Haddr Hty Hn.
  destruct (reliable_update (impl_db s) id Schema_NAME (VString name) Hex) as (d' & Hrun & Hd').
  exists (with_db s d'). split; [|by split].
  unfold rpc_update_schema_metadata, mbind, M_bind, lift.
  rewrite Hid, Htopic, Hname, Haddr, Hty. simpl.
  erewrite on_database_run by exact Hrun. simpl. by rewrite Hn.
Qed.
End rpc.

Definition demo_add_request : ReqNewSchema :=
  mkReqNewSchema "" "orders" "http://qs" "orders.topic" "{}" 1.
Definition demo_server : SchemaRegistryImpl MemoryDatastore MemoryBroker :=
  mkSchemaRegistryImpl memory_default (mkMemoryBroker ["orders.topic"] []) FetcherKafka
    (replication_state_new demo_config) None.
Definition demo_bad_update : SchemaMetadataUpdate :=
  mkSchemaMetadataUpdate (uuid_to_string 7%N) (Some "renamed") None None (Some 9%Z).

Lemma rpc_add_schema_then_read_witness :
  let s' := (rpc_add_schema demo_add_request demo_server).1 in
  topic_or_exchange_exists FetcherKafka "orders.topic" (mkMemoryBroker ["orders.topic"] []) = Ok true /\
  rpc_get_schema_metadata (uuid_to_string 1000%N) s' =
    (s', Ok (mkRespSchema "orders" "orders.topic" "http://qs" 1)) /\
  exists def full, parse_json "{}" = Ok def /\ resolved (graph memory_default) def full /\
    rpc_get_schema (mkVersionedId (uuid_to_string 1000%N)
        (version_req_to_string (None : @VersionReq semver_inst))) s' =
      (s', mkRespDefinition (version_to_string (version_new 1 0 0)) <$> serialize_json full).
Proof.
  apply (rpc_add_schema_then_read demo_add_request demo_server
    (rpc_add_schema demo_add_request demo_server).1 (uuid_to_string 1000%N)
    (version_req_to_string (None : @VersionReq semver_inst)));
    [apply wf_empty|by apply fits_compute|apply fits_compute; vm_eq|vm_eq|vm_eq].
Defined.

Lemma update_metadata_applied_in_part_witness :
  exists s' : SchemaRegistryImpl MemoryDatastore MemoryBroker,
    rpc_update_schema_metadata demo_bad_update demo_impl =
      (s', Err (mkStatus Internal "Given schema type is invalid")) /\
    graph (impl_db s') = g_set_vprop 7%N Schema_NAME (VString "renamed") (graph demo_state) /\
    impl_replication s' = demo_sending.
Proof.
  apply (update_metadata_applied_in_part demo_bad_update demo_impl 7%N "renamed" 9%Z);
    [vm_eq|by eexists|done..].
Defined.

Lemma rpc_add_schema_validates_witness :
  exists st, parse_optional_uuid "?" = Err st /\ code st = InvalidArgument /\
    rpc_add_schema (mkReqNewSchema "?" "n" "a" "t" "{}" 0) demo_server = (demo_server, Err st).
Proof.
  eexists. split; [reflexivity|].
  apply (proj1 (rpc_add_schema_validates (mkReqNewSchema "?" "n" "a" "t" "{}" 0) demo_server)).
  reflexivity.
Defined.
