(* ===== verification/StatusEndpoints.v ===== *)
(** The status endpoints of the services, [crates/utils/src/status_endpoints.rs]:
    three process-wide flags and the HTTP service that shows them; and the task
    that exports the metrics, [crates/utils/src/metrics.rs]. *)
From Stdlib Require Import Ascii.
From stdpp Require Import prelude strings list.
From S2P Require Import Prelude.

(** the three [RwLock<bool>]s *)
Record Status : Type := mkStatus {
  health_status : bool;
  startup_status : bool;
  ready_status : bool;
}.
Definition initial_status : Status := mkStatus true false true.

Definition get_health_status (s : Status) : bool := health_status s.
Definition get_startup_status (s : Status) : bool := startup_status s.
Definition get_readiness_status (s : Status) : bool := ready_status s.

Definition mark_as_unhealthy (s : Status) : Status := mkStatus false (startup_status s) (ready_status s).
Definition mark_as_started (s : Status) : Status := mkStatus (health_status s) true (ready_status s).
Definition mark_as_ready (s : Status) : Status := mkStatus (health_status s) (startup_status s) true.
Definition mark_as_not_ready (s : Status) : Status := mkStatus (health_status s) (startup_status s) false.

Inductive StatusCode : Type := OK | NOT_FOUND | INTERNAL_SERVER_ERROR.

Definition send_status (value : bool) : StatusCode := if value then OK else INTERNAL_SERVER_ERROR.

(** the answer to a request with a method and a path (the body is empty) *)
Definition handle_requests (method path : string) (s : Status) : StatusCode :=
  if decide (method = "GET" /\ path = "/status/health") then send_status (get_health_status s)
  else if decide (method = "GET" /\ path = "/status/startup") then send_status (get_startup_status s)
  else if decide (method = "GET" /\ path = "/status/readiness") then send_status (get_readiness_status s)
  else NOT_FOUND.

(** ** The tasks that serve them *)

Definition DEFAULT_PORT : string := "58105".

(** [str::parse::<u16>] *)
Definition digit (c : ascii) : option Z :=
  let n := Z.of_N (N_of_ascii c) in if bool_decide (48 <= n <= 57)%Z then Some (n - 48)%Z else None.
Fixpoint parse_digits (s : string) (value : Z) : result string Z :=
  match s with
  | EmptyString => Ok value
  | String c s =>
      d ← ok_or "invalid digit found in string" (digit c);
      if bool_decide (value * 10 + d < 2 ^ 16)%Z then parse_digits s (value * 10 + d)
      else Err "number too large to fit in target type"
  end.
Definition parse_u16 (s : string) : result string Z :=
  match s with
  | EmptyString => Err "cannot parse integer from empty string"
  | String "+" EmptyString => Err "invalid digit found in string"
  | String "+" s => parse_digits s 0
  | _ => parse_digits s 0
  end.

(** the HTTP server at a port of all addresses, the recorder of the metrics and
    its exporter at a port: how they end *)
Class Endpoints := {
  status_server : Z -> result string ();
  receiver_build : result string ();
  exporter_run : Z -> result string ();
}.

Inductive ServiceTask : Type := ServeStatus | SetupMetrics (port : Z).

Definition serve_status `{Endpoints} : result string () := status_server 3000.
Definition setup_metrics `{Endpoints} (port : Z) : result string () :=
  map_err (fun _ => "failed to create receiver") receiver_build ;;
  map_err (fun _ => "Failed to serve metrics") (exporter_run port).
Definition service_task `{Endpoints} (t : ServiceTask) : result string () :=
  match t with ServeStatus => serve_status | SetupMetrics port => setup_metrics port end.

(** the process: its flags, and the tasks it has spawned, for which it does not wait *)
Record Service : Type := mkService { sv_status : Status; sv_tasks : list ServiceTask }.
Definition service_new : Service := mkService initial_status [].
Definition spawn_task (t : ServiceTask) (sv : Service) : Service := mkService (sv_status sv) (sv_tasks sv ++ [t]).
(** [status_endpoints::serve] and [metrics::serve] *)
Definition serve : Service -> Service := spawn_task ServeStatus.
Definition metrics_serve (port : Z) : Service -> Service := spawn_task (SetupMetrics port).
Definition set_status (f : Status -> Status) (sv : Service) : Service := mkService (f (sv_status sv)) (sv_tasks sv).

Example default_port_parses : parse_u16 DEFAULT_PORT = Ok 58105%Z.
Proof. reflexivity. Qed.
Example parse_u16_bounds :
  parse_u16 "65536" = Err "number too large to fit in target type" /\ parse_u16 "+65535" = Ok 65535%Z /\
  parse_u16 "-1" = Err "invalid digit found in string".
Proof. by split_and!. Qed.

(** ** Histories of a process *)

Inductive Mark : Type := Unhealthy | Started | Ready | NotReady.
#[export] Instance Mark_eq_dec : EqDecision Mark.
Proof. solve_decision. Defined.
Definition mark (m : Mark) : Status -> Status :=
  match m with
  | Unhealthy => mark_as_unhealthy
  | Started => mark_as_started
  | Ready => mark_as_ready
  | NotReady => mark_as_not_ready
  end.
Definition marks (l : list Mark) : Status := foldl (fun s m => mark m s) initial_status l.

(** the last word on readiness *)
Definition last_readiness (l : list Mark) : option bool :=
  last (omap (fun m => match m with Ready => Some true | NotReady => Some false | _ => None end) l).

Lemma marks_snoc l m : marks (l ++ [m]) = mark m (marks l).
Proof. unfold marks. by rewrite foldl_app. Qed.

(** what the endpoints say in terms of what the service reported: healthy until
    it said otherwise, and never again; started once it said so; ready by its
    last word, and at the beginning *)
Lemma status_history l :
  get_health_status (marks l) = bool_decide (Unhealthy ∉ l) /\
  get_startup_status (marks l) = bool_decide (Started ∈ l) /\
  get_readiness_status (marks l) = default true (last_readiness l).
Proof.
  induction l as [|m l IH] using rev_ind; [done|]. destruct IH as (Hh & Hs & Hr).
  rewrite marks_snoc. unfold last_readiness in *. rewrite omap_app.
  destruct m; simpl; rewrite ?app_nil_r, ?last_snoc; unfold get_health_status, get_startup_status,
    get_readiness_status in *; simpl; split_and!; try done; rewrite ?Hh, ?Hs;
    try (apply bool_decide_ext; set_solver);
    symmetry; (apply bool_decide_eq_true_2 || apply bool_decide_eq_false_2); set_solver.
Qed.
