(* ===== verification/RegistryMain.v ===== *)
(** Start of the schema registry, [crates/schema-registry/src/main.rs]: the
    configuration, the replication role, the export of the database to a file
    and the import from one. *)
From Stdlib Require Import Ascii.
From stdpp Require Import prelude gmap strings list fin_maps.
From S2P Require Import Prelude Json Externals Indradb RegistryTypes SchemaDb SchemaDbSpec.
From S2P Require Import Registry Instances RegistryRun RegistryExport Messaging MessagingClients Replication.
From S2P Require Import RegistryRpc StatusEndpoints.

(** ** Configuration *)

Inductive MessageQueueType : Type := QueueTypeKafka | QueueTypeAmqp.

(** [str::to_lowercase] as far as a comparison with an ASCII word can tell:
    the ASCII letters, and the Kelvin sign (U+212A), whose lower case is "k" *)
Definition ascii_lower (c : ascii) : ascii :=
  let n := N_of_ascii c in
  if ((65 <=? n) && (n <=? 90))%N then ascii_of_N (n + 32) else c.
Definition kelvin_sign (a b c : ascii) : bool :=
  ((N_of_ascii a =? 226) && (N_of_ascii b =? 132) && (N_of_ascii c =? 170))%N.
Fixpoint to_lowercase (s : string) : string :=
  match s with
  | EmptyString => EmptyString
  | String a r =>
      match r with
      | String b (String c r') =>
          if kelvin_sign a b c then String "k" (to_lowercase r')
          else String (ascii_lower a) (to_lowercase r)
      | _ => String (ascii_lower a) (to_lowercase r)
      end
  end.

(** [Deserialize for MessageQueueType] *)
Definition message_queue_type (text : string) : result string MessageQueueType :=
  let s := to_lowercase text in
  if decide (s = "kafka") then Ok QueueTypeKafka
  else if decide (s = "amqp") then Ok QueueTypeAmqp
  else Err ("Invalid message queue type: `" +:+ s +:+ "`").

(** the derived [Deserialize for ReplicationRole] ([snake_case]) *)
Definition replication_role_from_str (text : string) : result string ReplicationRole :=
  if decide (text = "master") then Ok Master
  else if decide (text = "slave") then Ok Slave
  else if decide (text = "none") then Ok NoRole
  else Err ("unknown variant `" +:+ text +:+ "`").

Record Config : Type := mkConfig {
  input_port : Z;
  db_name : string;
  config_replication_role : ReplicationRole;
  replication_queue : MessageQueueType;
  kafka_brokers : option string;
  kafka_group_id : option string;
  amqp_connection_string : option string;
  amqp_consumer_tag : option string;
  replication_topic_or_queue : string;
  replication_topic_or_exchange : string;
  config_pod_name : option string;
  export_dir : option string;
  import_file : option string;
  metrics_port : option Z;
}.

Definition replication_config (config : Config) : result string MessageQueueConfig :=
  queue ← match replication_queue config with
    | QueueTypeKafka =>
        brokers ← ok_or "Missing kafka brokers" (kafka_brokers config);
        group_id ← ok_or "Missing kafka group" (kafka_group_id config);
        Ok (MqKafka (mkKafkaConfig brokers group_id))
    | QueueTypeAmqp =>
        connection_string ← ok_or "Missing amqp connection string" (amqp_connection_string config);
        consumer_tag ← ok_or "Missing amqp consumer tag" (amqp_consumer_tag config);
        Ok (MqAmqp (mkAmqpConfig connection_string consumer_tag))
    end;
  Ok (mkMessageQueueConfig queue (replication_topic_or_queue config)
        (replication_topic_or_exchange config)).

(** ** Files *)

(** [File::create] with [write!], and [File::open] with its reading, by path *)
Class FileSystem (F : Type) := {
  file_write : string -> string -> M F string ();
  file_read : string -> F -> result string string;
}.

(** the serde-derived text of an export, and [{:?}] of the time it was taken *)
Class ExportText `{SemVer} := {
  export_to_string : DbExport -> result string string;
  export_from_reader : string -> result string DbExport;
}.
Class DateTimeText := { datetime_debug : Z -> string }.

(** [PathBuf::join] with a relative name *)
Fixpoint path_join (dir name : string) : string :=
  match dir with
  | EmptyString => name
  | String c EmptyString => if decide (c = "/"%char) then String c name else String c (String "/" name)
  | String c d => String c (path_join d name)
  end.
Definition export_path `{DateTimeText} (now : Z) (export_dir_path : string) : string :=
  path_join export_dir_path ("export_" +:+ datetime_debug now +:+ ".json").

(** ** Start *)

Inductive StartError `{SemVer} : Type :=
| StartConfig (e : string)
| StartConnect (e : string)               (* the datastore or the broker *)
| StartPanic                              (* [set_role] panicked *)
| StartDatabase (context : string) (e : RegistryError)
| StartJson (e : string)
| StartFile (e : string).

Section start.
Context {D B F : Type} `{Datastore D, Broker B, FileSystem F, SemVer, UuidLib, JsonSchemaLib,
  JmespathLib, HashIter, !ExportText, DateTimeText}.

(** the registry and the disk while [main] prepares the service *)
#[local] Abbreviation St := (SchemaRegistryImpl D B * F)%type (only parsing).
Definition on_db {A} (context : string) (m : M D RegistryError A) : M St StartError A := fun '(s, f) =>
  let '(d, r) := m (impl_db s) in
  ((mkSchemaRegistryImpl d (impl_broker s) (impl_mq_metadata s) (impl_replication s)
      (impl_pod_name s), f), map_err (StartDatabase context) r).
(** [export_all] and [import_all] of [SchemaRegistryImpl] *)
Definition impl_export_all : M St StartError DbExport :=
  on_db "Failed to export the entire database" export_all.
Definition impl_import_all (imported : DbExport) : M St StartError () :=
  on_db "failed to import database" (import_all imported).
Definition on_disk {A} (m : M F string A) : M St StartError A := fun '(s, f) =>
  let '(f', r) := m f in ((s, f'), map_err StartFile r).

Definition start_export (config : Config) (now : Z) : M St StartError () :=
  match export_dir config with
  | None => mret ()
  | Some export_dir_path =>
      exported ← impl_export_all;
      text ← lift (map_err StartJson (export_to_string exported));
      on_disk (file_write (export_path now export_dir_path) text)
  end.

Definition start_import (config : Config) : M St StartError () :=
  match import_file config with
  | None => mret ()
  | Some import_path =>
      text ← on_disk (reads (file_read import_path));
      imported ← lift (map_err StartJson (export_from_reader text));
      impl_import_all imported
  end.

(** the part of [main] that runs over the registry *)
Definition start (config : Config) (now : Z) : M St StartError () :=
  start_export config now ;; start_import config.
End start.

(** ** The whole of main *)

(** the process, the network its clients are created on, and the disk *)
Record Machine (N F : Type) : Type := mkMachine { mc_service : Service; mc_net : N; mc_disk : F }.
Arguments mkMachine {N F}. Arguments mc_service {N F}. Arguments mc_net {N F}. Arguments mc_disk {N F}.

Section main.
Context {D B F N : Type} `{Datastore D, Broker B, FileSystem F, BrokerClients N, SemVer, UuidLib, JsonSchemaLib,
  JmespathLib, HashIter, !ExportText, DateTimeText}.
Implicit Types (mc : Machine N F).

Definition fetcher_for (config : MessageQueueConfig) : M N MessagingError MetadataFetcher :=
  match mq_queue config with
  | MqKafka kafka => fetcher_new_kafka (kc_brokers kafka)
  | MqAmqp amqp => fetcher_new_amqp (ac_connection_string amqp)
  end.

(** [SledDatastore::new] of the name of the database gave [opened];
    [SchemaRegistryImpl::new], over the broker its fetcher is connected to *)
Definition open_registry (config : Config) (mq : MessageQueueConfig) (opened : result string D) (broker : B) :
    M (Machine N F) StartError (SchemaRegistryImpl D B) := fun mc =>
  match opened with
  | Err e => (mc, Err (StartConnect e))
  | Ok db =>
      let '(net, created) := fetcher_for mq (mc_net mc) in
      let mc := mkMachine (mc_service mc) net (mc_disk mc) in
      match created with
      | Err e => (mc, Err (StartConnect (messaging_error_display e)))
      | Ok _ =>
          match impl_new db broker (config_replication_role config) mq (config_pod_name config) with
          | (registry, Ok _) => (mc, Ok registry)
          | (_, Err _) => (mc, Err StartPanic)
          end
      end
  end.

(** [start] on the disk of the machine *)
Definition prepare (config : Config) (now : Z) (registry : SchemaRegistryImpl D B) :
    M (Machine N F) StartError (SchemaRegistryImpl D B) := fun mc =>
  let '((registry, disk), outcome) := start config now (registry, mc_disk mc) in
  (mkMachine (mc_service mc) (mc_net mc) disk, outcome ≫= fun _ => Ok registry).

Definition on_service (f : Service -> Service) : M (Machine N F) StartError () := fun mc =>
  (mkMachine (f (mc_service mc)) (mc_net mc) (mc_disk mc), Ok ()).

(** [unwrap] of the parse of the default port; the default is a port ([default_port_parses]) *)
Definition metrics_port_or_default (config : Config) : Z :=
  match metrics_port config with
  | Some port => port
  | None => match parse_u16 DEFAULT_PORT with Ok port => port | Err _ => 0 end
  end.

(** [main] up to its server: the registry that serves then *)
Definition main (env : result string Config) (open_db : string -> result string D) (broker : B) (now : Z) :
    M (Machine N F) StartError (SchemaRegistryImpl D B) :=
  config ← lift (map_err (fun _ => StartConfig "Env vars not set correctly") env);
  mq ← lift (map_err StartConfig (replication_config config));
  on_service serve ;;
  on_service (metrics_serve (metrics_port_or_default config)) ;;
  registry ← open_registry config mq (open_db (db_name config)) broker;
  registry ← prepare config now registry;
  on_service (set_status mark_as_started) ;;
  mret registry.

(** the startup probe is answered with success exactly once the registry serves,
    after its export and import *)
Lemma main_started env open_db broker now mc :
  get_startup_status (sv_status (mc_service mc)) = false ->
  let '(mc', outcome) := main env open_db broker now mc in
  get_startup_status (sv_status (mc_service mc')) = is_ok outcome /\
  (forall registry', outcome = Ok registry' -> exists config registry,
     env = Ok config /\
     start config now (registry, mc_disk mc) = ((registry', mc_disk mc'), Ok ()) /\
     sv_tasks (mc_service mc') =
       sv_tasks (mc_service mc) ++ [ServeStatus; SetupMetrics (metrics_port_or_default config)]).
Proof.
  destruct mc as [[status tasks] net disk]. simpl. intros Hno.
  unfold main, lift, mbind, M_bind, mret, M_ret, on_service. destruct env as [config|e]; [|by split].
  unfold map_err at 1. destruct (replication_config config) as [mq|e]; [|by split].
  unfold map_err at 1. unfold open_registry. cbn [mc_service mc_net mc_disk].
  destruct (open_db (db_name config)) as [db|e]; [|by split].
  destruct (fetcher_for mq net) as [net' [fetcher|e]]; [|by split].
  destruct (impl_new db broker _ mq _) as [registry [[]|e]]; [|by split].
  unfold prepare. cbn [mc_service mc_net mc_disk].
  destruct (start config now (registry, disk)) as [[registry' disk'] [[]|e]] eqn:Hrun; [|by split].
  split; [done|]. intros ? [= <-]. exists config, registry. split_and!; [done|done|]. simpl. by rewrite <- app_assoc.
Qed.
End main.

(** ** Backup and restore *)

(** a file that was written is read back *)
Class FileLaws (F : Type) `{FileSystem F} : Prop := {
  file_write_read path text f f' :
    file_write path text f = (f', Ok ()) -> file_read path f' = Ok text;
}.

Section backup.
Context {D B F : Type} `{DatastoreLaws D, !ReliableDatastore D, Broker B, FileLaws F, SemVerLaws,
  UuidLib, JsonSchemaLib, JmespathLib, !ExportText, DateTimeText}.
Implicit Types (s : SchemaRegistryImpl D B) (f : F).

Lemma on_db_run {A} context (m : M D RegistryError A) s f d r :
  m (impl_db s) = (d, r) ->
  on_db context m (s, f) = ((mkSchemaRegistryImpl d (impl_broker s) (impl_mq_metadata s) (impl_replication s)
                      (impl_pod_name s), f), map_err (StartDatabase context) r).
Proof. intros Hm. unfold on_db. by rewrite Hm. Qed.

(** C10: a registry that is started with an export directory leaves a backup
    that an empty registry restores: started with that file as its import
    file, it comes up well formed with the same schemas, definitions and
    views under the same ids and with the same versions and view links.  (The
    storage does not fail.) *)
Theorem backup_restore config1 config2 now1 now2 dir s1 s1' s2 f f' x text :
  wf (graph (impl_db s1)) -> typed (graph (impl_db s1)) -> fits (graph (impl_db s1)) ->
  export_dir config1 = Some dir -> import_file config1 = None ->
  start config1 now1 (s1, f) = ((s1', f'), Ok ()) ->
  export_all (impl_db s1) = (impl_db s1, Ok x) -> export_to_string x = Ok text ->
  export_from_reader text = Ok x ->
  graph (impl_db s2) = empty_graph ->
  export_dir config2 = None -> import_file config2 = Some (export_path now1 dir) ->
  exists s2' x', start config2 now2 (s2, f') = ((s2', f'), Ok ()) /\
    wf (graph (impl_db s2')) /\ export_all (impl_db s2') = (impl_db s2', Ok x') /\
    export_equiv x x'.
Proof.
  intros Hwf Hty Hfits Hdir1 Hfile1 Hrun Hexport Htext Hread Hempty Hdir2 Hfile2.
  assert (file_read (export_path now1 dir) f' = Ok text) as Hfile.
  { unfold start, start_export, impl_export_all, start_import, mbind, M_bind in Hrun. rewrite Hdir1, Hfile1 in Hrun.
    rewrite (on_db_run _ export_all s1 f _ _ Hexport) in Hrun. simpl in Hrun.
    unfold lift in Hrun. rewrite Htext in Hrun. simpl in Hrun.
    destruct (file_write (export_path now1 dir) text f) as [f1 [[]|e]] eqn:Hw; [|done].
    injection Hrun as _ <-. by eapply file_write_read. }
  destruct (export_import_back (impl_db s1) (impl_db s1) x (impl_db s2) Hwf Hty Hfits Hexport Hempty)
    as (d3 & x' & Himport & Hwf3 & Hexport3 & Heq).
  exists (mkSchemaRegistryImpl d3 (impl_broker s2) (impl_mq_metadata s2) (impl_replication s2)
            (impl_pod_name s2)), x'.
  split; [|done]. unfold start, start_export, start_import, mbind, M_bind. rewrite Hdir2, Hfile2.
  unfold mret, M_ret, on_disk, reads. rewrite Hfile. simpl. unfold lift. rewrite Hread. simpl.
  by rewrite Himport.
Qed.
End backup.

(** ** A run in memory *)

#[export] Instance memory_files : FileSystem (gmap string string) := {
  file_write := fun path text f => (<[path := text]> f, Ok ());
  file_read := fun path f => ok_or "No such file or directory" (f !! path);
}.
#[export] Instance memory_file_laws : FileLaws (gmap string string).
Proof. split. intros path text f f' [= <-]. simpl. by rewrite lookup_insert_eq. Qed.

#[export] Instance datetime_inst : DateTimeText := { datetime_debug := fun _ => "2021-03-01T00:00:00Z" }.
(** the text of the one export of the run *)
#[local] Instance demo_export_text : ExportText := {
  export_to_string := fun _ => Ok "backup";
  export_from_reader := fun _ => Ok demo_export;
}.

Definition demo_start (dir file : option string) : Config :=
  mkConfig 50101 "db" NoRole QueueTypeKafka (Some "kafka:9092") (Some "registry") None None "replication"
    "replication" None dir file None.
Definition demo_registry (d : MemoryDatastore) : SchemaRegistryImpl MemoryDatastore MemoryBroker :=
  mkSchemaRegistryImpl d (mkMemoryBroker [] []) FetcherKafka (replication_state_new demo_config) None.
Definition demo_disk : gmap string string := {["/backup/export_2021-03-01T00:00:00Z.json" := "backup"]}.

Example demo_queue_type : message_queue_type "KAFKA" = Ok QueueTypeKafka.
Proof. vm_eq. Qed.

Lemma backup_restore_witness :
  exists s2' x', start (demo_start None (Some (export_path 0 "/backup"))) 0
      (demo_registry memory_default, demo_disk) = ((s2', demo_disk), Ok ()) /\
    wf (graph (impl_db s2')) /\ export_all (impl_db s2') = (impl_db s2', Ok x') /\
    export_equiv demo_export x'.
Proof.
  apply (backup_restore (demo_start (Some "/backup") None) _ 0 0 "/backup" (demo_registry demo_state2)
    (demo_registry demo_state2) _ ∅ demo_disk demo_export "backup");
    [apply demo_state2_wf|apply demo_state2_typed|apply demo_state2_fits|done|done|vm_eq|vm_eq|done|done|done|done|done].
Defined.
