(* ===== verification/RegistryClient.v ===== *)
(** Clients of the schema registry: the requests of its gRPC service and the
    dispatch to the handlers, the service as the interface clients are written
    against, the network of registries that implements it, and the client side
    of [crates/rpc/src/{schema_registry,error}.rs] and
    [crates/schema-registry/src/lib.rs]. *)
From stdpp Require Import prelude gmap strings list fin_maps.
From S2P Require Import Prelude StringSplit Json Externals JsonExact Indradb RegistryTypes SchemaDb SchemaDbSpec.
From S2P Require Import Registry Instances RegistryRun Messaging Replication RegistryRpc.

(** ** Errors of the clients, [crates/rpc/src/error.rs] *)

Inductive ClientError : Type :=
| ConnectionError (service source : string)
| QueryError (service : string) (source : Status).

Definition registry_error (error : Status) : ClientError := QueryError "schema registry" error.

(** [tonic]'s text of a [Status] *)
Class StatusText := { status_display : Status -> string }.

Definition client_error_display `{StatusText} (e : ClientError) : string :=
  match e with
  | ConnectionError service source => "Failed to connect to " +:+ service +:+ ": " +:+ source
  | QueryError service source => "Error returned from " +:+ service +:+ ": " +:+ status_display source
  end.

(** ** The service *)

(** the requests, each with the type of its response *)
Inductive Request : Type -> Type :=
| AddSchema (r : ReqNewSchema) : Request string
| AddSchemaVersion (r : ReqNewSchemaVersion) : Request ()
| UpdateSchemaMetadata (r : SchemaMetadataUpdate) : Request ()
| AddViewToSchema (r : ReqNewSchemaView) : Request string
| UpdateView (r : UpdatedView) : Request View
| GetSchema (r : VersionedId) : Request RespDefinition
| GetSchemaMetadata (id : string) : Request RespSchema
| GetSchemaTopic (id : string) : Request string
| GetSchemaQueryAddress (id : string) : Request string
| GetSchemaVersions (id : string) : Request (list string)
| GetSchemaType (id : string) : Request Z
| GetView (id : string) : Request View
| GetAllSchemas : Request (gmap string RespSchema)
| GetAllSchemaNames : Request (gmap string string)
| GetAllViewsOfSchema (id : string) : Request (gmap string View)
| ValidateValue (r : ValueToValidate) : Request (list string)
| PromoteToMaster : Request string
| Heartbeat : Request ().

(** what a client does with the registries it can reach: connect to an
    address, and call the service there *)
Class RegistryService (N : Type) := {
  sv_connect : string -> M N string ();
  sv_call : forall {A}, string -> Request A -> M N Status A;
}.

Section server.
Context {D B : Type} `{Datastore D, Broker B, SemVer, UuidLib, JsonText, JsonSchemaLib,
  JmespathLib, HashIter}.

(** the dispatch of [impl SchemaRegistry for SchemaRegistryImpl]; a panicking
    handler is answered with [panicked] *)
Definition serve_request (panicked : Status) {A} (request : Request A) :
    M (SchemaRegistryImpl D B) Status A :=
  match request with
  | AddSchema r => rpc_add_schema r
  | AddSchemaVersion r => rpc_add_schema_version r
  | UpdateSchemaMetadata r => rpc_update_schema_metadata r
  | AddViewToSchema r => rpc_add_view_to_schema r
  | UpdateView r => rpc_update_view r
  | GetSchema r => rpc_get_schema r
  | GetSchemaMetadata id => rpc_get_schema_metadata id
  | GetSchemaTopic id => rpc_get_schema_topic id
  | GetSchemaQueryAddress id => rpc_get_schema_query_address id
  | GetSchemaVersions id => rpc_get_schema_versions id
  | GetSchemaType id => rpc_get_schema_type id
  | GetView id => rpc_get_view id
  | GetAllSchemas => rpc_get_all_schemas
  | GetAllSchemaNames => rpc_get_all_schema_names
  | GetAllViewsOfSchema id => rpc_get_all_views_of_schema id
  | ValidateValue r => rpc_validate_value r
  | PromoteToMaster => with_err (fun _ => panicked) rpc_promote_to_master
  | Heartbeat => rpc_heartbeat
  end.
End server.

(** ** The network *)

(** what becomes of a call: it is served and answered, it does not reach the
    server, or it is served and the response is lost *)
Inductive Delivery : Type :=
| Delivered
| Undelivered (st : Status)
| ResponseLost (st : Status).

(** the transport, over a state of its own *)
Class Transport (L : Type) := {
  link_dial : string -> L -> L * option string;
  link_carry : L -> L * Delivery;
  link_closed : Status;     (* the status when no server is there any more *)
  link_reset : Status;      (* the status when the handler panicked *)
}.

Record Net (L D B : Type) `{SemVer} : Type := mkNet {
  net_link : L;
  net_hosts : gmap string (SchemaRegistryImpl D B);
}.
Arguments mkNet {L D B _}.
Arguments net_link {L D B _}.
Arguments net_hosts {L D B _}.

Section net.
Context {L D B : Type} `{Transport L, Datastore D, Broker B, SemVer, UuidLib, JsonText,
  JsonSchemaLib, JmespathLib, HashIter}.
Implicit Types (n : Net L D B).

Definition net_connect (addr : string) : M (Net L D B) string () := fun n =>
  let '(l, refused) := link_dial addr (net_link n) in
  (mkNet l (net_hosts n),
   match refused, net_hosts n !! addr with
   | Some e, _ => Err e
   | None, Some _ => Ok ()
   | None, None => Err "tcp connect error: Connection refused"
   end).

Definition net_call {A} (addr : string) (request : Request A) : M (Net L D B) Status A := fun n =>
  let '(l, delivery) := link_carry (net_link n) in
  match net_hosts n !! addr, delivery with
  | None, _ => (mkNet l (net_hosts n), Err link_closed)
  | Some _, Undelivered st => (mkNet l (net_hosts n), Err st)
  | Some s, Delivered =>
      let '(s', r) := serve_request link_reset request s in
      (mkNet l (<[addr := s']> (net_hosts n)), r)
  | Some s, ResponseLost st =>
      (mkNet l (<[addr := (serve_request link_reset request s).1]> (net_hosts n)), Err st)
  end.

#[export] Instance net_service : RegistryService (Net L D B) := {
  sv_connect := net_connect;
  sv_call := fun A => net_call;
}.
End net.

(** a transport that loses nothing *)
Class ReliableTransport (L : Type) `{Transport L} : Prop := {
  dial_reliable addr l : (link_dial addr l).2 = None;
  carry_reliable l : (link_carry l).2 = Delivered;
}.

(** ** Clients *)

Section client.
Context {N : Type} `{RegistryService N}.

(** [rpc::schema_registry::connect]: the client keeps the address *)
Definition connect (addr : string) : M N ClientError string :=
  with_err (ConnectionError "schema registry") (sv_connect addr) ;; mret addr.
End client.

(** *** [crates/schema-registry/src/lib.rs] *)

Inductive RegistryClientError : Type :=
| ClientConnectionError (e : string)
| ParseSchemaError (e : string)
| ClientInvalidSchema
| InvalidData (errors : list string)
| RequestFailure (st : Status)
| ClientJmespathError (e : string)
| JmespathReturnedMalformedJson
| ClientJsonError (e : string).

(** [From<ClientError>] *)
Definition registry_client_error (e : ClientError) : RegistryClientError :=
  match e with
  | ConnectionError _ source => ClientConnectionError source
  | QueryError _ source => RequestFailure source
  end.

Definition join_with_commas (errors : list string) : string := join ", " errors.

Definition registry_client_error_display (e : RegistryClientError) : string :=
  match e with
  | ClientConnectionError e => "Failed to connect to the schema registry: " +:+ e
  | ParseSchemaError e => "Schema returned from registry was not valid JSON: " +:+ e
  | ClientInvalidSchema => "Invalid schema returned from registry"
  | InvalidData errors => "Input data does not match schema: " +:+ join_with_commas errors
  | RequestFailure st => message st
  | ClientJmespathError e => "JMESPath encountered an error: " +:+ e
  | JmespathReturnedMalformedJson => "JMESPath returned malformed JSON"
  | ClientJsonError e => "Error occurred during marshalling of JSON value: " +:+ e
  end.

(** [From<RegistryClientError> for Status] *)
Definition registry_client_error_to_status (e : RegistryClientError) : Status :=
  mkStatus Internal (registry_client_error_display e).

(** [jmespatch]: compiling an expression, searching a value with it, and the
    conversion of the found variable to JSON *)
Class JmespathSearchLib := {
  JVariable : Type;
  jmespath_compile : string -> result string (Value -> result string JVariable);
  jvariable_to_value : JVariable -> option Value;
}.

Section lib.
Context {N : Type} `{RegistryService N, UuidLib, JsonText, JmespathSearchLib}.
Abbreviation Client A := (M N RegistryClientError A) (only parsing).

Definition lib_connect (addr : string) : Client string := with_err registry_client_error (connect addr).
Definition lib_call {A} (client : string) (request : Request A) : Client A :=
  with_err RequestFailure (sv_call client request).

Definition validate_data_with_schema (schema_id : Uuid) (json : Value)
    (schema_registry_addr : string) : Client () :=
  client ← lib_connect schema_registry_addr;
  value ← lift (map_err ClientJsonError (json_to_string json));
  errors ← lib_call client (ValidateValue (mkValueToValidate (uuid_to_string schema_id) value));
  match errors with [] => mret () | _ => fail (InvalidData errors) end.

Definition get_view_of_data (view_id : Uuid) (data : Value) (schema_registry_addr : string) :
    Client Value :=
  client ← lib_connect schema_registry_addr;
  view ← lib_call client (GetView (uuid_to_string view_id));
  path ← lift (map_err ClientJmespathError (jmespath_compile (view_jmespath view)));
  mapped ← lift (map_err ClientJmespathError (path data));
  lift (ok_or JmespathReturnedMalformedJson (jvariable_to_value mapped)).

Definition promote_to_master (storage_addr : string) : Client string :=
  client ← lib_connect storage_addr;
  lib_call client PromoteToMaster.

Definition heartbeat (storage_addr : string) : Client () :=
  client ← lib_connect storage_addr;
  lib_call client Heartbeat.
End lib.

(** ** Calls over a transport that loses nothing *)

Section reliable.
Context {L D B : Type} `{ReliableTransport L, DatastoreLaws D, !ReliableDatastore D, Broker B,
  SemVerLaws, UuidLaws, JsonText, JsonSchemaLib, JmespathLib, HashIter}.
Implicit Types (n : Net L D B) (s : SchemaRegistryImpl D B).

Lemma wp_connect_host addr s n (Q : string -> Net L D B -> Prop) R :
  net_hosts n !! addr = Some s ->
  (forall n', net_hosts n' = net_hosts n -> Q addr n') -> wp (RegistryClient.connect addr) n Q R.
Proof.
  intros Hs HQ. unfold RegistryClient.connect. apply wp_bind, wp_with_err.
  unfold wp, sv_connect; simpl. unfold net_connect.
  pose proof (dial_reliable addr (net_link n)) as Hdial.
  destruct (link_dial addr (net_link n)) as [l o]; simpl in Hdial; subst o. rewrite Hs. by apply HQ.
Qed.

(** a call changes the called registry as its handler says, and nothing else *)
Lemma wp_call_host {A} addr (request : Request A) s n (Q : A -> Net L D B -> Prop) R :
  net_hosts n !! addr = Some s ->
  wp (serve_request link_reset request) s
    (fun a s' => forall n', net_hosts n' = <[addr := s']> (net_hosts n) -> Q a n')
    (fun st s' => forall n', net_hosts n' = <[addr := s']> (net_hosts n) -> R st n') ->
  wp (sv_call addr request) n Q R.
Proof.
  intros Hs Hserve. unfold wp at 1, sv_call; simpl. unfold net_call.
  pose proof (carry_reliable (net_link n)) as Hcarry.
  destruct (link_carry (net_link n)) as [l d]; simpl in Hcarry; subst d. rewrite Hs.
  unfold wp in Hserve. destruct (serve_request _ request s) as [s' [a|e]]; by apply Hserve.
Qed.
End reliable.

(** ** Validation through the client *)

Section validation.
Context {L D B : Type} `{Transport L, DatastoreLaws D, Broker B,
  SemVerLaws, UuidLaws, JsonText, !ExactJson, JsonSchemaLib, JmespathLib, HashIter, JmespathSearchLib}.
Implicit Types (n : Net L D B) (s : SchemaRegistryImpl D B).

(** what the validator of the newest definition of a schema says of a value *)
Definition verdict (g : Graph) (schema_id : Uuid) (json : Value) (errors : list string) : Prop :=
  exists v i def validate, latest g (versioned_any schema_id) v i /\
    g_vprop g i Definition_VALUE = Some def /\
    jsonschema_compile def = Ok validate /\ validate json = errors.

(** why a registry cannot tell *)
Definition no_verdict (g : Graph) (schema_id : Uuid) : Prop :=
  (forall i v, g_version g schema_id i <> Some v) \/
  (exists v i def e, latest g (versioned_any schema_id) v i /\
     g_vprop g i Definition_VALUE = Some def /\ jsonschema_compile def = Err e).
Definition storage_failed s (schema_id : Uuid) : Prop :=
  exists e, (get_schema_definition (versioned_any schema_id) (impl_db s)).2 = Err e /\ storage_failure e.

Lemma rpc_validate_value_spec s schema_id text :
  wf (graph (impl_db s)) -> fits (graph (impl_db s)) ->
  wp (rpc_validate_value (mkValueToValidate (uuid_to_string schema_id) text)) s
    (fun errors s' => s' = s /\ exists json, json_parse text = Ok json /\ verdict (graph (impl_db s)) schema_id json errors)
    (fun _ s' => s' = s /\
       ((exists e, json_parse text = Err e) \/ storage_failed s schema_id \/ no_verdict (graph (impl_db s)) schema_id)).
Proof.
  intros Hwf Hfits. unfold rpc_validate_value. simpl.
  apply wp_bind, wp_lift; unfold parse_uuid; rewrite uuid_parse_to_string; [|done].
  intros ? [= <-]. apply wp_bind, wp_lift; unfold parse_json; destruct (json_parse text) as [json|e] eqn:Htext; try done.
  2: { intros ? _. split; [done|]. left. by exists e. }
  intros ? [= <-]. apply wp_bind. unfold wp at 1, on_database.
  pose proof (get_schema_definition_spec (impl_db s) (versioned_any schema_id) (wf_regular _ Hwf Hfits)) as Hdef.
  unfold wp in Hdef. unfold storage_failed.
  destruct (get_schema_definition (versioned_any schema_id) (impl_db s)) as [d' [sd|e]]; simpl.
  - destruct Hdef as (-> & i & Hl & Hx). replace (mkSchemaRegistryImpl _ _ _ _ _) with s by by destruct s.
    destruct (jsonschema_compile (sd_definition sd)) as [validate|e] eqn:Hc; unfold wp; simpl.
    + split; [done|]. exists json. split; [done|]. by exists (sd_version sd), i, (sd_definition sd), validate.
    + split; [done|]. right. right. right. by exists (sd_version sd), i, (sd_definition sd), e.
  - destruct Hdef as [-> [He|He]]; (split; [by destruct s|]); right; [left; by exists e|].
    right. left. apply version_err_wf in He as [_ Hno]; [|apply Hwf]. intros i v Hv.
    pose proof (Hno i v Hv) as Hm. cbn in Hm. by rewrite req_any_matches in Hm.
Qed.

(** the registry at [addr] has read the text of [json] (as [json], if that is exact)
    and found [errors] *)
Definition judged n addr schema_id (json : Value) (errors : list string) : Prop :=
  exists s text value, net_hosts n !! addr = Some s /\ json_to_string json = Ok text /\
    json_parse text = Ok value /\ (exact MAX_DEPTH json -> value = json) /\
    verdict (graph (impl_db s)) schema_id value errors.
(** the connection is refused *)
Definition unreachable n addr : Prop :=
  net_hosts n !! addr = None \/ (link_dial addr (net_link n)).2 <> None.
(** the call or its response is lost, or the registry cannot tell *)
Definition unanswered n addr schema_id (json : Value) : Prop :=
  (link_carry (link_dial addr (net_link n)).1).2 <> Delivered \/
  exists s text, net_hosts n !! addr = Some s /\ json_to_string json = Ok text /\
    ((exists e, json_parse text = Err e) \/ storage_failed s schema_id \/ no_verdict (graph (impl_db s)) schema_id).

(** C13: validation through the client library tells what the validator of the
    newest definition says of the data, or why it cannot.  It answers [Ok] exactly
    as that validator finds no error, and the errors it finds otherwise; a
    connection error only if the registry is not there or refuses the connection,
    a JSON error only if the data cannot be written, and a failed request only if
    the call or its response is lost, the registry cannot read the text or its
    storage fails, the schema has no version, or the newest definition does not
    compile.  Nothing changes in any registry.  (The validator judges the value
    the registry reads from the text, which is the data itself if its numbers are
    integers and its nesting is below the parser's limit; the registry is
    well-formed, which every history of requests keeps.) *)
Theorem validate_data_verdict n addr schema_id json n' r :
  (forall s, net_hosts n !! addr = Some s -> wf (graph (impl_db s)) /\ fits (graph (impl_db s))) ->
  validate_data_with_schema schema_id json addr n = (n', r) ->
  net_hosts n' = net_hosts n /\
  match r with
  | Ok _ => judged n addr schema_id json []
  | Err (InvalidData errors) => errors <> [] /\ judged n addr schema_id json errors
  | Err (ClientConnectionError _) => unreachable n addr
  | Err (ClientJsonError e) => json_to_string json = Err e
  | Err (RequestFailure _) => unanswered n addr schema_id json
  | Err _ => False
  end.
Proof.
  intros Hregular. unfold validate_data_with_schema, lib_connect, RegistryClient.connect, lib_call.
  unfold mbind, M_bind, mret, M_ret, fail, with_err, lift, unreachable, unanswered, judged. cbn [sv_connect sv_call net_service].
  unfold net_connect. destruct (link_dial addr (net_link n)) as [l [refused|]]; cbn [snd fst map_err];
    [intros [= <- <-]; split; [done|by right]|].
  destruct (net_hosts n !! addr) as [s|] eqn:Hs; cbn [map_err]; [|intros [= <- <-]; split; [done|by left]].
  destruct (json_to_string json) as [text|e] eqn:Htext; cbn [map_err]; [|by intros [= <- <-]].
  unfold net_call. cbn [net_link net_hosts]. destruct (Hregular s eq_refl) as [Hwf Hfits].
  pose proof (rpc_validate_value_spec s schema_id text Hwf Hfits) as Hspec. unfold wp in Hspec.
  destruct (link_carry l) as [l' [|st|st]]; cbn [serve_request snd].  all: rewrite ?Hs.
  - destruct (rpc_validate_value _ s) as [s' [[|e errors]|st]].
    + destruct Hspec as (-> & value & Hvalue & Hv). intros [= <- <-]. cbn [net_hosts]. rewrite insert_id by done.
      split; [done|]. exists s, text, value. split_and!; [done..| |done]. intros Hexact.
      pose proof (json_to_string_exact _ _ Hexact Htext). congruence.
    + destruct Hspec as (-> & value & Hvalue & Hv). intros [= <- <-]. cbn [net_hosts]. rewrite insert_id by done.
      split; [done|]. split; [done|]. exists s, text, value. split_and!; [done..| |done]. intros Hexact.
      pose proof (json_to_string_exact _ _ Hexact Htext). congruence.
    + destruct Hspec as (-> & Hwhy). intros [= <- <-]. cbn [net_hosts]. rewrite insert_id by done.
      split; [done|]. right. by exists s, text.
  - intros [= <- <-]. split; [done|by left].
  - destruct (rpc_validate_value _ s) as [s' x] eqn:Hval. assert (s' = s) as -> by (by destruct x; destruct Hspec).
    intros [= <- <-]. cbn [net_hosts]. rewrite insert_id by done. split; [done|by left].
Qed.
End validation.

(** ** A network in memory *)

#[export] Instance perfect_transport : Transport () := {
  link_dial := fun _ l => (l, None);
  link_carry := fun l => (l, Delivered);
  link_closed := mkStatus (TransportCode 14) "transport error";
  link_reset := mkStatus (TransportCode 1) "operation was canceled";
}.
#[export] Instance perfect_transport_reliable : ReliableTransport ().
Proof. by split. Qed.

(** one registry, with the schema of the other example runs *)
Definition demo_host : SchemaRegistryImpl MemoryDatastore MemoryBroker :=
  mkSchemaRegistryImpl demo_state (mkMemoryBroker ["orders.topic"] []) FetcherKafka
    (replication_state_new demo_config)
    (Some "registry-0").
Definition demo_net : Net () MemoryDatastore MemoryBroker :=
  mkNet () {["http://registry" := demo_host]}.

#[export] Instance jmespath_search_inst : JmespathSearchLib := {
  JVariable := Value;
  jmespath_compile := fun e => if decide (e = "@") then Ok Ok else Err "unexpected token";
  jvariable_to_value := Some;
}.

(** texts of all values, and a client of the registry *)
#[local] Instance client_json : JsonText := { json_parse := read; json_to_string := fun v => Ok (show v) }.
#[local] Instance client_exact : ExactJson.
Proof. split. intros v text _ [= <-]. apply read_show. Qed.
Definition demo_validated := validate_data_with_schema 7 (Object ∅) "http://registry" demo_net.

Lemma validate_data_verdict_witness :
  net_hosts demo_validated.1 = net_hosts demo_net /\ judged demo_net "http://registry" 7 (Object ∅) [].
Proof.
  apply (validate_data_verdict demo_net "http://registry" 7 (Object ∅) demo_validated.1 (Ok ())); [|vm_eq].
  intros s [= <-]. split; [apply demo_state_wf|apply demo_state_fits].
Defined.

(** nothing listens at the other address *)
Example demo_unreachable :
  (validate_data_with_schema 7 (Object ∅) "http://nowhere" demo_net).2 =
    Err (ClientConnectionError "tcp connect error: Connection refused").
Proof. vm_eq. Qed.
