(* ===== verification/RegistryProcess.v ===== *)
(** The process around the registry's service: the handlers of
    [crates/schema-registry/src/rpc.rs] share the replication state under a mutex
    that is locked with [abort_on_poison] ([crates/utils/src/lib.rs]), so what a
    panic of one handler does shows in the handlers that come later. *)
From stdpp Require Import prelude gmap strings list fin_maps.
From S2P Require Import Prelude Json Externals Indradb RegistryTypes SchemaDb Instances Messaging Replication.
From S2P Require Import RegistryRpc RegistryClient.

(** ** The process *)

Record Process (D B : Type) `{SemVer} : Type := mkProcess {
  pr_impl : SchemaRegistryImpl D B;
  pr_poisoned : bool;        (* the mutex of the replication state *)
  pr_alive : bool;
}.
Arguments mkProcess {D B _}. Arguments pr_impl {D B _}. Arguments pr_poisoned {D B _}. Arguments pr_alive {D B _}.

(** the handlers that end with [replicate_message], which locks the mutex *)
Definition replicates `{SemVer} {A} (request : Request A) : bool :=
  match request with
  | AddSchema _ | AddSchemaVersion _ | UpdateSchemaMetadata _ | AddViewToSchema _ | UpdateView _ => true
  | _ => false
  end.

Definition is_promotion `{SemVer} {A} (request : Request A) : bool :=
  match request with PromoteToMaster => true | _ => false end.

Section process.
Context {D B : Type} `{Datastore D, Broker B, SemVer, UuidLib, JsonText, JsonSchemaLib,
  JmespathLib, HashIter}.
Abbreviation Proc := (Process D B) (only parsing).

(** a handler has run to its [replicate_message] and found the lock poisoned:
    the store has changed, the replication state has not *)
Definition abort_after (s s' : SchemaRegistryImpl D B) : Proc :=
  mkProcess (mkSchemaRegistryImpl (impl_db s') (impl_broker s') (impl_mq_metadata s') (impl_replication s)
    (impl_pod_name s')) true false.

(** a request that is answered through the handlers *)
Definition process_handler {A} (request : Request A) (p : Proc) : Proc * option (result Status A) :=
  let '(s', r) := serve_request (mkStatus Internal EmptyString) request (pr_impl p) in
  match r with
  | Ok v => if replicates request && pr_poisoned p then (abort_after (pr_impl p) s', None)
            else (mkProcess s' (pr_poisoned p) true, Some (Ok v))
  | Err e => (mkProcess s' (pr_poisoned p) true, Some (Err e))
  end.

(** [promote_to_master]: [set_role] runs while the lock is held *)
Definition process_promote (p : Proc) : Proc * option (result Status string) :=
  if pr_poisoned p then (mkProcess (pr_impl p) true false, None)
  else match rpc_promote_to_master (pr_impl p) with
  | (s', Ok name) => (mkProcess s' false true, Some (Ok name))
  | (s', Err UnwrapOnErr) => (mkProcess s' true true, None)
  end.

(** one request; no answer: its connection is reset *)
Definition process_request {A} (request : Request A) : Proc -> Proc * option (result Status A) :=
  match request in Request A return Proc -> Proc * option (result Status A) with
  | PromoteToMaster => fun p => if pr_alive p then process_promote p else (p, None)
  | request => fun p => if pr_alive p then process_handler request p else (p, None)
  end.

(** ** A poisoned registry *)

(** the task or thread behind the stop channel is gone *)
Definition stop_channel_closed (s : ReplicationState) : Prop :=
  exists c b, stop_channel s = Some c /\ w_oneshots (world s) !! c = Some (mkOneShot b false).

Lemma set_role_closed role s : stop_channel_closed s -> exists s', set_role role s = (s', Err UnwrapOnErr).
Proof.
  intros (c & b & Hc & Hos). unfold set_role, mbind, M_bind, oneshot_send_unwrap. simpl.
  rewrite Hc. simpl. rewrite Hos. by eexists.
Qed.

Lemma process_request_handler {A} (request : Request A) (p : Proc) :
  is_promotion request = false -> pr_alive p = true -> process_request request p = process_handler request p.
Proof. intros Hr Hp. destruct request; try done; unfold process_request; by rewrite Hp. Qed.

(** requests in a row, and which of them the client is told to have succeeded *)
Inductive Call : Type := call (A : Type) (request : Request A).
Definition confirmed (c : Call) (p : Proc) : bool :=
  match c with call _ request =>
    match (process_request request p).2 with Some (Ok _) => true | _ => false end end.
Definition after_call (c : Call) (p : Proc) : Proc :=
  match c with call _ request => (process_request request p).1 end.
Fixpoint confirmations (l : list Call) (p : Proc) : list (Call * bool) :=
  match l with [] => [] | c :: l => (c, confirmed c p) :: confirmations l (after_call c p) end.
Definition changes (c : Call) : bool := match c with call _ request => replicates request end.

(** poisoned, or gone *)
Definition doomed (p : Proc) : Prop := pr_alive p = true -> pr_poisoned p = true.

Lemma doomed_call c p : doomed p -> doomed (after_call c p) /\ (changes c = true -> confirmed c p = false).
Proof.
  intros Hd. destruct c as [A request]. simpl. destruct (pr_alive p) eqn:Hp.
  - pose proof (Hd Hp) as Hpois. destruct (is_promotion request) eqn:Hpro.
    + destruct request; try done. unfold process_request. rewrite Hp. unfold process_promote. by rewrite Hpois.
    + rewrite process_request_handler by done. unfold process_handler.
      destruct (serve_request _ request (pr_impl p)) as [s' [v|e]]; [|by split; [intros _|]].
      rewrite Hpois. destruct (replicates request); simpl; split; try done; by intros _.
  - assert (process_request request p = (p, None)) as ->; [|by split].
    destruct request; unfold process_request; by rewrite Hp.
Qed.

Lemma doomed_confirmations l p :
  doomed p -> forall c b, (c, b) ∈ confirmations l p -> changes c = true -> b = false.
Proof.
  revert p. induction l as [|c l IH]; intros p Hp c' b; simpl; [by intros ?%not_elem_of_nil|].
  destruct (doomed_call c p Hp) as [Hnext Hc]. intros [[= -> ->]|Hin]%elem_of_cons; [done|by eapply IH].
Qed.

(** C14: a promotion that finds the old replication gone (the thread of a master,
    or the ended task of a slave) panics with the lock held, and the registry is
    poisoned: it goes on answering what it only reads, but the next change it
    accepts is stored, then aborts the process before it is answered; no change
    is ever confirmed to a client again. *)
Theorem failed_promotion_poisons (p : Proc) :
  pr_alive p = true -> pr_poisoned p = false -> stop_channel_closed (impl_replication (pr_impl p)) ->
  exists p1, process_request PromoteToMaster p = (p1, None) /\ pr_alive p1 = true /\
    impl_db (pr_impl p1) = impl_db (pr_impl p) /\
    (forall A (q : Request A), is_promotion q = false -> replicates q = false ->
       (process_request q p1).2 = Some (serve_request (mkStatus Internal EmptyString) q (pr_impl p1)).2) /\
    (forall A (q : Request A) s' v, replicates q = true ->
       serve_request (mkStatus Internal EmptyString) q (pr_impl p1) = (s', Ok v) ->
       exists p2, process_request q p1 = (p2, None) /\ impl_db (pr_impl p2) = impl_db s' /\ pr_alive p2 = false) /\
    forall l c b, (c, b) ∈ confirmations l p1 -> changes c = true -> b = false.
Proof.
  intros Hp Hpois Hclosed. destruct (set_role_closed Master _ Hclosed) as [rep Hrep].
  set (p1 := mkProcess (mkSchemaRegistryImpl (impl_db (pr_impl p)) (impl_broker (pr_impl p))
    (impl_mq_metadata (pr_impl p)) rep (impl_pod_name (pr_impl p))) true true : Proc).
  exists p1. split; [|split_and!; [done|done| | |by intros l; apply doomed_confirmations]].
  - unfold process_request. rewrite Hp. unfold process_promote. rewrite Hpois. unfold rpc_promote_to_master.
    by rewrite Hrep.
  - intros A q Hq Hr. rewrite process_request_handler by done. unfold process_handler. rewrite Hr. simpl.
    by destruct (serve_request _ q _) as [s' [v|e]].
  - intros A q s' v Hr Hrun. rewrite process_request_handler by (by destruct q). unfold process_handler.
    rewrite Hrun, Hr. simpl. by eexists.
Qed.

(** every master that was promoted while its thread has ended is in that state *)
Lemma master_stop_channel_closed config s :
  reachable config s -> replication_role s = Master -> w_threads (world s) = [] -> stop_channel_closed s.
Proof.
  intros Hs Hrole Hth. destruct (reachable_inv config s Hs) as [Hm _].
  destruct (Hm Hrole) as (kill & recv & Hstop & Hch & [Hin|[Hos Hmp]]).
  { rewrite Hth in Hin. by apply not_elem_of_nil in Hin. }
  apply fmap_Some in Hos as ([b rx] & Hos & Hrx). simpl in Hrx. subst rx. by exists kill, b.
Qed.
End process.

(** ** A master that is promoted again *)

Definition demo_process : Process MemoryDatastore MemoryBroker :=
  mkProcess (mkSchemaRegistryImpl memory_default (mkMemoryBroker [] []) FetcherKafka demo_master None) false true.

Lemma failed_promotion_poisons_witness :
  exists p1, process_request PromoteToMaster demo_process = (p1, None) /\ pr_alive p1 = true /\
    impl_db (pr_impl p1) = impl_db (pr_impl demo_process) /\
    (forall A (q : Request A), is_promotion q = false -> replicates q = false ->
       (process_request q p1).2 = Some (serve_request (mkStatus Internal EmptyString) q (pr_impl p1)).2) /\
    (forall A (q : Request A) s' v, replicates q = true ->
       serve_request (mkStatus Internal EmptyString) q (pr_impl p1) = (s', Ok v) ->
       exists p2, process_request q p1 = (p2, None) /\ impl_db (pr_impl p2) = impl_db s' /\ pr_alive p2 = false) /\
    forall l c b, (c, b) ∈ confirmations l p1 -> changes c = true -> b = false.
Proof.
  apply (failed_promotion_poisons demo_process); [done|done|].
  apply (master_stop_channel_closed demo_config); [apply demo_master_reachable|done|done].
Defined.
