(* ===== verification/TaskQueue.v ===== *)
(** [ParallelTaskQueue] of [crates/utils/src/parallel_task_queue.rs]: per-key
    FIFO locks whose permits are handed over through [oneshot] channels.  The
    queue, the channels and the tasks that wait on them form one state; the
    operations and what a task may do next are its steps. *)
From stdpp Require Import prelude gmap strings list sorting.
From S2P Require Import Prelude.

(** ** State *)

(** a task by the state of its [oneshot] channel and of its guard.  [Lost]: the
    permit was sent and the future was dropped before it returned the guard. *)
Inductive Phase : Type := Waiting | Granted | Holding | Done | Cancelled | Lost.
#[export] Instance Phase_eq_dec : EqDecision Phase.
Proof. solve_decision. Defined.

Record Task : Type := mkTask { task_key : string; task_phase : Phase }.
#[export] Instance Task_eq_dec : EqDecision Task.
Proof. solve_decision. Defined.

(** [LockQueue]; a [Sender] is the id of the task that holds the receiver *)
Record LockQueue : Type := mkLockQueue { is_blocked : bool; queue : list nat }.

Record ParallelTaskQueue : Type := mkParallelTaskQueue {
  locks : gmap string LockQueue;
  tasks : gmap nat Task;
  next_task : nat;
}.

Definition task_queue_new : ParallelTaskQueue := mkParallelTaskQueue ∅ ∅ 0.
Definition lock_queue_new : LockQueue := mkLockQueue false [].

(** ** Operations *)

Definition phase_of (ts : gmap nat Task) (t : nat) : option Phase := task_phase <$> ts !! t.
Definition set_phase (t : nat) (p : Phase) (ts : gmap nat Task) : gmap nat Task :=
  alter (fun x => mkTask (task_key x) p) t ts.

(** [Sender::send]: it fails when the receiver was dropped *)
Definition send (t : nat) (ts : gmap nat Task) : option (gmap nat Task) :=
  if decide (phase_of ts t = Some Waiting) then Some (set_phase t Granted ts) else None.

(** the new task [t] is already among the tasks, waiting *)
Definition add_task (t : nat) (lq : LockQueue) (ts : gmap nat Task) :
    option (LockQueue * gmap nat Task) :=
  if is_blocked lq then Some (mkLockQueue true (queue lq ++ [t]), ts)
  else ts' ← send t ts; Some (mkLockQueue true (queue lq), ts').

(** [end_task]: senders whose receiver is gone are skipped *)
Fixpoint end_task (q : list nat) (ts : gmap nat Task) : LockQueue * gmap nat Task :=
  match q with
  | [] => (mkLockQueue false [], ts)
  | t :: q' =>
      match send t ts with
      | Some ts' => (mkLockQueue true q', ts')
      | None => end_task q' ts
      end
  end.

(** the synchronous part of [acquire_permit]: the task then awaits its receiver *)
Definition acquire_permit (key : string) (s : ParallelTaskQueue) : option ParallelTaskQueue :=
  let t := next_task s in
  let ts := <[t := mkTask key Waiting]> (tasks s) in
  '(lq, ts') ← add_task t (default lock_queue_new (locks s !! key)) ts;
  Some (mkParallelTaskQueue (<[key := lq]> (locks s)) ts' (S t)).

(** the receiver resolves and the guard is returned *)
Definition permit_received (t : nat) (s : ParallelTaskQueue) : option ParallelTaskQueue :=
  if decide (phase_of (tasks s) t = Some Granted)
  then Some (mkParallelTaskQueue (locks s) (set_phase t Holding (tasks s)) (next_task s))
  else None.

(** [LockGuard::drop]; [None] is the panic of [expect("LockGuard already dropped")] *)
Definition drop_guard (t : nat) (key : string) (s : ParallelTaskQueue) : option ParallelTaskQueue :=
  entry ← locks s !! key;
  let '(entry', ts') := end_task (queue entry) (set_phase t Done (tasks s)) in
  Some (mkParallelTaskQueue
    (if is_blocked entry' then <[key := entry']> (locks s) else delete key (locks s))
    ts' (next_task s)).

(** the future of [acquire_permit] is dropped before it returns *)
Definition cancel (t : nat) (s : ParallelTaskQueue) : option ParallelTaskQueue :=
  match phase_of (tasks s) t with
  | Some Waiting =>
      Some (mkParallelTaskQueue (locks s) (set_phase t Cancelled (tasks s)) (next_task s))
  | Some Granted =>
      Some (mkParallelTaskQueue (locks s) (set_phase t Lost (tasks s)) (next_task s))
  | _ => None
  end.

Inductive tq_step : ParallelTaskQueue -> ParallelTaskQueue -> Prop :=
| tq_acquire key s s' : acquire_permit key s = Some s' -> tq_step s s'
| tq_received t s s' : permit_received t s = Some s' -> tq_step s s'
| tq_drop t key s s' : tasks s !! t = Some (mkTask key Holding) -> drop_guard t key s = Some s' ->
    tq_step s s'
| tq_cancel t s s' : cancel t s = Some s' -> tq_step s s'.

Inductive tq_reachable : ParallelTaskQueue -> Prop :=
| tq_new : tq_reachable task_queue_new
| tq_next s s' : tq_reachable s -> tq_step s s' -> tq_reachable s'.

(** ** Invariant *)

(** a task that owns the lock of its key; for good, when the permit was lost *)
Definition owns (p : Phase) : Prop := p = Granted \/ p = Holding \/ p = Lost.
#[export] Instance owns_dec p : Decision (owns p).
Proof. unfold owns. apply _. Defined.

(** one key: its lock, and the tasks of the key *)
Record lock_ok (ts : gmap nat Task) (key : string) (lq : LockQueue) (o : nat) : Prop := {
  lo_blocked : is_blocked lq = true;
  lo_owner : exists p, ts !! o = Some (mkTask key p) /\ owns p;
  lo_unique t p : ts !! t = Some (mkTask key p) -> owns p -> t = o;
  lo_queue t : t ∈ queue lq -> exists p, ts !! t = Some (mkTask key p) /\ (p = Waiting \/ p = Cancelled);
  lo_waiting t : ts !! t = Some (mkTask key Waiting) -> t ∈ queue lq;
  lo_sorted : StronglySorted lt (queue lq);
}.

Definition free (ts : gmap nat Task) (key : string) : Prop :=
  forall t p, ts !! t = Some (mkTask key p) -> p = Done \/ p = Cancelled.

Record tq_inv (s : ParallelTaskQueue) : Prop := {
  ti_some key lq : locks s !! key = Some lq -> exists o, lock_ok (tasks s) key lq o;
  ti_none key : locks s !! key = None -> free (tasks s) key;
  ti_next t x : tasks s !! t = Some x -> t < next_task s;
}.

Section invariant.
Implicit Types (s : ParallelTaskQueue) (ts : gmap nat Task) (key : string) (t o : nat).

Lemma phase_of_Some ts t p :
  phase_of ts t = Some p <-> exists key, ts !! t = Some (mkTask key p).
Proof.
  unfold phase_of. split.
  - intros ([key p'] & Ht & ->)%fmap_Some. by exists key.
  - by intros [key ->].
Qed.

Lemma set_phase_lookup t p ts t' :
  set_phase t p ts !! t' =
  if decide (t = t') then (fun x => mkTask (task_key x) p) <$> ts !! t' else ts !! t'.
Proof. unfold set_phase. rewrite lookup_alter. by case_decide; subst. Qed.

(** changing a task of another key is not seen *)
Lemma lock_ok_other ts ts' key lq o :
  (forall t p, ts' !! t = Some (mkTask key p) <-> ts !! t = Some (mkTask key p)) ->
  lock_ok ts key lq o -> lock_ok ts' key lq o.
Proof.
  intros Heq [Hb (p & Ho & Hp) Hu Hq Hw Hs]. split; [done| | | | |done].
  - exists p. by rewrite Heq.
  - intros t q. rewrite Heq. apply Hu.
  - intros t Ht. destruct (Hq t Ht) as (q & ? & ?). exists q. by rewrite Heq.
  - intros t. rewrite Heq. apply Hw.
Qed.
Lemma free_other ts ts' key :
  (forall t p, ts' !! t = Some (mkTask key p) <-> ts !! t = Some (mkTask key p)) ->
  free ts key -> free ts' key.
Proof. intros Heq Hf t p. rewrite Heq. apply Hf. Qed.

Lemma set_phase_other ts t p key key' q t' :
  ts !! t = Some (mkTask key q) -> key <> key' -> forall p',
  set_phase t p ts !! t' = Some (mkTask key' p') <-> ts !! t' = Some (mkTask key' p').
Proof.
  intros Ht Hne p'. rewrite set_phase_lookup. case_decide; [subst|done].
  rewrite Ht. simpl. split; intros [=]; congruence.
Qed.
End invariant.

Section end_task.
Implicit Types (ts : gmap nat Task) (key : string) (t o : nat).

(** a lock that nobody owns, with its queue *)
Record released ts key (q : list nat) : Prop := {
  re_owner t p : ts !! t = Some (mkTask key p) -> ~ owns p;
  re_queue t : t ∈ q -> exists p, ts !! t = Some (mkTask key p) /\ (p = Waiting \/ p = Cancelled);
  re_waiting t : ts !! t = Some (mkTask key Waiting) -> t ∈ q;
  re_sorted : StronglySorted lt q;
}.

Lemma sorted_notin t q : StronglySorted lt (t :: q) -> t ∉ q.
Proof.
  intros [_ Hall]%StronglySorted_inv Hin. rewrite Forall_forall in Hall.
  apply Hall in Hin. lia.
Qed.

(** the permit goes to the first task still waiting; without one the lock is
    released *)
Lemma end_task_spec ts key q :
  released ts key q ->
  let '(lq, ts') := end_task q ts in
  (is_blocked lq = false /\ ts' = ts /\ free ts key) \/
  (exists o, ts !! o = Some (mkTask key Waiting) /\ ts' = set_phase o Granted ts /\
     (forall t, ts !! t = Some (mkTask key Waiting) -> o <= t) /\ lock_ok ts' key lq o).
Proof.
  induction q as [|t q IH]; intros [Ho Hq Hw Hs]; simpl.
  - left. split_and!; [done..|]. intros t p Ht. specialize (Ho t p Ht).
    destruct p; try (by destruct Ho; unfold owns; auto); auto.
    apply Hw in Ht. by apply not_elem_of_nil in Ht.
  - pose proof (sorted_notin t q Hs) as Hnotin. apply StronglySorted_inv in Hs as [Hs Hlt].
    rewrite Forall_forall in Hlt. destruct (Hq t) as (p & Ht & Hp); [set_solver|].
    unfold send. case_decide as Hsend.
    + apply phase_of_Some in Hsend as [key' Ht']. rewrite Ht in Ht'. simplify_eq.
      right. exists t. split_and!; [done|done| |].
      * intros t' Ht'. apply Hw, elem_of_cons in Ht' as [->|Hin]; [done|].
        apply Hlt in Hin. lia.
      * split; simpl; [done| | | | |done].
        -- exists Granted. rewrite set_phase_lookup, decide_True, Ht by done.
           split; [done|]. by left.
        -- intros t' p. rewrite set_phase_lookup. case_decide; [done|].
           intros Ht' Hown. by destruct (Ho _ _ Ht').
        -- intros t' Hin. destruct (Hq t') as (p & Ht' & ?); [set_solver|]. exists p.
           rewrite set_phase_lookup, decide_False by (by intros <-). done.
        -- intros t'. rewrite set_phase_lookup. case_decide; [subst; by rewrite Ht|].
           intros Ht'%Hw. set_solver.
    + apply IH. split; [done| | |done].
      * intros t' Hin. apply Hq. set_solver.
      * intros t' Ht'. pose proof Ht' as Hin. apply Hw, elem_of_cons in Hin as [->|Hin]; [|done].
        destruct Hsend. apply phase_of_Some. by exists key.
Qed.

(** the queue left behind by its owner *)
Lemma released_after ts key lq o :
  lock_ok ts key lq o -> ts !! o = Some (mkTask key Holding) ->
  released (set_phase o Done ts) key (queue lq).
Proof.
  intros [_ (p0 & Ho & Hp0) Hu Hq Hw Hs] Hh. split; [| | |done].
  - intros t p. rewrite set_phase_lookup. case_decide as Hto.
    + subst. rewrite Hh. intros [= <-] [|[|]]; done.
    + intros Ht Hown. by apply Hto, eq_sym, (Hu t p).
  - intros t Hin. destruct (Hq t Hin) as (p & Ht & Hp). exists p.
    rewrite set_phase_lookup, decide_False; [done|]. intros <-.
    rewrite Hh in Ht. destruct Hp; simplify_eq.
  - intros t. rewrite set_phase_lookup. case_decide; [subst; by rewrite Hh|]. apply Hw.
Qed.
End end_task.

Section preservation.
Implicit Types (s : ParallelTaskQueue) (ts : gmap nat Task) (key : string) (t o : nat).

Lemma next_task_fresh s : tq_inv s -> tasks s !! next_task s = None.
Proof.
  intros Hs. destruct (tasks s !! next_task s) eqn:Ht; [|done].
  apply (ti_next _ Hs) in Ht. lia.
Qed.

Lemma insert_task_other ts t key key' p :
  ts !! t = None -> key <> key' -> forall t' p',
  <[t := mkTask key p]> ts !! t' = Some (mkTask key' p') <-> ts !! t' = Some (mkTask key' p').
Proof.
  intros Ht Hne t' p'. rewrite lookup_insert. case_decide; [subst|done]. rewrite Ht.
  split; intros [=]; congruence.
Qed.

(** a state whose lock and tasks changed for one key only *)
Lemma tq_inv_update s key ts' n (olq : option LockQueue) :
  tq_inv s ->
  (forall key', key <> key' -> forall t p,
     ts' !! t = Some (mkTask key' p) <-> tasks s !! t = Some (mkTask key' p)) ->
  (forall t x, ts' !! t = Some x -> t < n) ->
  match olq with
  | Some lq => exists o, lock_ok ts' key lq o
  | None => free ts' key
  end ->
  tq_inv (mkParallelTaskQueue (partial_alter (fun _ => olq) key (locks s)) ts' n).
Proof.
  intros Hs Hother Hn Hkey. split; simpl; [| |done].
  - intros key' lq. destruct (decide (key = key')) as [<-|Hne].
    + rewrite lookup_partial_alter_eq. intros ->. done.
    + rewrite lookup_partial_alter_ne by done. intros Hlq.
      destruct (ti_some _ Hs key' lq Hlq) as [o Ho]. exists o.
      eapply lock_ok_other; [|done]. by apply Hother.
  - intros key'. destruct (decide (key = key')) as [<-|Hne].
    + rewrite lookup_partial_alter_eq. by intros ->.
    + rewrite lookup_partial_alter_ne by done. intros Hlq.
      eapply free_other; [by apply Hother|]. by apply (ti_none _ Hs).
Qed.

(** a task that asks while the key is owned joins the end of its queue *)
Lemma lock_ok_enqueue ts key lq o t :
  lock_ok ts key lq o -> ts !! t = None -> (forall t' x, ts !! t' = Some x -> t' < t) ->
  lock_ok (<[t := mkTask key Waiting]> ts) key (mkLockQueue true (queue lq ++ [t])) o.
Proof.
  intros [Hb (p & Ho & Hp) Hu Hq Hw Hsort] Hfresh Hlt.
  assert (t <> o) as Hto by (intros <-; congruence). split; simpl; [done| | | | |].
  - exists p. by rewrite lookup_insert_ne.
  - intros t' q. rewrite lookup_insert. case_decide; [|apply Hu]. intros [= <-] [|[|]]; done.
  - intros t' [Hin| ->%list_elem_of_singleton]%elem_of_app.
    + destruct (Hq t' Hin) as (q & Ht' & ?). exists q.
      rewrite lookup_insert_ne by (intros <-; congruence). done.
    + exists Waiting. rewrite lookup_insert_eq. auto.
  - intros t'. rewrite lookup_insert. case_decide; [set_solver|]. intros Ht'%Hw. set_solver.
  - apply StronglySorted_app_2; [|done|repeat constructor].
    intros x y Hx ->%list_elem_of_singleton. destruct (Hq x Hx) as (q & Hx' & _). by eapply Hlt.
Qed.

(** a task that asks for a free key owns it *)
Lemma lock_ok_granted ts key t :
  free ts key -> ts !! t = None ->
  lock_ok (set_phase t Granted (<[t := mkTask key Waiting]> ts)) key (mkLockQueue true []) t.
Proof.
  intros Hfree Hfresh. split; simpl; [done| | | | |constructor].
  - exists Granted. rewrite set_phase_lookup, decide_True, lookup_insert_eq by done.
    split; [done|by left].
  - intros t' p. rewrite set_phase_lookup. case_decide; [done|].
    rewrite lookup_insert_ne by done. intros Ht' Hown. exfalso.
    destruct (Hfree _ _ Ht') as [-> | ->]; by destruct Hown as [|[|]].
  - intros t' Hin. by apply not_elem_of_nil in Hin.
  - intros t'. rewrite set_phase_lookup. case_decide.
    + subst. by rewrite lookup_insert_eq.
    + rewrite lookup_insert_ne by done. intros Ht'. by destruct (Hfree _ _ Ht').
Qed.

Lemma acquire_inv key s s' : tq_inv s -> acquire_permit key s = Some s' -> tq_inv s'.
Proof.
  intros Hs Hrun. pose proof (next_task_fresh s Hs) as Hfresh.
  unfold acquire_permit in Hrun. set (t := next_task s) in *.
  assert (forall t' x, <[t := mkTask key Waiting]> (tasks s) !! t' = Some x -> t' < S t) as Hn.
  { intros t' x. rewrite lookup_insert. case_decide; [intros; lia|].
    intros Ht'%(ti_next _ Hs). unfold t. lia. }
  destruct (locks s !! key) as [lq|] eqn:Hlq; unfold add_task in Hrun; simpl in Hrun.
  - destruct (ti_some _ Hs key lq Hlq) as [o Ho]. rewrite (lo_blocked _ _ _ _ Ho) in Hrun.
    simpl in Hrun. injection Hrun as <-.
    apply (tq_inv_update s key _ _ (Some _) Hs); [|done|].
    + intros key' Hne. by apply insert_task_other.
    + exists o. apply lock_ok_enqueue; [done..|apply (ti_next _ Hs)].
  - pose proof (ti_none _ Hs key Hlq) as Hfree.
    unfold send in Hrun. rewrite decide_True in Hrun
      by (unfold phase_of; by rewrite lookup_insert_eq).
    simpl in Hrun. injection Hrun as <-.
    apply (tq_inv_update s key _ _ (Some _) Hs).
    + intros key' Hne t' p. rewrite <- (insert_task_other (tasks s) t key key' Waiting) by done.
      apply (set_phase_other _ _ _ key _ Waiting); [apply lookup_insert_eq|done].
    + intros t' x. rewrite set_phase_lookup. case_decide; [subst; intros; lia|apply Hn].
    + exists t. by apply lock_ok_granted.
Qed.

(** a task of [key] keeps its lock's shape when only its phase changes *)
Lemma set_phase_next s t p t' x :
  tq_inv s -> set_phase t p (tasks s) !! t' = Some x -> t' < next_task s.
Proof.
  intros Hs. rewrite set_phase_lookup. case_decide; [|apply (ti_next _ Hs)].
  subst. intros (y & Hy & _)%fmap_Some. by apply (ti_next _ Hs) in Hy.
Qed.

Lemma active_locked s key t p :
  tq_inv s -> tasks s !! t = Some (mkTask key p) -> p = Waiting \/ owns p ->
  exists lq o, locks s !! key = Some lq /\ lock_ok (tasks s) key lq o.
Proof.
  intros Hs Ht Hp. destruct (locks s !! key) as [lq|] eqn:Hlq.
  - destruct (ti_some _ Hs _ _ Hlq) as [o Ho]. eauto.
  - exfalso. destruct (ti_none _ Hs _ Hlq _ _ Ht) as [-> | ->];
      destruct Hp as [|[|[|]]]; done.
Qed.

Lemma set_phase_inv s t key p q :
  tq_inv s -> tasks s !! t = Some (mkTask key p) ->
  (p = Waiting /\ q = Cancelled) \/ (owns p /\ owns q) ->
  tq_inv (mkParallelTaskQueue (locks s) (set_phase t q (tasks s)) (next_task s)).
Proof.
  intros Hs Ht Hpq.
  destruct (active_locked s key t p Hs Ht) as (lq & o & Hlq & Ho); [destruct Hpq as [[]|[]]; auto|].
  assert (locks s = partial_alter (fun _ => Some lq) key (locks s)) as ->.
  { apply map_eq. intros k. rewrite lookup_partial_alter. by case_decide; subst. }
  apply (tq_inv_update s key _ _ (Some lq) Hs).
  - intros key' Hne t' p'. by apply (set_phase_other _ _ _ key _ p).
  - intros t' x. by apply set_phase_next.
  - exists o. destruct Ho as [Hb (p0 & Ho & Hp0) Hu Hq Hw Hsort]. split; [done| | | | |done].
    + destruct (decide (t = o)) as [->|Hne].
      * rewrite Ht in Ho. simplify_eq. exists q. rewrite set_phase_lookup, decide_True, Ht by done.
        split; [done|]. destruct Hpq as [[-> _]|[_ ?]]; [|done]. by destruct Hp0 as [|[|]].
      * exists p0. by rewrite set_phase_lookup, decide_False.
    + intros t' p'. rewrite set_phase_lookup. case_decide; [|apply Hu]. subst. rewrite Ht. simpl.
      intros [= <-] Hown. destruct Hpq as [[_ ->]|[Hp _]]; [by destruct Hown as [|[|]]|].
      by apply (Hu t' p).
    + intros t' Hin. destruct (Hq t' Hin) as (p' & Ht' & Hp').
      destruct (decide (t = t')) as [->|Hne].
      * rewrite Ht in Ht'. simplify_eq. exists q.
        rewrite set_phase_lookup, decide_True, Ht by done. split; [done|].
        destruct Hpq as [[_ ->]|[Hp _]]; [by right|].
        destruct Hp' as [-> | ->]; by destruct Hp as [|[|]].
      * exists p'. by rewrite set_phase_lookup, decide_False.
    + intros t'. rewrite set_phase_lookup. case_decide; [|apply Hw]. subst. rewrite Ht. simpl.
      intros [= ->]. destruct Hpq as [[_ ?]|[_ Hq']]; [done|]. by destruct Hq' as [|[|]].
Qed.

Lemma drop_inv t key s s' :
  tq_inv s -> tasks s !! t = Some (mkTask key Holding) -> drop_guard t key s = Some s' -> tq_inv s'.
Proof.
  intros Hs Ht Hrun.
  destruct (active_locked s key t Holding Hs Ht) as (lq & o & Hlq & Ho);
    [right; unfold owns; auto|].
  assert (t = o) as <- by (apply (lo_unique _ _ _ _ Ho t Holding); unfold owns; auto).
  unfold drop_guard in Hrun. rewrite Hlq in Hrun. simpl in Hrun.
  pose proof (end_task_spec _ _ _ (released_after _ _ _ _ Ho Ht)) as Hend.
  destruct (end_task (queue lq) (set_phase t Done (tasks s))) as [lq' ts'].
  injection Hrun as <-. destruct Hend as [(Hb & -> & Hfree)|(o & Hw & -> & Hmin & Hlock)].
  - rewrite Hb. apply (tq_inv_update s key _ _ None Hs); [|by intros; eapply set_phase_next|done].
    intros key' Hne t' p. by apply (set_phase_other _ _ _ key _ Holding).
  - rewrite (lo_blocked _ _ _ _ Hlock). apply (tq_inv_update s key _ _ (Some lq') Hs).
    + intros key' Hne t' p. rewrite (set_phase_other _ _ _ key _ Waiting) by done.
      by apply (set_phase_other _ _ _ key _ Holding).
    + intros t' x. rewrite set_phase_lookup. case_decide; [|by apply set_phase_next].
      intros (y & Hy & _)%fmap_Some. by eapply set_phase_next.
    + by exists o.
Qed.

Lemma tq_step_inv s s' : tq_inv s -> tq_step s s' -> tq_inv s'.
Proof.
  intros Hs Hstep. destruct Hstep as [key s s' Hrun|t s s' Hrun|t key s s' Ht Hrun|t s s' Hrun].
  - by eapply acquire_inv.
  - unfold permit_received in Hrun. case_decide as Hp; [|done]. injection Hrun as <-.
    apply phase_of_Some in Hp as [key Ht]. eapply set_phase_inv; [done|done|].
    right. unfold owns. auto.
  - by eapply drop_inv.
  - unfold cancel in Hrun. destruct (phase_of (tasks s) t) as [p|] eqn:Hp; [|done].
    apply phase_of_Some in Hp as [key Ht].
    destruct p; simplify_eq; (eapply set_phase_inv; [done|done|]).
    + by left.
    + right. unfold owns. auto.
Qed.

Lemma reachable_tq_inv s : tq_reachable s -> tq_inv s.
Proof. induction 1; [|by eapply tq_step_inv]. by split. Qed.
End preservation.

(** ** Properties *)

(** C16: tasks of the same key are mutually exclusive: in every reachable state
    at most one of them has been granted the permit and not given it back. *)
Theorem mutual_exclusion s key t t' p p' :
  tq_reachable s -> tasks s !! t = Some (mkTask key p) -> tasks s !! t' = Some (mkTask key p') ->
  owns p -> owns p' -> t = t'.
Proof.
  intros Hs%reachable_tq_inv Ht Ht' Hp Hp'.
  destruct (active_locked s key t p Hs Ht) as (lq & o & _ & Ho); [by right|].
  by rewrite (lo_unique _ _ _ _ Ho t p), (lo_unique _ _ _ _ Ho t' p').
Qed.

Lemma drop_guard_outcome s t key :
  tq_reachable s -> tasks s !! t = Some (mkTask key Holding) ->
  exists s', drop_guard t key s = Some s' /\
    ((locks s' !! key = None /\ forall u, tasks s !! u <> Some (mkTask key Waiting)) \/
     (exists u, tasks s !! u = Some (mkTask key Waiting) /\
        tasks s' !! u = Some (mkTask key Granted) /\
        forall v, tasks s !! v = Some (mkTask key Waiting) -> u <= v)).
Proof.
  intros Hs%reachable_tq_inv Ht.
  destruct (active_locked s key t Holding Hs Ht) as (lq & o & Hlq & Ho);
    [right; unfold owns; auto|].
  assert (t = o) as <- by (apply (lo_unique _ _ _ _ Ho t Holding); unfold owns; auto).
  assert (forall u, tasks s !! u = Some (mkTask key Waiting) <->
    set_phase t Done (tasks s) !! u = Some (mkTask key Waiting)) as Hwait.
  { intros u. rewrite set_phase_lookup. case_decide; [subst; by rewrite Ht|done]. }
  unfold drop_guard. rewrite Hlq. simpl.
  pose proof (end_task_spec _ _ _ (released_after _ _ _ _ Ho Ht)) as Hend.
  destruct (end_task (queue lq) (set_phase t Done (tasks s))) as [lq' ts'].
  eexists. split; [done|]. destruct Hend as [(Hb & -> & Hfree)|(u & Hw & -> & Hmin & Hlock)]; simpl.
  - left. rewrite Hb. split; [apply lookup_delete_eq|]. intros u Hu%Hwait.
    by destruct (Hfree _ _ Hu).
  - right. exists u. split_and!; [by apply Hwait| |].
    + by rewrite set_phase_lookup, decide_True, Hw.
    + intros v Hv%Hwait. by apply Hmin.
Qed.

(** Dropping a guard never panics and wakes the tasks of its key in the
    order they asked: the permit goes to the earliest one still waiting, and
    when none is, the key's entry is removed from the queue. *)
Theorem drop_guard_fifo s t key :
  tq_reachable s -> tasks s !! t = Some (mkTask key Holding) ->
  exists s', drop_guard t key s = Some s' /\
    ((locks s' !! key = None /\ forall u, tasks s !! u <> Some (mkTask key Waiting)) \/
     (exists u, tasks s !! u = Some (mkTask key Waiting) /\
        tasks s' !! u = Some (mkTask key Granted) /\
        forall v, tasks s !! v = Some (mkTask key Waiting) -> u <= v)).
Proof. apply drop_guard_outcome. Qed.

(** a run of operations *)
Inductive TqOp : Type := OpAcquire (key : string) | OpReceived (t : nat) | OpDrop (t : nat) | OpCancel (t : nat).
Definition tq_run_op (op : TqOp) (s : ParallelTaskQueue) : option ParallelTaskQueue :=
  match op with
  | OpAcquire key => acquire_permit key s
  | OpReceived t => permit_received t s
  | OpDrop t =>
      x ← tasks s !! t;
      if decide (task_phase x = Holding) then drop_guard t (task_key x) s else None
  | OpCancel t => cancel t s
  end.
Fixpoint tq_run (ops : list TqOp) (s : ParallelTaskQueue) : option ParallelTaskQueue :=
  match ops with [] => Some s | op :: ops' => s' ← tq_run_op op s; tq_run ops' s' end.

Lemma tq_run_reachable ops s s' : tq_reachable s -> tq_run ops s = Some s' -> tq_reachable s'.
Proof.
  revert s. induction ops as [|op ops IH]; intros s Hs Hrun; simpl in Hrun; [by simplify_eq|].
  destruct (tq_run_op op s) as [s1|] eqn:Hop; [|done]. simpl in Hrun.
  apply (IH s1); [|done]. apply (tq_next s); [done|]. destruct op as [key|t|t|t]; simpl in Hop.
  - by apply (tq_acquire key).
  - by apply (tq_received t).
  - destruct (tasks s !! t) as [[key p]|] eqn:Ht; [|done]. simpl in Hop.
    case_decide; [|done]. simplify_eq. by apply (tq_drop t key).
  - by apply (tq_cancel t).
Qed.

(** *** Who waits, and how long *)

Lemma end_task_waiting q ts u key :
  (end_task q ts).2 !! u = Some (mkTask key Waiting) -> ts !! u = Some (mkTask key Waiting).
Proof.
  revert ts. induction q as [|v q IH]; intros ts; simpl; [done|].
  unfold send. case_decide; simpl; [|apply IH]. rewrite set_phase_lookup. case_decide; [|done].
  by destruct (ts !! u).
Qed.

(** only a new task begins to wait *)
Lemma waiting_before op s s' u key :
  tq_run_op op s = Some s' -> u < next_task s -> tasks s' !! u = Some (mkTask key Waiting) ->
  tasks s !! u = Some (mkTask key Waiting).
Proof.
  intros Hop Hu. destruct op as [k|v|v|v]; simpl in Hop.
  - unfold acquire_permit, add_task, send in Hop.
    destruct (is_blocked _); simpl in Hop; [|case_decide; simpl in Hop; [|done]]; injection Hop as <-; simpl;
      rewrite ?set_phase_lookup, ?decide_False, lookup_insert_ne by lia; done.
  - unfold permit_received in Hop. case_decide; [|done]. injection Hop as <-. simpl.
    rewrite set_phase_lookup. case_decide; [by destruct (tasks s !! u)|done].
  - destruct (tasks s !! v) as [x|] eqn:Hv; simpl in Hop; [|done]. case_decide; [|done].
    unfold drop_guard in Hop. destruct (locks s !! task_key x) as [lq|]; simpl in Hop; [|done].
    pose proof (end_task_waiting (queue lq) (set_phase v Done (tasks s)) u key) as Hend.
    destruct (end_task _ _) as [lq' ts']. injection Hop as <-. simpl in *. intros Hw%Hend.
    rewrite set_phase_lookup in Hw. case_decide; [|done]. subst. by rewrite Hv in Hw.
  - unfold cancel in Hop. destruct (phase_of (tasks s) v) as [[]|]; try done; injection Hop as <-; simpl;
      rewrite set_phase_lookup; (case_decide; [by destruct (tasks s !! u)|done]).
Qed.

Lemma next_task_grows op s s' : tq_run_op op s = Some s' -> next_task s <= next_task s'.
Proof.
  destruct op as [k|v|v|v]; simpl; unfold acquire_permit, permit_received, drop_guard, cancel.
  - destruct (add_task _ _ _) as [[lq ts]|]; simpl; [|done]. intros [= <-]. simpl. lia.
  - case_decide; [|done]. by intros [= <-].
  - destruct (tasks s !! v) as [x|]; simpl; [|done]. case_decide; [|done].
    destruct (locks s !! task_key x) as [lq|]; simpl; [|done]. destruct (end_task _ _). by intros [= <-].
  - destruct (phase_of (tasks s) v) as [[]|]; try done; by intros [= <-].
Qed.

(** the tasks that wait for the key and asked before [t] *)
Definition ahead s key t : nat := length (filter (fun u => tasks s !! u = Some (mkTask key Waiting)) (seq 0 t)).
(** the guards of the key that a run drops *)
Definition drops_key (op : TqOp) s key : nat :=
  match op with
  | OpDrop u => if decide (task_key <$> tasks s !! u = Some key) then 1 else 0
  | _ => 0
  end.
Fixpoint drops (ops : list TqOp) s key : nat :=
  match ops with
  | [] => 0
  | op :: ops' => drops_key op s key + match tq_run_op op s with Some s' => drops ops' s' key | None => 0 end
  end.

Lemma filter_length_le (P Q : nat -> Prop) `{!forall x, Decision (P x), !forall x, Decision (Q x)} (l : list nat) :
  (forall u, u ∈ l -> P u -> Q u) -> length (filter P l) <= length (filter Q l).
Proof.
  induction l as [|u l IH]; intros Hl; [done|]. rewrite !filter_cons.
  assert (length (filter P l) <= length (filter Q l)) by (apply IH; intros; apply Hl; [by right|done]).
  case_decide as HP; case_decide as HQ; simpl; try lia. by destruct HQ; apply Hl; [left|].
Qed.

Lemma ahead_mono s s' key t :
  (forall u, u < t -> tasks s' !! u = Some (mkTask key Waiting) -> tasks s !! u = Some (mkTask key Waiting)) ->
  ahead s' key t <= ahead s key t.
Proof. intros Hsub. apply filter_length_le. intros u Hu%elem_of_seq. apply Hsub. lia. Qed.

Lemma ahead_less s s' key t v :
  (forall u, u < t -> tasks s' !! u = Some (mkTask key Waiting) -> tasks s !! u = Some (mkTask key Waiting)) ->
  v < t -> tasks s !! v = Some (mkTask key Waiting) -> tasks s' !! v <> Some (mkTask key Waiting) ->
  ahead s' key t < ahead s key t.
Proof.
  intros Hsub Hv Hs Hs'.
  assert (forall a n, a + n <= t -> length (filter (fun u => tasks s' !! u = Some (mkTask key Waiting)) (seq a n)) <=
    length (filter (fun u => tasks s !! u = Some (mkTask key Waiting)) (seq a n))) as Hle.
  { intros a n Hn. apply filter_length_le. intros u Hu%elem_of_seq. apply Hsub. lia. }
  unfold ahead. replace t with (v + S (t - S v)) by lia. rewrite seq_app, !filter_app, !length_app. simpl.
  rewrite !filter_cons, decide_False, decide_True by done. simpl.
  pose proof (Hle 0 v). pose proof (Hle (S v) (t - S v)). lia.
Qed.

(** one operation while [t] waits: nobody overtakes it, and a dropped guard brings it forward *)
Lemma ahead_step op s s' key t :
  tq_reachable s -> tq_run_op op s = Some s' -> tasks s !! t = Some (mkTask key Waiting) ->
  tasks s' !! t = Some (mkTask key Waiting) -> drops_key op s key + ahead s' key t <= ahead s key t.
Proof.
  intros Hs Hop Ht Ht'. pose proof (ti_next _ (reachable_tq_inv _ Hs) _ _ Ht) as Hlt.
  assert (forall u, u < t -> tasks s' !! u = Some (mkTask key Waiting) -> tasks s !! u = Some (mkTask key Waiting)) as Hsub
    by (intros u Hu; apply (waiting_before op); [done|lia]).
  destruct op as [k|v|v|v]; simpl; try (by apply ahead_mono). case_decide as Hk; [|by apply ahead_mono].
  simpl in Hop. destruct (tasks s !! v) as [[k p]|] eqn:Hv; simpl in *; [|done]. injection Hk as ->.
  case_decide as Hp; [|done]. subst p. destruct (drop_guard_outcome s v key Hs Hv) as (s2 & Hdrop & Hcases).
  rewrite Hop in Hdrop. injection Hdrop as <-.
  destruct Hcases as [[_ Hnone]|(u & Hu & Hu' & Hmin)]; [by destruct (Hnone t)|].
  enough (ahead s' key t < ahead s key t) by lia. apply (ahead_less s s' key t u); [done| |done|by rewrite Hu'].
  specialize (Hmin t Ht). destruct (decide (u = t)) as [->|]; [congruence|lia].
Qed.

Lemma ahead_run ops s s' key t :
  tq_reachable s -> tasks s !! t = Some (mkTask key Waiting) -> tq_run ops s = Some s' ->
  tasks s' !! t = Some (mkTask key Waiting) -> drops ops s key + ahead s' key t <= ahead s key t.
Proof.
  revert s. induction ops as [|op ops IH]; intros s Hs Ht Hrun Ht'; simpl in *; [injection Hrun as ->; lia|].
  destruct (tq_run_op op s) as [s1|] eqn:Hop; simpl in Hrun; [|done].
  pose proof (ti_next _ (reachable_tq_inv _ Hs) _ _ Ht) as Hlt.
  assert (tq_reachable s1) as Hs1 by (apply (tq_run_reachable [op] s); [done|]; simpl; by rewrite Hop).
  assert (tasks s1 !! t = Some (mkTask key Waiting)) as Ht1.
  { assert (t < next_task s1) as Hlt1 by (pose proof (next_task_grows op s s1 Hop); lia).
    clear IH Hop Hs1. revert s1 Hrun Hlt1. induction ops as [|op' ops IH]; intros s1 Hrun Hlt1; simpl in Hrun; [by injection Hrun as ->|].
    destruct (tq_run_op op' s1) as [s2|] eqn:Hop'; simpl in Hrun; [|done].
    apply (waiting_before op' s1 s2); [done|done|]. apply IH; [done|].
    pose proof (next_task_grows op' s1 s2 Hop'). lia. }
  pose proof (ahead_step op s s1 key t Hs Hop Ht Ht1). pose proof (IH s1 Hs1 Ht1 Hrun Ht'). lia.
Qed.

(** whom [t] waits for: the task that was granted the permit takes it; the one that
    holds it can give it back, which grants it to [t] when [t] is first; or the
    permit was lost, its future dropped after the grant *)
Definition waits_for s key t : Prop :=
  exists o p, tasks s !! o = Some (mkTask key p) /\
    (p = Granted /\ is_Some (permit_received o s) \/
     p = Holding /\ (exists s', drop_guard o key s = Some s' /\
       (ahead s key t = 0 -> tasks s' !! t = Some (mkTask key Granted))) \/
     p = Lost).

Lemma waiting_waits_for s key t : tq_reachable s -> tasks s !! t = Some (mkTask key Waiting) -> waits_for s key t.
Proof.
  intros Hs Ht. destruct (active_locked s key t Waiting (reachable_tq_inv _ Hs) Ht) as (lq & o & _ & Ho); [by left|].
  destruct (lo_owner _ _ _ _ Ho) as (p & Hp & Hown). exists o, p. split; [done|]. destruct Hown as [->|[->| ->]].
  - left. split; [done|]. unfold permit_received. rewrite decide_True; [by eexists|].
    apply phase_of_Some. by exists key.
  - right. left. split; [done|]. destruct (drop_guard_outcome s o key Hs Hp) as (s' & Hdrop & Hcases).
    exists s'. split; [done|]. intros Hahead.
    destruct Hcases as [[_ Hnone]|(u & Hu & Hu' & Hmin)]; [by destruct (Hnone t)|].
    specialize (Hmin t Ht). destruct (decide (u = t)) as [->|Hne]; [done|exfalso].
    unfold ahead in Hahead. apply length_zero_iff_nil in Hahead.
    apply (not_elem_of_nil u). rewrite <- Hahead. apply list_elem_of_filter. split; [done|].
    apply elem_of_seq. lia.
  - by right; right.
Qed.

(** C17: waiting is bounded and fair, and no entry leaks.  A task that waits for a
    key gets the permit before any task that asks later: as long as it waits, at
    most as many guards of the key are dropped as tasks were waiting before it.
    All the while there is one task it waits for: one that has been granted the
    permit and can take it, or one that holds it and can give it back, to this
    task when it is the first.  The exception is a permit that was lost, when a
    future was dropped between the grant and its return ([lost_permit_blocks]).
    A key whose tasks are all done or cancelled while waiting has no entry. *)
Theorem waiting_is_served s key :
  tq_reachable s ->
  (forall t ops s', tasks s !! t = Some (mkTask key Waiting) -> tq_run ops s = Some s' ->
     tasks s' !! t = Some (mkTask key Waiting) ->
     drops ops s key + ahead s' key t <= ahead s key t /\ waits_for s' key t) /\
  ((forall t p, tasks s !! t = Some (mkTask key p) -> p = Done \/ p = Cancelled) ->
     locks s !! key = None).
Proof.
  intros Hs. split.
  - intros t ops s' Ht Hrun Ht'. split; [by apply ahead_run|].
    apply waiting_waits_for; [by eapply tq_run_reachable|done].
  - intros Hfree. apply reachable_tq_inv in Hs. destruct (locks s !! key) as [lq|] eqn:Hlq; [|done]. exfalso.
    destruct (ti_some _ Hs _ _ Hlq) as [o Ho].
    destruct (lo_owner _ _ _ _ Ho) as (p & Hp & Hown).
    destruct (Hfree _ _ Hp) as [-> | ->]; by destruct Hown as [|[|]].
Qed.

(** task 0 holds ["A"], tasks 1 and 2 wait for it *)
Definition demo_queue : ParallelTaskQueue :=
  default task_queue_new
    (tq_run [OpAcquire "A"; OpAcquire "A"; OpReceived 0; OpAcquire "A"; OpAcquire "B"] task_queue_new).
Lemma demo_queue_reachable : tq_reachable demo_queue.
Proof.
  apply (tq_run_reachable [OpAcquire "A"; OpAcquire "A"; OpReceived 0; OpAcquire "A"; OpAcquire "B"]
    task_queue_new); [apply tq_new|reflexivity].
Qed.

Lemma mutual_exclusion_witness : 0 = 0.
Proof.
  apply (mutual_exclusion demo_queue "A" 0 0 Holding Holding);
    [apply demo_queue_reachable|reflexivity|reflexivity|unfold owns; auto..].
Defined.

Lemma drop_guard_fifo_witness :
  exists s', drop_guard 0 "A" demo_queue = Some s' /\
    ((locks s' !! "A" = None /\ forall u, tasks demo_queue !! u <> Some (mkTask "A" Waiting)) \/
     (exists u, tasks demo_queue !! u = Some (mkTask "A" Waiting) /\
        tasks s' !! u = Some (mkTask "A" Granted) /\
        forall v, tasks demo_queue !! v = Some (mkTask "A" Waiting) -> u <= v)).
Proof. apply (drop_guard_fifo demo_queue 0 "A"); [apply demo_queue_reachable|reflexivity]. Defined.

(** task 2 waits while task 0 drops its guard, task 1 takes the permit and drops it too *)
Lemma waiting_is_served_witness :
  (forall t ops s', tasks demo_queue !! t = Some (mkTask "A" Waiting) -> tq_run ops demo_queue = Some s' ->
     tasks s' !! t = Some (mkTask "A" Waiting) ->
     drops ops demo_queue "A" + ahead s' "A" t <= ahead demo_queue "A" t /\ waits_for s' "A" t) /\
  ((forall t p, tasks demo_queue !! t = Some (mkTask "A" p) -> p = Done \/ p = Cancelled) ->
     locks demo_queue !! "A" = None).
Proof. apply (waiting_is_served demo_queue "A"). apply demo_queue_reachable. Defined.
Definition demo_served (ops : list TqOp) : ParallelTaskQueue := default task_queue_new (tq_run ops demo_queue).
Example demo_turns :
  ahead demo_queue "A" 2 = 1 /\ drops [OpDrop 0; OpReceived 1] demo_queue "A" = 1 /\
  ahead (demo_served [OpDrop 0; OpReceived 1]) "A" 2 = 0 /\
  phase_of (tasks (demo_served [OpDrop 0; OpReceived 1])) 2 = Some Waiting /\
  phase_of (tasks (demo_served [OpDrop 0; OpReceived 1; OpDrop 1])) 2 = Some Granted.
Proof. by vm_compute. Qed.

(** ** A lost permit *)

Lemma end_task_keeps q ts t x :
  ts !! t = Some x -> task_phase x <> Waiting -> (end_task q ts).2 !! t = Some x.
Proof.
  intros Ht Hx. revert ts Ht. induction q as [|u q IH]; intros ts Ht; simpl; [done|].
  unfold send. case_decide as Hu; simpl; [|by apply IH].
  rewrite set_phase_lookup. case_decide; [subst|done].
  unfold phase_of in Hu. rewrite Ht in Hu. simpl in Hu. congruence.
Qed.

Lemma lost_step s s' t key :
  tq_inv s -> tq_step s s' -> tasks s !! t = Some (mkTask key Lost) ->
  tasks s' !! t = Some (mkTask key Lost).
Proof.
  intros Hs Hstep Ht.
  assert (forall u p q key', tasks s !! u = Some (mkTask key' p) -> p <> Lost ->
    set_phase u q (tasks s) !! t = Some (mkTask key Lost)) as Hset.
  { intros u p q key' Hu Hp. rewrite set_phase_lookup. case_decide; [subst; congruence|done]. }
  destruct Hstep as [k s s' Hrun|u s s' Hrun|u k s s' Hu Hrun|u s s' Hrun].
  - unfold acquire_permit, add_task in Hrun.
    assert (next_task s <> t) as Hne by (intros <-; by rewrite next_task_fresh in Ht).
    destruct (is_blocked _); simpl in Hrun; [injection Hrun as <-; simpl; by rewrite lookup_insert_ne|].
    unfold send in Hrun. case_decide; [|done]. injection Hrun as <-. simpl.
    rewrite set_phase_lookup, decide_False by done. by rewrite lookup_insert_ne.
  - unfold permit_received in Hrun. case_decide as Hp; [|done]. injection Hrun as <-.
    apply phase_of_Some in Hp as [k Hu]. by eapply Hset.
  - unfold drop_guard in Hrun. destruct (locks s !! k) as [lq|]; [simpl in Hrun|done].
    pose proof (end_task_keeps (queue lq) (set_phase u Done (tasks s)) t (mkTask key Lost)) as Hend.
    destruct (end_task (queue lq) (set_phase u Done (tasks s))) as [lq' ts'].
    injection Hrun as <-. simpl. apply Hend; [by eapply Hset|done].
  - unfold cancel in Hrun. destruct (phase_of (tasks s) u) as [p|] eqn:Hp; [|done].
    apply phase_of_Some in Hp as [k Hu]. destruct p; simplify_eq; by eapply Hset.
Qed.

(** A task that is dropped between being granted the permit and receiving
    its guard blocks its key for good: whatever happens afterwards, no other
    task of the key is ever granted the permit. *)
Theorem lost_permit_blocks s s' t u key p :
  tq_reachable s -> tasks s !! t = Some (mkTask key Lost) -> rtc tq_step s s' ->
  tasks s' !! u = Some (mkTask key p) -> u <> t -> ~ owns p.
Proof.
  intros Hs%reachable_tq_inv Ht Hsteps Hu Hne Hown.
  assert (tq_inv s' /\ tasks s' !! t = Some (mkTask key Lost)) as [Hs' Ht'].
  { clear Hu. induction Hsteps as [|s1 s2 s3 Hstep _ IH]; [done|].
    apply IH; [by eapply tq_step_inv|by eapply lost_step]. }
  destruct (active_locked s' key u p Hs' Hu) as (lq & o & _ & Ho); [by right|].
  apply Hne. rewrite (lo_unique _ _ _ _ Ho u p Hu Hown).
  symmetry. apply (lo_unique _ _ _ _ Ho t Lost Ht'). unfold owns. auto.
Qed.

Definition demo_lost : ParallelTaskQueue :=
  default task_queue_new (tq_run [OpAcquire "A"; OpAcquire "A"; OpCancel 0] task_queue_new).
Lemma lost_permit_blocks_witness : ~ owns Waiting.
Proof.
  apply (lost_permit_blocks demo_lost demo_lost 0 1 "A" Waiting);
    [apply (tq_run_reachable [OpAcquire "A"; OpAcquire "A"; OpCancel 0] task_queue_new);
       [apply tq_new|reflexivity]
    |reflexivity|apply rtc_refl|reflexivity|discriminate].
Defined.
