(* ===== verification/AckQueue.v ===== *)
(** [KafkaAckQueue] of [crates/utils/src/messaging_system/kafka_ack_queue.rs]:
    messages are processed in parallel and acknowledged in any order, while a
    Kafka consumer can only store one offset per partition. *)
From stdpp Require Import prelude gmap strings list sorting.
From S2P Require Import Prelude.

#[local] Open Scope Z_scope.

(** ** Machine integers *)

(** the value of an [i64] after wrap-around, and [i32 as usize] *)
Definition i64_wrap (z : Z) : Z := (z + 2 ^ 63) mod 2 ^ 64 - 2 ^ 63.
Definition i32_as_usize (z : Z) : Z := z mod 2 ^ 64.

Definition is_offset (z : Z) : Prop := 0 <= z < 2 ^ 63.
Definition is_partition (z : Z) : Prop := 0 <= z < 2 ^ 31.

(** the parts of a [BorrowedMessage] the queue reads *)
Record KafkaMsg : Type := mkKafkaMsg { km_topic : string; km_partition : Z; km_offset : Z }.

(** ** One partition *)

Record KafkaPartitionAckQueue : Type := mkPartitionQueue {
  waiting_list : list Z;
  pq_topic : string;
  pq_partition : Z;
  last_offset : Z;
}.

Definition partition_queue_new (topic : string) (partition : Z) : KafkaPartitionAckQueue :=
  mkPartitionQueue [] topic partition 0.

Definition partition_add (message : KafkaMsg) (q : KafkaPartitionAckQueue) : KafkaPartitionAckQueue :=
  let offset := km_offset message in
  mkPartitionQueue (waiting_list q ++ [offset]) (pq_topic q) (pq_partition q) offset.

(** the [LinkedList] cursor: an index, or the length of the list at the ghost
    position past the end, from which it wraps to the front *)
Definition move_next {A} (l : list A) (i : nat) : nat :=
  if decide (i < length l)%nat then S i else 0%nat.

(** the search loop; [None]: it has not ended within the fuel *)
Fixpoint cursor_find (fuel : nat) (l : list Z) (offset : Z) (i : nat) : option nat :=
  match fuel with
  | O => None
  | S fuel =>
      let i := move_next l i in
      if decide (l !! i = Some offset) then Some i else cursor_find fuel l offset i
  end.

(** how [ack] can fail to return: [unwrap] on the front of an empty list, the
    endless search for an offset that is not there, [unwrap] on [store_offsets] *)
Inductive AckFailure : Type := EmptyList | EndlessLoop | StoreFailed (e : string).

(** [KafkaPartitionAckQueue::ack]: the new queue, and the offset to store *)
Definition partition_ack (message : KafkaMsg) (q : KafkaPartitionAckQueue) :
    result AckFailure (KafkaPartitionAckQueue * option Z) :=
  let offset := km_offset message in
  match waiting_list q with
  | [] => Err EmptyList
  | front :: rest =>
      if decide (front = offset) then
        let stored :=
          match rest with
          | [] => Z.max (last_offset q) offset
          | front' :: _ => i64_wrap (front' - 1)
          end in
        Ok (mkPartitionQueue rest (pq_topic q) (pq_partition q) (last_offset q), Some stored)
      else
        match cursor_find (2 + length (waiting_list q)) (waiting_list q) offset 0 with
        | Some i => Ok (mkPartitionQueue (delete i (waiting_list q)) (pq_topic q) (pq_partition q)
                          (last_offset q), None)
        | None => Err EndlessLoop
        end
  end.

(** ** All partitions *)

Abbreviation KafkaAckQueue := (gmap Z KafkaPartitionAckQueue) (only parsing).

Definition ack_queue_add (message : KafkaMsg) (queue : KafkaAckQueue) : KafkaAckQueue :=
  let partition := i32_as_usize (km_partition message) in
  let partition_queue :=
    default (partition_queue_new (km_topic message) (km_partition message)) (queue !! partition) in
  <[partition := partition_add message partition_queue]> queue.

Section ack.
(** [store_offsets] of the Kafka consumer *)
Context {C : Type} (store_offset : string -> Z -> Z -> M C string ()).

(** the queue and the consumer; [EmptyList] also stands for the [unwrap] on a
    partition that has no queue *)
Definition ack_queue_ack (message : KafkaMsg) : M (KafkaAckQueue * C) AckFailure () := fun s =>
  let partition := i32_as_usize (km_partition message) in
  match s.1 !! partition with
  | None => (s, Err EmptyList)
  | Some q =>
      match partition_ack message q with
      | Err e => (s, Err e)
      | Ok (q', None) => ((<[partition := q']> s.1, s.2), Ok ())
      | Ok (q', Some offset) =>
          let '(c, r) := store_offset (pq_topic q') (pq_partition q') offset s.2 in
          ((<[partition := q']> s.1, c), map_err StoreFailed r)
      end
  end.
End ack.

(** a consumer that keeps the stored offset of every partition *)
Definition store_in_map (topic : string) (partition offset : Z) : M (gmap Z Z) string () :=
  fun c => (<[partition := offset]> c, Ok ()).

(** ** The search loop *)

Section cursor.
Implicit Types (l : list Z) (offset : Z) (i : nat).

(** from a position, the elements ahead and the wrap to the front *)
Lemma cursor_find_sound fuel l offset i j :
  cursor_find fuel l offset i = Some j -> l !! j = Some offset.
Proof.
  revert i. induction fuel as [|fuel IH]; intros i; [done|]. simpl.
  case_decide; [by intros [= <-]|apply IH].
Qed.

Lemma cursor_find_ahead fuel l offset i j :
  (i < j)%nat -> l !! j = Some offset -> (j - i <= fuel)%nat ->
  exists k, cursor_find fuel l offset i = Some k.
Proof.
  revert i. induction fuel as [|fuel IH]; intros i Hij Hj Hfuel; [lia|]. simpl.
  apply lookup_lt_Some in Hj as Hlen. unfold move_next.
  rewrite (decide_True (P := (i < length l)%nat)) by lia.
  case_decide as Hi; [by eexists|]. destruct (decide (S i = j)) as [<-|]; [done|].
  apply IH; [lia|done|lia].
Qed.

(** an offset of the list that is not its front is found within the fuel *)
Lemma cursor_find_total l offset front :
  offset ∈ front :: l -> offset <> front ->
  exists i, cursor_find (2 + length (front :: l)) (front :: l) offset 0 = Some (S i) /\
    l !! i = Some offset.
Proof.
  intros Hin Hne. apply elem_of_cons in Hin as [|[j Hj]%list_elem_of_lookup]; [done|].
  destruct (cursor_find_ahead (2 + length (front :: l)) (front :: l) offset 0 (S j))
    as [k Hk]; [lia|done|apply lookup_lt_Some in Hj; simpl; lia|].
  apply cursor_find_sound in Hk as Hk'. destruct k as [|k]; [simpl in Hk'; congruence|]. by exists k.
Qed.

(** an offset that is not there is never found *)
Lemma cursor_find_endless fuel l offset i : offset ∉ l -> cursor_find fuel l offset i = None.
Proof.
  intros Hin. destruct (cursor_find fuel l offset i) as [j|] eqn:Hj; [|done].
  apply cursor_find_sound, list_elem_of_lookup_2 in Hj. done.
Qed.
End cursor.

(** ** Histories of one consumer *)

(** the queue, the stored offsets, and what was delivered and acknowledged *)
Record AckTrace : Type := mkAckTrace {
  at_queue : KafkaAckQueue;
  at_stored : gmap Z Z;
  at_delivered : list (Z * Z);
  at_acked : list (Z * Z);
}.
Definition ack_trace_new : AckTrace := mkAckTrace ∅ ∅ [] [].

(** Kafka delivers the messages of a partition with growing offsets; every
    delivered message is acknowledged at most once. *)
Inductive ack_step (t : AckTrace) : AckTrace -> Prop :=
| ack_deliver m :
    is_partition (km_partition m) -> is_offset (km_offset m) ->
    (forall o, (km_partition m, o) ∈ at_delivered t -> o < km_offset m) ->
    ack_step t (mkAckTrace (ack_queue_add m (at_queue t)) (at_stored t)
      (at_delivered t ++ [(km_partition m, km_offset m)]) (at_acked t))
| ack_acknowledge m q c :
    (km_partition m, km_offset m) ∈ at_delivered t ->
    (km_partition m, km_offset m) ∉ at_acked t ->
    ack_queue_ack store_in_map m (at_queue t, at_stored t) = ((q, c), Ok ()) ->
    ack_step t (mkAckTrace q c (at_delivered t) ((km_partition m, km_offset m) :: at_acked t)).

Inductive ack_reachable : AckTrace -> Prop :=
| ack_new : ack_reachable ack_trace_new
| ack_next t t' : ack_reachable t -> ack_step t t' -> ack_reachable t'.

(** ** Invariant *)

(** one partition: exactly the unacknowledged messages are waiting, in order *)
Record partition_ok (t : AckTrace) (p : Z) (q : KafkaPartitionAckQueue) : Prop := {
  po_partition : pq_partition q = p;
  po_range : is_partition p;
  po_waiting o : o ∈ waiting_list q <-> (p, o) ∈ at_delivered t /\ (p, o) ∉ at_acked t;
  po_sorted : StronglySorted Z.lt (waiting_list q);
  po_last : (p, last_offset q) ∈ at_delivered t /\
    forall o, (p, o) ∈ at_delivered t -> o <= last_offset q;
  po_offsets o : (p, o) ∈ at_delivered t -> is_offset o;
  po_stored s : at_stored t !! p = Some s -> forall o, o ∈ waiting_list q -> s < o;
  po_stored_last s : at_stored t !! p = Some s -> s <= last_offset q;
  po_stored_acked s : at_stored t !! p = Some s -> exists o, (p, o) ∈ at_acked t /\ o <= s;
  po_caught_up : waiting_list q = [] -> at_stored t !! p = Some (last_offset q);
}.

Record ack_inv (t : AckTrace) : Prop := {
  ai_some k q : at_queue t !! k = Some q -> exists p, k = i32_as_usize p /\ partition_ok t p q;
  ai_none p : is_partition p -> at_queue t !! i32_as_usize p = None ->
    (forall o, (p, o) ∉ at_delivered t) /\ at_stored t !! p = None;
  ai_delivered p o : (p, o) ∈ at_delivered t -> is_partition p;
  ai_acked m : m ∈ at_acked t -> m ∈ at_delivered t;
}.

Lemma usize_partition p : is_partition p -> i32_as_usize p = p.
Proof. unfold is_partition, i32_as_usize. intros. apply Z.mod_small. lia. Qed.

Lemma i64_wrap_small z : - 2 ^ 63 <= z < 2 ^ 63 -> i64_wrap z = z.
Proof. unfold i64_wrap. intros. rewrite Z.mod_small; lia. Qed.

Section invariant.
Implicit Types (t : AckTrace) (p o : Z) (q : KafkaPartitionAckQueue).

(** what happens to one partition is not seen by the others *)
Lemma partition_ok_other t t' p q :
  (forall o, (p, o) ∈ at_delivered t' <-> (p, o) ∈ at_delivered t) ->
  (forall o, (p, o) ∈ at_acked t' <-> (p, o) ∈ at_acked t) ->
  at_stored t' !! p = at_stored t !! p ->
  partition_ok t p q -> partition_ok t' p q.
Proof.
  intros Hd Ha Hst [Hp Hr Hw Hs [Hl1 Hl2] Ho Hsto Hsl Hsa Hc]. split; rewrite ?Hst; try done.
  - intros o. by rewrite Hd, Ha.
  - rewrite Hd. split; [done|]. intros o. rewrite Hd. apply Hl2.
  - intros o. rewrite Hd. apply Ho.
  - intros s (o & Hin & Hle)%Hsa. exists o. by rewrite Ha.
Qed.

(** a queue before its next message: in use, or just created *)
Definition partition_ready t p q : Prop :=
  partition_ok t p q \/
  (waiting_list q = [] /\ pq_partition q = p /\ (forall o, (p, o) ∉ at_delivered t) /\
   at_stored t !! p = None).

Lemma deliver_ok t m q :
  partition_ready t (km_partition m) q -> is_partition (km_partition m) ->
  is_offset (km_offset m) -> (forall m', m' ∈ at_acked t -> m' ∈ at_delivered t) ->
  (forall o, (km_partition m, o) ∈ at_delivered t -> o < km_offset m) ->
  partition_ok (mkAckTrace (ack_queue_add m (at_queue t)) (at_stored t)
    (at_delivered t ++ [(km_partition m, km_offset m)]) (at_acked t)) (km_partition m)
    (partition_add m q).
Proof.
  intros Hq Hr Hoff Hacked Hnew.
  assert (pq_partition q = km_partition m /\
    (forall o, o ∈ waiting_list q <->
       (km_partition m, o) ∈ at_delivered t /\ (km_partition m, o) ∉ at_acked t) /\
    StronglySorted Z.lt (waiting_list q) /\
    (forall o, (km_partition m, o) ∈ at_delivered t -> is_offset o) /\
    (forall s, at_stored t !! km_partition m = Some s ->
       s < km_offset m /\ (forall o, o ∈ waiting_list q -> s < o) /\
       exists o, (km_partition m, o) ∈ at_acked t /\ o <= s)) as (Hp & Hw & Hs & Ho & Hst).
  { destruct Hq as [[Hp _ Hw Hs [Hl1 Hl2] Ho Hsto Hsl Hsa _]|(Hw & Hp & Hd & Hst)].
    - split_and!; [done..|]. intros s Hss. split_and!; [|by apply Hsto|by apply Hsa].
      apply Hsl in Hss. apply Hnew in Hl1. lia.
    - rewrite Hw. split_and!; [done| |constructor| |].
      + intros o. split; [by intros ?%not_elem_of_nil|by intros [?%Hd _]].
      + by intros o ?%Hd.
      + intros s. by rewrite Hst. }
  split; simpl; try done.
  - intros o. rewrite !elem_of_app, !list_elem_of_singleton, Hw. split.
    + intros [[? ?]| ->]; [by auto|]. split; [by right|]. intros Ha%Hacked%Hnew. lia.
    + intros [[?|[= ->]] ?]; auto.
  - apply StronglySorted_app_2; [|done|repeat constructor].
    intros x y [Hx _]%Hw ->%list_elem_of_singleton. by apply Hnew.
  - split; [set_solver|].
    intros o [Ho'%Hnew|[= ->]%list_elem_of_singleton]%elem_of_app; simpl; lia.
  - by intros o [?%Ho|[= ->]%list_elem_of_singleton]%elem_of_app.
  - intros s [Hlt [Hall _]]%Hst o [Hin| ->%list_elem_of_singleton]%elem_of_app; [by apply Hall|done].
  - intros s [Hlt _]%Hst. lia.
  - by intros s (_ & _ & ?)%Hst.
  - by intros []%app_nil.
Qed.

(** the entries of a strictly sorted list without one of them *)
Lemma sorted_without (l1 l2 : list Z) x o :
  StronglySorted Z.lt (l1 ++ x :: l2) -> o ∈ l1 ++ l2 <-> o ∈ l1 ++ x :: l2 /\ o <> x.
Proof.
  intros (Hlr & Hl & [_ Hall]%StronglySorted_inv)%StronglySorted_app.
  rewrite Forall_forall in Hall. rewrite !elem_of_app, elem_of_cons. split.
  - intros [Ho|Ho]; (split; [by auto|]).
    + intros ->. assert (x < x) by (apply Hlr; set_solver). lia.
    + intros ->. apply Hall in Ho. lia.
  - naive_solver.
Qed.

Lemma sorted_removed (l1 l2 : list Z) x :
  StronglySorted Z.lt (l1 ++ x :: l2) -> StronglySorted Z.lt (l1 ++ l2).
Proof.
  intros (Hlr & Hl & [Hr _]%StronglySorted_inv)%StronglySorted_app.
  apply StronglySorted_app_2; [|done..]. intros y z Hy Hz. apply Hlr; [done|set_solver].
Qed.

(** a partition once its waiting message [o] is acknowledged, with the offset
    [st] to be stored *)
Lemma acknowledged_ok t p q o l st :
  partition_ok t p q -> o ∈ waiting_list q -> StronglySorted Z.lt l ->
  (forall x, x ∈ l <-> x ∈ waiting_list q /\ x <> o) ->
  match st with
  | Some s => o <= s <= last_offset q /\ (forall x, x ∈ l -> s < x) /\ (l = [] -> s = last_offset q)
  | None => l <> []
  end ->
  partition_ok (mkAckTrace (at_queue t)
      match st with Some s => <[p := s]> (at_stored t) | None => at_stored t end
      (at_delivered t) ((p, o) :: at_acked t)) p
    (mkPartitionQueue l (pq_topic q) (pq_partition q) (last_offset q)).
Proof.
  intros [Hp Hr Hw Hs Hl Ho Hsto Hsl Hsa Hc] Hin Hsorted Hl' Hst. split; simpl; try done.
  - intros x. rewrite Hl', Hw, not_elem_of_cons. split; [|naive_solver].
    intros [[? ?] Hne]. split_and!; [done| |done]. by intros [= ->].
  - intros s Hs' x Hx. destruct st as [s0|].
    + rewrite lookup_insert_eq in Hs'. simplify_eq. by apply Hst.
    + apply Hl' in Hx as [Hx _]. by eapply Hsto.
  - intros s Hs'. destruct st as [s0|]; [|by apply Hsl].
    rewrite lookup_insert_eq in Hs'. simplify_eq. apply Hst.
  - intros s Hs'. destruct st as [s0|].
    + rewrite lookup_insert_eq in Hs'. simplify_eq. exists o. split; [apply list_elem_of_here|apply Hst].
    + destruct (Hsa s Hs') as (x & Hx & Hle). exists x. split; [by right|done].
  - intros Hnil. destruct st as [s0|]; [|done]. rewrite lookup_insert_eq. f_equal. by apply Hst.
Qed.

Lemma partition_ack_ok t p q m :
  partition_ok t p q -> km_partition m = p -> km_offset m ∈ waiting_list q ->
  exists q' st, partition_ack m q = Ok (q', st) /\ pq_partition q' = p /\
    partition_ok (mkAckTrace (at_queue t)
      match st with Some s => <[p := s]> (at_stored t) | None => at_stored t end
      (at_delivered t) ((p, km_offset m) :: at_acked t)) p q'.
Proof.
  intros Hok Hm Hin. pose proof (po_sorted _ _ _ Hok) as Hs. unfold partition_ack.
  destruct (waiting_list q) as [|front rest] eqn:Hq; [by apply not_elem_of_nil in Hin|].
  case_decide as Hfront.
  - subst front. eexists _, _. split_and!; [done|by apply (po_partition _ _ _ Hok)|].
    apply (acknowledged_ok t p q (km_offset m) rest); rewrite ?Hq; [done|done| | |].
    + by apply StronglySorted_inv in Hs as [? _].
    + intros x. exact (sorted_without [] rest (km_offset m) x Hs).
    + destruct (po_last _ _ _ Hok) as [_ Hlast].
      assert (forall x, x ∈ waiting_list q -> x <= last_offset q /\ is_offset x) as Hle.
      { intros x [Hx _]%(po_waiting _ _ _ Hok). split; [by apply Hlast|].
        by eapply (po_offsets _ _ _ Hok). }
      rewrite Hq in Hle. destruct rest as [|front' rest].
      * assert (km_offset m <= last_offset q) by (apply Hle; set_solver).
        rewrite Z.max_l by done. split_and!; [lia|lia|by intros ? ?%not_elem_of_nil|done].
      * destruct (Hle front') as [Hf Hoff]; [set_solver|]. unfold is_offset in Hoff.
        rewrite i64_wrap_small by lia.
        apply StronglySorted_inv in Hs as [[_ Hall]%StronglySorted_inv [Hfirst _]%Forall_cons_1].
        split_and!; [lia|lia| |done].
        rewrite Forall_forall in Hall. intros x [-> |Hx%Hall]%elem_of_cons; lia.
  - destruct (cursor_find_total rest (km_offset m) front) as (i & Hi & Hri); [done|done|].
    rewrite Hi. eexists _, _. split_and!; [done|by apply (po_partition _ _ _ Hok)|].
    apply (acknowledged_ok t p q (km_offset m) _ None); rewrite ?Hq; [done|done| | |done].
    + simpl. rewrite <- (take_drop_middle rest i _ Hri) in Hs. rewrite delete_take_drop.
      exact (sorted_removed (front :: take i rest) _ _ Hs).
    + intros x. simpl. rewrite <- (take_drop_middle rest i _ Hri) in Hs.
      rewrite delete_take_drop. pose proof (sorted_without (front :: take i rest) _ _ x Hs) as Hx.
      simpl in Hx. by rewrite (take_drop_middle rest i _ Hri) in Hx.
Qed.

(** exactly the acknowledged offset leaves the list; if it was the front, what is
    stored is the offset before the new front, or the last one of the partition *)
Lemma sorted_filter_ne (l1 l2 : list Z) x :
  StronglySorted Z.lt (l1 ++ x :: l2) -> filter (fun y => y <> x) (l1 ++ x :: l2) = l1 ++ l2.
Proof.
  intros Hs. assert (x ∉ l1 ++ l2) as Hx.
  { intros Hin. destruct (proj1 (sorted_without l1 l2 x x Hs) Hin) as [_ ?]. done. }
  rewrite filter_app, filter_cons_False by (by intros ?). rewrite <- filter_app.
  generalize (l1 ++ l2), Hx. intros l Hl. induction l as [|y l IH]; [done|].
  apply not_elem_of_cons in Hl as [? Hl]. rewrite filter_cons_True by congruence. by rewrite IH.
Qed.

Definition remaining m q : list Z := filter (fun o => o <> km_offset m) (waiting_list q).
Definition stored_by m q : option Z :=
  if decide (head (waiting_list q) = Some (km_offset m)) then
    Some match remaining m q with [] => last_offset q | front :: _ => front - 1 end
  else None.

Lemma partition_ack_removes t p q m :
  partition_ok t p q -> km_offset m ∈ waiting_list q ->
  partition_ack m q = Ok (mkPartitionQueue (remaining m q) (pq_topic q) (pq_partition q) (last_offset q), stored_by m q).
Proof.
  intros Hok Hin. pose proof (po_sorted _ _ _ Hok) as Hs. unfold partition_ack, stored_by, remaining.
  assert (forall x, x ∈ waiting_list q -> x <= last_offset q /\ is_offset x) as Hle.
  { intros x [Hx _]%(po_waiting _ _ _ Hok). split; [by apply (po_last _ _ _ Hok)|by eapply (po_offsets _ _ _ Hok)]. }
  destruct (waiting_list q) as [|front rest]; [by apply not_elem_of_nil in Hin|]. simpl head.
  case_decide as Hfront.
  - subst front. rewrite decide_True by done. pose proof (sorted_filter_ne [] rest (km_offset m) Hs) as Hf. simpl app in Hf. rewrite Hf.
    destruct rest as [|front' rest].
    + rewrite Z.max_l; [done|]. apply Hle. by left.
    + destruct (Hle front') as [_ Hoff]; [by right; left|]. unfold is_offset in Hoff. by rewrite i64_wrap_small by lia.
  - rewrite decide_False by (by intros [= ?]).
    destruct (cursor_find_total rest (km_offset m) front Hin (not_eq_sym Hfront)) as (i & Hi & Hri).
    rewrite Hi. simpl delete. rewrite delete_take_drop.
    rewrite <- (take_drop_middle rest i _ Hri) in Hs.
    pose proof (sorted_filter_ne (front :: take i rest) (drop (S i) rest) _ Hs) as Hf. simpl app in Hf.
    rewrite take_drop_middle in Hf by done. by rewrite Hf.
Qed.

(** only partition [p] changes *)
Lemma ack_inv_update t t' p q :
  ack_inv t -> is_partition p -> at_queue t' = <[p := q]> (at_queue t) ->
  (forall p', p <> p' -> (forall o, (p', o) ∈ at_delivered t' <-> (p', o) ∈ at_delivered t) /\
     (forall o, (p', o) ∈ at_acked t' <-> (p', o) ∈ at_acked t) /\
     at_stored t' !! p' = at_stored t !! p') ->
  partition_ok t' p q ->
  (forall p' o, (p', o) ∈ at_delivered t' -> is_partition p') ->
  (forall m, m ∈ at_acked t' -> m ∈ at_delivered t') ->
  ack_inv t'.
Proof.
  intros [Hsome Hnone _ _] Hp Hq Hother Hok Hdel Hacked. split; [| |done|done]; rewrite Hq.
  - intros k q'. rewrite lookup_insert. case_decide as Hk.
    + intros [= <-]. exists p. by rewrite usize_partition.
    + intros (p' & -> & Hok')%Hsome. exists p'. split; [done|].
      rewrite (usize_partition p') in Hk by apply Hok'.
      destruct (Hother p' Hk) as (? & ? & ?). by apply (partition_ok_other t).
  - intros p' Hp'. rewrite usize_partition, lookup_insert by done. case_decide as Hk; [done|].
    intros Hn. rewrite <- (usize_partition p') in Hn by done.
    destruct (Hother p' Hk) as (Hd & _ & Hs), (Hnone p' Hp' Hn) as [Hd' Hs'].
    rewrite Hs. split; [|done]. intros o. rewrite Hd. apply Hd'.
Qed.

Lemma ack_step_inv t t' : ack_inv t -> ack_step t t' -> ack_inv t'.
Proof.
  intros Hinv Hstep. pose proof Hinv as [Hsome Hnone Hdel Hacked].
  destruct Hstep as [m Hr Hoff Hnew|m q c Hd Ha Hrun].
  - assert (partition_ready t (km_partition m)
      (default (partition_queue_new (km_topic m) (km_partition m))
         (at_queue t !! i32_as_usize (km_partition m)))) as Hready.
    { destruct (at_queue t !! i32_as_usize (km_partition m)) as [q|] eqn:Hq.
      - left. destruct (Hsome _ _ Hq) as (p & Hp & Hok). pose proof (po_range _ _ _ Hok).
        rewrite !usize_partition in Hp by done. by subst.
      - right. destruct (Hnone _ Hr Hq). by split_and!. }
    eapply (ack_inv_update t _ (km_partition m)); simpl; [done|done| | | | |].
    + unfold ack_queue_add. by rewrite usize_partition.
    + intros p' Hne. split_and!; [|done|done]. intros o. rewrite elem_of_app. set_solver.
    + rewrite usize_partition in Hready by done. by apply deliver_ok.
    + intros p' o [?%Hdel|[= -> _]%list_elem_of_singleton]%elem_of_app; done.
    + intros m' ?%Hacked. set_solver.
  - pose proof (Hdel _ _ Hd) as Hr. unfold ack_queue_ack in Hrun. simpl in Hrun.
    rewrite usize_partition in Hrun by done.
    destruct (at_queue t !! km_partition m) as [q0|] eqn:Hq; [|done].
    destruct (Hsome _ _ Hq) as (p & Hp & Hok). pose proof (po_range _ _ _ Hok).
    rewrite usize_partition in Hp by done. subst p.
    destruct (partition_ack_ok t _ q0 m Hok eq_refl) as (q' & st & Hack & Hpart & Hok').
    { by apply (po_waiting _ _ _ Hok). }
    rewrite Hack in Hrun. simpl in Hok'.
    assert (q = <[km_partition m := q']> (at_queue t) /\
      c = match st with Some s => <[km_partition m := s]> (at_stored t) | None => at_stored t end)
      as [-> ->].
    { destruct st as [s|]; simpl in Hrun; [|by simplify_eq]. rewrite Hpart in Hrun. by simplify_eq. }
    eapply (ack_inv_update t _ (km_partition m)); simpl; [done|done|done| | |done|].
    + intros p' Hne. split_and!; [done| |].
      * intros o. rewrite elem_of_cons. naive_solver.
      * destruct st; [|done]. by rewrite lookup_insert_ne.
    + eapply partition_ok_other; [..|exact Hok']; done.
    + intros m' [->|?%Hacked]%elem_of_cons; done.
Qed.

Lemma reachable_ack_inv t : ack_reachable t -> ack_inv t.
Proof.
  induction 1; [|by eapply ack_step_inv]. split; simpl.
  - done.
  - intros p Hp _. split; [by intros ? ?%not_elem_of_nil|done].
  - by intros p o ?%not_elem_of_nil.
  - by intros m ?%not_elem_of_nil.
Qed.
End invariant.

(** ** Properties *)

Lemma stored_before_acked t p s o :
  ack_reachable t -> at_stored t !! p = Some s -> is_partition p ->
  (p, o) ∈ at_delivered t -> o <= s -> (p, o) ∈ at_acked t.
Proof.
  intros Ht%reachable_ack_inv Hs Hp Hd Hle.
  destruct (at_queue t !! i32_as_usize p) as [q|] eqn:Hq.
  2: { destruct (ai_none _ Ht p Hp Hq) as [_ ?]. congruence. }
  destruct (ai_some _ Ht _ _ Hq) as (p' & Hp' & Hok). pose proof (po_range _ _ _ Hok).
  rewrite !usize_partition in Hp' by done. subst p'.
  destruct (decide ((p, o) ∈ at_acked t)) as [|Hna]; [done|].
  assert (o ∈ waiting_list q) as Hw by (by apply (po_waiting _ _ _ Hok)).
  pose proof (po_stored _ _ _ Hok s Hs o Hw). lia.
Qed.

(** C18: the offset stored for a partition never passes a message that is still
    being processed: every delivered message of the partition up to the stored
    offset has been acknowledged, so none is lost when the consumer restarts
    from there. *)
Theorem stored_offset_safe t p s o :
  ack_reachable t -> at_stored t !! p = Some s -> is_partition p ->
  (p, o) ∈ at_delivered t -> o <= s -> (p, o) ∈ at_acked t.
Proof. apply stored_before_acked. Qed.

(** what is stored was stored for an acknowledged message at or below it *)
Lemma stored_above_acked t p s :
  ack_reachable t -> at_stored t !! p = Some s -> is_partition p -> exists o, (p, o) ∈ at_acked t /\ o <= s.
Proof.
  intros Ht%reachable_ack_inv Hs Hp. destruct (at_queue t !! i32_as_usize p) as [q|] eqn:Hq.
  2: { destruct (ai_none _ Ht p Hp Hq) as [_ ?]. congruence. }
  destruct (ai_some _ Ht _ _ Hq) as (p' & Hp' & Hok). pose proof (po_range _ _ _ Hok).
  rewrite !usize_partition in Hp' by done. subst p'. by apply (po_stored_acked _ _ _ Hok).
Qed.

(** the stored offset is never beyond what was delivered *)
Lemma stored_below_delivered t p s :
  ack_reachable t -> at_stored t !! p = Some s -> is_partition p -> exists o, (p, o) ∈ at_delivered t /\ s <= o.
Proof.
  intros Ht%reachable_ack_inv Hs Hp. destruct (at_queue t !! i32_as_usize p) as [q|] eqn:Hq.
  2: { destruct (ai_none _ Ht p Hp Hq) as [_ ?]. congruence. }
  destruct (ai_some _ Ht _ _ Hq) as (p' & Hp' & Hok). pose proof (po_range _ _ _ Hok).
  rewrite !usize_partition in Hp' by done. subst p'. exists (last_offset q).
  split; [apply (po_last _ _ _ Hok)|by apply (po_stored_last _ _ _ Hok)].
Qed.

Lemma all_acked_caught_up t p o :
  ack_reachable t -> (p, o) ∈ at_delivered t ->
  (forall o', (p, o') ∈ at_delivered t -> (p, o') ∈ at_acked t) ->
  exists s, at_stored t !! p = Some s /\ (p, s) ∈ at_delivered t /\
    forall o', (p, o') ∈ at_delivered t -> o' <= s.
Proof.
  intros Ht%reachable_ack_inv Hd Hall. pose proof (ai_delivered _ Ht _ _ Hd) as Hp.
  destruct (at_queue t !! i32_as_usize p) as [q|] eqn:Hq.
  2: { destruct (ai_none _ Ht p Hp Hq) as [Hno _]. by destruct (Hno o). }
  destruct (ai_some _ Ht _ _ Hq) as (p' & Hp' & Hok). pose proof (po_range _ _ _ Hok).
  rewrite !usize_partition in Hp' by done. subst p'. exists (last_offset q).
  destruct (po_last _ _ _ Hok) as [Hl Hmax]. split_and!; [|done|done].
  apply (po_caught_up _ _ _ Hok). destruct (waiting_list q) as [|x l] eqn:Hw; [done|].
  assert (x ∈ waiting_list q) as [Hx Hna]%(po_waiting _ _ _ Hok) by (rewrite Hw; set_solver).
  by apply Hall in Hx.
Qed.

(** No acknowledgement is forgotten either: once every delivered message of
    a partition has been acknowledged, in whatever order, the stored offset is
    that of the last one. *)
Theorem stored_offset_catches_up t p o :
  ack_reachable t -> (p, o) ∈ at_delivered t ->
  (forall o', (p, o') ∈ at_delivered t -> (p, o') ∈ at_acked t) ->
  exists s, at_stored t !! p = Some s /\ (p, s) ∈ at_delivered t /\
    forall o', (p, o') ∈ at_delivered t -> o' <= s.
Proof. apply all_acked_caught_up. Qed.

Lemma waiting_ack_returns t m :
  ack_reachable t -> (km_partition m, km_offset m) ∈ at_delivered t ->
  (km_partition m, km_offset m) ∉ at_acked t ->
  (exists q, at_queue t !! km_partition m = Some q /\ km_offset m ∈ waiting_list q /\
     ack_queue_ack store_in_map m (at_queue t, at_stored t) =
       ((<[km_partition m := mkPartitionQueue (remaining m q) (pq_topic q) (pq_partition q) (last_offset q)]> (at_queue t),
         match stored_by m q with
         | Some offset => <[km_partition m := offset]> (at_stored t)
         | None => at_stored t
         end), Ok ())) /\
  (forall fuel l i, km_offset m ∉ l -> cursor_find fuel l (km_offset m) i = None).
Proof.
  intros Ht%reachable_ack_inv Hd Ha. split; [|intros; by apply cursor_find_endless].
  pose proof (ai_delivered _ Ht _ _ Hd) as Hr.
  destruct (at_queue t !! i32_as_usize (km_partition m)) as [q|] eqn:Hq.
  2: { destruct (ai_none _ Ht _ Hr Hq) as [Hno _]. by apply Hno in Hd. }
  destruct (ai_some _ Ht _ _ Hq) as (p & Hp & Hok). pose proof (po_range _ _ _ Hok).
  rewrite !usize_partition in Hp by done. subst p. rewrite usize_partition in Hq by done.
  assert (km_offset m ∈ waiting_list q) as Hin by (by apply (po_waiting _ _ _ Hok)).
  exists q. split_and!; [done..|]. unfold ack_queue_ack. simpl. rewrite usize_partition, Hq by done.
  rewrite (partition_ack_removes _ _ _ _ Hok Hin), <- (po_partition _ _ _ Hok).
  by destruct (stored_by m q).
Qed.

(** C19: [ack] always returns for a message that was delivered and is not
    acknowledged yet, and does exactly this: of the partition's list that offset
    leaves and the others stay in their order, the other partitions are left
    alone, and an offset is stored only when the front of the list was
    acknowledged: the one before the new front, or the last one delivered when
    none is left.  (For an offset that is not waiting the search never ends,
    whatever the fuel.) *)
Theorem ack_returns t m :
  ack_reachable t -> (km_partition m, km_offset m) ∈ at_delivered t ->
  (km_partition m, km_offset m) ∉ at_acked t ->
  (exists q, at_queue t !! km_partition m = Some q /\ km_offset m ∈ waiting_list q /\
     ack_queue_ack store_in_map m (at_queue t, at_stored t) =
       ((<[km_partition m := mkPartitionQueue (remaining m q) (pq_topic q) (pq_partition q) (last_offset q)]> (at_queue t),
         match stored_by m q with
         | Some offset => <[km_partition m := offset]> (at_stored t)
         | None => at_stored t
         end), Ok ())) /\
  (forall fuel l i, km_offset m ∉ l -> cursor_find fuel l (km_offset m) i = None).
Proof. apply waiting_ack_returns. Qed.

(** messages 5, 6 and 7 of partition 0; 6 and then 5 acknowledged *)
Definition demo_msg (o : Z) : KafkaMsg := mkKafkaMsg "topic" 0 o.
Definition demo_deliver (o : Z) (t : AckTrace) : AckTrace :=
  mkAckTrace (ack_queue_add (demo_msg o) (at_queue t)) (at_stored t) (at_delivered t ++ [(0, o)])
    (at_acked t).
Definition demo_delivered : AckTrace := demo_deliver 7 (demo_deliver 6 (demo_deliver 5 ack_trace_new)).
Definition demo_ack (m : KafkaMsg) (t : AckTrace) : AckTrace :=
  let '(s, _) := ack_queue_ack store_in_map m (at_queue t, at_stored t) in
  mkAckTrace s.1 s.2 (at_delivered t) ((km_partition m, km_offset m) :: at_acked t).
Definition demo_acked : AckTrace := demo_ack (demo_msg 5) (demo_ack (demo_msg 6) demo_delivered).
Definition demo_all_acked : AckTrace := demo_ack (demo_msg 7) demo_acked.

Lemma demo_delivered_reachable : ack_reachable demo_delivered.
Proof.
  assert (forall t o, ack_reachable t -> is_offset o ->
    (forall o', (0, o') ∈ at_delivered t -> o' < o) -> ack_reachable (demo_deliver o t)) as Hstep.
  { intros t o Ht Ho Hlt. apply (ack_next t); [done|]. by apply (ack_deliver t (demo_msg o)). }
  apply Hstep; [apply Hstep; [apply Hstep; [apply ack_new|..]|..]|..]; try (by split); simpl;
    intros o'; rewrite ?elem_of_cons, ?elem_of_nil; intros Ho; naive_solver lia.
Qed.

Lemma demo_ack_reachable t o :
  ack_reachable t -> (0, o) ∈ at_delivered t -> (0, o) ∉ at_acked t ->
  ack_reachable (demo_ack (demo_msg o) t).
Proof.
  intros Ht Hd Ha. apply (ack_next t); [done|]. unfold demo_ack.
  pose proof (reachable_ack_inv t Ht) as Hinv.
  destruct (ack_queue_ack store_in_map (demo_msg o) (at_queue t, at_stored t)) as [[q c] r] eqn:Hrun.
  apply (ack_acknowledge t (demo_msg o) q c Hd Ha). rewrite Hrun. f_equal.
  destruct (at_queue t !! i32_as_usize 0) as [q0|] eqn:Hq.
  2: { destruct (ai_none _ Hinv 0 ltac:(by split) Hq) as [Hno _]. by apply Hno in Hd. }
  destruct (ai_some _ Hinv _ _ Hq) as (p & Hp & Hok). pose proof (po_range _ _ _ Hok).
  rewrite !usize_partition in Hp by done. subst p.
  destruct (partition_ack_ok t 0 q0 (demo_msg o) Hok eq_refl) as (q' & st & Hack & _ & _).
  { by apply (po_waiting _ _ _ Hok). }
  unfold ack_queue_ack in Hrun. simpl in Hrun. rewrite Hq, Hack in Hrun.
  destruct st; simpl in Hrun; by simplify_eq.
Qed.

Lemma demo_acked_reachable : ack_reachable demo_acked.
Proof.
  apply demo_ack_reachable; [apply demo_ack_reachable; [apply demo_delivered_reachable|..]|..];
    apply (bool_decide_unpack _); vm_compute; exact I.
Qed.
Lemma demo_all_acked_reachable : ack_reachable demo_all_acked.
Proof.
  apply demo_ack_reachable; [apply demo_acked_reachable|..];
    apply (bool_decide_unpack _); vm_compute; exact I.
Qed.

Lemma stored_offset_safe_witness : (0, 6) ∈ at_acked demo_acked.
Proof.
  apply (stored_offset_safe demo_acked 0 6 6);
    [apply demo_acked_reachable|vm_compute; reflexivity|by split
    |apply (bool_decide_unpack _); vm_compute; exact I|lia].
Defined.

Lemma stored_offset_catches_up_witness :
  exists s, at_stored demo_all_acked !! 0 = Some s /\ (0, s) ∈ at_delivered demo_all_acked /\
    forall o', (0, o') ∈ at_delivered demo_all_acked -> o' <= s.
Proof.
  apply (stored_offset_catches_up demo_all_acked 0 5);
    [apply demo_all_acked_reachable|apply (bool_decide_unpack _); vm_compute; exact I|].
  assert (at_delivered demo_all_acked = [(0, 5); (0, 6); (0, 7)]) as -> by reflexivity.
  assert (at_acked demo_all_acked = [(0, 7); (0, 5); (0, 6)]) as -> by reflexivity.
  set_solver.
Defined.

Lemma ack_returns_witness :
  (exists q, at_queue demo_delivered !! 0 = Some q /\ 6 ∈ waiting_list q /\
     ack_queue_ack store_in_map (demo_msg 6) (at_queue demo_delivered, at_stored demo_delivered) =
       ((<[0 := mkPartitionQueue (remaining (demo_msg 6) q) (pq_topic q) (pq_partition q) (last_offset q)]>
           (at_queue demo_delivered),
         match stored_by (demo_msg 6) q with
         | Some offset => <[0 := offset]> (at_stored demo_delivered)
         | None => at_stored demo_delivered
         end), Ok ())) /\
  (forall fuel l i, km_offset (demo_msg 6) ∉ l -> cursor_find fuel l (km_offset (demo_msg 6)) i = None).
Proof.
  apply (ack_returns demo_delivered (demo_msg 6));
    [apply demo_delivered_reachable|apply (bool_decide_unpack _); vm_compute; exact I..].
Defined.
