(* ===== verification/KafkaIntake.v ===== *)
(** A consumer of a Kafka topic, [utils/src/messaging_system/consumer.rs], whose
    messages are acknowledged through its queue of offsets ([AckQueue]), and the
    bookkeeping that the services over it share: [consumer_inv] splits what was
    handed out into what is acknowledged and what is in progress. *)
From stdpp Require Import prelude gmap strings list fin_maps.
From S2P Require Import Prelude Messaging AckQueue.

(** ** The consumer *)

(** [CommonConsumer::Kafka]: the queue, and the consumer with the offsets
    stored for the partitions; [kc_acked] is the record of acknowledgements,
    which the code does not keep *)
Record KafkaConsumer : Type := mkKafkaConsumer {
  kc_queue : gmap Z KafkaPartitionAckQueue;
  kc_stored : gmap Z Z;
  kc_acked : list CommMessage;
}.
Definition kafka_consumer_new : KafkaConsumer := mkKafkaConsumer ∅ ∅ [].

(** the position of a message in its topic *)
Definition position (m : CommMessage) : Z * Z :=
  match m with
  | KafkaCommunicationMessage _ _ partition offset => (partition, offset)
  | AmqpCommunicationMessage _ _ _ => ((-1)%Z, (-1)%Z)
  end.

Section consumer.
(** the one topic the consumer subscribes to *)
Context (topic : string).

Definition kafka_msg (m : CommMessage) : KafkaMsg :=
  mkKafkaMsg topic (position m).1 (position m).2.

(** the loop of [consume]: the message is put in the queue and handed out *)
Definition consumer_fetch (m : CommMessage) (k : KafkaConsumer) : KafkaConsumer :=
  mkKafkaConsumer (ack_queue_add (kafka_msg m) (kc_queue k)) (kc_stored k) (kc_acked k).

(** [KafkaCommunicationMessage::ack]; an [ack] that panics or does not return
    is an error here, which [consumer_ack_ok] excludes *)
Definition consumer_ack (m : CommMessage) : M KafkaConsumer MessagingError () := fun k =>
  match ack_queue_ack store_in_map (kafka_msg m) (kc_queue k, kc_stored k) with
  | ((q, c), Ok _) => (mkKafkaConsumer q c (kc_acked k ++ [m]), Ok ())
  | (_, Err _) => (k, Err (RuntimeError "panicked"))
  end.

#[export] Instance kafka_acker : Acker KafkaConsumer := { ack_message := consumer_ack }.
#[export] Instance kafka_acker_laws : AckerLaws KafkaConsumer.
Proof.
  refine {| acked := kc_acked |}. intros m k. unfold wp. cbn [ack_message kafka_acker]. unfold consumer_ack.
  by destruct (ack_queue_ack _ _ _) as [[q c] [[]|e]].
Defined.

(** the consumer as a history of its queue *)
Definition trace_of (delivered : list CommMessage) (k : KafkaConsumer) : AckTrace :=
  mkAckTrace (kc_queue k) (kc_stored k) (position <$> delivered) (reverse (position <$> kc_acked k)).

Lemma kafka_msg_position m : (km_partition (kafka_msg m), km_offset (kafka_msg m)) = position m.
Proof. unfold kafka_msg. by destruct (position m). Qed.

Lemma consumer_fetch_reachable delivered k m :
  ack_reachable (trace_of delivered k) ->
  is_partition (position m).1 -> is_offset (position m).2 ->
  (forall m', m' ∈ delivered -> (position m').1 = (position m).1 -> ((position m').2 < (position m).2)%Z) ->
  ack_reachable (trace_of (delivered ++ [m]) (consumer_fetch m k)).
Proof.
  intros Hk Hp Ho Hnew. eapply ack_next; [exact Hk|]. unfold trace_of. rewrite fmap_app. cbn [fmap list_fmap].
  rewrite <- (kafka_msg_position m). apply (ack_deliver (trace_of delivered k) (kafka_msg m)); [done..|].
  intros o (m' & Hm' & Hin)%list_elem_of_fmap. specialize (Hnew m' Hin). rewrite <- Hm' in Hnew. by apply Hnew.
Qed.

(** the acknowledgement of a message that was handed out and is not acknowledged *)
Lemma consumer_ack_ok delivered k m :
  ack_reachable (trace_of delivered k) -> m ∈ delivered -> position m ∉ position <$> kc_acked k ->
  exists k', ack_message m k = (k', Ok ()) /\ kc_acked k' = kc_acked k ++ [m] /\
    ack_reachable (trace_of delivered k').
Proof.
  intros Hk Hin Hna.
  assert (position m ∈ at_delivered (trace_of delivered k)) as Hd by (by apply list_elem_of_fmap_2).
  assert (position m ∉ at_acked (trace_of delivered k)) as Ha by (simpl; by rewrite elem_of_reverse).
  rewrite <- (kafka_msg_position m) in Hd, Ha.
  destruct (waiting_ack_returns _ _ Hk Hd Ha) as [(q & _ & _ & Hack) _].
  cbn [ack_message kafka_acker]. unfold consumer_ack. simpl in Hack. rewrite Hack.
  eexists. split_and!; [done|done|]. eapply ack_next; [exact Hk|]. unfold trace_of. cbn [kc_queue kc_stored kc_acked].
  rewrite fmap_app, reverse_app. cbn [fmap list_fmap reverse]. rewrite <- (kafka_msg_position m).
  by apply (ack_acknowledge (trace_of delivered k)).
Qed.
End consumer.

(** ** What is acknowledged, and what is in progress *)

Record consumer_inv (delivered rest : list CommMessage) (k : KafkaConsumer) : Prop := {
  co_trace : ack_reachable (trace_of delivered k);
  co_positions : NoDup (position <$> delivered);
  co_split : delivered ≡ₚ kc_acked k ++ rest;
}.

#[export] Instance consumer_inv_proper delivered :
  Proper ((≡ₚ) ==> (=) ==> iff) (consumer_inv delivered).
Proof.
  assert (forall rest rest' k, rest ≡ₚ rest' -> consumer_inv delivered rest k -> consumer_inv delivered rest' k)
    as Himp by (intros rest rest' k Hr [? ? Hs]; split; [done..|by rewrite Hs, Hr]).
  intros rest rest' Hr k _ <-. by split; apply Himp.
Qed.

Section intake.
Context (topic : string).
Implicit Types (delivered rest : list CommMessage) (m : CommMessage) (k : KafkaConsumer) (p o : Z).

Lemma consumer_new_inv : consumer_inv [] [] kafka_consumer_new.
Proof. split; [apply ack_new|constructor|done]. Qed.

(** Kafka hands out the messages of a partition with growing offsets *)
Definition next_offset delivered (partition offset : Z) : Prop :=
  is_partition partition /\ is_offset offset /\
  forall m, m ∈ delivered -> (position m).1 = partition -> ((position m).2 < offset)%Z.

#[export] Instance next_offset_dec delivered partition offset : Decision (next_offset delivered partition offset).
Proof.
  refine (cast_if (decide ((0 <= partition < 2 ^ 31 /\ 0 <= offset < 2 ^ 63)%Z /\
    Forall (fun m => ((position m).1 = partition -> (position m).2 < offset)%Z) delivered)));
    unfold next_offset; rewrite <- Forall_forall; [by destruct_and!|tauto].
Defined.

Lemma consumer_fetch_inv delivered rest k m :
  consumer_inv delivered rest k -> next_offset delivered (position m).1 (position m).2 ->
  consumer_inv (delivered ++ [m]) (rest ++ [m]) (consumer_fetch topic m k).
Proof.
  intros [Ht Hn Hs] (Hp & Ho & Hnew). split.
  - by apply consumer_fetch_reachable.
  - rewrite fmap_app. apply NoDup_app. split_and!; [done| |apply NoDup_singleton].
    intros x (m' & -> & Hin)%list_elem_of_fmap Hx%list_elem_of_singleton.
    specialize (Hnew m' Hin). rewrite Hx in Hnew. specialize (Hnew eq_refl). lia.
  - simpl. by rewrite Hs, app_assoc.
Qed.

Lemma consumer_rest_delivered delivered rest k m :
  consumer_inv delivered rest k -> m ∈ rest -> m ∈ delivered.
Proof. intros [_ _ Hs] Hm. rewrite Hs. apply elem_of_app. by right. Qed.

Lemma consumer_acked_delivered delivered rest k m :
  consumer_inv delivered rest k -> m ∈ kc_acked k -> m ∈ delivered.
Proof. intros [_ _ Hs] Hm. rewrite Hs. apply elem_of_app. by left. Qed.

(** a message in progress is not acknowledged *)
Lemma consumer_rest_unacked delivered rest k m :
  consumer_inv delivered rest k -> m ∈ rest -> position m ∉ position <$> kc_acked k.
Proof.
  intros [_ Hn Hs] Hm Ha. rewrite Hs, fmap_app in Hn. apply NoDup_app in Hn as (_ & Hdis & _).
  apply (Hdis _ Ha). by apply list_elem_of_fmap_2.
Qed.

(** a message in progress can be acknowledged, and is then no longer in progress *)
Lemma consumer_ack_inv delivered rest k m :
  consumer_inv delivered (m :: rest) k ->
  exists k', consumer_ack topic m k = (k', Ok ()) /\ kc_acked k' = kc_acked k ++ [m] /\
    consumer_inv delivered rest k'.
Proof.
  intros Hk. assert (m ∈ m :: rest) as Hm by set_solver.
  destruct (consumer_ack_ok topic delivered k m) as (k' & Hack & Hk' & Ht).
  - apply Hk.
  - by eapply consumer_rest_delivered.
  - by eapply consumer_rest_unacked.
  - exists k'. split_and!; [done..|]. destruct Hk as [_ Hn Hs]. split; [done..|].
    rewrite Hk', Hs. by rewrite <- app_assoc.
Qed.

Lemma consumer_partition delivered rest k m :
  consumer_inv delivered rest k -> m ∈ delivered -> is_partition (position m).1.
Proof.
  intros [Ht%reachable_ack_inv _ _] Hm. eapply (ai_delivered _ Ht _ (position m).2).
  rewrite <- surjective_pairing. by apply list_elem_of_fmap_2.
Qed.

(** what is delivered up to the stored offset is acknowledged *)
Lemma consumer_stored_acked delivered rest k p o stored m :
  consumer_inv delivered rest k -> kc_stored k !! p = Some stored -> m ∈ delivered ->
  position m = (p, o) -> (o <= stored)%Z -> m ∈ kc_acked k.
Proof.
  intros Hk Hstored Hm Hpos Hle. pose proof Hk as [Ht Hn Hs].
  pose proof (consumer_partition _ _ _ _ Hk Hm) as Hp. rewrite Hpos in Hp. simpl in Hp.
  pose proof (stored_before_acked _ p stored o Ht Hstored Hp) as Ha.
  simpl in Ha. rewrite elem_of_reverse in Ha.
  assert ((p, o) ∈ position <$> kc_acked k) as (m' & Hm' & Hin)%list_elem_of_fmap.
  { apply Ha; [|done]. apply list_elem_of_fmap. by exists m. }
  assert (m' = m) as <-; [|done].
  eapply NoDup_fmap_same; [exact Hn|by eapply consumer_acked_delivered|done|congruence].
Qed.

(** and something is delivered at the stored offset or beyond *)
Lemma consumer_stored_bound delivered rest k p stored :
  consumer_inv delivered rest k -> is_partition p -> kc_stored k !! p = Some stored ->
  exists m, m ∈ delivered /\ (position m).1 = p /\ (stored <= (position m).2)%Z.
Proof.
  intros [Ht _ _] Hp Hst. destruct (stored_below_delivered (trace_of delivered k) p stored Ht Hst Hp) as (o & Hin & Hle).
  apply list_elem_of_fmap in Hin as (m & Hm & Hin). exists m. by rewrite <- Hm.
Qed.

(** the stored offset stays below a message in progress *)
Lemma consumer_rest_not_stored delivered rest k p o stored m :
  consumer_inv delivered rest k -> kc_stored k !! p = Some stored -> m ∈ rest ->
  position m = (p, o) -> (stored < o)%Z.
Proof.
  intros Hk Hstored Hm Hpos. destruct (Z.lt_ge_cases stored o) as [|Hle]; [done|].
  destruct (consumer_rest_unacked _ _ _ _ Hk Hm). apply list_elem_of_fmap_2.
  eapply consumer_stored_acked; eauto using consumer_rest_delivered.
Qed.

(** nothing is stored for a partition before its first message is acknowledged *)
Lemma consumer_first_waits delivered rest k m :
  consumer_inv delivered rest k -> m ∈ rest ->
  (forall m', m' ∈ delivered -> (position m').1 = (position m).1 -> ((position m).2 <= (position m').2)%Z) ->
  kc_stored k !! (position m).1 = None.
Proof.
  intros Hk Hm Hfirst. destruct (kc_stored k !! _) as [stored|] eqn:Hst; [exfalso|done].
  pose proof (consumer_partition _ _ _ _ Hk (consumer_rest_delivered _ _ _ _ Hk Hm)) as Hp.
  pose proof Hk as [Ht _ _]. destruct (stored_above_acked _ _ _ Ht Hst Hp) as (o & Ho & Hle). simpl in Ho.
  rewrite elem_of_reverse in Ho. apply list_elem_of_fmap in Ho as (m' & Hm' & Hin).
  assert ((position m).2 <= (position m').2)%Z by (apply Hfirst; [by eapply consumer_acked_delivered|by rewrite <- Hm']).
  rewrite <- Hm' in *. simpl in *.
  pose proof (consumer_rest_not_stored _ _ _ _ _ _ _ Hk Hst Hm (surjective_pairing _)). lia.
Qed.

(** once nothing of a partition is in progress, the stored offset is its last one *)
Lemma consumer_caught_up delivered rest k m :
  consumer_inv delivered rest k -> m ∈ delivered ->
  (forall m', m' ∈ rest -> (position m').1 <> (position m).1) ->
  exists stored, kc_stored k !! (position m).1 = Some stored /\
    forall m', m' ∈ delivered -> (position m').1 = (position m).1 -> ((position m').2 <= stored)%Z.
Proof.
  intros [Ht Hn Hs] Hm Hrest.
  destruct (all_acked_caught_up (trace_of delivered k) (position m).1 (position m).2)
    as (stored & Hst & _ & Hle); [done| | |].
  - rewrite <- surjective_pairing. by apply list_elem_of_fmap_2.
  - intros o' (m' & Hm' & Hin)%list_elem_of_fmap. simpl. rewrite elem_of_reverse.
    apply list_elem_of_fmap. exists m'. split; [done|]. rewrite Hs in Hin.
    apply elem_of_app in Hin as [?|Hin%Hrest]; [done|]. by rewrite <- Hm' in Hin.
  - exists stored. split; [done|]. intros m' Hin Hp. apply Hle. rewrite <- Hp, <- surjective_pairing.
    by apply list_elem_of_fmap_2.
Qed.
End intake.
