(* ===== verification/ReplicaIntake.v ===== *)
(** A slave registry on a Kafka topic: the loop [consume_mq] of
    [schema-registry/src/replication/slave.rs] over a consumer with its queue of
    offsets ([KafkaIntake]).  An event that fails is logged and not acknowledged,
    and the loop goes on with the next one. *)
From stdpp Require Import prelude gmap strings list fin_maps.
From S2P Require Import Prelude Json Externals Indradb RegistryTypes SchemaDb SchemaDbSpec Registry Instances.
From S2P Require Import RegistryRun Messaging Replication AckQueue KafkaIntake.

(** ** The loop *)

(** the database and the consumer; what the stream has handed out, and the
    messages whose events were applied, each with its event (not kept by the code) *)
Record Replica (D : Type) `{SemVer} : Type := mkReplica {
  rp_db : D;
  rp_consumer : KafkaConsumer;
  rp_delivered : list CommMessage;
  rp_applied : list (CommMessage * ReplicationEvent);
}.
Arguments mkReplica {D _}. Arguments rp_db {D _}. Arguments rp_consumer {D _}. Arguments rp_delivered {D _}.
Arguments rp_applied {D _}.

Section replica.
Context {D : Type} `{Datastore D, SemVer, UuidLib, JsonSchemaLib, JmespathLib, !EventText, StdText}.
Context (topic : string).
Implicit Types (r : Replica D) (m : CommMessage).

Definition replica_new (db : D) : Replica D := mkReplica db kafka_consumer_new [] [].

(** the event of a message *)
Definition event_of_message m : result string ReplicationEvent :=
  payload ← map_err messaging_error_display (message_payload m);
  map_err (fun _ => "Payload deserialization failed") (event_from_str payload).

(** the stream puts a message in the queue and hands it out *)
Definition replica_fetch m r : Replica D :=
  mkReplica (rp_db r) (consumer_fetch topic m (rp_consumer r)) (rp_delivered r ++ [m])
    (rp_applied r).

(** [consume_message]; its error is logged *)
Definition replica_consume m r : Replica D :=
  let '((db, consumer), outcome) := consume_message (consumer_ack topic) m (rp_db r, rp_consumer r) in
  mkReplica db consumer (rp_delivered r)
    (rp_applied r ++ match outcome, event_of_message m with Ok _, Ok event => [(m, event)] | _, _ => [] end).

(** [consume_mq]: what the stream yields, with the state of the kill signal then;
    a message that comes with the signal has been handed out *)
Fixpoint replica_mq (stream : list (result MessagingError CommMessage * bool)) r : Replica D :=
  match stream with
  | [] => r
  | (Err _, killed) :: stream => if (killed : bool) then r else replica_mq stream r
  | (Ok m, killed) :: stream =>
      if (killed : bool) then replica_fetch m r else replica_mq stream (replica_consume m (replica_fetch m r))
  end.

(** Kafka's order of what it hands out *)
Fixpoint reads_on (delivered : list CommMessage) (stream : list (result MessagingError CommMessage * bool)) : Prop :=
  match stream with
  | [] => True
  | (Err _, _) :: stream => reads_on delivered stream
  | (Ok m, _) :: stream =>
      next_offset delivered (position m).1 (position m).2 /\ reads_on (delivered ++ [m]) stream
  end.
End replica.

(** ** Events that were applied before *)

Section again.
Context {D : Type} `{DatastoreLaws D, SemVerLaws, UuidLib, JsonSchemaLib, JmespathLib}.
Implicit Types (d : D) (event : ReplicationEvent).

Definition creates event : bool :=
  match event with EvAddSchema _ _ | EvAddSchemaVersion _ _ | EvAddViewToSchema _ _ _ => true | _ => false end.

(** the schema or view is there; the schema has that version or a later one *)
Definition applied_before event (g : Graph) : Prop :=
  match event with
  | EvAddSchema _ id => is_Some (g_vertices g !! id)
  | EvAddSchemaVersion id new_version => exists i v,
      g_version g id i = Some v /\ version_leb (nv_version new_version) v = true
  | EvAddViewToSchema _ _ view_id => is_Some (g_vertices g !! view_id)
  | _ => False
  end.

Lemma applied_again_fails event d :
  wf (graph d) -> fits (graph d) -> applied_before event (graph d) ->
  wp (consume_event event) d (fun _ _ => False) (fun _ _ => True).
Proof.
  intros Hwf Hfits Hbefore. destruct event as [schema id|id v| |schema_id view view_id|]; simpl in *; try done.
  - apply wp_bind. eapply wp_mono; [by apply add_schema_spec| |done].
    intros i d1 (j & full & _ & Hnone & Hid & _). rewrite (Hid id eq_refl) in Hnone. by destruct Hbefore; simplify_eq.
  - eapply wp_mono; [by apply add_version_spec| |done]. intros _ d1 (i & full & _ & Hgreatest & _).
    destruct Hbefore as (j & w & Hw%Hgreatest & Hle). unfold version_ltb in Hw. by rewrite Hle in Hw.
  - apply wp_bind. eapply wp_mono; [by apply add_view_spec| |done].
    intros i d1 (_ & _ & Hnone & Hid & _). rewrite (Hid view_id eq_refl) in Hnone. by destruct Hbefore; simplify_eq.
Qed.

Lemma applied_once event d :
  wf (graph d) -> fits (graph d) -> creates event = true ->
  wp (consume_event event) d (fun _ d' => applied_before event (graph d')) (fun _ _ => True).
Proof.
  intros Hwf Hfits Hc. destruct event as [schema id|id v| |schema_id view view_id|]; simpl in *; try done.
  - apply wp_bind. eapply wp_mono; [by apply add_schema_spec| |done].
    intros i d1 (j & full & _ & _ & Hid & _ & Hne & Hd1). apply wp_ret.
    specialize (Hid id eq_refl) as ->. rewrite Hd1.
    unfold g_add_definition. simpl. rewrite lookup_insert_ne by done. rewrite lookup_insert_eq. by eexists.
  - eapply wp_mono; [by apply add_version_spec| |done]. intros _ d1 (i & full & _ & _ & _ & _ & Hd1).
    exists i, (nv_version v). rewrite Hd1, g_version_add_definition, decide_True by done.
    split; [done|apply version_leb_refl].
  - apply wp_bind. eapply wp_mono; [by apply add_view_spec| |done].
    intros i d1 (_ & _ & _ & Hid & Hd1). apply wp_ret. rewrite Hd1, (Hid view_id eq_refl). simpl.
    rewrite lookup_insert_eq. by eexists.
Qed.
End again.

(** ** The offsets of a slave *)

Section offsets.
Context {D : Type} `{DatastoreLaws D, SemVerLaws, UuidLib, JsonSchemaLib, JmespathLib, !EventText, StdText}.
Context (topic : string).
Implicit Types (r : Replica D) (m : CommMessage).

Record replica_inv (rest : list CommMessage) r : Prop := {
  rv_consumer : consumer_inv (rp_delivered r) rest (rp_consumer r);
  rv_applied m : m ∈ kc_acked (rp_consumer r) -> exists event, (m, event) ∈ rp_applied r;
  rv_events m event : (m, event) ∈ rp_applied r -> event_of_message m = Ok event;
}.

Lemma replica_new_inv db : replica_inv [] (replica_new db).
Proof. split; simpl; [apply consumer_new_inv|by intros ? ?%not_elem_of_nil|by intros ? ? ?%not_elem_of_nil]. Qed.

Lemma replica_fetch_inv rest m r :
  replica_inv rest r -> next_offset (rp_delivered r) (position m).1 (position m).2 ->
  replica_inv (rest ++ [m]) (replica_fetch topic m r).
Proof. intros [Hc Ha He] Hn. split; simpl; [by apply consumer_fetch_inv|done|done]. Qed.

(** one message: applied and acknowledged, or neither acknowledged nor applied to its end *)
Lemma consume_message_cases m rest r db k outcome :
  replica_inv (m :: rest) r -> consume_message (consumer_ack topic) m (rp_db r, rp_consumer r) = ((db, k), outcome) ->
  (exists event, outcome = Ok () /\ event_of_message m = Ok event /\
     consume_event event (rp_db r) = (db, Ok ()) /\ consumer_ack topic m (rp_consumer r) = (k, Ok ())) \/
  k = rp_consumer r /\ is_ok outcome = false /\
  forall event, event_of_message m = Ok event -> (consume_event event (rp_db r)).2 <> Ok ().
Proof.
  intros [Hc _ _]. destruct (consumer_ack_inv topic _ _ _ _ Hc) as (k' & Hack & _ & _).
  unfold consume_message, event_of_message, mbind, M_bind, lift.
  destruct (message_payload m) as [payload|e]; simpl; [|by intros [= <- <- <-]; right].
  destruct (event_from_str payload) as [event|e]; simpl; [|by intros [= <- <- <-]; right].
  unfold with_err, Replication.on_db, on_broker. simpl. destruct (consume_event event (rp_db r)) as [d [[]|e]] eqn:Hev; simpl.
  - rewrite Hack. intros [= <- <- <-]. left. by exists event.
  - intros [= <- <- <-]. right. split_and!; [done|done|]. intros ? [= <-]. by rewrite Hev.
Qed.

(** what is left in progress are the messages that failed *)
Lemma replica_consume_inv m rest r :
  replica_inv (rest ++ [m]) r ->
  (forall event, event_of_message m = Ok event -> (consume_event event (rp_db r)).2 <> Ok ()) /\
     replica_inv (rest ++ [m]) (replica_consume topic m r) \/
  replica_inv rest (replica_consume topic m r).
Proof.
  intros Hinv. assert (replica_inv (m :: rest) r) as Hm.
  { destruct Hinv as [Hc ? ?]. split; [|done..]. by rewrite Permutation_cons_append. }
  unfold replica_consume. destruct (consume_message _ m _) as [[db k] outcome] eqn:Hrun.
  destruct (consume_message_cases _ _ _ _ _ _ Hm Hrun) as [(event & -> & Hev & _ & Hack)|(-> & Hout & Hno)].
  - right. destruct Hm as [Hc Ha He]. destruct (consumer_ack_inv topic _ _ _ _ Hc) as (k' & Hk & Hacked & Hc').
    assert (k' = k) as -> by congruence. rewrite Hev. split; simpl; [done| |].
    + intros x. rewrite Hacked. intros [[ev Hx]%Ha| ->%list_elem_of_singleton]%elem_of_app;
        [exists ev|exists event]; apply elem_of_app; [by left|right; apply list_elem_of_here].
    + intros x ev [?|[= -> ->]%list_elem_of_singleton]%elem_of_app; [by apply He|done].
  - left. split; [done|]. destruct outcome; [done|]. destruct Hinv. split; simpl; rewrite ?app_nil_r; done.
Qed.

Lemma replica_consume_delivered m r : rp_delivered (replica_consume topic m r) = rp_delivered r.
Proof. unfold replica_consume. by destruct (consume_message _ _ _) as [[db k] outcome]. Qed.

Lemma replica_mq_inv stream rest r :
  reads_on (rp_delivered r) stream -> replica_inv rest r ->
  exists rest', replica_inv rest' (replica_mq topic stream r) /\ rest ⊆ rest'.
Proof.
  revert rest r. induction stream as [|[[m|e] killed] stream IH]; intros rest r; [by eauto|..].
  - intros [Hn Hs] Hinv. pose proof (replica_fetch_inv rest m r Hinv Hn) as Hf. simpl.
    destruct killed; [exists (rest ++ [m]); split; [done|set_solver]|].
    assert (reads_on (rp_delivered (replica_consume topic m (replica_fetch topic m r))) stream) as Hs'
      by (by rewrite replica_consume_delivered).
    destruct (replica_consume_inv m rest _ Hf) as [[_ Hc]|Hc]; destruct (IH _ _ Hs' Hc) as (rest' & Hr & Hsub);
      exists rest'; (split; [done|set_solver]).
  - simpl. intros Hs Hinv. destruct killed; [by eauto|by apply IH].
Qed.

(** the first message of a partition stays the first *)
Definition first_of_partition m r : Prop :=
  m ∈ rp_delivered r /\
  forall m', m' ∈ rp_delivered r -> (position m').1 = (position m).1 -> ((position m).2 <= (position m').2)%Z.

Lemma replica_mq_first m stream r :
  reads_on (rp_delivered r) stream -> first_of_partition m r -> first_of_partition m (replica_mq topic stream r).
Proof.
  revert r. induction stream as [|[[x|e] killed] stream IH]; intros r; [done|..].
  - intros [(_ & _ & Hnew) Hs] [Hm Hf].
    assert (first_of_partition m (replica_fetch topic x r)) as Hf'.
    { split; simpl; [by apply elem_of_app; left|].
      intros m' [Hin| ->%list_elem_of_singleton]%elem_of_app Heq; [by apply Hf|].
      apply Z.lt_le_incl, Hnew; [done|by symmetry]. }
    simpl. destruct killed; [done|]. apply IH; [by rewrite replica_consume_delivered|].
    unfold first_of_partition. by rewrite replica_consume_delivered.
  - simpl. intros Hs Hf. destruct killed; [done|by apply IH].
Qed.

(** C28: what a slave's offsets say.  A message at or below the stored offset of
    its partition has been applied to the registry, so a restart loses no event.
    But an event that fails is never acknowledged, and the events that create a
    schema, a version or a view fail when they come a second time; and the
    message at the committed offset does come again: when the first message a
    slave gets holds such an event, no offset of its partition is stored as long
    as the slave runs, however many events it applies after it. *)
Theorem replica_offsets db stream :
  reads_on [] stream ->
  let r := replica_mq topic stream (replica_new db) in
  (forall m p o stored, m ∈ rp_delivered r -> position m = (p, o) -> kc_stored (rp_consumer r) !! p = Some stored ->
     (o <= stored)%Z -> exists event, event_of_message m = Ok event /\ (m, event) ∈ rp_applied r) /\
  (forall event d', wf (graph db) -> fits (graph db) -> creates event = true ->
     consume_event event db = (d', Ok ()) -> applied_before event (graph d')) /\
  (forall m event rest, stream = (Ok m, false) :: rest -> event_of_message m = Ok event ->
     wf (graph db) -> fits (graph db) -> applied_before event (graph db) ->
     kc_stored (rp_consumer r) !! (position m).1 = None).
Proof.
  intros Hs r. split_and!.
  - destruct (replica_mq_inv stream [] (replica_new db) Hs (replica_new_inv db)) as (rest & [Hc Ha He] & _).
    intros m p o stored Hm Hpos Hst Hle. destruct (Ha m) as [event Hin]; [by eapply consumer_stored_acked|].
    exists event. split; [by apply He|done].
  - intros event d' Hwf Hfits Hc Hrun. exact (wp_ok _ _ _ _ _ _ (applied_once event db Hwf Hfits Hc) Hrun).
  - intros m event rest -> Hev Hwf Hfits Hbefore. destruct Hs as [Hn Hs].
    pose proof (replica_fetch_inv [] m (replica_new db) (replica_new_inv db) Hn) as Hf.
    assert (replica_inv ([] ++ [m]) (replica_consume topic m (replica_fetch topic m (replica_new db)))) as Hm.
    { unfold replica_consume. destruct (consume_message _ m _) as [[d k] outcome] eqn:Hrun.
      destruct (consume_message_cases _ _ _ _ _ _ Hf Hrun) as [(ev & _ & Hev' & Hok & _)|(-> & Hout & _)].
      - assert (ev = event) as -> by congruence.
        destruct (wp_ok _ _ _ _ _ _ (applied_again_fails event db Hwf Hfits Hbefore) Hok).
      - destruct outcome; [done|]. rewrite app_nil_r. by destruct Hf; split. }
    set (r1 := replica_consume topic m (replica_fetch topic m (replica_new db))) in *.
    assert (rp_delivered r1 = [m]) as Hr1 by apply replica_consume_delivered.
    rewrite <- Hr1 in Hs. destruct (replica_mq_inv rest _ _ Hs Hm) as (rest' & [Hc _ _] & Hsub).
    destruct (replica_mq_first m rest r1 Hs) as [_ Hfirst].
    { split; rewrite Hr1; [apply list_elem_of_here|by intros m' ->%list_elem_of_singleton]. }
    eapply consumer_first_waits; [exact Hc|apply Hsub; apply list_elem_of_here|exact Hfirst].
Qed.
End offsets.

#[local] Instance demo_events : EventText := {
  event_to_string _ := "";
  event_from_str text :=
    if decide (text = "schema") then Ok (EvAddSchema demo_schema 7%N)
    else if decide (text = "version") then Ok (EvAddSchemaVersion 7%N (demo_version (ver 1 2 0)))
    else Err "expected value at line 1 column 1";
}.
Definition demo_event_at (offset : Z) (text : string) : CommMessage :=
  KafkaCommunicationMessage None (Some text) 0 offset.
(** the slave has added the schema before; the second event is new *)
Definition demo_events_again : list (result MessagingError CommMessage * bool) :=
  [(Ok (demo_event_at 4 "schema"), false); (Ok (demo_event_at 5 "version"), false)].
Definition demo_slave : Replica MemoryDatastore :=
  replica_mq "events" demo_events_again (replica_new demo_state).

Lemma replica_offsets_witness :
  kc_acked (rp_consumer demo_slave) = [demo_event_at 5 "version"] /\
  kc_stored (rp_consumer demo_slave) !! 0%Z = None.
Proof.
  split; [vm_eq|]. assert (reads_on [] demo_events_again) as Hs.
  { split; [|split; [|done]]; refine (bool_decide_unpack (next_offset _ _ _) _); reflexivity. }
  pose proof (replica_offsets "events" demo_state demo_events_again Hs) as (_ & _ & Hblocked).
  apply (Hblocked (demo_event_at 4 "schema") (EvAddSchema demo_schema 7%N) (tail demo_events_again) eq_refl);
    [vm_eq|apply demo_state_wf|apply demo_state_fits|vm_compute; by eexists].
Defined.
