(* ===== verification/TaskLimiter.v ===== *)
(** [TaskLimiter] of [crates/utils/src/task_limiter.rs]: a semaphore bounds the
    number of tasks that run at a time.  [run] waits for a permit and spawns the
    task, which gives the permit back when it ends. *)
From stdpp Require Import prelude list relations.
From S2P Require Import Prelude.

Section limiter.
Context {T : Type}.

(** the free permits, and the spawned tasks that hold one *)
Record TaskLimiter : Type := mkTaskLimiter { permits : nat; running : list T }.

Definition task_limiter_new (limit : nat) : TaskLimiter := mkTaskLimiter limit [].

(** [run], once [acquire_owned] can return; [None]: the caller waits *)
Definition limiter_run (task : T) (l : TaskLimiter) : option TaskLimiter :=
  match permits l with
  | O => None
  | S n => Some (mkTaskLimiter n (running l ++ [task]))
  end.

(** the [i]-th running task ends and drops its permit *)
Definition limiter_end (i : nat) (l : TaskLimiter) : option (T * TaskLimiter) :=
  task ← running l !! i; Some (task, mkTaskLimiter (S (permits l)) (delete i (running l))).

Inductive limiter_step : TaskLimiter -> TaskLimiter -> Prop :=
| limiter_step_run task l l' : limiter_run task l = Some l' -> limiter_step l l'
| limiter_step_end i task l l' : limiter_end i l = Some (task, l') -> limiter_step l l'.

Lemma limiter_step_permits l l' :
  limiter_step l l' -> permits l' + length (running l') = permits l + length (running l).
Proof.
  intros [task l1 l2 Hrun|i task l1 l2 Hend].
  - unfold limiter_run in Hrun. destruct (permits l1) as [|n]; [done|]. injection Hrun as <-.
    simpl. rewrite length_app. simpl. lia.
  - unfold limiter_end in Hend. destruct (running l1 !! i) as [x|] eqn:Hi; [|done].
    injection Hend as -> <-. simpl. rewrite length_delete by (by eexists).
    apply lookup_lt_Some in Hi. lia.
Qed.

Lemma limiter_run_permits task l l' :
  limiter_run task l = Some l' -> permits l' + length (running l') = permits l + length (running l).
Proof. intros Hrun. by eapply limiter_step_permits, limiter_step_run. Qed.
Lemma limiter_end_permits i task l l' :
  limiter_end i l = Some (task, l') ->
  permits l' + length (running l') = permits l + length (running l).
Proof. intros Hend. by eapply limiter_step_permits, limiter_step_end. Qed.
Lemma limiter_end_running i task l l' :
  limiter_end i l = Some (task, l') ->
  running l !! i = Some task /\ running l' = delete i (running l).
Proof. unfold limiter_end. destruct (running l !! i); intros [= <- <-]; done. Qed.

Lemma limiter_end_sub i (t : T) l l' :
  limiter_end i l = Some (t, l') -> t ∈ running l /\ running l' ⊆ running l.
Proof.
  intros [Hi ->]%limiter_end_running. split; [by eapply list_elem_of_lookup_2|].
  intros u. apply list_elem_of_delete_inv.
Qed.

Lemma limiter_steps_permits l l' :
  rtc limiter_step l l' -> permits l' + length (running l') = permits l + length (running l).
Proof.
  induction 1 as [|l1 l2 l3 Hstep _ IH]; [done|]. rewrite IH. by apply limiter_step_permits.
Qed.

(** C20: at most [limit] tasks run at a time, and a caller of [run] waits only
    while exactly that many do. *)
Theorem limiter_bound limit l :
  rtc limiter_step (task_limiter_new limit) l ->
  length (running l) <= limit /\
  (forall task, limiter_run task l = None <-> length (running l) = limit).
Proof.
  intros Hsteps.
  assert (permits l + length (running l) = limit) as Hsum.
  { rewrite (limiter_steps_permits _ _ Hsteps). simpl. lia. }
  split; [lia|]. intros task. unfold limiter_run. destruct (permits l) as [|n]; split; try done; lia.
Qed.
End limiter.
Arguments TaskLimiter : clear implicits.

Lemma limiter_bound_witness :
  length (running (mkTaskLimiter 1 [0])) <= 2 /\
  (forall task, limiter_run task (mkTaskLimiter 1 [0]) = None <->
     length (running (mkTaskLimiter 1 [0])) = 2).
Proof.
  apply (limiter_bound 2 (mkTaskLimiter 1 [0])). apply rtc_once.
  by apply (limiter_step_run 0).
Defined.
