(* ===== verification/Lru.v ===== *)
(** The [lru_cache] crate, as the data router and the query router use it: a
    bounded map from schema ids. *)
From stdpp Require Import prelude gmap fin_maps.
From S2P Require Import Prelude Externals.

(** [lru_cache::LruCache<Uuid, V>] *)
Class LruLib (V C : Type) := {
  lru_new : Z -> C;
  lru_get_mut : Uuid -> C -> option V * C;
  lru_insert : Uuid -> V -> C -> C;
}.
(** a cache holds some of what was inserted, a later value replacing an earlier
    one; looking an entry up only changes its age.  In a cache with room for an
    entry, the one that was inserted last is there. *)
Class LruLaws (V C : Type) `{LruLib V C} := {
  lru_entries : C -> gmap Uuid V;
  lru_new_empty n : lru_entries (lru_new n) = ∅;
  lru_get_entries k c : (lru_get_mut k c).1 = lru_entries c !! k;
  lru_get_keeps k c : lru_entries (lru_get_mut k c).2 = lru_entries c;
  lru_insert_sub k v c : lru_entries (lru_insert k v c) ⊆ <[k := v]> (lru_entries c);
  lru_room : C -> Prop;
  lru_new_room n : (0 < n)%Z -> lru_room (lru_new n);
  lru_get_room k c : lru_room c -> lru_room (lru_get_mut k c).2;
  lru_insert_room k v c : lru_room c -> lru_room (lru_insert k v c);
  lru_insert_there k v c : lru_room c -> lru_entries (lru_insert k v c) !! k = Some v;
}.

(** a cache that never evicts *)
#[export] Instance lru_inst V : LruLib V (gmap Uuid V) := {
  lru_new := fun _ => ∅;
  lru_get_mut := fun k c => (c !! k, c);
  lru_insert := fun k v c => <[k := v]> c;
}.
#[export] Instance lru_laws_inst V : LruLaws V (gmap Uuid V).
Proof.
  refine {| lru_entries := fun c => c; lru_room := fun _ => True |}; intros; try done.
  apply lookup_insert_eq.
Defined.
