(* ===== verification/MessageTypes.v ===== *)
(** The messages the services exchange, [crates/utils/src/message_types.rs], and
    the clock of [crates/utils/src/lib.rs]. *)
From stdpp Require Import prelude gmap strings list.
From S2P Require Import Prelude Json Externals AckQueue.

(** [RawValue]s are the verbatim JSON text *)
Record DataRouterInsertMessage : Type := mkDataRouterInsertMessage {
  dr_object_id : Uuid; dr_schema_id : Uuid; dr_data : string }.
Record BorrowedInsertMessage : Type := mkBorrowedInsertMessage {
  bi_object_id : Uuid; bi_schema_id : Uuid; bi_timestamp : Z; bi_data : string }.
Record OwnedInsertMessage : Type := mkOwnedInsertMessage {
  oi_object_id : Uuid; oi_schema_id : Uuid; oi_timestamp : Z; oi_data : Value }.

(** the serde-derived readers and writer of the messages *)
Class MessageText := {
  insert_message_from_str : string -> result string DataRouterInsertMessage;
  insert_messages_from_str : string -> result string (list DataRouterInsertMessage);
  borrowed_to_string : BorrowedInsertMessage -> result string string;
  borrowed_from_str : string -> result string BorrowedInsertMessage;
}.

(** [BorrowedInsertMessage::to_owned]; [None] is its [expect] *)
Definition borrowed_to_owned `{JsonText} (m : BorrowedInsertMessage) : option OwnedInsertMessage :=
  mkOwnedInsertMessage (bi_object_id m) (bi_schema_id m) (bi_timestamp m) <$>
    result_ok (json_parse (bi_data m)).

(** [current_timestamp]: the milliseconds since the epoch, [as i64] *)
Definition current_timestamp (millis : Z) : Z := i64_wrap millis.

(** ** Instances of the text formats *)

(** message texts of the demo: an array of two, an object *)
#[export] Instance message_text_inst : MessageText := {
  insert_message_from_str := fun s => Ok (mkDataRouterInsertMessage 1 7 s);
  insert_messages_from_str := fun s =>
    Ok [mkDataRouterInsertMessage 1 7 s; mkDataRouterInsertMessage 2 8 s];
  borrowed_to_string := fun m => Ok (bi_data m);
  borrowed_from_str := fun s => Ok (mkBorrowedInsertMessage 1 7 0 s);
}.
