(* ===== verification/Benchmark.v ===== *)
(** The load generators, [src/benchmarking/src]: sample documents are wrapped in
    messages for the data router and published, each by a task of its own, to
    Kafka or to RabbitMQ; [main] waits for the status of every message. *)
From stdpp Require Import prelude gmap strings list relations.
From S2P Require Import Prelude Json Externals Instances Messaging MessagingClients MessageTypes.

(** ** Messages ([utils.rs]) *)

(** [Message]; its order group is the schema *)
Record BenchMessage : Type := mkBenchMessage {
  bm_object_id : Uuid;
  bm_schema_id : Uuid;
  bm_order_group_id : option Uuid;
  bm_data : Value;
}.
Definition bench_message_new (new_v4 schema_id : Uuid) (data : Value) : BenchMessage :=
  mkBenchMessage new_v4 schema_id (Some schema_id) data.

(** the serde-derived text of a message *)
Class BenchText := { bench_to_vec : BenchMessage -> result string string }.

(** the closure of [generate_messages]: its captured index, and the random ids *)
Record Generator : Type := mkGenerator {
  gn_samples : list Value;
  gn_schema_id : Uuid;
  gn_index : nat;
  gn_ids : nat -> Uuid;
  gn_drawn : nat;
}.

Section generator.
Context `{JsonText, BenchText}.

(** [load_samples]: an [anyhow] chain, outermost context first *)
Definition load_samples (sample_data : list string) : result (list string) (list Value) :=
  try_map (fun data => map_err (fun e => ["invalid sample"; e]) (json_parse data)) sample_data.

Definition generate_messages (samples : list Value) (schema_id : Uuid) (ids : nat -> Uuid) : Generator :=
  mkGenerator samples schema_id 0 ids 0.

(** one call of the closure; its [expect]s are the only failures *)
Definition next_message : M Generator (Fault (list string)) (Uuid * string) := fun g =>
  match gn_samples g !! gn_index g with
  | None => (g, Err Panicked)
  | Some sample =>
      let g' := mkGenerator (gn_samples g) (gn_schema_id g) (S (gn_index g) `mod` length (gn_samples g))
                  (gn_ids g) (S (gn_drawn g)) in
      let message := bench_message_new (gn_ids g (gn_drawn g)) (gn_schema_id g) sample in
      match bench_to_vec message with
      | Ok text => (g', Ok (bm_object_id message, text))
      | Err _ => (g', Err Panicked)
      end
  end.
End generator.

(** ** Publishing one message *)

(** [basic_publish] and the confirmation it returns, of [lapin] *)
Class AmqpConfirm (B : Type) := {
  basic_publish : string -> string -> string -> M B string ();
  await_confirm : M B string ();
}.

(** [upload_to_kafka.rs]: keyed by the object *)
Definition kafka_upload `{UuidLib} {B} `{Broker B} (topic : string) (message : Uuid * string) : M B (list string) () :=
  with_err (fun e => ["failed to send message"; e])
    (kafka_produce topic (uuid_to_string message.1) message.2).

(** [upload_to_rabbitmq.rs]: routed by the name of the queue *)
Definition rabbitmq_upload {B} `{AmqpConfirm B} (exchange queue : string) (message : Uuid * string) :
    M B (list string) () :=
  with_err (fun e => ["failed to deliver message"; e]) (basic_publish exchange queue message.2) ;;
  with_err (fun e => ["failed to confirm message"; e]) await_confirm.

(** ** The upload *)

Section upload.
Context `{BenchText} {B : Type} (publish : Uuid * string -> M B (list string) ()).
Context (count window : nat).

(** the generator and what the spawning loop has left; the tasks that have not
    published, the statuses of those that have and wait to send it, the channel,
    and how many statuses [main] has received; the broker, and how [main] ended *)
Record Upload : Type := mkUpload {
  up_generator : Generator;
  up_left : nat;
  up_tasks : list (Uuid * string);
  up_waiting : list (result (list string) ());
  up_channel : list (result (list string) ());
  up_received : nat;
  up_broker : B;
  up_outcome : option (result (Fault (list string)) ());
}.

(** [tokio]'s [channel] panics without capacity *)
Definition upload_new (g : Generator) (b : B) : Upload :=
  mkUpload g count [] [] [] 0 b (if decide (window = 0) then Some (Err Panicked) else None).

Inductive upload_step (u : Upload) : Upload -> Prop :=
| up_spawn n g message :
    up_outcome u = None -> up_left u = S n -> next_message (up_generator u) = (g, Ok message) ->
    upload_step u (mkUpload g n (up_tasks u ++ [message]) (up_waiting u) (up_channel u) (up_received u)
      (up_broker u) None)
| up_spawn_panic n g e :
    up_outcome u = None -> up_left u = S n -> next_message (up_generator u) = (g, Err e) ->
    upload_step u (mkUpload g n (up_tasks u) (up_waiting u) (up_channel u) (up_received u)
      (up_broker u) (Some (Err e)))
| up_publish i message b r :
    up_outcome u = None -> up_tasks u !! i = Some message -> publish message (up_broker u) = (b, r) ->
    upload_step u (mkUpload (up_generator u) (up_left u) (delete i (up_tasks u)) (up_waiting u ++ [r])
      (up_channel u) (up_received u) b None)
| up_report i r :
    up_outcome u = None -> up_waiting u !! i = Some r -> length (up_channel u) < window ->
    upload_step u (mkUpload (up_generator u) (up_left u) (up_tasks u) (delete i (up_waiting u))
      (up_channel u ++ [r]) (up_received u) (up_broker u) None)
| up_receive r rest :
    up_outcome u = None -> up_left u = 0 -> up_received u < count -> up_channel u = r :: rest ->
    upload_step u (mkUpload (up_generator u) 0 (up_tasks u) (up_waiting u) rest (S (up_received u))
      (up_broker u) (match r with Ok _ => None | Err e => Some (Err (Failed e)) end))
| up_finish :
    up_outcome u = None -> up_left u = 0 -> up_received u = count ->
    upload_step u (mkUpload (up_generator u) 0 (up_tasks u) (up_waiting u) (up_channel u) (up_received u)
      (up_broker u) (Some (Ok ()))).

(** the next step, chosen by a scheduler *)
Inductive UploadChoice : Type := DoSpawn | DoPublish (i : nat) | DoReport (i : nat) | DoReceive | DoFinish.

Definition take_upload (choice : UploadChoice) (u : Upload) : option Upload :=
  match up_outcome u, choice with
  | Some _, _ => None
  | None, DoSpawn =>
      match up_left u, next_message (up_generator u) with
      | S n, (g, Ok m) => Some (mkUpload g n (up_tasks u ++ [m]) (up_waiting u) (up_channel u) (up_received u)
                                  (up_broker u) None)
      | S n, (g, Err e) => Some (mkUpload g n (up_tasks u) (up_waiting u) (up_channel u) (up_received u)
                                   (up_broker u) (Some (Err e)))
      | O, _ => None
      end
  | None, DoPublish i =>
      m ← up_tasks u !! i;
      let '(b, r) := publish m (up_broker u) in
      Some (mkUpload (up_generator u) (up_left u) (delete i (up_tasks u)) (up_waiting u ++ [r])
              (up_channel u) (up_received u) b None)
  | None, DoReport i =>
      r ← up_waiting u !! i;
      if length (up_channel u) <? window then
        Some (mkUpload (up_generator u) (up_left u) (up_tasks u) (delete i (up_waiting u))
                (up_channel u ++ [r]) (up_received u) (up_broker u) None)
      else None
  | None, DoReceive =>
      match up_left u, up_channel u with
      | O, r :: rest =>
          if up_received u <? count then
            Some (mkUpload (up_generator u) 0 (up_tasks u) (up_waiting u) rest (S (up_received u)) (up_broker u)
                    (match r with Ok _ => None | Err e => Some (Err (Failed e)) end))
          else None
      | _, _ => None
      end
  | None, DoFinish =>
      if (up_left u =? 0) && (up_received u =? count) then
        Some (mkUpload (up_generator u) 0 (up_tasks u) (up_waiting u) (up_channel u) (up_received u)
                (up_broker u) (Some (Ok ())))
      else None
  end.

Lemma take_upload_step choice u u' : take_upload choice u = Some u' -> upload_step u u'.
Proof.
  unfold take_upload. destruct (up_outcome u) eqn:Ho; [done|]. destruct choice as [|i|i| |].
  - destruct (up_left u) eqn:Hn, (next_message (up_generator u)) as [g [m|e]] eqn:Hm; intros [= <-];
      [by eapply up_spawn|by eapply up_spawn_panic].
  - destruct (up_tasks u !! i) as [m|] eqn:Hi; simpl; [|done]. destruct (publish m (up_broker u)) as [b r] eqn:Hp.
    intros [= <-]. by eapply up_publish.
  - destruct (up_waiting u !! i) as [r|] eqn:Hi; simpl; [|done].
    destruct (length (up_channel u) <? window) eqn:Hw; [|done]. intros [= <-].
    apply up_report; [done..|]. by apply Nat.ltb_lt.
  - destruct (up_left u) eqn:Hn; [|done]. destruct (up_channel u) as [|r rest] eqn:Hch; [done|].
    destruct (up_received u <? count) eqn:Hlt; [|done]. intros [= <-].
    apply up_receive; [done..| |done]. by apply Nat.ltb_lt.
  - destruct (up_left u =? 0) eqn:Hn; [|done]. destruct (up_received u =? count) eqn:Hc; [|done]. intros [= <-].
    apply up_finish; [done|by apply Nat.eqb_eq..].
Qed.

Definition run_upload (l : list UploadChoice) (u : Upload) : option Upload :=
  foldr (fun choice k u => u' ← take_upload choice u; k u') Some l u.

Lemma run_upload_steps l u u' : run_upload l u = Some u' -> nsteps upload_step (length l) u u'.
Proof.
  unfold run_upload. revert u. induction l as [|choice l IH]; intros u; simpl; [intros [= ->]; constructor|].
  destruct (take_upload choice u) as [u1|] eqn:Hc; simpl; [|done]. intros Hl%IH.
  econstructor; [by eapply take_upload_step|done].
Qed.

(** ** Reference: what is generated *)

(** the messages of [n] calls *)
Fixpoint draw (n : nat) (g : Generator) : option (list (Uuid * string) * Generator) :=
  match n with
  | O => Some ([], g)
  | S n => '(l, g1) ← draw n g;
           match next_message g1 with (g2, Ok m) => Some (l ++ [m], g2) | _ => None end
  end.

(** the [i]-th message wraps the samples in turn *)
Definition nth_message (g : Generator) (i : nat) : option BenchMessage :=
  bench_message_new (gn_ids g (gn_drawn g + i)) (gn_schema_id g) <$>
    gn_samples g !! ((gn_index g + i) `mod` length (gn_samples g)).

Lemma draw_state n g l g' :
  gn_index g < length (gn_samples g) -> draw n g = Some (l, g') ->
  gn_samples g' = gn_samples g /\ gn_schema_id g' = gn_schema_id g /\ gn_ids g' = gn_ids g /\
  gn_drawn g' = gn_drawn g + n /\ gn_index g' = (gn_index g + n) `mod` length (gn_samples g) /\ length l = n.
Proof.
  intros Hg. revert l g'. induction n as [|n IH]; intros l g'; simpl.
  - intros [= <- <-]. rewrite !Nat.add_0_r, Nat.mod_small by done. by split_and!.
  - destruct (draw n g) as [[l1 g1]|] eqn:Hd; simpl; [|done].
    destruct (IH l1 g1 eq_refl) as (Hs & Hi & Hids & Hdr & Hix & Hlen).
    destruct (next_message g1) as [g2 [m|e]] eqn:Hm; [|done]. intros [= <- <-].
    unfold next_message in Hm. case_match; [|done]. case_match; simplify_eq/=.
    rewrite Hs, Hi, Hids, Hdr, Hix, length_app. simpl. split_and!; [done..|lia| |lia].
    rewrite <- Nat.add_1_r, Nat.Div0.add_mod_idemp_l. f_equal. lia.
Qed.

Lemma draw_length n g l g' : draw n g = Some (l, g') -> length l = n.
Proof.
  revert l g'. induction n as [|n IH]; intros l g'; simpl; [by intros [= <- _]|].
  destruct (draw n g) as [[l1 g1]|]; simpl; [|done]. specialize (IH l1 g1 eq_refl).
  destruct (next_message g1) as [g2 [m|e]]; [|done]. intros [= <- _]. rewrite length_app. simpl. lia.
Qed.

Lemma draw_lookup n g l g' i m :
  gn_index g < length (gn_samples g) -> draw n g = Some (l, g') -> l !! i = Some m ->
  exists b, nth_message g i = Some b /\ bm_object_id b = m.1 /\ bench_to_vec b = Ok m.2.
Proof.
  intros Hg. revert l g'. induction n as [|n IH]; intros l g'; simpl; [by intros [= <- _]|].
  destruct (draw n g) as [[l1 g1]|] eqn:Hd; simpl; [|done].
  destruct (draw_state _ _ _ _ Hg Hd) as (Hs & Hi & Hids & Hdr & Hix & Hlen).
  destruct (next_message g1) as [g2 [x|e]] eqn:Hm; [|done]. intros [= <- <-].
  intros [Hl|[Hle Hl]]%lookup_app_Some; [by eapply IH|].
  apply list_lookup_singleton_Some in Hl as [Hi0 ->].
  unfold next_message in Hm. case_match eqn:Hsample; [|done]. case_match eqn:Htext; simplify_eq/=.
  assert (i = length l1) as -> by lia. unfold nth_message.
  rewrite Hs, Hix in Hsample. rewrite Hdr, Hids, Hi in *. rewrite Hsample. by eexists.
Qed.

(** ** What an upload does *)

Context `{!Broker B, !BrokerLaws B} (entry : Uuid * string -> string * string * string).
Hypothesis publish_law : forall m b,
  wp (publish m) b (fun _ b' => sent b' = sent b ++ [entry m]) (fun _ _ => True).
Implicit Types (u : Upload).

Record upload_inv (g0 : Generator) (b0 : B) u : Prop := {
  uv_drawn : exists l, draw (count - up_left u) g0 = Some (l, up_generator u) /\ exists done,
    l ≡ₚ up_tasks u ++ done /\ length done = length (up_waiting u) + length (up_channel u) + up_received u /\
    (Forall (fun r => is_ok r = true) (up_waiting u ++ up_channel u) ->
       sent (up_broker u) ≡ₚ sent b0 ++ (entry <$> done));
  uv_left : up_left u <= count;
  uv_window : window <> 0;
}.

Definition delivered (g0 : Generator) (b0 : B) (b : B) : Prop :=
  exists l g, draw count g0 = Some (l, g) /\ sent b ≡ₚ sent b0 ++ (entry <$> l).

Lemma move_out {A} (l k : list A) i x : l !! i = Some x -> l ++ k ≡ₚ delete i l ++ (k ++ [x]).
Proof.
  intros Hi%delete_Permutation. etrans; [apply Permutation_app_tail, Hi|]. simpl.
  by rewrite Permutation_cons_append, <- app_assoc.
Qed.

Lemma upload_step_inv g0 b0 u u' :
  upload_inv g0 b0 u -> upload_step u u' ->
  match up_outcome u' with
  | None => upload_inv g0 b0 u'
  | Some (Ok _) => delivered g0 b0 (up_broker u')
  | Some (Err _) => True
  end.
Proof.
  intros [(l & Hdraw & published & Hl & Hlen & Hsent) Hleft Hwin] Hstep.
  destruct Hstep as [n g m Ho Hn Hm|n g e Ho Hn Hm|i m b r Ho Hi Hrun|i r Ho Hi Hw|r rest Ho Hz Hlt Hch|Ho Hz Hrec];
    simpl; [|done| | | |].
  - split; simpl; [|lia|done]. exists (l ++ [m]). split.
    + replace (count - n) with (S (count - up_left u)) by lia. simpl. by rewrite Hdraw; simpl; rewrite Hm.
    + exists published. split_and!; [|done|done]. rewrite Hl, <- !app_assoc.
      by rewrite (Permutation_app_comm published [m]).
  - split; simpl; [|done|done]. exists l. split; [done|]. exists (published ++ [m]). split_and!.
    + etrans; [exact Hl|]. by apply move_out.
    + rewrite !length_app. simpl. lia.
    + rewrite <- app_assoc, !Forall_app, Forall_singleton. intros (Hwait & Hr & Hchan). destruct r as [[]|]; [|done].
      pose proof (publish_law m (up_broker u)) as Hp. unfold wp in Hp. rewrite Hrun in Hp.
      rewrite Hp, fmap_app, Hsent, <- app_assoc by (by apply Forall_app). done.
  - split; simpl; [|done|done]. exists l. split; [done|]. exists published. split_and!; [done| |].
    + rewrite length_app, length_delete by (by eexists). simpl. apply lookup_lt_Some in Hi. lia.
    + intros Hall. apply Hsent. by rewrite (move_out _ _ _ _ Hi).
  - destruct r as [[]|e]; [|done]. split; simpl; [|lia|done]. exists l. rewrite Hz in Hdraw. split; [done|].
    exists published. rewrite Hch in Hlen, Hsent. split_and!; [done|simpl in Hlen; lia|].
    intros Hall. apply Hsent. apply Forall_app in Hall as [? ?]. apply Forall_app. split; [done|]. by constructor.
  - rewrite Hz, Nat.sub_0_r in Hdraw. exists l, (up_generator u). split; [done|].
    assert (length l = length (up_tasks u) + length published) as Hll by (by rewrite Hl, length_app).
    assert (length l <= count) as Hcount by (by apply draw_length in Hdraw; lia).
    destruct (up_waiting u); [|simpl in Hlen; lia]. destruct (up_channel u); [|simpl in Hlen; lia].
    destruct (up_tasks u); [|simpl in Hll, Hlen; lia]. rewrite Hl. by apply Hsent.
Qed.

Definition upload_ok (g0 : Generator) (b0 : B) u : Prop :=
  match up_outcome u with
  | None => upload_inv g0 b0 u
  | Some (Ok _) => delivered g0 b0 (up_broker u)
  | Some (Err _) => True
  end.

Lemma upload_step_running u u' : upload_step u u' -> up_outcome u = None.
Proof. by destruct 1. Qed.

Lemma upload_new_ok g b : upload_ok g b (upload_new g b).
Proof.
  unfold upload_ok, upload_new. simpl. case_decide as Hw; [done|]. split; simpl; [|lia|done].
  exists []. rewrite Nat.sub_diag. split; [done|]. exists []. simpl. by rewrite app_nil_r.
Qed.

Lemma upload_steps_ok g b u : rtc upload_step (upload_new g b) u -> upload_ok g b u.
Proof.
  revert u. apply rtc_ind_r; [apply upload_new_ok|]. intros u u' _ Hstep IH.
  unfold upload_ok in IH. rewrite (upload_step_running _ _ Hstep) in IH. by eapply upload_step_inv.
Qed.

(** what is left to do *)
Definition upload_measure u : nat :=
  match up_outcome u with
  | Some _ => 0
  | None => S (4 * up_left u + 3 * length (up_tasks u) + 2 * length (up_waiting u) + length (up_channel u))
  end.

Lemma upload_step_measure u u' : upload_step u u' -> upload_measure u' < upload_measure u.
Proof.
  unfold upload_measure.
  destruct 1 as [n g m Ho Hn Hm|n g e Ho Hn Hm|i m b r Ho Hi Hrun|i r Ho Hi Hw|r rest Ho Hz Hlt Hch|Ho Hz Hrec];
    rewrite Ho; simpl.
  - rewrite Hn, length_app. simpl. lia.
  - lia.
  - rewrite length_app, length_delete by (by eexists). apply lookup_lt_Some in Hi. simpl. lia.
  - rewrite length_app, length_delete by (by eexists). apply lookup_lt_Some in Hi. simpl. lia.
  - rewrite Hch. simpl. destruct r; simpl; lia.
  - lia.
Qed.

Lemma upload_nsteps_measure n u u' : nsteps upload_step n u u' -> n + upload_measure u' <= upload_measure u.
Proof.
  induction 1 as [u|n u u1 u' Hstep _ IH]; [lia|]. apply upload_step_measure in Hstep. lia.
Qed.

(** an upload that has no outcome can go on *)
Lemma upload_progress g b u : upload_ok g b u -> up_outcome u = None -> exists u', upload_step u u'.
Proof.
  unfold upload_ok. intros Hinv Ho. rewrite Ho in Hinv.
  destruct Hinv as [(l & Hdraw & published & Hl & Hlen & _) Hleft Hwin].
  destruct (up_left u) as [|n] eqn:Hn.
  - destruct (decide (up_received u < count)) as [Hlt|Hge].
    + destruct (up_channel u) as [|r rest] eqn:Hch; [|by eexists; eapply up_receive].
      destruct (up_waiting u) as [|r rest] eqn:Hwait.
      * destruct (up_tasks u) as [|m tasks] eqn:Htasks.
        -- apply draw_length in Hdraw. rewrite Hl in Hdraw. simpl in *. lia.
        -- destruct (publish m (up_broker u)) as [b' r] eqn:Hp. eexists. apply (up_publish u 0 m b' r); [done| |done].
           by rewrite Htasks.
      * eexists. apply (up_report u 0 r); [done|by rewrite Hwait|rewrite Hch; simpl; lia].
    + eexists. apply up_finish; [done|done|].
      apply draw_length in Hdraw. assert (length l = length (up_tasks u) + length published) by (by rewrite Hl, length_app).
      lia.
  - destruct (next_message (up_generator u)) as [g' [m|e]] eqn:Hm; eexists;
      [by eapply up_spawn|by eapply up_spawn_panic].
Qed.

Lemma upload_terminates g b u :
  rtc upload_step (upload_new g b) u -> exists u', rtc upload_step u u' /\ is_Some (up_outcome u').
Proof.
  remember (upload_measure u) as n eqn:Hn. revert u Hn. induction n as [n IH] using lt_wf_ind. intros u -> Hsteps.
  destruct (up_outcome u) as [o|] eqn:Ho; [exists u; by rewrite Ho|].
  destruct (upload_progress g b u (upload_steps_ok g b u Hsteps) Ho) as [u1 Hstep].
  destruct (IH (upload_measure u1) (upload_step_measure _ _ Hstep) u1 eq_refl) as (u' & Hsteps' & Ho').
  - by eapply rtc_r.
  - exists u'. split; [by eapply rtc_l|done].
Qed.

(** C21: every upload ends, within four steps per message and one more, whatever
    the order in which its tasks publish and report; the bounded channel of
    statuses never blocks it for good.  And if it ends well, then exactly the
    generated messages have been published, each once: message [i] wraps sample
    [i] modulo the number of samples under an object id of its own. *)
Theorem upload_ends g b u n :
  gn_index g < length (gn_samples g) -> nsteps upload_step n (upload_new g b) u ->
  n <= 4 * count + 1 /\ (exists u', rtc upload_step u u' /\ is_Some (up_outcome u')) /\
  (up_outcome u = Some (Ok ()) -> exists l, length l = count /\
     sent (up_broker u) ≡ₚ sent b ++ (entry <$> l) /\
     forall i m, l !! i = Some m ->
       exists message, nth_message g i = Some message /\ bm_object_id message = m.1 /\ bench_to_vec message = Ok m.2).
Proof.
  intros Hg Hn. assert (rtc upload_step (upload_new g b) u) as Hsteps by (apply rtc_nsteps; by eexists). split_and!.
  - apply upload_nsteps_measure in Hn. unfold upload_measure at 2, upload_new in Hn. simpl in Hn.
    case_decide; lia.
  - by eapply upload_terminates.
  - intros Ho. pose proof (upload_steps_ok g b u Hsteps) as Hok. unfold upload_ok in Hok. rewrite Ho in Hok.
    destruct Hok as (l & g' & Hdraw & Hsent). exists l. split_and!; [by eapply draw_length|done|].
    intros i m Hi. by eapply draw_lookup.
Qed.
End upload.

(** *** The two uploaders *)

Section uploaders.
Context {B : Type} `{BrokerLaws B, UuidLib}.

Lemma kafka_upload_law topic m (b : B) :
  wp (kafka_upload topic m) b (fun _ b' => sent b' = sent b ++ [(topic, uuid_to_string m.1, m.2)]) (fun _ _ => True).
Proof. apply wp_with_err. eapply wp_mono; [apply kafka_produce_law|done..]. Qed.

(** a confirmed publication has reached the broker *)
Class AmqpConfirmLaws `{AmqpConfirm B} : Prop := {
  amqp_confirmed exchange key data b :
    wp (basic_publish exchange key data ≫= fun _ => await_confirm) b
      (fun _ b' => sent b' = sent b ++ [(exchange, key, data)]) (fun _ _ => True);
}.

Lemma rabbitmq_upload_law `{AmqpConfirmLaws} exchange queue m (b : B) :
  wp (rabbitmq_upload exchange queue m) b (fun _ b' => sent b' = sent b ++ [(exchange, queue, m.2)]) (fun _ _ => True).
Proof.
  pose proof (amqp_confirmed exchange queue m.2 b) as Hc. unfold rabbitmq_upload, wp, with_err, mbind, M_bind in *.
  destruct (basic_publish exchange queue m.2 b) as [b1 [[]|e]]; simpl; [|done].
  by destruct (await_confirm b1) as [b2 [[]|e]].
Qed.
End uploaders.

(** ** [main] up to the spawning loop *)

Section mains.
Context {B : Type} `{BrokerClients B, JsonText, BenchText}.

(** the channel comes first, then the client, then the samples *)
Definition upload_main (create : M B (list string) ()) (sample_data : list string) (schema_id : Uuid)
    (ids : nat -> Uuid) (count window : nat) : M B (Fault (list string)) Upload :=
  (if decide (window = 0) then fail Panicked else mret ()) ;;
  with_err Failed create ;;
  samples ← lift (map_err Failed (load_samples sample_data));
  reads (fun b => Ok (upload_new count window (generate_messages samples schema_id ids) b)).

(** [upload_to_kafka.rs] *)
Definition upload_to_kafka (brokers : string) : list string -> Uuid -> (nat -> Uuid) -> nat -> nat ->
    M B (Fault (list string)) Upload :=
  upload_main (with_err (fun e => ["Producer creation error"; e]) (kafka_create (publisher_settings brokers))).
(** [upload_to_rabbitmq.rs] *)
Definition upload_to_rabbitmq (address : string) : list string -> Uuid -> (nat -> Uuid) -> nat -> nat ->
    M B (Fault (list string)) Upload :=
  upload_main (with_err (fun e => ["connection error"; e]) (amqp_connect address) ;;
               with_err (fun e => [e]) (amqp_open_channel address)).

(** a spawning loop that is reached, with any sample files at all, is one that
    [upload_ends] is about *)
Lemma upload_main_starts create sample_data schema_id ids count window (b : B) :
  sample_data <> [] ->
  wp (upload_main create sample_data schema_id ids count window) b
    (fun u b' => exists samples, try_map json_parse sample_data = Ok samples /\
       u = upload_new count window (generate_messages samples schema_id ids) b' /\ up_outcome u = None /\
       gn_index (up_generator u) < length (gn_samples (up_generator u)))
    (fun _ _ => True).
Proof.
  intros Hdata. unfold upload_main. case_decide as Hw; [done|]. apply wp_bind, wp_ret. apply wp_bind, wp_with_err.
  apply wp_intro; [|done]. intros b' _ _. apply wp_bind, wp_lift; [|done]. intros samples Hs.
  apply wp_reads; [|done]. intros u [= <-]. exists samples. unfold upload_new. rewrite decide_False by done.
  assert (try_map json_parse sample_data = Ok samples) as Hparse.
  { apply try_map_Ok. unfold load_samples in Hs. destruct (try_map _ sample_data) as [l|e] eqn:Hl; [|done].
    injection Hs as <-. apply try_map_Ok in Hl. eapply Forall2_impl; [exact Hl|]. intros x v. simpl.
    destruct (json_parse x); simpl; congruence. }
  split_and!; [done..|]. simpl. apply try_map_Ok, Forall2_length in Hparse. rewrite <- Hparse.
  destruct sample_data; simpl; [done|lia].
Qed.
End mains.

(** ** A run: two messages, a window of one *)

#[local] Instance run_bench_text : BenchText := { bench_to_vec := fun m => Ok (uuid_to_string (bm_object_id m)) }.
Definition bench_generator : Generator := generate_messages [Null; VBool true] 7%N (fun i => N.of_nat i).
Definition bench_broker : MemoryBroker := mkMemoryBroker ["input"] [].
Definition bench_schedule : list UploadChoice :=
  [DoSpawn; DoSpawn; DoPublish 1; DoPublish 0; DoReport 0; DoReceive; DoReport 0; DoReceive; DoFinish].
Definition bench_done := Eval vm_compute in
  default (upload_new 2 1 bench_generator bench_broker)
    (run_upload (kafka_upload "input") 2 1 bench_schedule (upload_new 2 1 bench_generator bench_broker)).

Lemma upload_ends_witness :
  9 <= 4 * 2 + 1 /\
  (exists u', rtc (upload_step (kafka_upload "input") 2 1) bench_done u' /\ is_Some (up_outcome u')) /\
  (up_outcome bench_done = Some (Ok ()) -> exists l, length l = 2 /\
     sent (up_broker bench_done) ≡ₚ sent bench_broker ++ ((fun m => ("input", uuid_to_string m.1, m.2)) <$> l) /\
     forall i m, l !! i = Some m -> exists message, nth_message bench_generator i = Some message /\
       bm_object_id message = m.1 /\ bench_to_vec message = Ok m.2).
Proof.
  apply (upload_ends (kafka_upload "input") 2 1 (fun m => ("input", uuid_to_string m.1, m.2))
    (kafka_upload_law "input") bench_generator bench_broker bench_done 9).
  - apply Nat.ltb_lt. vm_eq.
  - apply (run_upload_steps _ _ _ bench_schedule). vm_eq.
Defined.

Example bench_outcome : up_outcome bench_done = Some (Ok ()).
Proof. reflexivity. Qed.
