(* ===== verification/DataRouter.v ===== *)
(** The data router, [crates/data-router/src/main.rs]: every input message is
    routed to the topic of its schema, which the schema registry knows and a
    cache remembers; the message is acknowledged when all of it has been dealt
    with.  The registry is reached through its gRPC client, a class here; the
    cache is the [lru_cache] crate. *)
From stdpp Require Import prelude gmap strings list fin_maps relations.
From S2P Require Import Prelude Json Externals Instances Lru Messaging MessageTypes TaskQueue.
From S2P Require Import TaskLimiter.

(** ** The outside world *)

(** [connect] and [get_schema_topic] of the registry client.  An [anyhow] error
    is the chain of its messages, outermost first. *)
Abbreviation AnyError := (list string) (only parsing).
Class RegistryClient (R : Type) := {
  client_get_schema_topic : string -> string -> R -> result AnyError string;
}.
Class AnyhowText := { anyhow_debug : AnyError -> string }.

(** ** The service *)

Inductive MessageQueueKind : Type := QueueKafka | QueueAmqp.

Record RouterConfig : Type := mkRouterConfig {
  cf_message_queue : MessageQueueKind;
  cf_kafka_brokers : option string;
  cf_kafka_group_id : option string;
  cf_amqp_connection_string : option string;
  cf_amqp_consumer_tag : option string;
  cf_input_topic_or_queue : string;
  cf_error_topic_or_exchange : string;
  cf_schema_registry_addr : string;
  cf_cache_capacity : Z;
  cf_task_limit : Z;
}.

Definition SERVICE_NAME : string := "data-router".

(** what the tasks share: cache, broker and consumer.  The registry is another
    process, whose schemas change and which can be out of reach: the [n]-th call
    finds it as [ro_registry n].  [ro_clock] are the readings of the clock. *)
Record Router (C B K R : Type) : Type := mkRouter {
  ro_cache : C; ro_broker : B; ro_consumer : K; ro_registry : nat -> R; ro_calls : nat;
  ro_clock : nat -> Z; ro_ticks : nat }.
Arguments mkRouter {C B K R}.
Arguments ro_cache {C B K R}.
Arguments ro_broker {C B K R}.
Arguments ro_consumer {C B K R}.
Arguments ro_registry {C B K R}.
Arguments ro_calls {C B K R}.
Arguments ro_clock {C B K R}.
Arguments ro_ticks {C B K R}.

(** an error that is handled, or [process::abort] *)
Inductive Stop : Type := Failed (e : AnyError) | Aborted.

(** ** The code of a task *)

(** what a task asks of the world: each of these happens at once, and the other
    tasks run in between *)
Inductive RouterOp : Type :=
| Now                                                   (* [SystemTime::now] *)
| CacheGet (id : Uuid)                                  (* under the lock of the cache *)
| CacheInsert (id : Uuid) (channel : string)
| AskTopic (addr id : string)                           (* [connect] and the call *)
| Publish (producer : CommonPublisher) (topic key payload : string)
| AckMessage (message : CommMessage).
Definition answer (o : RouterOp) : Type :=
  match o with
  | Now => Z
  | CacheGet _ => option string
  | CacheInsert _ _ => ()
  | AskTopic _ _ => result AnyError string
  | Publish _ _ _ _ | AckMessage _ => result MessagingError ()
  end.

(** an [async] block: it has come to its end, or performs an operation and
    goes on with the answer *)
Inductive Code (A : Type) : Type :=
| Done (r : result Stop A)
| Act (o : RouterOp) (k : answer o -> Code A).
Arguments Done {A}. Arguments Act {A}.

#[export] Instance code_ret : MRet Code := fun A a => Done (Ok a).
#[export] Instance code_bind : MBind Code := fun A B f =>
  fix bind p :=
    match p with
    | Done (Ok a) => f a
    | Done (Err e) => Done (Err e)
    | Act o k => Act o (fun x => bind (k x))
    end.
Definition perform (o : RouterOp) : Code (answer o) := Act o (fun x => Done (Ok x)).
(** [?] *)
Definition try_ok {E A} (f : E -> Stop) (r : result E A) : Code A := Done (map_err f r).

(** [.context(c)] on a handled error *)
Fixpoint context {A} (c : string) (p : Code A) : Code A :=
  match p with
  | Done (Err (Failed l)) => Done (Err (Failed (c :: l)))
  | Done r => Done r
  | Act o k => Act o (fun x => context c (k x))
  end.
(** the outcome of a block as a value; an abort ends everything *)
Fixpoint attempt (p : Code ()) : Code (result AnyError ()) :=
  match p with
  | Done (Ok _) => Done (Ok (Ok ()))
  | Done (Err (Failed e)) => Done (Ok (Err e))
  | Done (Err Aborted) => Done (Err Aborted)
  | Act o k => Act o (fun x => attempt (k x))
  end.

Section router.
Context `{UuidLib, JsonText, StdText, MessageText, AnyhowText}.

Definition get_schema_topic (schema_id : Uuid) (schema_addr : string) : Code string :=
  recv_channel ← perform (CacheGet schema_id);
  match recv_channel with
  | Some val => mret val
  | None =>
      reply ← perform (AskTopic schema_addr (uuid_to_string schema_id));
      channel ← try_ok Failed reply;
      perform (CacheInsert schema_id channel) ;;
      mret channel
  end.

Definition send_message (producer : CommonPublisher) (topic_name key payload : string) : Code () :=
  delivery_status ← perform (Publish producer topic_name key payload);
  try_ok (fun _ => Aborted) delivery_status.

Definition route (event : DataRouterInsertMessage) (message_key : string)
    (producer : CommonPublisher) (schema_registry_addr : string) : Code () :=
  millis ← perform Now;
  let payload := mkBorrowedInsertMessage (dr_object_id event) (dr_schema_id event)
                   (current_timestamp millis) (dr_data event) in
  topic_name ← get_schema_topic (bi_schema_id payload) schema_registry_addr;
  text ← try_ok (fun e => Failed [e]) (borrowed_to_string payload);
  send_message producer topic_name message_key text.

(** the loop over a multimessage: every entry is routed, the last error is kept *)
Fixpoint route_all (entries : list DataRouterInsertMessage) (message_key : string)
    (producer : CommonPublisher) (addr : string) (result : result AnyError ()) :
    Code (Prelude.result AnyError ()) :=
  match entries with
  | [] => mret result
  | entry :: entries' =>
      r ← attempt (context "Tried to send message and failed"
                     (route entry message_key producer addr));
      route_all entries' message_key producer addr (if is_ok r then result else r)
  end.

Definition route_payload (message : CommMessage) (message_key : string)
    (producer : CommonPublisher) (addr : string) : Code () :=
  payload ← try_ok (fun e => Failed [messaging_error_display e]) (message_payload message);
  json_something ← try_ok (fun e => Failed ["Payload deserialization failed"; e]) (json_parse payload);
  if is_array json_something then
    maybe_array ← try_ok (fun e =>
      Failed ["Payload deserialization failed, message is not a valid cdl message "; e])
      (insert_messages_from_str payload);
    result ← route_all maybe_array message_key producer addr (Ok ());
    try_ok Failed result
  else
    owned ← try_ok (fun e =>
      Failed ["Payload deserialization failed, message is not a valid cdl message"; e])
      (insert_message_from_str payload);
    context "Tried to send message and failed" (route owned message_key producer addr).

Definition handle_message (message : CommMessage) (producer : CommonPublisher)
    (error_topic_or_exchange schema_registry_addr : string) : Code () :=
  let message_key := default EmptyString (get_order_group_id message) in
  result ← attempt (route_payload message message_key producer schema_registry_addr);
  match result with
  | Err error => send_message producer error_topic_or_exchange SERVICE_NAME (anyhow_debug error)
  | Ok _ => mret ()
  end ;;
  ack_result ← perform (AckMessage message);
  try_ok (fun _ => Aborted) ack_result.
End router.

(** ** The world of a task *)

Section world.
Context {C B K R : Type} `{LruLib string C, Broker B, Acker K, RegistryClient R}.
#[local] Notation St := (Router C B K R).

Definition put_cache (c : C) (s : St) : St :=
  mkRouter c (ro_broker s) (ro_consumer s) (ro_registry s) (ro_calls s) (ro_clock s) (ro_ticks s).
Definition put_broker (b : B) (s : St) : St :=
  mkRouter (ro_cache s) b (ro_consumer s) (ro_registry s) (ro_calls s) (ro_clock s) (ro_ticks s).
Definition put_consumer (k : K) (s : St) : St :=
  mkRouter (ro_cache s) (ro_broker s) k (ro_registry s) (ro_calls s) (ro_clock s) (ro_ticks s).

(** what an operation does, and its answer *)
Definition exec (o : RouterOp) (s : St) : St * answer o :=
  match o with
  | Now =>
      (mkRouter (ro_cache s) (ro_broker s) (ro_consumer s) (ro_registry s) (ro_calls s) (ro_clock s)
         (S (ro_ticks s)), ro_clock s (ro_ticks s))
  | CacheGet id => let '(channel, c) := lru_get_mut id (ro_cache s) in (put_cache c s, channel)
  | CacheInsert id channel => (put_cache (lru_insert id channel (ro_cache s)) s, ())
  | AskTopic addr id =>
      (mkRouter (ro_cache s) (ro_broker s) (ro_consumer s) (ro_registry s) (S (ro_calls s)) (ro_clock s)
         (ro_ticks s), client_get_schema_topic addr id (ro_registry s (ro_calls s)))
  | Publish producer topic key payload =>
      let '(b, r) := publish_message producer topic key payload (ro_broker s) in (put_broker b s, r)
  | AckMessage m => let '(k, r) := ack_message m (ro_consumer s) in (put_consumer k s, r)
  end.

(** a task that is alone *)
Fixpoint run {A} (p : Code A) (s : St) : St * result Stop A :=
  match p with
  | Done r => (s, r)
  | Act o k => let '(s', x) := exec o s in run (k x) s'
  end.
End world.

(** ** What a task can have done *)

(** an operation and its answer *)
Inductive Event : Type :=
| Read (millis : Z)
| Hit (id : Uuid) (channel : string)
| Miss (id : Uuid)
| Inserted (id : Uuid) (channel : string)
| Asked (addr id : string) (reply : result AnyError string)
| Published (topic key payload : string) (status : result MessagingError ())
| Acked (message : CommMessage) (status : result MessagingError ()).
Definition event (o : RouterOp) : answer o -> Event :=
  match o with
  | Now => Read
  | CacheGet id => fun x => match x with Some t => Hit id t | None => Miss id end
  | CacheInsert id t => fun _ => Inserted id t
  | AskTopic addr id => Asked addr id
  | Publish _ topic key payload => Published topic key payload
  | AckMessage m => Acked m
  end.

Definition reads_of (tr : list Event) : list Z :=
  omap (fun v => match v with Read z => Some z | _ => None end) tr.
Definition misses_of (tr : list Event) : list Uuid :=
  omap (fun v => match v with Miss id => Some id | _ => None end) tr.
Definition calls_of (tr : list Event) : list (result AnyError string) :=
  omap (fun v => match v with Asked _ _ r => Some r | _ => None end) tr.
Definition sent_of (tr : list Event) : list (string * string * string) :=
  omap (fun v => match v with Published t k p (Ok _) => Some (t, k, p) | _ => None end) tr.
Definition lost_of (tr : list Event) : list string :=
  omap (fun v => match v with Published t _ _ (Err _) => Some t | _ => None end) tr.
Definition acked_of (tr : list Event) : list CommMessage :=
  omap (fun v => match v with Acked m (Ok _) => Some m | _ => None end) tr.

(** every event of [p], after those of [tr], satisfies [G], and at its end [Q] holds *)
Fixpoint behaves {A} (G : list Event -> Event -> Prop) (Q : list Event -> result Stop A -> Prop)
    (p : Code A) (tr : list Event) : Prop :=
  match p with
  | Done r => Q tr r
  | Act o k => forall x, G tr (event o x) /\ behaves G Q (k x) (tr ++ [event o x])
  end.

Section behaves.
Context (G : list Event -> Event -> Prop).
Implicit Types (tr : list Event).

Lemma behaves_mono {A} (Q Q' : list Event -> result Stop A -> Prop) p tr :
  behaves G Q p tr -> (forall tr' r, Q tr' r -> Q' tr' r) -> behaves G Q' p tr.
Proof.
  intros Hp HQ. revert tr Hp. induction p as [r|o k IH]; intros tr; [apply HQ|].
  intros Hp x. destruct (Hp x) as [? ?]. eauto.
Qed.

Lemma behaves_bind {A A'} (f : A -> Code A') Q p tr :
  behaves G (fun tr' r => match r with Ok a => behaves G Q (f a) tr' | Err e => Q tr' (Err e) end) p tr ->
  behaves G Q (p ≫= f) tr.
Proof.
  revert tr. induction p as [[a|e]|o k IH]; intros tr; [done..|]. intros Hp x. destruct (Hp x) as [? ?].
  split; [done|by apply IH].
Qed.

Lemma behaves_perform o Q tr :
  (forall x, G tr (event o x) /\ Q (tr ++ [event o x]) (Ok x)) -> behaves G Q (perform o) tr.
Proof. done. Qed.

Lemma behaves_context {A} c (Q : list Event -> result Stop A -> Prop) p tr :
  behaves G (fun tr' r => match r with Err (Failed l) => Q tr' (Err (Failed (c :: l))) | _ => Q tr' r end) p tr ->
  behaves G Q (context c p) tr.
Proof.
  revert tr. induction p as [[a|[l|]]|o k IH]; intros tr; [done..|]. intros Hp x. destruct (Hp x) as [? ?].
  split; [done|by apply IH].
Qed.

Lemma behaves_attempt Q p tr :
  behaves G (fun tr' r => match r with
    | Ok _ => Q tr' (Ok (Ok ())) | Err (Failed l) => Q tr' (Ok (Err l)) | Err Aborted => Q tr' (Err Aborted)
    end) p tr -> behaves G Q (attempt p) tr.
Proof.
  revert tr. induction p as [[[]|[l|]]|o k IH]; intros tr; [done..|]. intros Hp x. destruct (Hp x) as [? ?].
  split; [done|by apply IH].
Qed.
End behaves.

(** a task that is alone keeps what each of its events keeps *)
Lemma run_invariant {C B K R A} `{LruLib string C, Broker B, Acker K, RegistryClient R} (G : list Event -> Event -> Prop)
    (Q : list Event -> result Stop A -> Prop) (I : list Event -> Router C B K R -> Prop) p tr s s' r :
  (forall tr s o s' x, I tr s -> exec o s = (s', x) -> G tr (event o x) -> I (tr ++ [event o x]) s') ->
  behaves G Q p tr -> I tr s -> run p s = (s', r) -> exists tr', I tr' s' /\ Q tr' r.
Proof.
  intros HI. revert tr s. induction p as [r'|o k IH]; intros tr s Hp Hs Hrun; simpl in Hrun.
  { injection Hrun as <- <-. by exists tr. }
  destruct (exec o s) as [s1 x] eqn:Hx. destruct (Hp x) as [HG Hk]. eapply IH; eauto.
Qed.

(** ** What a message leads to *)

Section spec.
Context `{UuidLib, JsonText, StdText, MessageText, AnyhowText}.
Context (addr errors : string) (producer : CommonPublisher).
Implicit Types (tr w : list Event) (m : CommMessage) (e : DataRouterInsertMessage).

(** the entries of a message: several for an array, one otherwise *)
Definition entries_of m : option (list DataRouterInsertMessage) :=
  payload ← result_ok (message_payload m);
  json ← result_ok (json_parse payload);
  if is_array json then result_ok (insert_messages_from_str payload)
  else (fun e => [e]) <$> result_ok (insert_message_from_str payload).

(** the end of an entry: it is published on a topic that was found for its
    schema, with its ids, its data verbatim and the time it was routed at; or it
    is left out, because the topic was asked for in vain or the text could not be
    written *)
Definition fate (found : Uuid -> string -> Prop) (refused : Uuid -> Prop) (key : string) e (millis : Z)
    (out : option (string * string * string)) : Prop :=
  let text := borrowed_to_string (mkBorrowedInsertMessage (dr_object_id e) (dr_schema_id e)
                (current_timestamp millis) (dr_data e)) in
  match out with
  | Some (topic, key', payload) => found (dr_schema_id e) topic /\ key' = key /\ text = Ok payload
  | None => refused (dr_schema_id e) \/ exists error, text = Err error
  end.

(** the end of a message: that of each of its entries, in order, and then one
    report on the error topic, unless every entry could be read and was published *)
Definition message_fate (found : Uuid -> string -> Prop) (refused : Uuid -> Prop) m (times : list Z)
    (outs : list (option (string * string * string))) (report : list (string * string * string)) : Prop :=
  Forall3 (fate found refused (default EmptyString (get_order_group_id m))) (default [] (entries_of m)) times outs /\
  (report = [] <-> is_Some (entries_of m) /\ Forall is_Some outs) /\
  (report = [] \/ exists error, report = [(errors, SERVICE_NAME, anyhow_debug error)]).

Lemma fate_mono (found found' : Uuid -> string -> Prop) (refused refused' : Uuid -> Prop) key e z out :
  (forall id t, found id t -> found' id t) -> (forall id, refused id -> refused' id) ->
  fate found refused key e z out -> fate found' refused' key e z out.
Proof. intros Hf Hr. unfold fate. destruct out as [[[t k] x]|]; [naive_solver|]. intros [?|?]; auto. Qed.

Lemma message_fate_mono (found found' : Uuid -> string -> Prop) (refused refused' : Uuid -> Prop) m times outs report :
  (forall id t, found id t -> found' id t) -> (forall id, refused id -> refused' id) ->
  message_fate found refused m times outs report -> message_fate found' refused' m times outs report.
Proof.
  intros Hf Hr [Hfate Hrest]. split; [|done]. eapply Forall3_impl; [exact Hfate|]. intros. by eapply fate_mono.
Qed.

(** what the events say of a schema *)
Definition trace_found tr (id : Uuid) (t : string) : Prop :=
  Hit id t ∈ tr \/ Asked addr (uuid_to_string id) (Ok t) ∈ tr.
Definition trace_refused tr (id : Uuid) : Prop := exists l, Asked addr (uuid_to_string id) (Err l) ∈ tr.

Lemma trace_found_app tr w id t : trace_found tr id t -> trace_found (tr ++ w) id t.
Proof. intros [?|?]; [left|right]; apply elem_of_app; by left. Qed.
Lemma trace_refused_app tr w id : trace_refused tr id -> trace_refused (tr ++ w) id.
Proof. intros [l ?]. exists l. apply elem_of_app; by left. Qed.
#[local] Hint Resolve trace_found_app trace_refused_app : core.

(** the events so far have dealt with the message *)
Definition dealt_in tr m : Prop :=
  exists outs report, message_fate (trace_found tr) (trace_refused tr) m (reads_of tr) outs report /\
    sent_of tr = omap id outs ++ report.

(** the discipline of the task of [m]: only schemas of the message are looked up,
    only what is not cached is asked for, only what the registry answered is
    cached, and the message is acknowledged once it has been dealt with *)
Definition disciplined m tr (v : Event) : Prop :=
  match v with
  | Miss id => exists e, e ∈ default [] (entries_of m) /\ id = dr_schema_id e
  | Asked a id _ => a = addr /\ exists id', id = uuid_to_string id' /\ id' ∈ misses_of tr
  | Inserted id t => Asked addr (uuid_to_string id) (Ok t) ∈ tr
  | Acked m' _ => m' = m /\ acked_of tr = [] /\ lost_of tr = [] /\ dealt_in tr m /\
      length (calls_of tr) <= length (default [] (entries_of m))
  | _ => True
  end.
(** how it ends: with the acknowledgement, or by an abort without one *)
Definition ends m tr (r : result Stop ()) : Prop :=
  match r with
  | Ok _ => exists tr', tr = tr' ++ [Acked m (Ok ())] /\ disciplined m tr' (Acked m (Ok ()))
  | Err e => e = Aborted /\ acked_of tr = []
  end.

(** [w] reads the clock at [times] and publishes [out] *)
Record routed w (times : list Z) (out : list (string * string * string)) : Prop := {
  rt_reads : reads_of w = times;
  rt_sent : sent_of w = out;
  rt_lost : lost_of w = [];
  rt_acked : acked_of w = [];
  rt_calls : length (calls_of w) <= length times;
}.

Lemma routed_app w1 w2 t1 t2 o1 o2 :
  routed w1 t1 o1 -> routed w2 t2 o2 -> routed (w1 ++ w2) (t1 ++ t2) (o1 ++ o2).
Proof.
  intros [<- <- Hl1 Ha1 Hc1] [<- <- Hl2 Ha2 Hc2].
  split; unfold reads_of, sent_of, lost_of, acked_of, calls_of in *; rewrite ?omap_app, ?length_app; try done;
    [by rewrite Hl1, Hl2|by rewrite Ha1, Ha2|lia].
Qed.
Lemma routed_nil : routed [] [] [].
Proof. by split. Qed.

(** an abort before the acknowledgement *)
Definition given_up tr : Prop := acked_of tr = [].

Lemma acked_of_app tr w : acked_of (tr ++ w) = acked_of tr ++ acked_of w.
Proof. apply omap_app. Qed.

Context (m : CommMessage).
#[local] Notation G := (disciplined m).

Lemma get_schema_topic_spec e id tr (Q : list Event -> result Stop string -> Prop) :
  e ∈ default [] (entries_of m) -> id = dr_schema_id e ->
  (forall w t, reads_of w = [] -> sent_of w = [] -> lost_of w = [] -> acked_of w = [] -> length (calls_of w) <= 1 ->
     trace_found (tr ++ w) id t -> Q (tr ++ w) (Ok t)) ->
  (forall w l, reads_of w = [] -> sent_of w = [] -> lost_of w = [] -> acked_of w = [] -> length (calls_of w) <= 1 ->
     trace_refused (tr ++ w) id -> Q (tr ++ w) (Err (Failed l))) ->
  behaves G Q (get_schema_topic id addr) tr.
Proof.
  intros He -> Hfound Hrefused. unfold get_schema_topic. apply behaves_bind, behaves_perform. intros [t|].
  - split; [done|]. simpl. apply Hfound; try done; [simpl; lia|]. left. apply elem_of_app; right. by left.
  - split; [by exists e|]. cbn [event]. apply behaves_bind, behaves_perform. intros reply. split.
    { split; [done|]. exists (dr_schema_id e). split; [done|]. unfold misses_of. rewrite omap_app.
      apply elem_of_app; right. by left. }
    cbn [event]. rewrite <- app_assoc. apply behaves_bind. destruct reply as [t|l]; simpl.
    + intros []. split; [apply elem_of_app; right; right; by left|]. rewrite <- app_assoc. simpl.
      apply Hfound; try done. right. apply elem_of_app; right; right; by left.
    + apply Hrefused; try done. exists l. apply elem_of_app; right; right; by left.
Qed.

Lemma send_message_spec topic key text tr (Q : list Event -> result Stop () -> Prop) :
  acked_of tr = [] ->
  (forall w, routed w [] [(topic, key, text)] -> Q (tr ++ w) (Ok ())) ->
  (forall tr', given_up tr' -> Q tr' (Err Aborted)) ->
  behaves G Q (send_message producer topic key text) tr.
Proof.
  intros Ha HQ Hab. unfold send_message. apply behaves_bind, behaves_perform. intros [[]|err]; (split; [done|]); simpl.
  - apply HQ. by split.
  - apply Hab. unfold given_up. by rewrite acked_of_app, Ha.
Qed.

(** the end of the routing of entry [e] *)
Definition entry_end key e tr w (r : result AnyError ()) : Prop :=
  exists z out, routed w [z] (option_list out) /\
    fate (trace_found (tr ++ w)) (trace_refused (tr ++ w)) key e z out /\ (is_ok r = true <-> is_Some out).

Lemma route_spec key e tr (Q : list Event -> result Stop () -> Prop) :
  e ∈ default [] (entries_of m) -> acked_of tr = [] ->
  (forall w r, entry_end key e tr w r -> Q (tr ++ w) (map_err Failed r)) ->
  (forall tr', given_up tr' -> Q tr' (Err Aborted)) ->
  behaves G Q (route e key producer addr) tr.
Proof.
  intros He Ha HQ Hab. unfold route. apply behaves_bind, behaves_perform. intros z. split; [done|].
  cbn [event]. apply behaves_bind. eapply (get_schema_topic_spec e); [done|done|..].
  - intros w t Hr Hs Hl Hk Hc Hfound. rewrite <- app_assoc in Hfound |- *.
    assert (routed (Read z :: w) [z] []) as Hrw by (split; simpl; [by f_equal|done..]).
    apply behaves_bind. destruct (borrowed_to_string _) as [text|err] eqn:Htext; simpl.
    + apply send_message_spec; [by rewrite acked_of_app, Ha, (rt_acked _ _ _ Hrw)|intros w' Hw'|done].
      rewrite <- app_assoc. apply (HQ _ (Ok ())). exists z, (Some (t, key, text)). split; [|split].
      * pose proof (routed_app _ _ _ _ _ _ Hrw Hw') as Hrw'. exact Hrw'.
      * rewrite app_assoc. simpl. split_and!; [by apply trace_found_app|done..].
      * by split.
    + apply (HQ _ (Err [err])). exists z, None. split; [exact Hrw|]. split; [right; by exists err|].
      split; [done|by intros [? ?]].
  - intros w l Hr Hs Hl Hk Hc Hrefused. rewrite <- app_assoc in Hrefused |- *.
    apply (HQ _ (Err l)). exists z, None. split; [split; simpl; [by f_equal|done..]|]. split; [by left|].
    split; [done|by intros [? ?]].
Qed.

Lemma route_attempt_spec c key e tr (Q : list Event -> result Stop (result AnyError ()) -> Prop) :
  e ∈ default [] (entries_of m) -> acked_of tr = [] ->
  (forall w r, entry_end key e tr w r -> Q (tr ++ w) (Ok r)) ->
  (forall tr', given_up tr' -> Q tr' (Err Aborted)) ->
  behaves G Q (attempt (context c (route e key producer addr))) tr.
Proof.
  intros He Ha HQ Hab. apply behaves_attempt, behaves_context, route_spec; [done|done| |done].
  intros w [[]|l] Hw; simpl; [by apply HQ|]. apply HQ. destruct Hw as (z & out & ? & ? & Hok). by exists z, out.
Qed.

(** the end of the routing of entries *)
Definition entries_end key (l : list DataRouterInsertMessage) tr w (r : result AnyError ()) : Prop :=
  exists times outs, routed w times (omap id outs) /\
    Forall3 (fate (trace_found (tr ++ w)) (trace_refused (tr ++ w)) key) l times outs /\
    (is_ok r = true <-> Forall is_Some outs).

Lemma entries_end_cons key e l tr w1 w2 r1 r2 r :
  entry_end key e tr w1 r1 -> entries_end key l (tr ++ w1) w2 r2 ->
  (is_ok r = true <-> is_ok r1 = true /\ is_ok r2 = true) -> entries_end key (e :: l) tr (w1 ++ w2) r.
Proof.
  intros (z & out & Hw1 & Hf1 & Hr1) (times & outs & Hw2 & Hf2 & Hr2) Hr. rewrite <- app_assoc in Hf2.
  exists (z :: times), (out :: outs). split; [|split].
  - pose proof (routed_app _ _ _ _ _ _ Hw1 Hw2) as Hw. by destruct out.
  - constructor; [|done]. rewrite app_assoc. eapply fate_mono; [..|exact Hf1]; auto.
  - by rewrite Hr, Hr1, Hr2, Forall_cons.
Qed.

Lemma route_all_spec key l (res : result AnyError ()) tr (Q : list Event -> result Stop (result AnyError ()) -> Prop) :
  (forall e, e ∈ l -> e ∈ default [] (entries_of m)) -> acked_of tr = [] ->
  (forall w (r r' : result AnyError ()), entries_end key l tr w r' -> (is_ok r = true <-> is_ok res = true /\ is_ok r' = true) ->
     Q (tr ++ w) (Ok r)) ->
  (forall tr', given_up tr' -> Q tr' (Err Aborted)) ->
  behaves G Q (route_all l key producer addr res) tr.
Proof.
  revert tr res. induction l as [|e l IH]; intros tr res Hl Ha HQ Hab.
  - rewrite <- (app_nil_r tr). apply (HQ [] res (Ok ())).
    + exists [], []. split; [apply routed_nil|]. split; [constructor|]. by split.
    + simpl. tauto.
  - apply behaves_bind, route_attempt_spec; [apply Hl; by left|done| |done].
    intros w1 r1 Hw1. apply IH; [intros; apply Hl; by right| | |done].
    { destruct Hw1 as (z & out & Hw1 & _). by rewrite acked_of_app, Ha, (rt_acked _ _ _ Hw1). }
    intros w2 r r2 Hw2 Hr. rewrite <- app_assoc.
    apply (HQ _ r (if is_ok r1 then r2 else r1)).
    + eapply entries_end_cons; [exact Hw1|exact Hw2|]. destruct (is_ok r1) eqn:Hr1; [tauto|]. rewrite Hr1. intuition congruence.
    + rewrite Hr. destruct (is_ok r1) eqn:Hr1; [tauto|]. rewrite Hr1. intuition congruence.
Qed.

(** the end of the routing of the whole message *)
Definition payload_end key tr w (r : result AnyError ()) : Prop :=
  exists times outs, routed w times (omap id outs) /\
    Forall3 (fate (trace_found (tr ++ w)) (trace_refused (tr ++ w)) key) (default [] (entries_of m)) times outs /\
    (is_ok r = true <-> is_Some (entries_of m) /\ Forall is_Some outs).

Lemma payload_end_none key tr l : entries_of m = None -> payload_end key tr [] (Err l).
Proof.
  intros Hn. exists [], []. rewrite Hn. split; [apply routed_nil|]. split; [constructor|].
  split; [done|by intros [[? ?] _]].
Qed.

Lemma payload_end_some key l tr w r : entries_of m = Some l -> entries_end key l tr w r -> payload_end key tr w r.
Proof.
  intros Hl (times & outs & Hw & Hf & Hr). exists times, outs. rewrite Hl. split_and!; [done..|]. rewrite Hr.
  split; [|by intros [_ ?]]. intros. split; [by eexists|done].
Qed.

(** reading a part of the payload *)
Lemma decode_spec {A E} (f : E -> AnyError) (r : result E A) (g : A -> Code ()) key tr
    (Q : list Event -> result Stop () -> Prop) :
  (forall l, payload_end key tr [] (Err l) -> Q tr (Err (Failed l))) ->
  (forall err, r = Err err -> entries_of m = None) ->
  (forall a, r = Ok a -> behaves G Q (g a) tr) ->
  behaves G Q (x ← try_ok (fun err => Failed (f err)) r; g x) tr.
Proof.
  intros HQ Hnone Hg. apply behaves_bind. destruct r as [a|e]; simpl; [by apply Hg|].
  by eapply HQ, payload_end_none, Hnone.
Qed.

Lemma route_payload_spec key tr (Q : list Event -> result Stop () -> Prop) :
  acked_of tr = [] ->
  (forall w r, payload_end key tr w r -> Q (tr ++ w) (map_err Failed r)) ->
  (forall tr', given_up tr' -> Q tr' (Err Aborted)) ->
  behaves G Q (route_payload m key producer addr) tr.
Proof.
  intros Ha HQ Hab. unfold route_payload.
  assert (forall l, payload_end key tr [] (Err l) -> Q tr (Err (Failed l))) as Hfail.
  { intros l Hl. rewrite <- (app_nil_r tr). by apply (HQ [] (Err l)). }
  apply (decode_spec (fun err => [messaging_error_display err]) _ _ key); [done| |].
  { intros e. unfold entries_of. by intros ->. }
  intros payload Hp. apply (decode_spec _ _ _ key); [done| |].
  { intros e He. unfold entries_of. rewrite Hp. simpl. by rewrite He. }
  intros json Hj.
  assert (entries_of m = if is_array json then result_ok (insert_messages_from_str payload)
    else (fun e => [e]) <$> result_ok (insert_message_from_str payload)) as Hentries
    by (unfold entries_of; rewrite Hp; simpl; by rewrite Hj).
  destruct (is_array json); (apply (decode_spec _ _ _ key); [done| |]).
  - intros e He. by rewrite Hentries, He.
  - intros l Hl. rewrite Hl in Hentries. simpl in Hentries.
    apply behaves_bind, route_all_spec; [by rewrite Hentries|done| |done].
    intros w r r' Hw Hr. destruct r as [[]|l'].
    + apply (HQ w (Ok ())). eapply payload_end_some; [done|]. destruct Hw as (times & outs & ? & ? & Hr').
      exists times, outs. split_and!; [done..|]. rewrite <- Hr'. simpl in Hr |- *. tauto.
    + apply (HQ w (Err l')). eapply payload_end_some; [done|]. destruct Hw as (times & outs & ? & ? & Hr').
      exists times, outs. split_and!; [done..|]. rewrite <- Hr'. simpl in Hr |- *. tauto.
  - intros e He. by rewrite Hentries, He.
  - intros e He. rewrite He in Hentries. simpl in Hentries.
    apply behaves_context, route_spec; [rewrite Hentries; simpl; by left|done| |done].
    intros w r (z & out & Hw & Hf & Hok).
    assert (forall r', is_ok r' = is_ok r -> payload_end key tr w r') as Hend.
    { intros r' Hr'. eapply (payload_end_some _ [e]); [done|]. exists [z], [out]. split_and!.
      - by destruct out.
      - constructor; [done|constructor].
      - rewrite Hr', Hok, Forall_singleton. done. }
    destruct r as [[]|l]; simpl; [apply (HQ w (Ok ()))|apply (HQ w (Err _))]; by apply Hend.
Qed.

Lemma handle_message_behaves : behaves G (ends m) (handle_message m producer errors addr) [].
Proof.
  unfold handle_message. apply behaves_bind, behaves_attempt, route_payload_spec; [done| |done].
  intros w r Hw. change ([] ++ w) with w.
  assert (forall w' report, routed w' [] report ->
    (report = [] <-> is_ok r = true) -> (report = [] \/ exists error, report = [(errors, SERVICE_NAME, anyhow_debug error)]) ->
    behaves G (ends m) (ack_result ← perform (AckMessage m); try_ok (fun _ => Aborted) ack_result) (w ++ w')) as Hack.
  { intros w' report Hw' Hreport Hshape. destruct Hw as (times & outs & Hw & Hf & Hok).
    pose proof (routed_app _ _ _ _ _ _ Hw Hw') as Hall. rewrite app_nil_r in Hall.
    assert (disciplined m (w ++ w') (Acked m (Ok ()))) as Hd.
    { split_and!; [done|apply Hall..| |].
      - exists outs, report. split; [|apply Hall]. split; [|split; [|done]].
        + rewrite (rt_reads _ _ _ Hall). eapply Forall3_impl; [exact Hf|]. intros. eapply fate_mono; [..|done]; auto.
        + by rewrite Hreport, Hok.
      - etrans; [apply Hall|]. by rewrite (Forall3_length_lm _ _ _ _ Hf). }
    apply behaves_bind, behaves_perform. intros [[]|err]; (split; [exact Hd|]).
    - simpl. by exists (w ++ w').
    - simpl. split; [done|]. by rewrite acked_of_app, (rt_acked _ _ _ Hall). }
  destruct r as [[]|l]; cbv beta iota.
  - rewrite <- (app_nil_r w). apply (Hack [] []); [apply routed_nil|done|by left].
  - apply behaves_bind, send_message_spec; [|intros w' Hw'|done].
    + destruct Hw as (times & outs & Hw & _). apply Hw.
    + eapply Hack; [exact Hw'|done|eauto].
Qed.
End spec.

(** ** Events in the world *)

Section events.
Context {C B K R : Type} `{LruLaws string C, BrokerLaws B, AckerLaws K, RegistryClient R, UuidLib,
  JsonText, StdText, MessageText, AnyhowText}.
Context (addr errors : string).
Implicit Types (s : Router C B K R) (tr : list Event) (m : CommMessage).

Definition topic_of (r : R) (id : Uuid) : result AnyError string :=
  client_get_schema_topic addr (uuid_to_string id) r.

(** between [s0] and [s], [t] was the topic of a schema: it was in the cache to
    begin with, or the registry named it when it was called *)
Definition topic_found s0 s (id : Uuid) (t : string) : Prop :=
  lru_entries (ro_cache s0) !! id = Some t \/
  exists n, ro_calls s0 <= n < ro_calls s /\ topic_of (ro_registry s0 n) id = Ok t.
(** between [s0] and [s], a call of the registry for the schema failed *)
Definition topic_refused s0 s (id : Uuid) : Prop :=
  exists n l, ro_calls s0 <= n < ro_calls s /\ topic_of (ro_registry s0 n) id = Err l.

(** what holds of the world since [s0] *)
Record since s0 s : Prop := {
  si_registry : ro_registry s = ro_registry s0;
  si_clock : ro_clock s = ro_clock s0;
  si_calls : ro_calls s0 <= ro_calls s;
  si_ticks : ro_ticks s0 <= ro_ticks s;
  si_cache id t : lru_entries (ro_cache s) !! id = Some t -> topic_found s0 s id t;
}.
(** what the events of a task tell of the world *)
Record heard s0 s tr : Prop := {
  he_found id t : trace_found addr tr id t -> topic_found s0 s id t;
  he_refused id : trace_refused addr tr id -> topic_refused s0 s id;
  he_times : Forall (fun z => exists j, ro_ticks s0 <= j < ro_ticks s /\ z = ro_clock s0 j) (reads_of tr);
}.

Lemma since_refl s : since s s.
Proof. split; [done..|]. intros id t Hid. by left. Qed.
Lemma heard_nil s0 s : heard s0 s [].
Proof.
  split; [intros id t [Hin|Hin]|intros id [l Hin]|by constructor]; by apply not_elem_of_nil in Hin.
Qed.

Lemma topic_found_later s0 s s' id t : ro_calls s <= ro_calls s' -> topic_found s0 s id t -> topic_found s0 s' id t.
Proof. intros Hle [?|(n & ? & ?)]; [by left|right]. exists n. split; [lia|done]. Qed.
Lemma topic_refused_later s0 s s' id : ro_calls s <= ro_calls s' -> topic_refused s0 s id -> topic_refused s0 s' id.
Proof. intros Hle (n & l & ? & ?). exists n, l. split; [lia|done]. Qed.
Lemma heard_later s0 s s' tr :
  ro_calls s <= ro_calls s' -> ro_ticks s <= ro_ticks s' -> heard s0 s tr -> heard s0 s' tr.
Proof.
  intros Hc Ht [Hf Hr Htimes]. split.
  - intros. eapply topic_found_later; eauto.
  - intros. eapply topic_refused_later; eauto.
  - eapply Forall_impl; [exact Htimes|]. intros z (j & ? & ->). exists j. split; [lia|done].
Qed.

(** calls and readings of the clock, by the event *)
Lemma exec_calls o s s' x : exec o s = (s', x) ->
  ro_calls s' = ro_calls s + length (calls_of [event o x]) /\
  ro_ticks s' = ro_ticks s + length (reads_of [event o x]) /\
  ro_registry s' = ro_registry s /\ ro_clock s' = ro_clock s.
Proof.
  destruct o; simpl; repeat case_match; intros; simplify_eq; simpl; split_and!; try done; lia.
Qed.

(** the log of the broker grows by what the event published *)
Lemma exec_sent o s s' x : exec o s = (s', x) ->
  sent (ro_broker s) ++ sent_of [event o x] `prefix_of` sent (ro_broker s') /\
  (lost_of [event o x] = [] -> sent (ro_broker s') = sent (ro_broker s) ++ sent_of [event o x]).
Proof.
  destruct o as [|id|id t|a id|p t k text|m]; simpl; try (intros; simplify_eq; simpl; by rewrite app_nil_r).
  - destruct (lru_get_mut id (ro_cache s)) as [[t|] c]; intros; simplify_eq; simpl; by rewrite app_nil_r.
  - pose proof (publish_message_spec p t k text (ro_broker s)) as Hp. unfold wp in Hp.
    destruct (publish_message _ _ _ _ _) as [b [[]|err]]; intros; simplify_eq; simpl; [by rewrite Hp|].
    by rewrite app_nil_r.
  - destruct (ack_message m (ro_consumer s)) as [k [[]|err]]; intros; simplify_eq; simpl; by rewrite app_nil_r.
Qed.

(** only the acknowledgement changes the consumer *)
Lemma exec_consumer o s s' x : exec o s = (s', x) ->
  match event o x with
  | Acked m r => ack_message m (ro_consumer s) = (ro_consumer s', r)
  | _ => ro_consumer s' = ro_consumer s
  end.
Proof.
  destruct o as [|id|id t|a id|p t k text|m]; simpl; repeat case_match; intros; by simplify_eq.
Qed.

(** what a disciplined event adds to what the task has heard *)
Lemma exec_found o s0 s s' x m tr id t :
  since s0 s -> exec o s = (s', x) -> disciplined addr errors m tr (event o x) ->
  event o x = Hit id t \/ event o x = Asked addr (uuid_to_string id) (Ok t) -> topic_found s0 s' id t.
Proof.
  intros [Hreg _ Hle _ Hcache] Hx Hd Hv. destruct o as [|id'|id' t'|a id'|p t' k text|m']; simpl in *;
    try (destruct Hv as [Hv|Hv]; done).
  - pose proof (lru_get_entries id' (ro_cache s)) as Hget.
    destruct (lru_get_mut id' (ro_cache s)) as [[t'|] c]; injection Hx as <- <-; [|by destruct Hv].
    destruct Hv as [[= -> ->]|]; [|done]. simpl in Hget. symmetry in Hget.
    by apply (topic_found_later _ s); [|apply Hcache].
  - injection Hx as <- <-. destruct Hv as [|[= -> -> Ht]]; [done|]. right. exists (ro_calls s).
    split; [simpl; lia|]. unfold topic_of. by rewrite <- Hreg.
Qed.

Lemma exec_refused o s0 s s' x id l :
  since s0 s -> exec o s = (s', x) -> event o x = Asked addr (uuid_to_string id) (Err l) -> topic_refused s0 s' id.
Proof.
  intros [Hreg _ Hle _ _] Hx Hv. destruct o as [|id'|id' t'|a id'|p t' k text|m']; simpl in *; try done.
  - by destruct (lru_get_mut id' (ro_cache s)) as [[t'|] c]; injection Hx as <- <-.
  - injection Hx as <- <-. injection Hv as -> -> Hl. exists (ro_calls s), l.
    split; [simpl; lia|]. unfold topic_of. by rewrite <- Hreg.
Qed.

Lemma exec_heard o s0 s s' x m tr :
  since s0 s -> heard s0 s tr -> exec o s = (s', x) -> disciplined addr errors m tr (event o x) ->
  heard s0 s' (tr ++ [event o x]).
Proof.
  intros Hs Htr Hx Hd. destruct (exec_calls _ _ _ _ Hx) as (Hc & Ht & _).
  apply (heard_later _ _ s') in Htr as [Hf Hr Htimes]; [|lia..]. split.
  - intros id t [Hin|Hin]; apply elem_of_app in Hin as [Hin|Hin%list_elem_of_singleton];
      [apply Hf; by left|by eapply exec_found; eauto|apply Hf; by right|by eapply exec_found; eauto].
  - intros id [l Hin]. apply elem_of_app in Hin as [Hin|Hin%list_elem_of_singleton]; [apply Hr; by exists l|].
    by eapply exec_refused.
  - unfold reads_of in *. rewrite omap_app. apply Forall_app. split; [done|].
    destruct (event o x) eqn:Hv; try constructor; [|constructor].
    exists (ro_ticks s). destruct Hs as [_ Hclock _ Hticks _]. rewrite Ht. simpl. split; [lia|].
    destruct o; simpl in *; try done; [injection Hx as _ <-; injection Hv as <-; by rewrite Hclock|].
    by repeat case_match.
Qed.

Lemma exec_since o s0 s s' x m tr :
  since s0 s -> heard s0 s tr -> exec o s = (s', x) -> disciplined addr errors m tr (event o x) -> since s0 s'.
Proof.
  intros [Hreg Hclock Hle Hticks Hcache] Htr Hx Hd. destruct (exec_calls _ _ _ _ Hx) as (Hc & Ht & Hreg' & Hclock').
  split; [congruence|congruence|lia|lia|]. intros id t Hid.
  assert (lru_entries (ro_cache s') = lru_entries (ro_cache s) \/
    exists id' t', event o x = Inserted id' t' /\ lru_entries (ro_cache s') ⊆ <[id' := t']> (lru_entries (ro_cache s)))
    as [Heq|(id' & t' & Hv & Hsub)].
  { destruct o as [|id'|id' t'|a id'|p t' k text|m']; simpl in *; try (injection Hx as <- _; by left).
    - pose proof (lru_get_keeps id' (ro_cache s)) as Hk. left.
      destruct (lru_get_mut id' (ro_cache s)) as [y c]. by injection Hx as <- _.
    - right. exists id', t'. split; [done|]. injection Hx as <- _. apply lru_insert_sub.
    - left. destruct (publish_message _ _ _ _ _). by injection Hx as <- _.
    - left. destruct (ack_message _ _). by injection Hx as <- _. }
  - rewrite Heq in Hid. apply (topic_found_later _ s); [lia|by apply Hcache].
  - pose proof (lookup_weaken _ _ _ _ Hid Hsub) as Hins. rewrite lookup_insert in Hins.
    case_decide as Hk; [subst id'; injection Hins as <-|].
    + rewrite Hv in Hd. simpl in Hd. apply (topic_found_later _ s); [lia|]. apply Htr. by right.
    + apply (topic_found_later _ s); [lia|by apply Hcache].
Qed.
End events.

(** ** Properties of a task that is alone *)

Section properties.
Context {C B K R : Type} `{LruLaws string C, BrokerLaws B, AckerLaws K, RegistryClient R, UuidLib,
  JsonText, StdText, MessageText, AnyhowText}.
Context (addr errors : string).
Implicit Types (s : Router C B K R) (tr : list Event) (m : CommMessage).

Definition all_cached s m : Prop :=
  forall e, e ∈ default [] (entries_of m) -> is_Some (lru_entries (ro_cache s) !! dr_schema_id e).

(** what a task that started at [s0] and was alone since then has done *)
Record alone m s0 tr s : Prop := {
  al_since : since addr s0 s;
  al_heard : heard addr s0 s tr;
  al_calls : ro_calls s = ro_calls s0 + length (calls_of tr);
  al_ticks : ro_ticks s = ro_ticks s0 + length (reads_of tr);
  al_times : reads_of tr = ro_clock s0 <$> seq (ro_ticks s0) (length (reads_of tr));
  al_sent : lost_of tr = [] -> sent (ro_broker s) = sent (ro_broker s0) ++ sent_of tr;
  al_acked : acked (ro_consumer s) = acked (ro_consumer s0) ++ acked_of tr;
  al_cached : all_cached s0 m ->
    misses_of tr = [] /\ calls_of tr = [] /\ lru_entries (ro_cache s) = lru_entries (ro_cache s0);
}.

Lemma alone_start m s : alone m s [] s.
Proof.
  split; [apply since_refl|apply heard_nil|simpl; lia|simpl; lia|done|..|done]; intros; by rewrite app_nil_r.
Qed.

Lemma exec_acked o s s' x : exec o s = (s', x) ->
  acked (ro_consumer s') = acked (ro_consumer s) ++ acked_of [event o x].
Proof.
  intros Hx%exec_consumer. destruct (event o x) as [| | | | |t k p r|m r]; try (rewrite Hx; simpl; by rewrite app_nil_r).
  - pose proof (ack_message_law m (ro_consumer s)) as Hlaw. unfold wp in Hlaw. rewrite Hx in Hlaw.
    destruct r; simpl; [done|]. by rewrite app_nil_r.
Qed.

(** with every schema in the cache, nothing is asked for *)
Lemma exec_cached o s0 s s' x tr m :
  all_cached s0 m -> misses_of tr = [] -> calls_of tr = [] ->
  lru_entries (ro_cache s) = lru_entries (ro_cache s0) ->
  exec o s = (s', x) -> disciplined addr errors m tr (event o x) ->
  misses_of [event o x] = [] /\ calls_of [event o x] = [] /\ lru_entries (ro_cache s') = lru_entries (ro_cache s0).
Proof.
  intros Hall Hm Hc Hcache Hx Hd. destruct o as [|id|id t|a id|p t k text|m']; simpl in *.
  - by injection Hx as <- _.
  - pose proof (lru_get_entries id (ro_cache s)) as Hget. pose proof (lru_get_keeps id (ro_cache s)) as Hkeep.
    destruct (lru_get_mut id (ro_cache s)) as [y c]. injection Hx as <- <-. simpl in *.
    rewrite Hcache in Hget, Hkeep. destruct y as [t|]; [done|]. destruct Hd as (e & He & ->).
    destruct (Hall e He) as [t Ht]. congruence.
  - exfalso. apply (not_elem_of_nil (Ok (E := AnyError) t)). rewrite <- Hc.
    apply list_elem_of_omap. by eexists.
  - destruct Hd as (_ & id' & _ & Hin). rewrite Hm in Hin. by apply not_elem_of_nil in Hin.
  - destruct (publish_message _ _ _ _ _) as [b [[]|]]. all: injection Hx as <- <-; done.
  - destruct (ack_message _ _) as [k r]. injection Hx as <- <-. done.
Qed.

Lemma alone_exec m s0 tr s o s' x :
  alone m s0 tr s -> exec o s = (s', x) -> disciplined addr errors m tr (event o x) -> alone m s0 (tr ++ [event o x]) s'.
Proof.
  intros [Hs Htr Hc Ht Htimes Hsent Hk Hcached] Hx Hd. destruct (exec_calls _ _ _ _ Hx) as (Hc' & Ht' & _).
  split; unfold misses_of, calls_of, reads_of, sent_of, lost_of, acked_of in *; rewrite ?omap_app.
  - by eapply exec_since.
  - by eapply exec_heard.
  - rewrite length_app. lia.
  - rewrite length_app. lia.
  - rewrite length_app, seq_app, fmap_app, <- Htimes. f_equal.
    destruct o; simpl in *; try done; [injection Hx as _ <-; simpl; rewrite <- Ht; by rewrite (si_clock _ _ _ Hs)|].
    by repeat case_match.
  - intros [Hl Hl']%app_nil. destruct (exec_sent _ _ _ _ Hx) as [_ Heq]. rewrite Heq, Hsent by done. by rewrite app_assoc.
  - rewrite (exec_acked _ _ _ _ Hx), Hk. unfold acked_of. by rewrite app_assoc.
  - intros Hall. destruct (Hcached Hall) as (Hm & Hn & He).
    destruct (exec_cached _ _ _ _ _ _ _ Hall Hm Hn He Hx Hd) as (Hm' & Hn' & He').
    unfold misses_of, calls_of in *. by rewrite Hm, Hm', Hn, Hn'.
Qed.

Lemma handle_message_alone m producer s s' r :
  run (handle_message m producer errors addr) s = (s', r) ->
  exists tr, alone m s tr s' /\ ends addr errors m tr r.
Proof.
  intros Hrun. eapply (run_invariant (disciplined addr errors m) _ (alone m s)); [|apply handle_message_behaves|apply alone_start|exact Hrun].
  intros. by eapply alone_exec.
Qed.

Lemma handle_message_outcome s s' m producer :
  run (handle_message m producer errors addr) s = (s', Ok ()) ->
  exists outs report,
    message_fate errors (topic_found addr s s') (topic_refused addr s s') m
      (ro_clock s <$> seq (ro_ticks s) (length (default [] (entries_of m)))) outs report /\
    sent (ro_broker s') = sent (ro_broker s) ++ omap id outs ++ report /\
    acked (ro_consumer s') = acked (ro_consumer s) ++ [m] /\
    ro_calls s' <= ro_calls s + length (default [] (entries_of m)) /\
    (all_cached s m -> ro_calls s' = ro_calls s).
Proof.
  intros (tr & [Hs Htr Hc _ Htimes Hsent Hk Hcached] & tr' & -> & _ & Hacked & Hlost & (outs & report & Hfate & Hout) & Hcalls)%handle_message_alone.
  unfold calls_of, reads_of, sent_of, lost_of, acked_of in *; rewrite ?omap_app in *. rewrite !app_nil_r in *.
  exists outs, report. split_and!.
  - destruct Hfate as [Hfate Hrest]. split; [|done]. rewrite (Forall3_length_lm _ _ _ _ Hfate), <- Htimes.
    eapply Forall3_impl; [exact Hfate|]. intros e z out. destruct Htr as [Hf Hr _].
    apply fate_mono; intros; [apply Hf|apply Hr]; by apply trace_found_app || by apply trace_refused_app.
  - by rewrite Hsent, Hout.
  - by rewrite Hk, Hacked.
  - rewrite Hc. lia.
  - intros Hall. destruct (Hcached Hall) as (_ & Hn & _). rewrite Hc, Hn. simpl. lia.
Qed.

(** C22: what handling a message leads to.  Its entries are published in order,
    with their ids, their data verbatim, the time they were routed at, under the
    key of the message, each on a topic that was cached for its schema when the
    message came or that the registry named when it was called for it.  An entry
    is left out only if such a call failed or its text could not be written;
    then, or if the message cannot be read, one report goes to the error topic.
    The message is acknowledged once.  The registry may change and fail between
    any two calls; it is called at most once per entry, and never when the
    schemas are cached: then the cached topics are used, whatever the registry
    says by now.  (A publication or an acknowledgement that fails aborts the
    process; [handle_message_abort_unacked].) *)
Theorem handle_message_routes s s' m producer :
  run (handle_message m producer errors addr) s = (s', Ok ()) ->
  exists outs report,
    message_fate errors (topic_found addr s s') (topic_refused addr s s') m
      (ro_clock s <$> seq (ro_ticks s) (length (default [] (entries_of m)))) outs report /\
    sent (ro_broker s') = sent (ro_broker s) ++ omap id outs ++ report /\
    acked (ro_consumer s') = acked (ro_consumer s) ++ [m] /\
    ro_calls s' <= ro_calls s + length (default [] (entries_of m)) /\
    (all_cached s m -> ro_calls s' = ro_calls s).
Proof. apply handle_message_outcome. Qed.

(** The only way not to end normally is the abort of the process, after a
    failed publication or acknowledgement, and then the message is not
    acknowledged: the broker will deliver it again. *)
Theorem handle_message_abort_unacked s s' m producer e :
  run (handle_message m producer errors addr) s = (s', Err e) ->
  e = Aborted /\ acked (ro_consumer s') = acked (ro_consumer s).
Proof.
  intros (tr & Halone & -> & Hacked)%handle_message_alone. split; [done|].
  by rewrite (al_acked _ _ _ _ Halone), Hacked, app_nil_r.
Qed.
End properties.

(** ** The tasks of the main loop *)

(** A spawned task: the message, and the value bound to [_guard].  That value
    is [Option<impl Future>]: the future that would acquire the permit of the
    order group, built by [map] and never awaited, so the code of the task goes
    on without it.  [st_trace] is the record of what the task has done, which
    the program does not keep. *)
Record SpawnedTask : Type := mkSpawnedTask {
  st_message : CommMessage; st_guard : option string; st_code : Code (); st_trace : list Event }.
Definition spawned_task `{UuidLib, JsonText, StdText, MessageText, AnyhowText} (producer : CommonPublisher)
    (errors addr : string) (m : CommMessage) : SpawnedTask :=
  mkSpawnedTask m (get_order_group_id m) (handle_message m producer errors addr) [].

(** ** A router in memory *)

#[export] Instance registry_client_inst : RegistryClient (gmap string string) := {
  client_get_schema_topic := fun _ id r => ok_or ["not found"] (r !! id);
}.
#[export] Instance anyhow_text_inst : AnyhowText := { anyhow_debug := foldr String.append EmptyString }.

(** the registry knows the schema 7, moves it to another topic after the first
    call, and is out of reach from the third one *)
Definition demo_registry (n : nat) : gmap string string :=
  match n with
  | 0 => {[uuid_to_string 7%N := "orders"]}
  | 1 => {[uuid_to_string 7%N := "orders.v2"]}
  | _ => ∅
  end.
Definition demo_router (topics : list string) (cache : gmap Uuid string) :
    Router (gmap Uuid string) MemoryBroker (list CommMessage) (gmap string string) :=
  mkRouter cache (mkMemoryBroker topics []) [] demo_registry 0 (fun i => Z.of_nat i) 0.
Definition demo_message : CommMessage := KafkaCommunicationMessage (Some "k") (Some "[]") 0 3.
Definition demo_routed cache :=
  (run (handle_message demo_message PublisherKafka "errors" "addr") (demo_router ["orders"; "errors"] cache)).1.

Lemma handle_message_routes_witness :
  let s := demo_router ["orders"; "errors"] ∅ in
  let s' := demo_routed ∅ in
  exists outs report,
    message_fate "errors" (topic_found "addr" s s') (topic_refused "addr" s s') demo_message
      (ro_clock s <$> seq (ro_ticks s) (length (default [] (entries_of demo_message)))) outs report /\
    sent (ro_broker s') = sent (ro_broker s) ++ omap id outs ++ report /\
    acked (ro_consumer s') = acked (ro_consumer s) ++ [demo_message] /\
    ro_calls s' <= ro_calls s + length (default [] (entries_of demo_message)) /\
    (all_cached s demo_message -> ro_calls s' = ro_calls s).
Proof.
  apply (handle_message_routes "addr" "errors" (demo_router ["orders"; "errors"] ∅) (demo_routed ∅) demo_message
    PublisherKafka); vm_eq.
Defined.

(** the second entry has no schema: it is left out and reported; a topic that is
    cached is not asked for again *)
Example demo_routed_log :
  mb_log (ro_broker (demo_routed ∅)) =
    [("orders", "k", "[]"); ("errors", "data-router", "Tried to send message and failednot found")] /\
  ro_calls (demo_routed ∅) = 2 /\
  mb_log (ro_broker (demo_routed {[7%N := "orders"; 8%N := "orders"]})) =
    [("orders", "k", "[]"); ("orders", "k", "[]")] /\
  ro_calls (demo_routed {[7%N := "orders"; 8%N := "orders"]}) = 0.
Proof. vm_compute. by split_and!. Qed.

Lemma handle_message_abort_unacked_witness :
  let s := demo_router ["errors"] ∅ in
  let s' := (run (handle_message demo_message PublisherKafka "errors" "addr") s).1 in
  Aborted = Aborted /\ acked (ro_consumer s') = acked (ro_consumer s).
Proof.
  apply (handle_message_abort_unacked "addr" "errors" (demo_router ["errors"] ∅)
    (run (handle_message demo_message PublisherKafka "errors" "addr") (demo_router ["errors"] ∅)).1
    demo_message PublisherKafka Aborted); vm_eq.
Defined.
