(* ===== verification/RouterIntake.v ===== *)
(** The data router on a Kafka topic: the main loop of [crates/data-router/src/main.rs]
    over a consumer with its queue of offsets ([KafkaIntake]).  The tasks are the
    code of [DataRouter.handle_message]; they run interleaved, one operation at a
    time, over one cache, broker and registry.  The theorems are what the parts
    promise together: after a crash at any time, what Kafka will not deliver again
    has been dealt with; and the tasks may end in any order. *)
From stdpp Require Import prelude gmap strings list fin_maps relations.
From S2P Require Import Prelude Json Externals Instances Lru Messaging AckQueue MessageTypes TaskLimiter.
From S2P Require Import KafkaIntake DataRouter.

(** ** The running router *)

Section intake.
Context {C B R : Type} `{LruLaws string C, BrokerLaws B, DataRouter.RegistryClient R, UuidLib, JsonText,
  StdText, MessageText, AnyhowText}.
Context (topic : string) (producer : CommonPublisher) (errors addr : string).
#[local] Existing Instance kafka_acker.
#[local] Instance intake_acker : Acker KafkaConsumer := kafka_acker topic.
#[local] Instance intake_acker_laws : AckerLaws KafkaConsumer := kafka_acker_laws topic.

(** the main loop over one consumer: a message that was fetched and waits for a
    permit, and the running tasks; [in_delivered] is what the consumer has handed
    out.  [in_aborted] is the end by [process::abort].  An error of the stream ends
    it: from then on nothing is fetched, which any state allows. *)
Record Intake : Type := mkIntake {
  in_router : Router C B KafkaConsumer R;
  in_pending : option CommMessage;
  in_tasks : TaskLimiter SpawnedTask;
  in_delivered : list CommMessage;
  in_aborted : bool;
}.
Implicit Types (w : Intake) (s : Router C B KafkaConsumer R) (m : CommMessage) (t : SpawnedTask).

Definition intake_new (limit : nat) s : Intake := mkIntake s None (task_limiter_new limit) [] false.

#[local] Abbreviation spawned := (spawned_task producer errors addr).

(** the task has performed [o], was answered [x] and goes on with [p] *)
Definition task_next t (p : Code ()) (v : Event) : SpawnedTask :=
  mkSpawnedTask (st_message t) (st_guard t) p (st_trace t ++ [v]).
Definition put_task (i : nat) t (l : TaskLimiter SpawnedTask) : TaskLimiter SpawnedTask :=
  mkTaskLimiter (permits l) (<[i := t]> (running l)).

(** a message is fetched; its task is spawned, performs its operations, with
    those of the others in between, and ends, or aborts the process *)
Inductive intake_step w : Intake -> Prop :=
| intake_fetch key payload partition offset :
    in_aborted w = false -> in_pending w = None -> next_offset (in_delivered w) partition offset ->
    let m := KafkaCommunicationMessage key payload partition offset in
    intake_step w (mkIntake (put_consumer (consumer_fetch topic m (ro_consumer (in_router w))) (in_router w))
      (Some m) (in_tasks w) (in_delivered w ++ [m]) false)
| intake_spawn m l :
    in_aborted w = false -> in_pending w = Some m -> limiter_run (spawned m) (in_tasks w) = Some l ->
    intake_step w (mkIntake (in_router w) None l (in_delivered w) false)
| intake_act i t o k s x :
    in_aborted w = false -> running (in_tasks w) !! i = Some t -> st_code t = Act o k ->
    exec o (in_router w) = (s, x) ->
    intake_step w (mkIntake s (in_pending w) (put_task i (task_next t (k x) (event o x)) (in_tasks w))
      (in_delivered w) false)
| intake_end i t l :
    in_aborted w = false -> limiter_end i (in_tasks w) = Some (t, l) -> st_code t = Done (Ok ()) ->
    intake_step w (mkIntake (in_router w) (in_pending w) l (in_delivered w) false)
| intake_abort i t e :
    in_aborted w = false -> running (in_tasks w) !! i = Some t -> st_code t = Done (Err e) ->
    intake_step w (mkIntake (in_router w) (in_pending w) (in_tasks w) (in_delivered w) true).

(** ** Invariant *)

(** between [s0] and [s], the entries of [m] have been published, and what could
    not be has been reported *)
Definition dealt_with s0 s m : Prop :=
  exists times outs report,
    message_fate errors (topic_found addr s0 s) (topic_refused addr s0 s) m times outs report /\
    Forall (fun z => exists j, ro_ticks s0 <= j < ro_ticks s /\ z = ro_clock s0 j) times /\
    omap id outs ++ report `sublist_of` sent (ro_broker s).

(** a task, whose trace is a record of what happened *)
Record task_ok s0 s t : Prop := {
  to_behaves : behaves (disciplined addr errors (st_message t)) (ends addr errors (st_message t)) (st_code t) (st_trace t);
  to_heard : heard addr s0 s (st_trace t);
  to_sent : sent_of (st_trace t) `sublist_of` sent (ro_broker s);
}.

(** the messages whose tasks have not acknowledged them, or wait for a permit *)
Definition unacked t : option CommMessage :=
  match acked_of (st_trace t) with [] => Some (st_message t) | _ => None end.
Definition in_progress w : list CommMessage :=
  omap unacked (running (in_tasks w)) ++ option_list (in_pending w).

Record intake_inv s0 w : Prop := {
  ii_consumer : consumer_inv (in_delivered w) (in_progress w) (ro_consumer (in_router w));
  ii_since : since addr s0 (in_router w);
  ii_tasks : Forall (task_ok s0 (in_router w)) (running (in_tasks w));
  ii_dealt m : m ∈ kc_acked (ro_consumer (in_router w)) -> dealt_with s0 (in_router w) m;
}.

(** what has happened stays *)
Record later s s' : Prop := {
  la_calls : ro_calls s <= ro_calls s';
  la_ticks : ro_ticks s <= ro_ticks s';
  la_sent : sent (ro_broker s) `prefix_of` sent (ro_broker s');
}.

Lemma exec_later o s s' x : exec o s = (s', x) -> later s s'.
Proof.
  intros Hx. destruct (exec_calls _ _ _ _ Hx) as (Hc & Ht & _). destruct (exec_sent _ _ _ _ Hx) as [Hs _].
  split; [lia|lia|]. etrans; [|exact Hs]. by apply prefix_app_r.
Qed.

Lemma dealt_with_later s0 s s' m : later s s' -> dealt_with s0 s m -> dealt_with s0 s' m.
Proof.
  intros [Hc Ht [l Hl]] (times & outs & report & Hf & Htimes & Hsub). exists times, outs, report. split_and!.
  - eapply message_fate_mono; [..|exact Hf]; intros; [by eapply topic_found_later|by eapply topic_refused_later].
  - eapply Forall_impl; [exact Htimes|]. intros z (j & ? & ->). exists j. split; [lia|done].
  - rewrite Hl. by apply sublist_inserts_r.
Qed.

Lemma task_ok_later s0 s s' t : later s s' -> task_ok s0 s t -> task_ok s0 s' t.
Proof.
  intros [Hc Ht [l Hl]] [Hb Hh Hs]. split; [done|by eapply heard_later|]. rewrite Hl. by apply sublist_inserts_r.
Qed.

Lemma intake_new_inv limit s : ro_consumer s = kafka_consumer_new -> intake_inv s (intake_new limit s).
Proof.
  intros Hk. split; simpl; rewrite ?Hk; [apply consumer_new_inv|apply since_refl|constructor|].
  by intros m ?%not_elem_of_nil.
Qed.

Lemma put_consumer_since s0 s k : since addr s0 s -> since addr s0 (put_consumer k s).
Proof. by intros []. Qed.

Lemma intake_spawn_inv s0 w m l :
  intake_inv s0 w -> in_pending w = Some m -> limiter_run (spawned m) (in_tasks w) = Some l ->
  intake_inv s0 (mkIntake (in_router w) None l (in_delivered w) false).
Proof.
  intros [Hk Hs Ht Hd] Hpend Hrun. unfold in_progress in Hk. rewrite Hpend in Hk.
  unfold limiter_run in Hrun. destruct (permits (in_tasks w)); [done|]. injection Hrun as <-.
  split; simpl; [|done| |done].
  - unfold in_progress. simpl. by rewrite omap_app, app_nil_r.
  - apply Forall_app. split; [done|]. constructor; [|constructor].
    split; simpl; [apply handle_message_behaves|apply heard_nil|apply sublist_nil_l].
Qed.

(** one operation of a task *)
Lemma task_ok_exec s0 s t o k s' x :
  since addr s0 s -> task_ok s0 s t -> st_code t = Act o k -> exec o s = (s', x) ->
  disciplined addr errors (st_message t) (st_trace t) (event o x) /\ task_ok s0 s' (task_next t (k x) (event o x)).
Proof.
  intros Hs [Hb Hh Hsub] Hcode Hx. rewrite Hcode in Hb. destruct (Hb x) as [Hd Hk]. split; [done|]. split; simpl.
  - done.
  - by eapply exec_heard.
  - destruct (exec_sent _ _ _ _ Hx) as [[l Hl] _]. unfold sent_of in *. rewrite omap_app, Hl, <- app_assoc.
    apply sublist_app; [done|]. by apply sublist_inserts_r.
Qed.

Lemma running_split (l : list SpawnedTask) i t t' : l !! i = Some t ->
  exists l1 l2, l = l1 ++ t :: l2 /\ <[i := t']> l = l1 ++ t' :: l2.
Proof.
  intros Hi. exists (take i l), (drop (S i) l). split; [by rewrite take_drop_middle|].
  rewrite insert_take_drop by (by eapply lookup_lt_Some). done.
Qed.

Lemma omap_middle {X Y} (f : X -> option Y) l1 l2 x :
  omap f (l1 ++ x :: l2) ≡ₚ option_list (f x) ++ omap f l1 ++ omap f l2.
Proof. rewrite omap_app. cbn [omap list_omap]. destruct (f x); simpl; [by rewrite Permutation_middle|done]. Qed.

(** an operation that is no acknowledgement leaves the consumer and what is in progress *)
Lemma intake_act_consumer s0 w i t o k s x :
  intake_inv s0 w -> running (in_tasks w) !! i = Some t -> st_code t = Act o k -> exec o (in_router w) = (s, x) ->
  let w' := mkIntake s (in_pending w) (put_task i (task_next t (k x) (event o x)) (in_tasks w)) (in_delivered w) false in
  consumer_inv (in_delivered w) (in_progress w') (ro_consumer s) /\
  (kc_acked (ro_consumer s) = kc_acked (ro_consumer (in_router w)) \/
   kc_acked (ro_consumer s) = kc_acked (ro_consumer (in_router w)) ++ [st_message t] /\
   dealt_in addr errors (st_trace t) (st_message t)).
Proof.
  intros [Hk Hs Htasks _] Hi Hcode Hx w'. pose proof (proj1 (Forall_lookup _ _) Htasks _ _ Hi) as Ht.
  destruct (task_ok_exec _ _ _ _ _ _ _ Hs Ht Hcode Hx) as [Hd _]. apply exec_consumer in Hx.
  destruct (running_split _ _ _ (task_next t (k x) (event o x)) Hi) as (l1 & l2 & Hl & Hl').
  assert (in_progress w' ≡ₚ option_list (unacked (task_next t (k x) (event o x))) ++
    omap unacked l1 ++ omap unacked l2 ++ option_list (in_pending w)) as Hprog'.
  { unfold in_progress, w'. cbn [in_tasks in_pending put_task running]. by rewrite Hl', omap_middle, <- !app_assoc. }
  assert (in_progress w ≡ₚ option_list (unacked t) ++ omap unacked l1 ++ omap unacked l2 ++ option_list (in_pending w)) as Hprog.
  { unfold in_progress. by rewrite Hl, omap_middle, <- !app_assoc. }
  rewrite Hprog in Hk. rewrite Hprog'. unfold unacked in *. cbn [task_next st_trace st_message]. rewrite acked_of_app.
  destruct (event o x) as [| | | | |tp ky pl r|m r]; simpl;
    try (rewrite Hx; split; [|by left]; replace (acked_of (st_trace t) ++ []) with (acked_of (st_trace t))
           by (by rewrite app_nil_r); exact Hk).
  destruct Hd as (-> & Hacked & _ & Hdealt & _). rewrite Hacked in Hk |- *. simpl in Hk.
  destruct (consumer_ack_inv topic _ _ _ _ Hk) as (k' & Hack & Hk' & Hinv).
  change (@ack_message _ intake_acker) with (consumer_ack topic) in Hx. rewrite Hack in Hx. injection Hx as -> <-.
  simpl. split; [done|]. by right.
Qed.

Lemma intake_act_inv s0 w i t o k s x :
  intake_inv s0 w -> running (in_tasks w) !! i = Some t -> st_code t = Act o k -> exec o (in_router w) = (s, x) ->
  intake_inv s0 (mkIntake s (in_pending w) (put_task i (task_next t (k x) (event o x)) (in_tasks w)) (in_delivered w) false).
Proof.
  intros Hinv Hi Hcode Hx. destruct (intake_act_consumer _ _ _ _ _ _ _ _ Hinv Hi Hcode Hx) as [Hk Hacked].
  destruct Hinv as [_ Hs Htasks Hdealt]. pose proof (proj1 (Forall_lookup _ _) Htasks _ _ Hi) as Ht.
  destruct (task_ok_exec _ _ _ _ _ _ _ Hs Ht Hcode Hx) as [Hd Ht']. pose proof (exec_later _ _ _ _ Hx) as Hlater.
  split; simpl; [done|..].
  - eapply exec_since; eauto using to_heard.
  - apply Forall_insert; [|done]. eapply Forall_impl; [exact Htasks|]. intros. by eapply task_ok_later.
  - intros m Hm. destruct Hacked as [Heq|[Heq (outs & report & Hfate & Hsent)]]; rewrite Heq in Hm.
    { eapply dealt_with_later; [done|]. by apply Hdealt. }
    apply elem_of_app in Hm as [Hm| ->%list_elem_of_singleton]; [eapply dealt_with_later; [done|by apply Hdealt]|].
    eapply dealt_with_later; [exact Hlater|]. destruct Ht as [_ [Hf Hr Htimes] Hsub].
    exists (reads_of (st_trace t)), outs, report. split_and!; [|done|by rewrite <- Hsent].
    eapply message_fate_mono; [exact Hf|exact Hr|exact Hfate].
Qed.

Lemma intake_end_inv s0 w i t l :
  intake_inv s0 w -> limiter_end i (in_tasks w) = Some (t, l) -> st_code t = Done (Ok ()) ->
  intake_inv s0 (mkIntake (in_router w) (in_pending w) l (in_delivered w) false).
Proof.
  intros [Hk Hs Htasks Hdealt] [Hi Hl]%limiter_end_running Hcode.
  pose proof (proj1 (Forall_lookup _ _) Htasks _ _ Hi) as [Hb _ _]. rewrite Hcode in Hb. destruct Hb as (tr & Htr & _).
  split; simpl; [|done| |done].
  - unfold in_progress in *. simpl. rewrite Hl. rewrite (delete_Permutation _ _ _ Hi) in Hk. simpl in Hk.
    unfold unacked in Hk at 1. rewrite Htr, acked_of_app in Hk. simpl in Hk.
    destruct (acked_of tr ++ [st_message t]) eqn:Hn; [by destruct (acked_of tr)|exact Hk].
  - rewrite Hl. by apply Forall_delete.
Qed.

Lemma intake_step_inv s0 w w' : intake_inv s0 w -> intake_step w w' -> intake_inv s0 w'.
Proof.
  intros Hinv [key payload p o Hab Hpend Hnew m|m l Hab Hpend Hrun|i t o k s x Hab Hi Hcode Hx|i t l Hab Hend Hcode|i t e Hab Hi Hcode].
  - destruct Hinv as [Hk Hs Ht Hd]. split; simpl; [|by apply put_consumer_since| |].
    + unfold in_progress in *. rewrite Hpend, app_nil_r in Hk. by apply consumer_fetch_inv.
    + eapply Forall_impl; [exact Ht|]. intros u. by apply task_ok_later.
    + intros m' Hm'. eapply (dealt_with_later _ (in_router w)); [done|]. by apply Hd.
  - by eapply intake_spawn_inv.
  - by eapply intake_act_inv.
  - by eapply intake_end_inv.
  - by destruct Hinv.
Qed.

Lemma intake_steps_inv s0 w w' : intake_inv s0 w -> rtc intake_step w w' -> intake_inv s0 w'.
Proof. intros Hinv Hsteps. induction Hsteps; [done|]. apply IHHsteps. by eapply intake_step_inv. Qed.

(** C23: at-least-once routing.  At any time, also after an abort of the process,
    every message that Kafka handed out up to the offset stored for its
    partition, from which a restarted router reads on, has been dealt with: its
    entries have been published, in order, each on a topic that the registry
    named for its schema at some call since the router started (or that was
    cached then), except those for which a call failed or no text could be
    written, and with a report if something was left out.  The tasks run
    interleaved, and the registry may change or fail between any two calls. *)
Theorem stored_messages_dealt_with limit s w p o stored m :
  ro_consumer s = kafka_consumer_new -> rtc intake_step (intake_new limit s) w ->
  kc_stored (ro_consumer (in_router w)) !! p = Some stored ->
  m ∈ in_delivered w -> position m = (p, o) -> (o <= stored)%Z ->
  dealt_with s (in_router w) m.
Proof.
  intros Hk Hsteps Hstored Hm Hpos Hle.
  destruct (intake_steps_inv _ _ _ (intake_new_inv limit s Hk) Hsteps) as [Hinv _ _ Hdealt].
  apply Hdealt. by eapply consumer_stored_acked.
Qed.

(** ** Any order *)

(** the messages of [ms] handled one after the other *)
Fixpoint handle_all (ms : list CommMessage) s : Router C B KafkaConsumer R * result Stop () :=
  match ms with
  | [] => (s, Ok ())
  | m :: ms' =>
      let '(s', r) := run (handle_message m producer errors addr) s in
      match r with Ok _ => handle_all ms' s' | Err e => (s', Err e) end
  end.
Fixpoint fetch_all (ms : list CommMessage) s : Router C B KafkaConsumer R :=
  match ms with
  | [] => s
  | m :: ms' => fetch_all ms' (put_consumer (consumer_fetch topic m (ro_consumer s)) s)
  end.
Fixpoint fetchable (delivered ms : list CommMessage) : Prop :=
  match ms with
  | [] => True
  | m :: ms' =>
      (exists key payload p o, m = KafkaCommunicationMessage key payload p o /\ next_offset delivered p o) /\
      fetchable (delivered ++ [m]) ms'
  end.

(** a task that the others leave alone *)
Lemma task_alone i w t s' r :
  in_aborted w = false -> running (in_tasks w) !! i = Some t -> run (st_code t) (in_router w) = (s', r) ->
  exists t', st_code t' = Done r /\
    rtc intake_step w (mkIntake s' (in_pending w) (put_task i t' (in_tasks w)) (in_delivered w) false).
Proof.
  remember (st_code t) as p eqn:Hp. revert w t Hp. induction p as [r'|o k IH]; intros w t Hp Hab Hi Hrun; simpl in Hrun.
  - injection Hrun as <- <-. exists t. split; [done|]. unfold put_task. rewrite list_insert_id by done.
    destruct w as [rt pe [pm l] d ab]. simpl in *. subst ab. apply rtc_refl.
  - destruct (exec o (in_router w)) as [s1 x] eqn:Hx.
    destruct (IH x (mkIntake s1 (in_pending w) (put_task i (task_next t (k x) (event o x)) (in_tasks w)) (in_delivered w) false)
      (task_next t (k x) (event o x))) as (t' & Ht' & Hsteps); [done|done| |done|].
    + simpl. apply list_lookup_insert_eq. by eapply lookup_lt_Some.
    + exists t'. split; [done|]. eapply rtc_l; [by eapply (intake_act w i t o k s1 x)|].
      unfold put_task in Hsteps. simpl in Hsteps. by rewrite list_insert_insert_eq in Hsteps.
Qed.

Lemma tasks_in_order order w s' :
  in_aborted w = false -> running (in_tasks w) ≡ₚ spawned <$> order -> handle_all order (in_router w) = (s', Ok ()) ->
  exists l, running l = [] /\ rtc intake_step w (mkIntake s' (in_pending w) l (in_delivered w) false).
Proof.
  revert w. induction order as [|m order IH]; intros w Hab Hperm Hrun; simpl in Hrun.
  - injection Hrun as <-. exists (in_tasks w). split; [by apply Permutation_nil_r|].
    destruct w as [rt pe l d ab]. simpl in *. subst ab. apply rtc_refl.
  - destruct (run _ _) as [s1 [[]|e]] eqn:Hm; [|done].
    assert (spawned m ∈ running (in_tasks w)) as [i Hi]%list_elem_of_lookup by (rewrite Hperm; by left).
    destruct (task_alone i w (spawned m) s1 (Ok ()) Hab Hi Hm) as (t' & Ht' & Hsteps).
    set (w1 := mkIntake s1 (in_pending w) (put_task i t' (in_tasks w)) (in_delivered w) false) in *.
    set (l1 := mkTaskLimiter (S (permits (in_tasks w))) (delete i (running (in_tasks w)))).
    assert (limiter_end i (in_tasks w1) = Some (t', l1)) as Hend.
    { unfold limiter_end, w1. cbn [in_tasks put_task running permits].
      rewrite list_lookup_insert_eq by (by eapply lookup_lt_Some). cbn. unfold l1. do 3 f_equal.
      rewrite (delete_take_drop _ i), (delete_take_drop (running _)).
      by rewrite take_insert_ge, drop_insert_lt by lia. }
    destruct (IH (mkIntake s1 (in_pending w) l1 (in_delivered w) false)) as (l & Hl & Hrest); [done| |done|].
    + simpl. rewrite (delete_Permutation _ _ _ Hi), fmap_cons in Hperm. by apply Permutation_cons_inv in Hperm.
    + exists l. split; [done|]. etrans; [exact Hsteps|]. eapply rtc_l; [by eapply (intake_end w1 i t' l1)|exact Hrest].
Qed.

Lemma fetch_and_spawn ms w :
  in_aborted w = false -> in_pending w = None -> length ms <= permits (in_tasks w) -> fetchable (in_delivered w) ms ->
  exists l, running l = running (in_tasks w) ++ (spawned <$> ms) /\
    rtc intake_step w (mkIntake (fetch_all ms (in_router w)) None l (in_delivered w ++ ms) false).
Proof.
  revert w. induction ms as [|m ms IH]; intros w Hab Hpend Hlen Hf; simpl in Hlen.
  - exists (in_tasks w). rewrite !app_nil_r. split; [done|]. destruct w as [rt pe l d ab]. simpl in *. subst. apply rtc_refl.
  - destruct Hf as [(key & payload & p & o & -> & Hnext) Hf]. set (m := KafkaCommunicationMessage key payload p o) in *.
    destruct (in_tasks w) as [[|n] l] eqn:Htasks; simpl in Hlen; [lia|].
    destruct (IH (mkIntake (put_consumer (consumer_fetch topic m (ro_consumer (in_router w))) (in_router w)) None
      (mkTaskLimiter n (l ++ [spawned m])) (in_delivered w ++ [m]) false)) as (l' & Hl' & Hrest); [done|done|simpl; lia|done|].
    exists l'. simpl in Hl'. rewrite <- app_assoc in Hl'. split; [done|].
    eapply rtc_l; [by eapply (intake_fetch w key payload p o)|]. fold m.
    eapply rtc_l; [eapply (intake_spawn _ m (mkTaskLimiter n (l ++ [spawned m]))); [done|done|by rewrite Htasks]|].
    simpl in Hrest. by rewrite <- app_assoc in Hrest.
Qed.

(** Messages can be handled in any order.  For every rearrangement of at most
    [limit] messages that Kafka hands out, of one order group or of several, the
    router has a run that handles them one after the other in that order. *)
Theorem any_order_possible limit ms order s s' :
  ms ≡ₚ order -> length ms <= limit -> fetchable [] ms -> handle_all order (fetch_all ms s) = (s', Ok ()) ->
  exists l, running l = [] /\ rtc intake_step (intake_new limit s) (mkIntake s' None l ms false).
Proof.
  intros Hperm Hlen Hf Hrun.
  destruct (fetch_and_spawn ms (intake_new limit s)) as (l1 & Hl1 & Hsteps1); [done..|].
  destruct (tasks_in_order order (mkIntake (fetch_all ms s) None l1 ms false) s') as (l & Hl & Hsteps); [done| |done|].
  - simpl. rewrite Hl1. simpl. by rewrite Hperm.
  - exists l. split; [done|]. etrans; [exact Hsteps1|exact Hsteps].
Qed.

(** ** Schedules *)

(** the next thing to happen, and what it leads to if it can happen *)
Inductive Choice : Type :=
| ChooseFetch (key payload : option string) (partition offset : Z)
| ChooseSpawn
| ChooseTask (i : nat).
Definition take_choice (choice : Choice) w : option Intake :=
  if in_aborted w then None else
  match choice with
  | ChooseFetch key payload p o =>
      let m := KafkaCommunicationMessage key payload p o in
      if decide (in_pending w = None /\ next_offset (in_delivered w) p o) then
        Some (mkIntake (put_consumer (consumer_fetch topic m (ro_consumer (in_router w))) (in_router w))
          (Some m) (in_tasks w) (in_delivered w ++ [m]) false)
      else None
  | ChooseSpawn =>
      m ← in_pending w;
      l ← limiter_run (spawned m) (in_tasks w);
      Some (mkIntake (in_router w) None l (in_delivered w) false)
  | ChooseTask i =>
      t ← running (in_tasks w) !! i;
      match st_code t with
      | Act o k =>
          let '(s, x) := exec o (in_router w) in
          Some (mkIntake s (in_pending w) (put_task i (task_next t (k x) (event o x)) (in_tasks w)) (in_delivered w) false)
      | Done (Ok _) =>
          '(_, l) ← limiter_end i (in_tasks w);
          Some (mkIntake (in_router w) (in_pending w) l (in_delivered w) false)
      | Done (Err _) => Some (mkIntake (in_router w) (in_pending w) (in_tasks w) (in_delivered w) true)
      end
  end.
Fixpoint run_schedule (l : list Choice) w : option Intake :=
  match l with [] => Some w | choice :: l' => w' ← take_choice choice w; run_schedule l' w' end.

Lemma router_choice_step choice w w' : take_choice choice w = Some w' -> intake_step w w'.
Proof.
  unfold take_choice. destruct (in_aborted w) eqn:Hab; [done|]. destruct choice as [key payload p o| |i].
  - case_decide as Hd; [|done]. destruct Hd. intros [= <-]. by apply intake_fetch.
  - destruct (in_pending w) as [m|] eqn:Hp; simpl; [|done].
    destruct (limiter_run _ _) as [l|] eqn:Hl; simpl; [|done]. intros [= <-]. by eapply intake_spawn.
  - destruct (running (in_tasks w) !! i) as [t|] eqn:Hi; simpl; [|done].
    destruct (st_code t) as [[[]|e]|o k] eqn:Hcode.
    + destruct (limiter_end i (in_tasks w)) as [[t' l]|] eqn:Hend; simpl; [|done]. intros [= <-].
      assert (t' = t) as -> by (apply limiter_end_running in Hend as [? _]; congruence). by eapply intake_end.
    + intros [= <-]. by eapply intake_abort.
    + destruct (exec o (in_router w)) as [s x] eqn:Hx. intros [= <-]. by eapply intake_act.
Qed.

(** the state a schedule leads to, when all of it can happen *)
Definition after (l : list Choice) w : Intake := default w (run_schedule l w).
Definition can_run (l : list Choice) w : bool := if run_schedule l w then true else false.

Lemma router_schedule_steps l w w' : run_schedule l w = Some w' -> rtc intake_step w w'.
Proof.
  revert w. induction l as [|choice l IH]; intros w; simpl; [intros [= ->]; apply rtc_refl|].
  destruct (take_choice choice w) as [w1|] eqn:Hc; simpl; [|done]. intros Hl.
  eapply rtc_l; [by eapply router_choice_step|by apply IH].
Qed.
Lemma after_steps l w : can_run l w = true -> rtc intake_step w (after l w).
Proof.
  unfold can_run, after. destruct (run_schedule l w) as [w'|] eqn:Hrun; [|done]. intros _.
  by eapply router_schedule_steps.
Qed.
End intake.

(** ** Two messages of one order group, handled at the same time *)

#[local] Instance run_json : JsonText := { json_parse := fun _ => Ok Null; json_to_string := fun _ => Ok "null" }.
#[local] Instance run_text : MessageText := {
  insert_message_from_str := fun s => Ok (mkDataRouterInsertMessage 1 7 s);
  insert_messages_from_str := fun _ => Err "expected a sequence";
  borrowed_to_string := fun m => Ok (bi_data m);
  borrowed_from_str := fun s => Ok (mkBorrowedInsertMessage 1 7 0 s);
}.

Abbreviation MemoryIntake := (@Intake (gmap Uuid string) MemoryBroker (gmap string string)) (only parsing).
Definition run_router : Router (gmap Uuid string) MemoryBroker KafkaConsumer (gmap string string) :=
  mkRouter ∅ (mkMemoryBroker ["orders"; "orders.v2"; "errors"] []) kafka_consumer_new demo_registry 0
    (fun i => Z.of_nat i) 0.
Definition run_message (payload : string) (offset : Z) : CommMessage :=
  KafkaCommunicationMessage (Some "k") (Some payload) 0 offset.
Definition run_fetches : list Choice :=
  [ChooseFetch (Some "k") (Some "a") 0 0; ChooseSpawn; ChooseFetch (Some "k") (Some "b") 0 1; ChooseSpawn].
(** both tasks miss the cache; the second is answered first, then the registry
    moves the schema to another topic, and the second ends first *)
Definition run_tasks : list Choice :=
  [ChooseTask 0; ChooseTask 0; ChooseTask 1; ChooseTask 1; ChooseTask 1; ChooseTask 0;
   ChooseTask 1; ChooseTask 1; ChooseTask 1; ChooseTask 1; ChooseTask 0; ChooseTask 0; ChooseTask 0; ChooseTask 0].

#[local] Abbreviation run_after l :=
  (after (C := gmap Uuid string) (B := MemoryBroker) (R := gmap string string) "input" PublisherKafka "errors" "addr"
     l (intake_new 8 run_router)).

Example run_order :
  sent (ro_broker (in_router (run_after (run_fetches ++ run_tasks)))) =
    [("orders", "k", "b"); ("orders.v2", "k", "a")].
Proof. vm_eq. Qed.

Lemma stored_messages_dealt_with_witness :
  dealt_with "errors" "addr" run_router (in_router (run_after (run_fetches ++ run_tasks))) (run_message "a" 0).
Proof.
  apply (stored_messages_dealt_with "input" PublisherKafka "errors" "addr" 8 run_router
    (run_after (run_fetches ++ run_tasks)) 0 0 1 (run_message "a" 0)).
  - reflexivity.
  - apply after_steps. vm_eq.
  - vm_eq.
  - replace (in_delivered (run_after (run_fetches ++ run_tasks))) with [run_message "a" 0; run_message "b" 1]
      by (symmetry; vm_eq). by left.
  - reflexivity.
  - lia.
Defined.
