(* ===== verification/RouterLive.v ===== *)
(** Progress of the data router over a Kafka topic ([RouterIntake]): the code of a
    task has a bounded number of operations, so that the router, left to its
    permits and tasks, comes to rest; and at rest the offsets have caught up. *)
From stdpp Require Import prelude gmap strings list fin_maps numbers relations.
From S2P Require Import Prelude Json Externals Instances Lru Messaging AckQueue MessageTypes TaskLimiter.
From S2P Require Import KafkaIntake DataRouter RouterIntake.

(** ** The length of a task *)

(** [p] performs at most [n] operations *)
Fixpoint within {A} (p : Code A) (n : nat) : Prop :=
  match p with
  | Done _ => True
  | Act o k => match n with 0 => False | S n => forall x, within (k x) n end
  end.

Lemma within_mono {A} (p : Code A) n n' : n <= n' -> within p n -> within p n'.
Proof.
  revert n n'. induction p as [r|o k IH]; intros [|n] [|n'] Hle; simpl; try done; [lia|].
  intros Hp x. eapply IH; [|by apply Hp]. lia.
Qed.

Lemma within_bind {A A'} (p : Code A) (f : A -> Code A') n n' :
  within p n -> (forall a, within (f a) n') -> within (p ≫= f) (n + n').
Proof.
  intros Hp Hf. revert n Hp. induction p as [[a|e]|o k IH]; intros n Hp; simpl.
  - apply (within_mono _ n'); [lia|apply Hf].
  - done.
  - destruct n as [|n]; [done|]. intros x. by apply IH.
Qed.

Lemma within_context {A} c (p : Code A) n : within p n -> within (context c p) n.
Proof.
  revert n. induction p as [[a|[l|]]|o k IH]; intros n Hp; simpl; try done. destruct n; [done|].
  intros x. by apply IH.
Qed.
Lemma within_attempt (p : Code ()) n : within p n -> within (attempt p) n.
Proof.
  revert n. induction p as [[[]|[l|]]|o k IH]; intros n Hp; simpl; try done. destruct n; [done|].
  intros x. by apply IH.
Qed.

Section tasks.
Context `{UuidLib, JsonText, StdText, MessageText, AnyhowText}.
Context (producer : CommonPublisher) (errors addr : string).
Implicit Types (m : CommMessage).

(** the clock, the cache, the registry, the cache again, the broker *)
Lemma route_within e key : within (route e key producer addr) 5.
Proof.
  unfold route. apply (within_bind (perform Now) _ 1 4); [done|]. intros z. apply (within_bind _ _ 3 1).
  - intros [t|]; simpl; [done|]. intros [t|l]; simpl; [|done]. by intros [].
  - intros t. destruct (borrowed_to_string _); [|done]. by intros [[]|].
Qed.

Lemma route_all_within l key res : within (route_all l key producer addr res) (5 * length l).
Proof.
  revert res. induction l as [|e l IH]; intros res; [done|].
  apply (within_mono _ (5 + 5 * length l)); [simpl; lia|].
  apply within_bind; [apply within_attempt, within_context, route_within|intros r; apply IH].
Qed.

Definition entry_count m : nat := length (default [] (entries_of m)).

Lemma route_payload_within m key : within (route_payload m key producer addr) (5 * entry_count m).
Proof.
  unfold route_payload, entry_count, entries_of. destruct (message_payload m) as [payload|e]; [|done].
  cbn. destruct (json_parse payload) as [json|e]; [|done]. cbn. destruct (is_array json).
  - destruct (insert_messages_from_str payload) as [l|e]; [|done]. apply (within_mono _ (5 * length l + 0)); [simpl; lia|]. apply within_bind; [apply route_all_within|done].
  - destruct (insert_message_from_str payload) as [e|e]; [|done].
    exact (within_context _ _ 5 (route_within e key)).
Qed.

(** a report, and the acknowledgement *)
Lemma handle_message_within m : within (handle_message m producer errors addr) (5 * entry_count m + 2).
Proof.
  apply within_bind; [apply within_attempt, route_payload_within|]. intros r.
  apply (within_bind _ _ 1 1); [|by intros [] [[]|]]. destruct r as [[]|l]; [done|]. by intros [[]|].
Qed.
End tasks.

(** ** The router *)

Section live.
Context {C B R : Type} `{LruLaws string C, BrokerLaws B, DataRouter.RegistryClient R, UuidLib, JsonText,
  StdText, MessageText, AnyhowText}.
Context (topic : string) (producer : CommonPublisher) (errors addr : string).
#[local] Instance live_acker : Acker KafkaConsumer := kafka_acker topic.
#[local] Abbreviation step := (intake_step (C := C) (B := B) (R := R) topic producer errors addr).
Implicit Types (w : Intake (C := C) (B := B) (R := R)) (t : SpawnedTask) (m : CommMessage) (n : nat).

(** what the router does by itself: everything but fetching *)
Definition work_step w w' : Prop := step w w' /\ in_delivered w' = in_delivered w.

(** what a message takes: a permit, its operations, and the end *)
Definition message_work m : nat := 5 * entry_count m + 4.
Definition task_work t : nat := 5 * entry_count (st_message t) + 3 - length (st_trace t).
Definition work_left w : nat :=
  if in_aborted w then 0 else
  sum_list_with task_work (running (in_tasks w)) + match in_pending w with Some m => message_work m | None => 0 end.

Record task_bounded t : Prop := {
  tb_trace : length (st_trace t) <= 5 * entry_count (st_message t) + 2;
  tb_code : within (st_code t) (5 * entry_count (st_message t) + 2 - length (st_trace t));
}.
Record live_inv (limit : nat) w : Prop := {
  li_permits : permits (in_tasks w) + length (running (in_tasks w)) = limit;
  li_tasks : Forall task_bounded (running (in_tasks w));
}.

Lemma task_next_bounded t o k x :
  task_bounded t -> st_code t = Act o k ->
  task_bounded (task_next t (k x) (event o x)) /\ task_work (task_next t (k x) (event o x)) < task_work t.
Proof.
  intros [Htr Hcode] Hact. rewrite Hact in Hcode. cbn [within] in Hcode. unfold task_work.
  assert (length (st_trace (task_next t (k x) (event o x))) = S (length (st_trace t))) as Hlen
    by (simpl; rewrite length_app; simpl; lia).
  destruct (5 * entry_count (st_message t) + 2 - length (st_trace t)) as [|n] eqn:Hn; [done|].
  split; [split|]; rewrite ?Hlen; cbn [task_next st_message st_code]; [lia| |lia].
  apply (within_mono _ n); [lia|apply Hcode].
Qed.

Lemma live_step limit w w' : live_inv limit w -> step w w' -> live_inv limit w'.
Proof.
  intros [Hl Ht] [key payload p o Hab Hpend Hnew m|m l Hab Hpend Hrun|i t o k s x Hab Hi Hcode Hx|i t l Hab Hend Hcode|i t e Hab Hi Hcode];
    split; simpl; try done.
  - by rewrite (limiter_run_permits _ _ _ Hrun).
  - unfold limiter_run in Hrun. destruct (permits _); [done|]. injection Hrun as <-. simpl.
    apply Forall_app. split; [done|]. constructor; [|constructor]. split; simpl; [lia|].
    rewrite Nat.sub_0_r. apply handle_message_within.
  - by rewrite length_insert.
  - apply Forall_insert; [done|]. 
    apply (task_next_bounded t o k x (proj1 (Forall_lookup _ _) Ht _ _ Hi) Hcode).
  - by rewrite (limiter_end_permits _ _ _ _ Hend).
  - apply limiter_end_running in Hend as [_ ->]. by apply Forall_delete.
Qed.

Lemma live_steps limit w w' : live_inv limit w -> rtc step w w' -> live_inv limit w'.
Proof. intros Hinv Hsteps. induction Hsteps; [done|]. apply IHHsteps. by eapply live_step. Qed.

Lemma router_works_steps n w w' : nsteps work_step n w w' -> rtc step w w'.
Proof. induction 1 as [|n w1 w2 w3 [Hs _] _ IH]; [done|]. by eapply rtc_l. Qed.

(** every step leaves less to do *)
Lemma router_work_less limit w w' : live_inv limit w -> work_step w w' -> work_left w' < work_left w.
Proof.
  intros [Hl Ht] [Hstep Hsame]. unfold work_left at 2.
  destruct Hstep as [key payload p o Hab Hpend Hnew m|m l Hab Hpend Hrun|i t o k s x Hab Hi Hcode Hx|i t l Hab Hend Hcode|i t e Hab Hi Hcode];
    rewrite Hab; unfold work_left; simpl in *.
  - apply (f_equal length) in Hsame. rewrite length_app in Hsame. simpl in Hsame. lia.
  - rewrite Hpend. unfold limiter_run in Hrun. destruct (permits _); [done|]. injection Hrun as <-. simpl.
    rewrite sum_list_with_app. cbn [sum_list_with].
    assert (task_work (spawned_task producer errors addr m) < message_work m) by (unfold task_work, message_work; cbn [spawned_task st_message st_trace length]; lia).
    lia.
  - pose proof (proj1 (Forall_lookup _ _) Ht _ _ Hi) as Hb.
    destruct (task_next_bounded t o k x Hb Hcode) as [_ Hless].
    destruct (running_split _ _ _ (task_next t (k x) (event o x)) Hi) as (l1 & l2 & -> & ->).
    rewrite !sum_list_with_app. simpl. lia.
  - apply limiter_end_running in Hend as [Hi ->]. pose proof (proj1 (Forall_lookup _ _) Ht _ _ Hi) as [Hb _].
    assert (0 < task_work t) by (unfold task_work; lia).
    rewrite delete_take_drop. rewrite <- (take_drop_middle _ _ _ Hi) at 3. rewrite !sum_list_with_app. simpl. lia.
  - pose proof (proj1 (Forall_lookup _ _) Ht _ _ Hi) as [Hb _].
    assert (0 < task_work t) by (unfold task_work; lia).
    rewrite <- (take_drop_middle _ _ _ Hi). rewrite sum_list_with_app. simpl. lia.
Qed.

Lemma router_works_less limit n w w' : live_inv limit w -> nsteps work_step n w w' -> n + work_left w' <= work_left w.
Proof.
  intros Hinv Hn. induction Hn as [|n w1 w2 w3 Hs _ IH]; [lia|].
  pose proof (router_work_less _ _ _ Hinv Hs). enough (n + work_left w3 <= work_left w2) by lia.
  apply IH. by eapply live_step; [|apply Hs].
Qed.

(** a router that is not at rest can go on *)
Definition at_rest w : Prop := in_pending w = None /\ running (in_tasks w) = [].

Lemma router_work_exists limit w :
  live_inv limit w -> 0 < limit -> in_aborted w = false -> ~ at_rest w -> exists w', work_step w w'.
Proof.
  intros [Hl _] Hpos Hab Hrest. destruct (running (in_tasks w)) as [|t l] eqn:Hrun.
  - destruct (in_pending w) as [m|] eqn:Hp; [|by destruct Hrest].
    destruct (permits (in_tasks w)) as [|k] eqn:Hk; [simpl in Hl; lia|].
    eexists. split; [eapply (intake_spawn _ _ _ _ w m); [done..|]; unfold limiter_run; by rewrite Hk|done].
  - assert (running (in_tasks w) !! 0 = Some t) as Hi by (by rewrite Hrun).
    destruct (st_code t) as [[[]|e]|o k] eqn:Hcode.
    + eexists. split; [eapply (intake_end _ _ _ _ w 0 t); [done| |done]; unfold limiter_end; by rewrite Hi|done].
    + eexists. split; [by eapply (intake_abort _ _ _ _ w 0 t)|done].
    + destruct (exec o (in_router w)) as [s x] eqn:Hx.
      eexists. split; [by eapply (intake_act _ _ _ _ w 0 t)|done].
Qed.

Lemma tasks_work_le l : sum_list_with task_work l <= sum_list_with message_work (st_message <$> l).
Proof.
  induction l as [|t l IH]; [done|]. rewrite fmap_cons. cbn [sum_list_with].
  assert (task_work t <= message_work (st_message t)) by (unfold task_work, message_work; lia). lia.
Qed.

(** C29: the router comes to rest.  From any state it can be in, and in whatever
    order its permits and the operations of its tasks take turns, it can take at
    most five steps per entry of the messages it has in hand, and four more per
    message, before it has aborted or has nothing in progress; and then the
    offset stored for each partition has caught up with every message that was
    handed out. *)
Theorem router_drains limit s w n w' :
  0 < limit -> ro_consumer s = kafka_consumer_new -> rtc step (intake_new limit s) w -> nsteps work_step n w w' ->
  n <= sum_list_with message_work ((st_message <$> running (in_tasks w)) ++ option_list (in_pending w)) /\
  ((exists w'', work_step w' w'') \/ in_aborted w' = true \/ at_rest w' /\
     forall m, m ∈ in_delivered w' -> exists stored,
       kc_stored (ro_consumer (in_router w')) !! (position m).1 = Some stored /\ ((position m).2 <= stored)%Z).
Proof.
  intros Hpos Hk Hw Hn.
  assert (live_inv limit (intake_new limit s)) as Hnew by (split; [simpl; lia|constructor]).
  pose proof (live_steps _ _ _ Hnew Hw) as Hinv.
  assert (rtc step (intake_new limit s) w') as Hw' by (etrans; [exact Hw|by eapply router_works_steps]).
  pose proof (live_steps _ _ _ Hnew Hw') as Hinv'. split.
  - pose proof (router_works_less _ _ _ _ Hinv Hn) as Hle. etrans; [|etrans; [exact Hle|]]; [lia|].
    unfold work_left. destruct (in_aborted w); [lia|]. rewrite sum_list_with_app. apply Nat.add_le_mono.
    + apply tasks_work_le.
    + destruct (in_pending w); simpl; lia.
  - destruct (in_aborted w') eqn:Hab; [by right; left|].
    destruct (decide (in_pending w' = None)) as [Hp|Hp]; [destruct (running (in_tasks w')) as [|t l] eqn:Hrun|].
    2,3: left; eapply router_work_exists; [exact Hinv'|done..|intros [? ?]; congruence].
    right. right. split; [done|]. intros m Hm.
    destruct (intake_steps_inv topic producer errors addr _ _ _ (intake_new_inv errors addr limit s Hk) Hw') as [Hcons _ _ _].
    unfold in_progress in Hcons. rewrite Hrun, Hp in Hcons.
    destruct (consumer_caught_up _ _ _ m Hcons Hm) as (stored & Hst & Hle); [by intros m' ?%not_elem_of_nil|].
    exists stored. split; [done|by apply Hle].
Qed.

(** ** Schedules without fetches *)

Definition is_fetch (choice : Choice) : bool :=
  match choice with ChooseFetch _ _ _ _ => true | _ => false end.

Lemma take_choice_work choice w w' :
  is_fetch choice = false -> take_choice topic producer errors addr choice w = Some w' -> work_step w w'.
Proof.
  intros Hf Hc. split; [by eapply router_choice_step|]. unfold take_choice in Hc.
  destruct (in_aborted w); [done|]. destruct choice as [key payload p o| |i]; [done| |].
  - destruct (in_pending w); simpl in Hc; [|done]. destruct (limiter_run _ _); simpl in Hc; [|done]. by injection Hc as <-.
  - destruct (running (in_tasks w) !! i) as [t|]; simpl in Hc; [|done].
    destruct (st_code t) as [[[]|e]|o k]; [|by injection Hc as <-|].
    + destruct (limiter_end _ _) as [[t' l]|]; simpl in Hc; [|done]. by injection Hc as <-.
    + destruct (exec o (in_router w)) as [s x]. by injection Hc as <-.
Qed.

Lemma after_work l w :
  forallb (negb ∘ is_fetch) l = true -> can_run topic producer errors addr l w = true ->
  nsteps work_step (length l) w (after topic producer errors addr l w).
Proof.
  unfold can_run, after. destruct (run_schedule _ _ _ _ l w) as [w'|] eqn:Hrun; [|done]. simpl. intros Hl _.
  revert w Hl Hrun. induction l as [|choice l IH]; intros w; simpl; [intros _ [= ->]; constructor|].
  intros [Hf Hl]%andb_true_iff Hrun. destruct (take_choice _ _ _ _ choice w) as [w1|] eqn:Hc; [|done].
  eapply nsteps_l; [eapply (take_choice_work choice); [by apply negb_true_iff|done]|by apply IH].
Qed.
End live.

(** ** Two messages, to the end *)

#[local] Existing Instances run_json run_text.
Definition live_tasks : list Choice :=
  [ChooseTask 0; ChooseTask 1; ChooseTask 0; ChooseTask 1; ChooseTask 0; ChooseTask 1; ChooseTask 0; ChooseTask 1;
   ChooseTask 0; ChooseTask 1; ChooseTask 0; ChooseTask 1; ChooseTask 0; ChooseTask 0].

#[local] Abbreviation live_start := (intake_new (C := gmap Uuid string) (B := MemoryBroker) (R := gmap string string) 8
  (run_router)).
#[local] Abbreviation live_after := (after (C := gmap Uuid string) (B := MemoryBroker) (R := gmap string string)
  "input" PublisherKafka "errors" "addr").

Lemma router_drains_witness :
  let w := live_after run_fetches live_start in
  let w' := live_after live_tasks w in
  14 <= sum_list_with message_work ((st_message <$> running (in_tasks w)) ++ option_list (in_pending w)) /\
  ((exists w'', work_step "input" PublisherKafka "errors" "addr" w' w'') \/ in_aborted w' = true \/ at_rest w' /\
     forall m, m ∈ in_delivered w' -> exists stored,
       kc_stored (ro_consumer (in_router w')) !! (position m).1 = Some stored /\ ((position m).2 <= stored)%Z).
Proof.
  apply (router_drains "input" PublisherKafka "errors" "addr" 8 run_router (live_after run_fetches live_start) 14
    (live_after live_tasks (live_after run_fetches live_start))).
  - lia.
  - reflexivity.
  - apply after_steps. vm_eq.
  - apply (after_work _ _ _ _ live_tasks); vm_eq.
Defined.
