(* ===== verification/RouterMain.v ===== *)
(** [main] of the data router up to its loop, [crates/data-router/src/main.rs]:
    the clients it creates, from the options it was started with. *)
From stdpp Require Import prelude gmap strings list fin_maps.
From S2P Require Import Prelude Externals Lru Messaging MessagingClients TaskLimiter DataRouter.

(** ** Start *)

(** what the loop of [main] works with *)
Record RouterStart (C : Type) : Type := mkRouterStart {
  rs_consumer : CommonConsumer;
  rs_producer : CommonPublisher;
  rs_cache : C;
  rs_error_topic_or_exchange : string;
  rs_schema_registry_addr : string;
  rs_task_limit : nat;
}.
Arguments mkRouterStart {C}. Arguments rs_consumer {C}. Arguments rs_producer {C}. Arguments rs_cache {C}.
Arguments rs_error_topic_or_exchange {C}. Arguments rs_schema_registry_addr {C}. Arguments rs_task_limit {C}.

Section main.
Context {W C : Type} `{BrokerClients W, LruLaws string C}.
Abbreviation Start A := (M W (list string) A) (only parsing).

(** [.as_ref().context(message)?] *)
Definition specified {A} (message : string) (option : option A) : Start A := lift (ok_or [message] option).
(** [?] from the messaging library's errors to [anyhow]'s *)
Definition or_anyhow {A} (m : M W MessagingError A) : Start A := with_err (fun e => [messaging_error_display e]) m.

Definition new_producer (config : RouterConfig) : Start CommonPublisher :=
  match cf_message_queue config with
  | QueueKafka =>
      brokers ← specified "kafka brokers were not specified" (cf_kafka_brokers config);
      or_anyhow (publisher_new_kafka brokers)
  | QueueAmqp =>
      connection_string ← specified "amqp connection string was not specified" (cf_amqp_connection_string config);
      or_anyhow (publisher_new_amqp connection_string)
  end.

Definition new_consumer (config : RouterConfig) (topic_or_queue : string) : Start CommonConsumer :=
  config ← match cf_message_queue config with
    | QueueKafka =>
        brokers ← specified "kafka brokers were not specified" (cf_kafka_brokers config);
        group_id ← specified "kafka group was not specified" (cf_kafka_group_id config);
        mret (ConsumerKafka brokers group_id topic_or_queue)
    | QueueAmqp =>
        connection_string ← specified "amqp connection string was not specified" (cf_amqp_connection_string config);
        consumer_tag ← specified "amqp consumer tag was not specified" (cf_amqp_consumer_tag config);
        mret (ConsumerAmqp connection_string consumer_tag topic_or_queue None)
    end;
  or_anyhow (consumer_new config).

(** [main], before [task_limiter.run] *)
Definition router_main (config : RouterConfig) : Start (RouterStart C) :=
  consumer ← new_consumer config (cf_input_topic_or_queue config);
  producer ← new_producer config;
  mret (mkRouterStart consumer producer (lru_new (cf_cache_capacity config))
    (cf_error_topic_or_exchange config) (cf_schema_registry_addr config) (Z.to_nat (cf_task_limit config))).

(** ** Properties *)

(** the settings the queue needs: its address, and who reads it *)
Definition reader_settings (config : RouterConfig) : option (string * string) :=
  match cf_message_queue config with
  | QueueKafka => brokers ← cf_kafka_brokers config; group_id ← cf_kafka_group_id config; Some (brokers, group_id)
  | QueueAmqp => connection ← cf_amqp_connection_string config; tag ← cf_amqp_consumer_tag config; Some (connection, tag)
  end.
Definition started_consumer (config : RouterConfig) (settings : string * string) : CommonConsumer :=
  match cf_message_queue config with
  | QueueKafka => CreatedKafka (consumer_settings settings.2 settings.1) [cf_input_topic_or_queue config]
  | QueueAmqp => CreatedAmqp settings.1 (cf_input_topic_or_queue config) settings.2 default_consume_options
  end.
Definition started_producer (config : RouterConfig) : CommonPublisher :=
  match cf_message_queue config with QueueKafka => PublisherKafka | QueueAmqp => PublisherAmqp end.

(** without them no broker is contacted *)
Lemma router_main_unset config n : reader_settings config = None -> exists e, router_main config n = (n, Err [e]).
Proof.
  unfold reader_settings, router_main, new_consumer. destruct (cf_message_queue config);
    [destruct (cf_kafka_brokers config); [destruct (cf_kafka_group_id config)|]
    |destruct (cf_amqp_connection_string config); [destruct (cf_amqp_consumer_tag config)|]];
    simpl; intros; simplify_eq; by eexists.
Qed.

Lemma wp_or_anyhow {A} (m : M W MessagingError A) n (Q : A -> W -> Prop) :
  wp m n Q (fun _ _ => True) -> wp (or_anyhow m) n Q (fun _ _ => True).
Proof. intros Hm. apply wp_with_err. eapply wp_mono; [exact Hm|done..]. Qed.

Lemma new_kafka_settings group_id brokers topics (n : W) :
  wp (new_kafka group_id brokers topics) n
    (fun c _ => c = CreatedKafka (consumer_settings group_id brokers) topics) (fun _ _ => True).
Proof.
  unfold new_kafka, or_context. apply wp_bind, wp_with_err, wp_intro; [|done]. intros.
  apply wp_bind, wp_with_err, wp_intro; [|done]. intros. by apply wp_ret.
Qed.
Lemma new_amqp_settings connection tag queue options (n : W) :
  wp (new_amqp connection tag queue options) n
    (fun c _ => c = CreatedAmqp connection queue tag (default default_consume_options options)) (fun _ _ => True).
Proof.
  unfold new_amqp, or_fail. do 3 (apply wp_bind, wp_with_err, wp_intro; [|done]; intros). by apply wp_ret.
Qed.

(** A router that starts reads its one input, as one of possibly several readers,
    with the offsets of a Kafka topic stored by acknowledgements alone and, in a
    new group, from its beginning; it starts with nothing cached. *)
Theorem router_main_starts config (n : W) :
  wp (router_main config) n
    (fun s _ => exists settings, reader_settings config = Some settings /\
       rs_consumer s = started_consumer config settings /\ rs_producer s = started_producer config /\
       lru_entries (rs_cache s) = ∅ /\ rs_task_limit s = Z.to_nat (cf_task_limit config) /\
       (forall group brokers, consumer_settings group brokers !! "enable.auto.offset.store" = Some "false" /\
          consumer_settings group brokers !! "auto.offset.reset" = Some "earliest"))
    (fun _ _ => True).
Proof.
  destruct (reader_settings config) as [settings|] eqn:Hset.
  2:{ destruct (router_main_unset config n Hset) as [e He]. unfold wp. by rewrite He. }
  apply wp_bind. apply wp_mono with (Q := fun c _ => c = started_consumer config settings) (R := fun _ _ => True); [| |done].
  - unfold new_consumer, started_consumer, reader_settings in *. destruct (cf_message_queue config).
    + destruct (cf_kafka_brokers config) as [brokers|]; [|done]. destruct (cf_kafka_group_id config) as [group|]; [|done].
      injection Hset as <-. apply wp_or_anyhow, new_kafka_settings.
    + destruct (cf_amqp_connection_string config) as [s|]; [|done]. destruct (cf_amqp_consumer_tag config) as [tag|]; [|done].
      injection Hset as <-. apply wp_or_anyhow. eapply wp_mono; [apply new_amqp_settings|done..].
  - intros c n' ->. apply wp_bind. apply wp_mono with (Q := fun p _ => p = started_producer config) (R := fun _ _ => True); [| |done].
    + unfold new_producer, started_producer. destruct (cf_message_queue config).
      * unfold specified. apply wp_bind, wp_lift; [|done]. intros brokers _. apply wp_or_anyhow.
        unfold publisher_new_kafka, or_fail. apply wp_bind, wp_with_err, wp_intro; [|done]. intros. by apply wp_ret.
      * unfold specified. apply wp_bind, wp_lift; [|done]. intros s _. apply wp_or_anyhow.
        unfold publisher_new_amqp, or_fail. do 2 (apply wp_bind, wp_with_err, wp_intro; [|done]; intros). by apply wp_ret.
    + intros p n'' ->. apply wp_ret. exists settings. split_and!; [done..|simpl; apply lru_new_empty|done|done].
Qed.
End main.
