(* ===== verification/CommandConfig.v ===== *)
(** Configuration of the command service: [crates/command-service/src/args.rs]
    and [communication/config.rs].  Options arrive as texts; the two queue lists
    are comma-separated. *)
From Stdlib Require Import Ascii.
From stdpp Require Import prelude strings list.
From S2P Require Import Prelude StringSplit Messaging.

(** ** Arguments *)

Inductive CommunicationMethod : Type := MethodAmqp | MethodKafka | MethodGRpc.
#[export] Instance CommunicationMethod_eq_dec : EqDecision CommunicationMethod.
Proof. solve_decision. Defined.

Record CommunicationArgs : Type := mkCommunicationArgs {
  communication_method : CommunicationMethod;
  arg_kafka_brokers : option string;
  arg_kafka_group_id : option string;
  arg_amqp_connection_string : option string;
  arg_amqp_consumer_tag : option string;
  arg_grpc_port : option Z;
  ordered_topics_or_queues : option string;
  unordered_topics_or_queues : option string;
  arg_task_limit : nat;
}.

(** ** Communication configuration *)

Inductive MessageQueueConfig : Type :=
| MqKafka (brokers group_id : string) (ordered_topics unordered_topics : list string)
    (kafka_task_limit : nat)
| MqAmqp (consumer_tag connection_string : string)
    (ordered_queue_names unordered_queue_names : list string) (amqp_task_limit : nat).
Record GRpcConfig : Type := mkGRpcConfig { grpc_port : Z }.
Inductive CommunicationConfig : Type :=
| ConfigMessageQueue (config : MessageQueueConfig)
| ConfigGRpc (config : GRpcConfig).

Definition task_limit (c : MessageQueueConfig) : nat :=
  match c with MqKafka _ _ _ _ n | MqAmqp _ _ _ _ n => n end.

Definition ordered_configs (c : MessageQueueConfig) : list CommonConsumerConfig :=
  match c with
  | MqKafka brokers group_id topics _ _ => ConsumerKafka brokers group_id <$> topics
  | MqAmqp consumer_tag connection_string queues _ _ =>
      (fun q => ConsumerAmqp connection_string consumer_tag q
                  (Some (mkBasicConsumeOptions true))) <$> queues
  end.

Definition unordered_configs (c : MessageQueueConfig) : list CommonConsumerConfig :=
  match c with
  | MqKafka brokers group_id _ topics _ => ConsumerKafka brokers group_id <$> topics
  | MqAmqp consumer_tag connection_string _ queues _ =>
      (fun q => ConsumerAmqp connection_string consumer_tag q
                  (Some (mkBasicConsumeOptions false))) <$> queues
  end.

(** ** [Args::communication_config] *)

Record MissingConfigError : Type := mkMissingConfigError { missing_variable : string }.

(** [unwrap_or_default().split(',').filter(|name| !name.is_empty())] *)
Definition queue_names (option : option string) : list string :=
  filter (fun name => name <> EmptyString) (split_on ","%char (default EmptyString option)).

Definition required {A} (variable : string) (o : option A) : result MissingConfigError A :=
  ok_or (mkMissingConfigError variable) o.

Definition communication_config (args : CommunicationArgs) :
    result MissingConfigError CommunicationConfig :=
  let message_queue (build : list string -> list string -> nat ->
                             result MissingConfigError MessageQueueConfig) :=
    let ordered := queue_names (ordered_topics_or_queues args) in
    let unordered := queue_names (unordered_topics_or_queues args) in
    let limit := arg_task_limit args in
    if bool_decide (ordered = [] /\ unordered = []) then
      Err (mkMissingConfigError "Queue names")
    else config ← build ordered unordered limit; Ok (ConfigMessageQueue config) in
  match communication_method args with
  | MethodAmqp => message_queue (fun ordered unordered limit =>
      consumer_tag ← required "AMQP consumer tag" (arg_amqp_consumer_tag args);
      connection_string ← required "AMQP connection string" (arg_amqp_connection_string args);
      Ok (MqAmqp consumer_tag connection_string ordered unordered limit))
  | MethodKafka => message_queue (fun ordered unordered limit =>
      brokers ← required "Kafka brokers" (arg_kafka_brokers args);
      group_id ← required "Kafka group" (arg_kafka_group_id args);
      Ok (MqKafka brokers group_id ordered unordered limit))
  | MethodGRpc =>
      port ← required "GRPC port" (arg_grpc_port args);
      Ok (ConfigGRpc (mkGRpcConfig port))
  end.

(** ** Properties *)

(** a queue name an option text can carry *)
Definition queue_name (n : string) : Prop := n <> EmptyString /\ char_in ","%char n = false.

(** the queue a consumer reads, and whether it asks to be the only one *)
Definition consumer_queue (c : CommonConsumerConfig) : string :=
  match c with ConsumerKafka _ _ t => t | ConsumerAmqp _ _ q _ => q end.
Definition consumer_exclusive (c : CommonConsumerConfig) : option bool :=
  match c with ConsumerKafka _ _ _ => None | ConsumerAmqp _ _ _ o => exclusive <$> o end.
Definition exclusive_option (method : CommunicationMethod) (ordered : bool) : option bool :=
  if decide (method = MethodAmqp) then Some ordered else None.

Lemma queue_names_join l :
  Forall queue_name l -> queue_names (Some (join "," l)) = l.
Proof.
  intros Hl. unfold queue_names; simpl. destruct (decide (l = [])) as [->|Hne]; [done|].
  rewrite split_on_join; [|done|by eapply Forall_impl; [exact Hl|intros x []]].
  clear Hne. induction Hl as [|n l [Hn _] _ IH]; [done|]. by rewrite filter_cons_True, IH.
Qed.

Lemma queue_names_ok o : Forall queue_name (queue_names o).
Proof.
  apply Forall_forall. intros n [Hne Hn]%list_elem_of_filter. split; [done|].
  by eapply split_on_parts.
Qed.

(** everything [method] needs besides the queue names *)
Definition credentials (args : CommunicationArgs) : Prop :=
  match communication_method args with
  | MethodAmqp => is_Some (arg_amqp_consumer_tag args) /\ is_Some (arg_amqp_connection_string args)
  | MethodKafka => is_Some (arg_kafka_brokers args) /\ is_Some (arg_kafka_group_id args)
  | MethodGRpc => is_Some (arg_grpc_port args)
  end.

(** A message-queue configuration reads exactly the queues its options
    list: written as comma-separated texts, the ordered and the unordered names
    come back in order, one consumer each, the ordered ones first; over AMQP the
    consumers of ordered queues, and no others, ask to be exclusive. *)
Theorem communication_config_consumers args ordered unordered :
  communication_method args <> MethodGRpc -> credentials args ->
  Forall queue_name ordered -> Forall queue_name unordered -> ordered ++ unordered <> [] ->
  ordered_topics_or_queues args = Some (join "," ordered) ->
  unordered_topics_or_queues args = Some (join "," unordered) ->
  exists c, communication_config args = Ok (ConfigMessageQueue c) /\
    task_limit c = arg_task_limit args /\
    consumer_queue <$> ordered_configs c ++ unordered_configs c = ordered ++ unordered /\
    consumer_exclusive <$> ordered_configs c ++ unordered_configs c =
      ((fun _ => exclusive_option (communication_method args) true) <$> ordered) ++
      ((fun _ => exclusive_option (communication_method args) false) <$> unordered).
Proof.
  intros Hmethod Hcred Ho Hu Hne Eo Eu. unfold communication_config, credentials in *.
  rewrite Eo, Eu, !queue_names_join by done.
  rewrite bool_decide_eq_false_2 by (intros [-> ->]; done).
  destruct (communication_method args); [..|done]; destruct Hcred as [[x ->] [y ->]]; simpl;
    eexists; (split; [done|]); split; try done; simpl; rewrite !fmap_app, <- !list_fmap_compose;
    by rewrite !list_fmap_id.
Qed.

(** The configuration is rejected exactly when it cannot work: a missing
    credential or port, or no queue to read; the variable named in the error is
    really missing.  Accepted queue names are never empty. *)
Theorem communication_config_rejects args :
  (is_ok (communication_config args) = true <->
     credentials args /\
     (communication_method args = MethodGRpc \/
      queue_names (ordered_topics_or_queues args) ++
        queue_names (unordered_topics_or_queues args) <> [])) /\
  (forall c, communication_config args = Ok (ConfigMessageQueue c) ->
     ordered_configs c ++ unordered_configs c <> [] /\
     Forall (fun k => consumer_queue k <> EmptyString) (ordered_configs c ++ unordered_configs c)).
Proof.
  pose proof (queue_names_ok (ordered_topics_or_queues args)) as Ho.
  pose proof (queue_names_ok (unordered_topics_or_queues args)) as Hu.
  unfold communication_config, credentials.
  set (o := queue_names (ordered_topics_or_queues args)) in *.
  set (u := queue_names (unordered_topics_or_queues args)) in *.
  split.
  - destruct (communication_method args); try case_bool_decide as Hq;
      do 2 try match goal with |- context [required _ (?f args)] => destruct (f args) end; cbn;
      unfold is_Some; rewrite ?app_nil; naive_solver.
  - intros c. destruct (communication_method args); try case_bool_decide as Hq;
      do 2 try match goal with |- context [required _ (?f args)] => destruct (f args) end; simpl;
      intros Hc; try discriminate Hc; injection Hc as <-; simpl;
      (split; [intros [?%fmap_nil_inv ?%fmap_nil_inv]%app_nil; naive_solver|]);
      apply Forall_app; split; apply Forall_fmap;
      (eapply Forall_impl; [eassumption|by intros q []]).
Qed.

(** ** Witnesses *)

Definition demo_args : CommunicationArgs :=
  mkCommunicationArgs MethodAmqp None None (Some "amqp://host") (Some "tag") None
    (Some "a,b") (Some "c") 32.

Lemma communication_config_consumers_witness :
  exists c, communication_config demo_args = Ok (ConfigMessageQueue c) /\ task_limit c = 32 /\
    (consumer_queue <$> ordered_configs c ++ unordered_configs c) = ["a"; "b"; "c"] /\
    (consumer_exclusive <$> ordered_configs c ++ unordered_configs c) =
      [Some true; Some true; Some false].
Proof.
  apply (communication_config_consumers demo_args ["a"; "b"] ["c"]); try done;
    try by (repeat constructor; vm_compute).
Defined.
