(* ===== verification/CommandService.v ===== *)
(** The command service, [crates/command-service/src]: messages from a queue or
    over gRPC are handed to the output plugin, its resolution is reported if
    reporting is on, and only then is a queue message acknowledged.  The plugin
    is the class [OutputPlugin]; its implementations are in CommandOutputs. *)
From stdpp Require Import prelude gmap strings list relations.
From S2P Require Import Prelude Json Externals RegistryTypes Messaging MessageTypes TaskQueue.
From S2P Require Import TaskLimiter CommandConfig.

(** ** Resolution of a message ([communication/resolution.rs]) *)

Inductive Resolution : Type :=
| StorageLayerFailure (description : string)
| CommandServiceFailure
| UserFailure (description context : string)
| Success.

Definition resolution_display (r : Resolution) : string :=
  match r with
  | StorageLayerFailure d => "failed on database layer, `" +:+ d +:+ "`"
  | CommandServiceFailure => "internal server error"
  | UserFailure d c => d +:+ "; caused by " +:+ c
  | Success => "success"
  end.

(** [output::OutputPlugin] *)
Class OutputPlugin (P : Type) := {
  plugin_handle_message : BorrowedInsertMessage -> P -> P * Resolution;
  plugin_name : P -> string;
}.

(** ** Errors ([report/error.rs], [input/error.rs]) *)

Inductive ReportError : Type :=
| ProducerCreation (e : MessagingError)
| FailedToReport (e : MessagingError)
| FailedToProduceErrorMessage (e : string).

Definition report_error_display (e : ReportError) : string :=
  match e with
  | ProducerCreation e => "Failed to create producer `" +:+ messaging_error_display e +:+ "`"
  | FailedToReport e => "Failed to deliver report `" +:+ messaging_error_display e +:+ "`"
  | FailedToProduceErrorMessage e => "Failed to produce error message `" +:+ e +:+ "`"
  end.

Inductive InputError : Type :=
| PayloadDeserializationFailed (e : string)
| ConsumerCreationFailed (e : MessagingError)
| FailedToAcknowledge (e : MessagingError)
| ServerCreationFailed (e : string)
| NotValidUuid (what e : string)
| MissingPayload (e : MessagingError)
| FailedReadingMessage (e : MessagingError)
| HandlerCommunicationError (e : ReportError)
| FailedToInitializeReporting (e : ReportError).

Definition input_error_display (e : InputError) : string :=
  match e with
  | PayloadDeserializationFailed e => "Message payload deserialization failed: " +:+ e
  | ConsumerCreationFailed e =>
      "Failed to create message queue consumer `" +:+ messaging_error_display e +:+ "`"
  | FailedToAcknowledge e => "Failed to acknowledge message `" +:+ messaging_error_display e +:+ "`"
  | ServerCreationFailed e => "Failed to create GRPC server `" +:+ e +:+ "`"
  | NotValidUuid what e => "Message has a non-UUID " +:+ what +:+ ": " +:+ e
  | MissingPayload e => "Message is missing payload `" +:+ messaging_error_display e
  | FailedReadingMessage e => "Failed to read message `" +:+ messaging_error_display e +:+ "`"
  | HandlerCommunicationError e =>
      "Failed to communicate with handler `" +:+ report_error_display e +:+ "`"
  | FailedToInitializeReporting _ => "Failed to initialize reporting module"
  end.

(** ** Reports ([report/mod.rs], [report/full_report_sender.rs]) *)

Definition APPLICATION_NAME : string := "Command Service".

Record FullReportSenderBase : Type := mkFullReportSenderBase {
  frb_producer : CommonPublisher; frb_topic : string; frb_output_plugin : string }.
Inductive ReportSender : Type := ReportFull (base : FullReportSenderBase) | ReportDisabled.

Record FullReportSender : Type := mkFullReportSender {
  frs_producer : CommonPublisher; frs_topic : string; frs_output_plugin : string;
  frs_msg : OwnedInsertMessage }.
Inductive Reporter : Type := ReporterFull (sender : FullReportSender) | ReporterUnit.

Record ReportBody : Type := mkReportBody {
  rb_application : string; rb_output_plugin : string; rb_description : string;
  rb_object_id : Uuid; rb_payload : Value }.

(** the serde-derived texts of a report and of the data of a gRPC message *)
Class CommandText := {
  report_body_to_vec : ReportBody -> result string string;
  raw_value_from_slice : string -> result string string;
}.

(** [None]: the message data is not a JSON value, and [to_owned] panics *)
Definition with_message_body `{JsonText} (sender : ReportSender) (msg : BorrowedInsertMessage) :
    option Reporter :=
  match sender with
  | ReportFull config =>
      owned ← borrowed_to_owned msg;
      Some (ReporterFull (mkFullReportSender (frb_producer config) (frb_topic config)
                            (frb_output_plugin config) owned))
  | ReportDisabled => Some ReporterUnit
  end.

Definition report_body (sender : FullReportSender) (description : string) : ReportBody :=
  mkReportBody APPLICATION_NAME (frs_output_plugin sender) description
    (oi_object_id (frs_msg sender)) (oi_data (frs_msg sender)).

(** [Reporter::report] *)
Definition report `{CommandText} {B} `{Broker B} (reporter : Reporter) (description : string) :
    M B ReportError () :=
  match reporter with
  | ReporterUnit => mret ()
  | ReporterFull sender =>
      payload ← lift (map_err FailedToProduceErrorMessage
                        (report_body_to_vec (report_body sender description)));
      with_err FailedToReport
        (publish_message (frs_producer sender) (frs_topic sender) "command_service.status" payload)
  end.

(** ** The service *)

Record Command (P B K : Type) : Type := mkCommand {
  cm_plugin : P;
  cm_reports : ReportSender;
  cm_broker : B;
  cm_consumer : K;
}.
Arguments mkCommand {_ _ _}. Arguments cm_plugin {_ _ _}. Arguments cm_reports {_ _ _}.
Arguments cm_broker {_ _ _}. Arguments cm_consumer {_ _ _}.

(** [rpc::command_service::InsertMessage] *)
Record InsertMessage : Type := mkInsertMessage {
  im_object_id : string; im_schema_id : string; im_timestamp : Z; im_data : string }.

Section service.
Context {P B K : Type} `{OutputPlugin P, Broker B, Acker K, UuidLib, JsonText, StdText,
  MessageText, CommandText}.
Abbreviation St := (Command P B K) (only parsing).

Definition put_plugin (p : P) (s : St) : St :=
  mkCommand p (cm_reports s) (cm_broker s) (cm_consumer s).
Definition put_command_broker (b : B) (s : St) : St :=
  mkCommand (cm_plugin s) (cm_reports s) b (cm_consumer s).
Definition put_command_consumer (k : K) (s : St) : St :=
  mkCommand (cm_plugin s) (cm_reports s) (cm_broker s) k.

Definition run_plugin (msg : BorrowedInsertMessage) : M St (Fault ReportError) Resolution :=
  fun s => let '(p, status) := plugin_handle_message msg (cm_plugin s) in (put_plugin p s, Ok status).
Definition run_report (reporter : Reporter) (description : string) : M St (Fault ReportError) () :=
  fun s => let '(b, r) := report reporter description (cm_broker s) in
           (put_command_broker b s, map_err Failed r).

(** [MessageRouter::handle_message] *)
Definition router_handle_message (msg : BorrowedInsertMessage) : M St (Fault ReportError) () :=
  reporter ← reads (fun s => ok_or Panicked (with_message_body (cm_reports s) msg));
  status ← run_plugin msg;
  run_report reporter (resolution_display status).

(** [GRPCInput] *)
Definition grpc_build_message (message : InsertMessage) : result InputError BorrowedInsertMessage :=
  object_id ← map_err (NotValidUuid "Object ID") (uuid_parse_str (im_object_id message));
  schema_id ← map_err (NotValidUuid "Schema ID") (uuid_parse_str (im_schema_id message));
  data ← map_err PayloadDeserializationFailed (raw_value_from_slice (im_data message));
  Ok (mkBorrowedInsertMessage object_id schema_id (im_timestamp message) data).

Definition grpc_handle_message (message : InsertMessage) : M St (Fault InputError) () :=
  generic_message ← lift (map_err Failed (grpc_build_message message));
  with_err (fault_map HandlerCommunicationError) (router_handle_message generic_message).

Definition grpc_insert (message : InsertMessage) : M St (Fault Status) () :=
  with_err (fault_map (fun e => mkStatus Internal (input_error_display e)))
    (grpc_handle_message message).

(** [MessageQueueInput] *)
Definition mq_build_message (message : CommMessage) : result InputError BorrowedInsertMessage :=
  json ← map_err MissingPayload (message_payload message);
  map_err PayloadDeserializationFailed (borrowed_from_str json).

Definition mq_ack (message : CommMessage) : M St (Fault InputError) () := fun s =>
  let '(k, r) := ack_message message (cm_consumer s) in
  (put_command_consumer k s, map_err (fun e => Failed (FailedToAcknowledge e)) r).

Definition mq_handle_message (message : CommMessage) : M St (Fault InputError) () :=
  generic_message ← lift (map_err Failed (mq_build_message message));
  with_err (fault_map HandlerCommunicationError) (router_handle_message generic_message) ;;
  mq_ack message.
End service.

(** ** The lines of [handle_message] between two suspension points *)

Section stages.
Context {P B K : Type} `{OutputPlugin P, Broker B, Acker K, UuidLib, JsonText, StdText,
  MessageText, CommandText}.
Abbreviation St := (Command P B K) (only parsing).

Inductive Stage : Type :=
| StageStart
| StageResolved (reporter : Reporter) (status : Resolution)
| StageReported (status : Resolution).

(** up to the plugin's answer, the report, the acknowledgement.  The awaited call
    of the plugin is one step, since the plugin is behind the class
    [OutputPlugin]: what the database has stored by a crash during the call is
    what it has stored at one before or right after the step.  (The plugin
    for Druid sends several records; a crash between two of these is not among the
    states.) *)
Definition run_stage (message : CommMessage) (stage : Stage) :
    M St (Fault InputError) (option Stage) :=
  match stage with
  | StageStart =>
      msg ← lift (map_err Failed (mq_build_message message));
      reporter ← reads (fun s : St => ok_or Panicked (with_message_body (cm_reports s) msg));
      status ← with_err (fault_map HandlerCommunicationError) (run_plugin msg);
      mret (Some (StageResolved reporter status))
  | StageResolved reporter status =>
      with_err (fault_map HandlerCommunicationError)
        (run_report reporter (resolution_display status)) ;;
      mret (Some (StageReported status))
  | StageReported _ => mq_ack message ;; mret None
  end.

(** the stages in a row are the handler *)
Fixpoint run_stages (fuel : nat) (message : CommMessage) (stage : Stage) :
    M St (Fault InputError) () :=
  match fuel with
  | O => mret ()
  | S n => next ← run_stage message stage;
           match next with None => mret () | Some stage' => run_stages n message stage' end
  end.

Lemma run_stages_handler message s :
  run_stages 3 message StageStart s = mq_handle_message message s.
Proof.
  unfold mq_handle_message, router_handle_message, run_stages, run_stage, run_plugin, run_report,
    with_err, reads, lift, mbind, M_bind, mret, M_ret; simpl.
  destruct (mq_build_message message) as [msg|e]; simpl; [|done].
  destruct (with_message_body (cm_reports s) msg) as [reporter|]; simpl; [|done].
  destruct (plugin_handle_message msg (cm_plugin s)) as [p status]; simpl.
  destruct (report reporter (resolution_display status) (cm_broker s)) as [b [[]|e]]; simpl; [|done].
  by destruct (mq_ack message _) as [s3 [[]|e]].
Qed.

(** *** [listen] *)

(** a spawned task; the guard's future is built and never awaited *)
Record ListenTask : Type := mkListenTask {
  lt_message : CommMessage; lt_guard : option string; lt_stage : Stage }.
Definition listen_task (m : CommMessage) : ListenTask :=
  mkListenTask m (get_order_group_id m) StageStart.
Definition at_stage (t : ListenTask) (stage : Stage) : ListenTask :=
  mkListenTask (lt_message t) (lt_guard t) stage.

Record ListenState : Type := mkListenState {
  ls_streams : list (list (result MessagingError CommMessage));
  ls_limiter : TaskLimiter ListenTask;
  ls_task_queue : ParallelTaskQueue;
  ls_command : St;
  ls_aborted : bool;
  (* what the plugin has answered, in the order of its answers *)
  ls_resolved : list (CommMessage * BorrowedInsertMessage * Resolution);
}.

Definition listen_new (config : MessageQueueConfig) (command : St)
    (streams : list (list (result MessagingError CommMessage))) : ListenState :=
  mkListenState streams (task_limiter_new (task_limit config)) task_queue_new command false [].

Definition set_running (i : nat) (t : ListenTask) (l : TaskLimiter ListenTask) :
    TaskLimiter ListenTask := mkTaskLimiter (permits l) (<[i := t]> (running l)).

(** the answer of the plugin that a stage has recorded *)
Definition resolution_of (m : CommMessage) (stage next : Stage) :
    list (CommMessage * BorrowedInsertMessage * Resolution) :=
  match stage, next, mq_build_message m with
  | StageStart, StageResolved _ status, Ok msg => [(m, msg, status)]
  | _, _, _ => []
  end.

Inductive listen_step (s : ListenState) : ListenState -> Prop :=
| listen_spawn k m rest l :
    ls_aborted s = false -> ls_streams s !! k = Some (Ok m :: rest) ->
    limiter_run (listen_task m) (ls_limiter s) = Some l ->
    listen_step s (mkListenState (<[k := rest]> (ls_streams s)) l (ls_task_queue s)
      (ls_command s) false (ls_resolved s))
| listen_fetch_error k e rest :
    ls_aborted s = false -> ls_streams s !! k = Some (Err e :: rest) ->
    listen_step s (mkListenState (ls_streams s) (ls_limiter s) (ls_task_queue s)
      (ls_command s) true (ls_resolved s))
| listen_stage i t c next :
    ls_aborted s = false -> running (ls_limiter s) !! i = Some t ->
    run_stage (lt_message t) (lt_stage t) (ls_command s) = (c, Ok (Some next)) ->
    listen_step s (mkListenState (ls_streams s) (set_running i (at_stage t next) (ls_limiter s))
      (ls_task_queue s) c false
      (ls_resolved s ++ resolution_of (lt_message t) (lt_stage t) next))
| listen_done i t c l :
    ls_aborted s = false -> limiter_end i (ls_limiter s) = Some (t, l) ->
    run_stage (lt_message t) (lt_stage t) (ls_command s) = (c, Ok None) ->
    listen_step s (mkListenState (ls_streams s) l (ls_task_queue s) c false (ls_resolved s))
| listen_panic i t c l :
    ls_aborted s = false -> limiter_end i (ls_limiter s) = Some (t, l) ->
    run_stage (lt_message t) (lt_stage t) (ls_command s) = (c, Err Panicked) ->
    listen_step s (mkListenState (ls_streams s) l (ls_task_queue s) c false (ls_resolved s))
| listen_abort i t c e :
    ls_aborted s = false -> running (ls_limiter s) !! i = Some t ->
    run_stage (lt_message t) (lt_stage t) (ls_command s) = (c, Err (Failed e)) ->
    listen_step s (mkListenState (ls_streams s) (ls_limiter s) (ls_task_queue s) c true
      (ls_resolved s)).
End stages.
Arguments ListenState _ _ _ : clear implicits.

(** ** Properties *)

Section properties.
Context {P B K : Type} `{OutputPlugin P, BrokerLaws B, AckerLaws K, UuidLib, JsonText, StdText,
  MessageText, CommandText}.
Implicit Types (c : Command P B K).

(** *** One message *)

(** the publications that report [status] for [msg] *)
Inductive reports_of (msg : BorrowedInsertMessage) (status : Resolution) :
    ReportSender -> list (string * string * string) -> Prop :=
| reports_disabled : reports_of msg status ReportDisabled []
| reports_full base owned text :
    borrowed_to_owned msg = Some owned ->
    report_body_to_vec (mkReportBody APPLICATION_NAME (frb_output_plugin base)
      (resolution_display status) (oi_object_id owned) (oi_data owned)) = Ok text ->
    reports_of msg status (ReportFull base) [(frb_topic base, "command_service.status", text)].

Lemma run_report_spec reporter msg status c :
  with_message_body (cm_reports c) msg = Some reporter ->
  wp (run_report reporter (resolution_display status)) c
    (fun _ c' => exists l, reports_of msg status (cm_reports c) l /\
       sent (cm_broker c') = sent (cm_broker c) ++ l /\ cm_plugin c' = cm_plugin c /\
       cm_reports c' = cm_reports c /\ cm_consumer c' = cm_consumer c)
    (fun e c' => sent (cm_broker c) `prefix_of` sent (cm_broker c') /\
       cm_plugin c' = cm_plugin c /\ cm_reports c' = cm_reports c /\
       cm_consumer c' = cm_consumer c /\ e <> Panicked).
Proof.
  unfold with_message_body, run_report, wp. intros Hrep.
  destruct (cm_reports c) as [base|] eqn:Hreports.
  - destruct (borrowed_to_owned msg) as [owned|] eqn:Howned; [|done]. injection Hrep as <-.
    unfold report, lift, mbind, M_bind, report_body; simpl.
    destruct (report_body_to_vec _) as [text|e] eqn:Htext; simpl; [|by rewrite Hreports].
    pose proof (publish_message_spec (frb_producer base) (frb_topic base) "command_service.status"
      text (cm_broker c)) as Hp. unfold wp, with_err in *.
    destruct (publish_message _ _ _ _ _) as [b [[]|e]]; simpl in *; rewrite Hreports; [|done].
    eexists. split; [by eapply reports_full|done].
  - injection Hrep as <-. simpl. exists []. rewrite app_nil_r, Hreports. repeat split. constructor.
Qed.

Lemma mq_ack_spec m c :
  wp (mq_ack m) c
    (fun _ c' => acked (cm_consumer c') = acked (cm_consumer c) ++ [m] /\
       cm_plugin c' = cm_plugin c /\ cm_broker c' = cm_broker c /\ cm_reports c' = cm_reports c)
    (fun e c' => acked (cm_consumer c') = acked (cm_consumer c) /\
       cm_plugin c' = cm_plugin c /\ cm_broker c' = cm_broker c /\ cm_reports c' = cm_reports c /\
       e <> Panicked).
Proof.
  pose proof (ack_message_law m (cm_consumer c)) as Ha. unfold wp, mq_ack in *.
  by destruct (ack_message m (cm_consumer c)) as [k [[]|e]].
Qed.

(** what a command server has done once a message is reported: the plugin's
    answer, and the report that carries it *)
Definition resolved_as (m : CommMessage) (msg : BorrowedInsertMessage) (status : Resolution)
    c c' : Prop :=
  mq_build_message m = Ok msg /\
  plugin_handle_message msg (cm_plugin c) = (cm_plugin c', status) /\
  exists l, reports_of msg status (cm_reports c) l /\
    sent (cm_broker c') = sent (cm_broker c) ++ l.

Lemma mq_handle_message_spec m c :
  wp (mq_handle_message m) c
    (fun _ c' => acked (cm_consumer c') = acked (cm_consumer c) ++ [m] /\
       exists msg status, resolved_as m msg status c c')
    (fun e c' => acked (cm_consumer c') = acked (cm_consumer c) /\ (e = Panicked -> c' = c)).
Proof.
  apply wp_bind, wp_lift; [|by intros e _]. intros msg Hbuild%map_err_Ok.
  apply wp_bind, wp_with_err, wp_bind, wp_reads; [|by intros e _].
  intros reporter Hrep. apply wp_bind. unfold wp at 1, run_plugin.
  destruct (plugin_handle_message msg (cm_plugin c)) as [p status] eqn:Hplugin. simpl.
  eapply wp_mono.
  - apply (run_report_spec reporter msg status). simpl.
    by apply ok_or_Ok in Hrep.
  - intros [] c2 (l & Hl & Hsent & Hp & Hr & Hk). simpl in *.
    eapply wp_mono; [apply mq_ack_spec| |].
    + intros [] c3 (Ha & Hp3 & Hb3 & _). rewrite Ha, Hk. split; [done|]. exists msg, status.
      split; [done|]. rewrite Hp3, Hp, Hb3. split; [done|]. by exists l.
    + intros e c3 (Ha & _ & _ & _ & He). rewrite Ha, Hk. done.
  - intros e c2 (_ & _ & _ & Hk & He). simpl in *. rewrite Hk. split; [done|]. by destruct e.
Qed.

(** how the handling of a message can fail: its data is not JSON and reports are
    on; the report could not be made or published; everything was done but the
    acknowledgement; the message could not be read *)
Definition failed_as m c c' (e : Fault InputError) : Prop :=
  match e with
  | Panicked => c' = c /\ exists msg base error, mq_build_message m = Ok msg /\
      cm_reports c = ReportFull base /\ json_parse (bi_data msg) = Err error
  | Failed (HandlerCommunicationError error) => exists msg reporter status, mq_build_message m = Ok msg /\
      with_message_body (cm_reports c) msg = Some reporter /\
      plugin_handle_message msg (cm_plugin c) = (cm_plugin c', status) /\
      (report reporter (resolution_display status) (cm_broker c)).2 = Err error
  | Failed (FailedToAcknowledge _) => exists msg status, resolved_as m msg status c c'
  | Failed error => c' = c /\ mq_build_message m = Err error
  end.

Lemma mq_build_error m e :
  mq_build_message m = Err e -> exists x y, e = MissingPayload x \/ e = PayloadDeserializationFailed y.
Proof.
  unfold mq_build_message. destruct (message_payload m) as [json|x]; simpl.
  - destruct (borrowed_from_str json) as [msg|y]; [done|]. intros [= <-]. exists (CommunicationError ""), y. by right.
  - intros [= <-]. exists x, "". by left.
Qed.

Lemma mq_handle_message_failed m c :
  wp (mq_handle_message m) c (fun _ _ => True) (fun e c' => failed_as m c c' e).
Proof.
  apply wp_bind, wp_lift.
  2: { destruct (mq_build_message m) as [msg|e] eqn:Hb; intros ? [= <-].
       destruct (mq_build_error m e Hb) as (x & y & [-> | ->]); by split. }
  intros msg Hbuild%map_err_Ok. apply wp_bind, wp_with_err, wp_bind, wp_reads.
  2: { destruct (with_message_body (cm_reports c) msg) as [reporter|] eqn:Hw; intros ? [= <-].
       unfold with_message_body in Hw. destruct (cm_reports c) as [base|] eqn:Hrep; [|done].
       unfold borrowed_to_owned in Hw. destruct (json_parse (bi_data msg)) as [v|error] eqn:Hdata; [done|].
       split; [done|]. by exists msg, base, error. }
  intros reporter Hreporter%ok_or_Ok. apply wp_bind. unfold wp at 1, run_plugin.
  destruct (plugin_handle_message msg (cm_plugin c)) as [p status] eqn:Hplugin. cbn beta iota.
  destruct (run_report reporter (resolution_display status) (put_plugin p c)) as [c2 [[]|e]] eqn:Hrun; unfold wp at 1;
    rewrite Hrun.
  - pose proof (wp_ok _ _ _ _ _ _ (run_report_spec reporter msg status (put_plugin p c) Hreporter) Hrun)
      as (l & Hl & Hsent & Hp & _).
    unfold wp, mq_ack. destruct (ack_message m (cm_consumer c2)) as [k [[]|e]]; simpl in *; [done|].
    exists msg, status. split; [done|]. split; [simpl; by rewrite Hp|by exists l].
  - unfold run_report in Hrun. simpl in Hrun.
    destruct (report reporter _ (cm_broker c)) as [b [[]|error]] eqn:Hreport; [done|]. injection Hrun as <- <-. simpl.
    exists msg, reporter, status. by rewrite Hreport.
Qed.

(** C30: what becomes of a queue message.  When its handling ends well, it is
    acknowledged once, the plugin was given the message as it was read, and its
    answer, whatever it is (a storage failure included), was published on the
    report topic if reports are on.  Otherwise it stays unacknowledged, and the
    error says why: it could not be read, and nothing has happened; its data is
    not JSON although reports are on, which panics before anything happens; the
    plugin has answered but the report could not be made or published; or only
    the acknowledgement failed. *)
Theorem mq_handle_message_acks m c c' r :
  mq_handle_message m c = (c', r) ->
  match r with
  | Ok _ => acked (cm_consumer c') = acked (cm_consumer c) ++ [m] /\
      exists msg status, resolved_as m msg status c c'
  | Err e => acked (cm_consumer c') = acked (cm_consumer c) /\ failed_as m c c' e
  end.
Proof.
  intros Hrun. pose proof (mq_handle_message_spec m c) as Hspec. pose proof (mq_handle_message_failed m c) as Hfailed.
  unfold wp in Hspec, Hfailed. rewrite Hrun in Hspec, Hfailed. by destruct r as [[]|e]; [|destruct Hspec].
Qed.

(** *** The interleaved service *)

(** the plugin's answers to a list of messages *)
Fixpoint plugin_run (p : P) (l : list BorrowedInsertMessage) : P * list Resolution :=
  match l with
  | [] => (p, [])
  | msg :: l => let '(p1, r) := plugin_handle_message msg p in
                let '(p2, rs) := plugin_run p1 l in (p2, r :: rs)
  end.

Lemma plugin_run_app p l k :
  plugin_run p (l ++ k) =
    let '(p1, rs) := plugin_run p l in let '(p2, rs') := plugin_run p1 k in (p2, rs ++ rs').
Proof.
  revert p. induction l as [|x l IH]; intros p; simpl; [by destruct (plugin_run p k)|].
  destruct (plugin_handle_message x p) as [p1 r]. rewrite IH.
  destruct (plugin_run p1 l) as [p2 rs]. by destruct (plugin_run p2 k).
Qed.

Implicit Types (log : list (CommMessage * BorrowedInsertMessage * Resolution)).

(** [m] was resolved with [status] and that was reported *)
Definition reported log c m (status : Resolution) : Prop :=
  exists msg l, (m, msg, status) ∈ log /\ reports_of msg status (cm_reports c) l /\
    (forall x, x ∈ l -> x ∈ sent (cm_broker c)).

Definition task_ok log c (t : ListenTask) : Prop :=
  match lt_stage t with
  | StageStart => True
  | StageResolved reporter status => exists msg, (lt_message t, msg, status) ∈ log /\
      with_message_body (cm_reports c) msg = Some reporter
  | StageReported status => reported log c (lt_message t) status
  end.

(** what a stage leaves behind *)
Definition grows log c log' c' : Prop :=
  cm_reports c' = cm_reports c /\ (forall x, x ∈ log -> x ∈ log') /\
  (forall x, x ∈ sent (cm_broker c) -> x ∈ sent (cm_broker c')).

Lemma reported_grows log c log' c' m st :
  grows log c log' c' -> reported log c m st -> reported log' c' m st.
Proof.
  intros (Hr & Hlog & Hsent) (msg & l & Hin & Hl & Hl2). exists msg, l. rewrite Hr. split_and!; auto.
Qed.

Lemma task_ok_grows log c log' c' t :
  grows log c log' c' -> task_ok log c t -> task_ok log' c' t.
Proof.
  intros Hg. unfold task_ok. destruct (lt_stage t); [done| |by apply reported_grows].
  intros (msg & Hin & Hw). exists msg. destruct Hg as (-> & Hlog & _). auto.
Qed.

Definition run_stage_post log c m stage (next : option Stage) c' : Prop :=
  match next with
  | Some stage' =>
      let new := resolution_of m stage stage' in
      cm_consumer c' = cm_consumer c /\ grows log c (log ++ new) c' /\
      plugin_run (cm_plugin c) ((fun x => x.1.2) <$> new) = (cm_plugin c', snd <$> new) /\
      (forall m' msg st, (m', msg, st) ∈ new -> mq_build_message m' = Ok msg) /\
      forall g, task_ok (log ++ new) c' (mkListenTask m g stage')
  | None => acked (cm_consumer c') = acked (cm_consumer c) ++ [m] /\
      cm_plugin c' = cm_plugin c /\ grows log c log c' /\ exists st, reported log c' m st
  end.

Lemma run_stage_start log c m :
  wp (run_stage m StageStart) c (run_stage_post log c m StageStart) (fun _ c' => c' = c).
Proof.
  apply wp_bind, wp_lift; [|by intros e _]. intros msg Hbuild%map_err_Ok.
  apply wp_bind, wp_reads; [|by intros e _]. intros reporter Hrep.
  apply wp_bind, wp_with_err. unfold wp at 1, run_plugin.
  destruct (plugin_handle_message msg (cm_plugin c)) as [p status] eqn:Hplugin.
  apply wp_ret. unfold run_stage_post, resolution_of. rewrite Hbuild. simpl. rewrite Hplugin.
  split_and!; [done| |done| |].
  - split; [done|]. split; [set_solver|done].
  - by intros m' msg' st [= -> -> ->]%list_elem_of_singleton.
  - intros g. exists msg. split; [set_solver|]. simpl.
    by apply ok_or_Ok in Hrep.
Qed.

Lemma run_stage_resolved log c m msg reporter status :
  (m, msg, status) ∈ log -> with_message_body (cm_reports c) msg = Some reporter ->
  wp (run_stage m (StageResolved reporter status)) c
    (run_stage_post log c m (StageResolved reporter status))
    (fun _ c' => cm_consumer c' = cm_consumer c /\ cm_plugin c' = cm_plugin c /\ grows log c log c').
Proof.
  intros Hin Hw. apply wp_bind, wp_with_err. eapply wp_mono; [by apply run_report_spec| |].
  - intros [] c' (l & Hl & Hsent & Hp & Hr & Hk). apply wp_ret. simpl.
    rewrite !app_nil_r, Hp. split_and!; [done| |done|by intros ??? ?%elem_of_nil|].
    + split; [done|]. split; [done|]. rewrite Hsent. set_solver.
    + intros g. exists msg, l. rewrite Hr, Hsent. set_solver.
  - intros e c' (Hsent & Hp & Hr & Hk & _). split_and!; [done..|]. split; [done|]. split; [done|].
    destruct Hsent as [l ->]. set_solver.
Qed.

Lemma run_stage_reported log c m status :
  reported log c m status ->
  wp (run_stage m (StageReported status)) c (run_stage_post log c m (StageReported status))
    (fun _ c' => acked (cm_consumer c') = acked (cm_consumer c) /\ cm_plugin c' = cm_plugin c /\
       grows log c log c').
Proof.
  intros Hrep. apply wp_bind. eapply wp_mono; [apply mq_ack_spec| |].
  - intros [] c' (Ha & Hp & Hb & Hr). apply wp_ret. simpl.
    assert (grows log c log c') as Hg by (split; [done|]; by rewrite Hb).
    split_and!; [done..|]. exists status. by eapply reported_grows.
  - intros e c' (Ha & Hp & Hb & Hr & _). split_and!; [done..|]. split; [done|]. by rewrite Hb.
Qed.

Lemma run_stage_spec log c m g stage :
  task_ok log c (mkListenTask m g stage) ->
  wp (run_stage m stage) c (run_stage_post log c m stage)
    (fun _ c' => acked (cm_consumer c') = acked (cm_consumer c) /\ cm_plugin c' = cm_plugin c /\
       grows log c log c').
Proof.
  destruct stage as [|reporter status|status]; unfold task_ok; simpl.
  - intros _. eapply wp_mono; [apply run_stage_start|done|]. by intros e c' ->.
  - intros (msg & Hin & Hw). eapply wp_mono; [by eapply run_stage_resolved|done|].
    by intros e c' (-> & ? & ?).
  - intros Hrep. by apply run_stage_reported.
Qed.

(** the command server between two stages of its tasks: the log is what the
    plugin has answered, and every task is where its stage says *)
Record command_inv c0 log c (tasks : list ListenTask) : Prop := {
  cv_reports : cm_reports c = cm_reports c0;
  cv_build : forall m msg st, (m, msg, st) ∈ log -> mq_build_message m = Ok msg;
  cv_plugin : plugin_run (cm_plugin c0) ((fun x => x.1.2) <$> log) = (cm_plugin c, snd <$> log);
  cv_tasks : forall t, t ∈ tasks -> task_ok log c t;
}.

Lemma grows_refl log c : grows log c log c.
Proof. by split_and!. Qed.

Lemma command_inv_new c0 : command_inv c0 [] c0 [].
Proof. split; [done|by intros ??? ?%elem_of_nil|done|by intros t ?%elem_of_nil]. Qed.

Lemma command_inv_spawn c0 log c tasks t :
  command_inv c0 log c tasks -> lt_stage t = StageStart -> command_inv c0 log c (tasks ++ [t]).
Proof.
  intros [Hr Hb Hp Ht] Hstart. split; [done..|].
  intros u [Hu| ->%list_elem_of_singleton]%elem_of_app; [by apply Ht|]. unfold task_ok. by rewrite Hstart.
Qed.

Lemma command_inv_sub c0 log c tasks tasks' :
  command_inv c0 log c tasks -> tasks' ⊆ tasks -> command_inv c0 log c tasks'.
Proof. intros [Hr Hb Hp Ht] Hsub. split; [done..|]. intros t ?%Hsub. by apply Ht. Qed.

Lemma command_inv_stage c0 log c c' tasks i t next :
  command_inv c0 log c tasks -> tasks !! i = Some t ->
  run_stage (lt_message t) (lt_stage t) c = (c', Ok (Some next)) ->
  let log' := log ++ resolution_of (lt_message t) (lt_stage t) next in
  command_inv c0 log' c' (<[i := at_stage t next]> tasks) /\
  grows log c log' c' /\ cm_consumer c' = cm_consumer c.
Proof.
  intros [Hr Hb Hp Ht] Hi Hrun. destruct t as [m g stage]. simpl in *.
  pose proof (run_stage_spec _ _ _ _ _ (Ht _ (list_elem_of_lookup_2 _ _ _ Hi))) as Hok.
  apply (wp_ok _ _ _ _ _ _ Hok) in Hrun as (Hk & Hg & Hrun & Hbuild & Htask).
  split_and!; [|done|done]. split.
  - by rewrite (proj1 Hg).
  - intros m' msg st [?|?]%elem_of_app; eauto.
  - by rewrite !fmap_app, plugin_run_app, Hp, Hrun.
  - intros u [j Hj]%list_elem_of_lookup. destruct (decide (i = j)) as [<-|Hij].
    + rewrite list_lookup_insert_eq in Hj by (by eapply lookup_lt_Some). injection Hj as <-. apply Htask.
    + rewrite list_lookup_insert_ne in Hj by done. eapply task_ok_grows; [exact Hg|].
      eapply Ht, list_elem_of_lookup_2, Hj.
Qed.

(** a stage after which the log is as it was *)
Lemma command_inv_grows c0 log c c' tasks :
  command_inv c0 log c tasks -> grows log c log c' -> cm_plugin c' = cm_plugin c ->
  command_inv c0 log c' tasks.
Proof.
  intros [Hr Hb Hp Ht] Hg Hpl. split; [by rewrite (proj1 Hg)|done|by rewrite Hpl|].
  intros t Hin. eapply task_ok_grows; [exact Hg|]. by apply Ht.
Qed.

Lemma command_inv_done c0 log c c' tasks t :
  command_inv c0 log c tasks -> t ∈ tasks ->
  run_stage (lt_message t) (lt_stage t) c = (c', Ok None) ->
  command_inv c0 log c' tasks /\ grows log c log c' /\
  acked (cm_consumer c') = acked (cm_consumer c) ++ [lt_message t] /\
  exists st, reported log c' (lt_message t) st.
Proof.
  intros Hinv Hin Hrun. pose proof (cv_tasks _ _ _ _ Hinv _ Hin) as Hok. destruct t as [m g stage].
  apply run_stage_spec in Hok. apply (wp_ok _ _ _ _ _ _ Hok) in Hrun as (Ha & Hp & Hg & Hrep).
  split_and!; [by eapply command_inv_grows|done..].
Qed.

Lemma command_inv_failed c0 log c c' tasks t e :
  command_inv c0 log c tasks -> t ∈ tasks ->
  run_stage (lt_message t) (lt_stage t) c = (c', Err e) ->
  command_inv c0 log c' tasks /\ grows log c log c' /\ acked (cm_consumer c') = acked (cm_consumer c).
Proof.
  intros Hinv Hin Hrun. pose proof (cv_tasks _ _ _ _ Hinv _ Hin) as Hok. destruct t as [m g stage].
  apply run_stage_spec in Hok. apply (wp_err _ _ _ _ _ _ Hok) in Hrun as (Ha & Hp & Hg).
  split_and!; [by eapply command_inv_grows|done..].
Qed.

Record listen_inv (limit : nat) c0 (s : ListenState P B K) : Prop := {
  li_limit : permits (ls_limiter s) + length (running (ls_limiter s)) = limit;
  li_queue : ls_task_queue s = task_queue_new;
  li_command : command_inv c0 (ls_resolved s) (ls_command s) (running (ls_limiter s));
  li_acked : exists ms,
    acked (cm_consumer (ls_command s)) = acked (cm_consumer c0) ++ ms /\
    forall m, m ∈ ms -> exists st, reported (ls_resolved s) (ls_command s) m st;
}.

(** the acknowledged messages after a step, with those it acknowledges *)
Lemma listen_inv_next limit c0 s streams l c' aborted log' ms :
  listen_inv limit c0 s -> permits l + length (running l) = limit ->
  command_inv c0 log' c' (running l) -> grows (ls_resolved s) (ls_command s) log' c' ->
  acked (cm_consumer c') = acked (cm_consumer (ls_command s)) ++ ms ->
  (forall m, m ∈ ms -> exists st, reported log' c' m st) ->
  listen_inv limit c0 (mkListenState streams l (ls_task_queue s) c' aborted log').
Proof.
  intros [_ Hq _ (ms0 & Ha & Hms0)] Hl Hc Hg Hms Hrep. split; simpl; [done..|].
  exists (ms0 ++ ms). rewrite Hms, Ha, app_assoc. split; [done|].
  intros m [Hm|Hm]%elem_of_app; [|by apply Hrep].
  destruct (Hms0 m Hm) as [st Hst]. exists st. by eapply reported_grows.
Qed.

Lemma listen_new_inv config c0 streams :
  listen_inv (task_limit config) c0 (listen_new config c0 streams).
Proof.
  split; simpl; [lia|done|apply command_inv_new|].
  exists []. rewrite app_nil_r. split; [done|]. by intros m ?%elem_of_nil.
Qed.

(** nothing is acknowledged *)
Lemma listen_inv_quiet limit c0 s streams l c' aborted log' :
  listen_inv limit c0 s -> permits l + length (running l) = limit ->
  command_inv c0 log' c' (running l) -> grows (ls_resolved s) (ls_command s) log' c' ->
  acked (cm_consumer c') = acked (cm_consumer (ls_command s)) ->
  listen_inv limit c0 (mkListenState streams l (ls_task_queue s) c' aborted log').
Proof.
  intros Hinv Hl Hc Hg Ha. apply (listen_inv_next _ _ _ _ _ _ _ _ [] Hinv Hl Hc Hg).
  - by rewrite app_nil_r.
  - by intros m ?%elem_of_nil.
Qed.

Lemma listen_step_inv limit c0 s s' :
  listen_inv limit c0 s -> listen_step s s' -> listen_inv limit c0 s'.
Proof.
  intros Hinv Hstep. pose proof (li_limit _ _ _ Hinv) as Hlim. pose proof (li_command _ _ _ Hinv) as Hc.
  destruct Hstep as [k m rest l Hab Hs Hrun|k e rest Hab Hs|i t c next Hab Hi Hrun|
    i t c l Hab Hend Hrun|i t c l Hab Hend Hrun|i t c e Hab Hi Hrun].
  - apply listen_inv_quiet; [done|by rewrite (limiter_run_permits _ _ _ Hrun)| |apply grows_refl|done].
    unfold limiter_run in Hrun. destruct (permits (ls_limiter s)); [done|]. injection Hrun as <-.
    by apply command_inv_spawn.
  - apply listen_inv_quiet; [done..|apply grows_refl|done].
  - destruct (command_inv_stage _ _ _ _ _ _ _ _ Hc Hi Hrun) as (Hc' & Hg & Hk).
    apply listen_inv_quiet; [done|by simpl; rewrite length_insert|done|done|by rewrite Hk].
  - destruct (limiter_end_sub _ _ _ _ Hend) as [Hin Hsub].
    destruct (command_inv_done _ _ _ _ _ _ Hc Hin Hrun) as (Hc' & Hg & Ha & Hrep).
    eapply listen_inv_next; [done|by rewrite (limiter_end_permits _ _ _ _ Hend)|by eapply command_inv_sub|
      done|exact Ha|by intros m ->%list_elem_of_singleton].
  - destruct (limiter_end_sub _ _ _ _ Hend) as [Hin Hsub].
    destruct (command_inv_failed _ _ _ _ _ _ _ Hc Hin Hrun) as (Hc' & Hg & Ha).
    apply listen_inv_quiet; [done|by rewrite (limiter_end_permits _ _ _ _ Hend)|by eapply command_inv_sub|done..].
  - apply list_elem_of_lookup_2 in Hi as Hin.
    destruct (command_inv_failed _ _ _ _ _ _ _ Hc Hin Hrun) as (Hc' & Hg & Ha).
    by apply listen_inv_quiet.
Qed.

Lemma listen_steps_inv limit c0 s s' :
  rtc listen_step s s' -> listen_inv limit c0 s -> listen_inv limit c0 s'.
Proof. induction 1; [done|]. intros Hinv. eauto using listen_step_inv. Qed.

(** However the messages of the input streams interleave, and even if the
    process aborts in between: the plugin has been given exactly the logged
    messages, each as it was read, and every message acknowledged so far is
    among them, its answer published if reports are on.  At most [task_limit]
    messages are in progress.  Order groups are not serialized: no permit of
    the task queue is ever asked for. *)
Theorem listen_acks_resolved config c0 streams s :
  rtc listen_step (listen_new config c0 streams) s ->
  (exists ms, acked (cm_consumer (ls_command s)) = acked (cm_consumer c0) ++ ms /\
     forall m, m ∈ ms -> exists msg status l, (m, msg, status) ∈ ls_resolved s /\
       mq_build_message m = Ok msg /\ reports_of msg status (cm_reports c0) l /\
       forall x, x ∈ l -> x ∈ sent (cm_broker (ls_command s))) /\
  plugin_run (cm_plugin c0) ((fun x => x.1.2) <$> ls_resolved s) =
    (cm_plugin (ls_command s), snd <$> ls_resolved s) /\
  length (running (ls_limiter s)) <= task_limit config /\
  ls_task_queue s = task_queue_new.
Proof.
  intros Hsteps. assert (listen_inv (task_limit config) c0 s) as Hinv.
  { by eapply listen_steps_inv, listen_new_inv. }
  destruct Hinv as [Hlim Hq [Hr Hb Hp _] (ms & Ha & Hms)]. split_and!; [|done|lia|done].
  exists ms. split; [done|]. intros m (st & msg & l & Hin & Hl & Hsent)%Hms.
  exists msg, st, l. rewrite <- Hr. eauto.
Qed.
End properties.
