(* ===== verification/CommandOutputs.v ===== *)
(** The output plugins of the command service,
    [crates/command-service/src/output/{druid,psql,victoria_metrics}/mod.rs].
    The Kafka producer, the PostgreSQL pool, the HTTP client and the serde
    readers are classes; each plugin implements [OutputPlugin]. *)
From Stdlib Require Import Ascii.
From stdpp Require Import prelude gmap strings list fin_maps pretty.
From S2P Require Import Prelude StringSplit Json Externals Instances Messaging MessageTypes.
From S2P Require Import CommandConfig CommandService.

(** ** Druid: the rows of a message are sent to a Kafka topic *)

Record TimeseriesInputMessage : Type := mkTimeseriesInputMessage { ti_fields : Value; ti_ts : Z }.
Record DruidOutputMessage : Type := mkDruidOutputMessage {
  do_fields : Value; do_ts : Z; do_object_id : Uuid; do_schema_id : Uuid }.
Record FutureRecord : Type := mkFutureRecord {
  fr_topic : string; fr_partition : option Z; fr_payload : string; fr_key : string;
  fr_timestamp : option Z }.

(** [rdkafka]'s [FutureProducer::send], and the records it has delivered *)
Class FutureProducer (Q : Type) := { producer_send : FutureRecord -> M Q string () }.
Class FutureProducerLaws (Q : Type) `{FutureProducer Q} := {
  delivered : Q -> list FutureRecord;
  producer_send_law r q :
    wp (producer_send r) q (fun _ q' => delivered q' = delivered q ++ [r])
      (fun _ q' => delivered q' = delivered q);
}.

Class DruidText := {
  timeseries_from_str : string -> result string (list TimeseriesInputMessage);
  druid_message_to_vec : DruidOutputMessage -> string;   (* string keys: it cannot fail *)
}.

Record DruidOutputPlugin (Q : Type) : Type := mkDruidOutputPlugin {
  dp_producer : Q; dp_topic : string }.
Arguments mkDruidOutputPlugin {_}. Arguments dp_producer {_}. Arguments dp_topic {_}.

Section druid.
Context {Q : Type} `{FutureProducer Q, UuidLib, DruidText}.

Definition deserialize_payloads (msg : BorrowedInsertMessage) : result Resolution (list string) :=
  match timeseries_from_str (bi_data msg) with
  | Ok values => Ok ((fun payload => druid_message_to_vec (mkDruidOutputMessage
      (ti_fields payload) (ti_ts payload) (bi_object_id msg) (bi_schema_id msg))) <$> values)
  | Err err => Err (UserFailure err (bi_data msg))
  end.

Definition druid_records (topic : string) (msg : BorrowedInsertMessage) (payloads : list string) :
    list FutureRecord :=
  (fun payload => mkFutureRecord topic None payload (uuid_to_string (bi_object_id msg))
     (Some (bi_timestamp msg))) <$> payloads.

(** the stream of [send]s, collected into the vector of their outcomes *)
Fixpoint send_all (l : list FutureRecord) (q : Q) : Q * list (result Resolution Resolution) :=
  match l with
  | [] => (q, [])
  | message :: l =>
      let '(q1, r) := producer_send message q in
      let outcome := match r with Err err => Err (StorageLayerFailure err) | Ok _ => Ok Success end in
      let '(q2, outcomes) := send_all l q1 in (q2, outcome :: outcomes)
  end.

Definition druid_handle_message (msg : BorrowedInsertMessage) (p : DruidOutputPlugin Q) :
    DruidOutputPlugin Q * Resolution :=
  match deserialize_payloads msg with
  | Err err => (p, err)
  | Ok payloads =>
      let '(q, _) := send_all (druid_records (dp_topic p) msg payloads) (dp_producer p) in
      (mkDruidOutputPlugin q (dp_topic p), Success)
  end.

#[export] Instance druid_plugin : OutputPlugin (DruidOutputPlugin Q) := {
  plugin_handle_message := druid_handle_message;
  plugin_name := fun _ => "Druid timeseries";
}.
End druid.

(** ** PostgreSQL: a message is one row of the [data] table *)

(** [utils::psql::validate_schema]; [char::is_ascii_alphanumeric] *)
Definition is_ascii_alphanumeric (c : ascii) : bool :=
  let n := N_of_ascii c in
  ((48 <=? n) && (n <=? 57) || (65 <=? n) && (n <=? 90) || (97 <=? n) && (n <=? 122))%N.
Fixpoint validate_schema (schema : string) : bool :=
  match schema with
  | EmptyString => true
  | String c s => (Ascii.eqb c "_"%char || is_ascii_alphanumeric c) && validate_schema s
  end.

(** the schema that an unquoted name stands for: PostgreSQL folds letters to lower
    case and keeps 63 bytes *)
Definition ascii_lower (c : ascii) : ascii :=
  let n := N_of_ascii c in if ((65 <=? n) && (n <=? 90))%N then ascii_of_N (n + 32) else c.
Fixpoint fold_name (bytes : nat) (name : string) : string :=
  match bytes, name with
  | S bytes', String c name' => String (ascii_lower c) (fold_name bytes' name')
  | _, _ => EmptyString
  end.
Definition schema_named (name : string) : string := fold_name 63 name.

Inductive PgValue : Type :=
| PgUuid (u : Uuid) | PgUuids (l : list Uuid) | PgBigint (n : Z) | PgJson (v : Value).
(** a row of [data]: object, version, schema, payload *)
Record DataRow : Type := mkDataRow {
  row_object_id : Uuid; row_version : Z; row_schema_id : Uuid; row_payload : Value }.

(** [bb8]'s pool and [tokio_postgres]'s [query] *)
Class Postgres (D : Type) := {
  pool_build : D -> result string ();
  pool_get : D -> result string ();
  pg_execute : string -> list PgValue -> M D string ();
}.

Definition insert_query (schema : string) : string :=
  "INSERT INTO " +:+ schema +:+
  ".data (object_id, version, schema_id, payload) VALUES ($1, $2, $3, $4)".
Definition row_parameters (r : DataRow) : list PgValue :=
  [PgUuid (row_object_id r); PgBigint (row_version r); PgUuid (row_schema_id r);
   PgJson (row_payload r)].

(** what the documentation of PostgreSQL says of the one statement used here,
    the schema being an identifier: a successful [INSERT] adds the row, a failed
    one changes nothing.  [pg_rows] keeps the rows of all schemas, each with the name
    that the statement had; [schema_named] tells which names are one schema. *)
Class PostgresLaws (D : Type) `{Postgres D} := {
  pg_rows : D -> list (string * DataRow);
  pg_insert_law schema r d :
    validate_schema schema = true ->
    wp (pg_execute (insert_query schema) (row_parameters r)) d
      (fun _ d' => pg_rows d' = pg_rows d ++ [(schema, r)]) (fun _ d' => pg_rows d' = pg_rows d);
}.

Inductive PostgresError : Type := FailedToConnect (e : string) | InvalidSchemaName (schema : string).

Record PostgresOutputPlugin (D : Type) : Type := mkPostgresOutputPlugin {
  pp_pool : D; pp_schema : string }.
Arguments mkPostgresOutputPlugin {_}. Arguments pp_pool {_}. Arguments pp_schema {_}.

Section psql.
Context {D : Type} `{Postgres D, JsonText}.

Definition postgres_new (pool : D) (schema : string) : result PostgresError (PostgresOutputPlugin D) :=
  map_err FailedToConnect (pool_build pool) ;;
  if validate_schema schema then Ok (mkPostgresOutputPlugin pool schema)
  else Err (InvalidSchemaName schema).

Definition postgres_handle_message (msg : BorrowedInsertMessage) (p : PostgresOutputPlugin D) :
    PostgresOutputPlugin D * Resolution :=
  match pool_get (pp_pool p) with
  | Err _ => (p, CommandServiceFailure)
  | Ok _ =>
      match json_parse (bi_data msg) with
      | Err _ => (p, CommandServiceFailure)
      | Ok payload =>
          let '(d, r) := pg_execute (insert_query (pp_schema p))
            (row_parameters (mkDataRow (bi_object_id msg) (bi_timestamp msg) (bi_schema_id msg)
                               payload)) (pp_pool p) in
          (mkPostgresOutputPlugin d (pp_schema p),
           match r with Ok _ => Success | Err err => StorageLayerFailure err end)
      end
  end.

#[export] Instance postgres_plugin : OutputPlugin (PostgresOutputPlugin D) := {
  plugin_handle_message := postgres_handle_message;
  plugin_name := fun _ => "PostgreSQL";
}.
End psql.

(** ** VictoriaMetrics: a message is posted as InfluxDB line protocol *)

Inductive VictoriaError : Type :=
| InvalidUrl (e : string)
| DataCannotBeParsed (e : string)
| InvalidFieldType
| EmptyFields.

Definition victoria_error_display (e : VictoriaError) : string :=
  match e with
  | InvalidUrl e => "Url was invalid `" +:+ e +:+ "`"
  | DataCannotBeParsed e => "Data cannot be parsed `" +:+ e +:+ "`"
  | InvalidFieldType => "Value cannot be an object, array or null"
  | EmptyFields => "Cannot handle empty payload"
  end.

Record Payload : Type := mkPayload { pl_fields : gmap string Value; pl_ts : Z }.

(** the serde-derived reader, and the iteration order of an [FnvHashMap], which
    is some order of its entries *)
Class VictoriaText := {
  payloads_from_str : string -> result string (list Payload);
  fnv_iter : gmap string Value -> list (string * Value);
}.
Class VictoriaTextLaws `{VictoriaText} : Prop := {
  fnv_iter_perm m : fnv_iter m ≡ₚ map_to_list m;
}.

(** [reqwest]'s [Url] and [Client]: the outcome of a request is a transport
    error, or a status and the outcome of reading the body *)
Class HttpLib (N : Type) := {
  Url : Type;
  url_join : Url -> string -> result string Url;
  url_set_query : Url -> string -> Url;
  http_post : Url -> string -> M N string (Z * result string string);
}.

(** [Display for u64]: decimal *)
Definition u64_display (n : Z) : string := pretty (Z.to_N n).

Definition newline : string := String (ascii_of_nat 10) EmptyString.

Section victoria.
Context `{VictoriaText, ValueText, UuidLib}.

Definition invalid_field (v : Value) : bool := is_array v || is_null v || is_object v.
Definition object_field (kv : string * Value) : result VictoriaError string :=
  if invalid_field kv.2 then Err InvalidFieldType
  else Ok (kv.1 +:+ "=" +:+ value_display kv.2).

Definition get_object_fields (request_object : Payload) : result VictoriaError string :=
  if bool_decide (pl_fields request_object = ∅) then Err EmptyFields
  else fields ← try_map object_field (fnv_iter (pl_fields request_object));
       Ok (join "," fields).

Definition line (measurement tag : Uuid) (obj : Payload) : result VictoriaError string :=
  fields ← get_object_fields obj;
  Ok (uuid_to_string measurement +:+ ",objectId=" +:+ uuid_to_string tag +:+ " " +:+ fields +:+
      " " +:+ u64_display (pl_ts obj)).

Definition build_line_protocol (measurement tag : Uuid) (payload : string) :
    result VictoriaError string :=
  payloads ← map_err DataCannotBeParsed (payloads_from_str payload);
  lines ← try_map (line measurement tag) payloads;
  Ok (join newline lines).
End victoria.

Record VictoriaMetricsOutputPlugin (N : Type) `{HttpLib N} : Type := mkVictoriaPlugin {
  vp_client : N; vp_url : Url }.
Arguments mkVictoriaPlugin {_ _}. Arguments vp_client {_ _}. Arguments vp_url {_ _}.

Section victoria_plugin.
Context {N : Type} `{HttpLib N, VictoriaText, ValueText, UuidLib}.

Definition victoria_new (client : N) (url : Url) :
    result VictoriaError (VictoriaMetricsOutputPlugin N) :=
  url ← map_err InvalidUrl (url_join url "write"); Ok (mkVictoriaPlugin client url).

Definition send_data (url : Url) (line_protocol : string) (client : N) : N * Resolution :=
  let '(client, r) := http_post url line_protocol client in
  (client,
   match r with
   | Ok (status, text) =>
       if bool_decide (status = 200 \/ status = 204)%Z then Success
       else StorageLayerFailure
         (match text with Ok t => t | Err err => "No description. Error `" +:+ err +:+ "`" end)
   | Err _ => CommandServiceFailure
   end).

Definition victoria_handle_message (msg : BorrowedInsertMessage)
    (p : VictoriaMetricsOutputPlugin N) : VictoriaMetricsOutputPlugin N * Resolution :=
  let url := url_set_query (vp_url p) ("db=" +:+ uuid_to_string (bi_schema_id msg)) in
  match build_line_protocol (bi_schema_id msg) (bi_object_id msg) (bi_data msg) with
  | Ok line_protocol =>
      let '(client, r) := send_data url line_protocol (vp_client p) in
      (mkVictoriaPlugin client (vp_url p), r)
  | Err err => (p, UserFailure (victoria_error_display err) (bi_data msg))
  end.

#[export] Instance victoria_plugin : OutputPlugin (VictoriaMetricsOutputPlugin N) := {
  plugin_handle_message := victoria_handle_message;
  plugin_name := fun _ => "Victoria metrics";
}.
End victoria_plugin.

(** ** Properties *)

Section druid_properties.
Context {Q : Type} `{FutureProducerLaws Q, UuidLib, DruidText}.

Lemma send_all_spec l (q : Q) :
  exists k, delivered (send_all l q).1 = delivered q ++ k /\ k `sublist_of` l /\
    ((forall r q, is_ok (producer_send r q).2 = false) -> k = []).
Proof.
  revert q. induction l as [|r l IH]; intros q; simpl; [exists []; by rewrite app_nil_r|].
  pose proof (producer_send_law r q) as Hr. unfold wp in Hr.
  destruct (producer_send r q) as [q1 o] eqn:Hsend. destruct (IH q1) as (k & Hk & Hsub & Hdown).
  destruct (send_all l q1) as [q2 outcomes]. simpl in *. destruct o as [[]|e].
  - exists (r :: k). split_and!; [by rewrite Hk, Hr, <- app_assoc|by constructor|].
    intros Hall. specialize (Hall r q). by rewrite Hsend in Hall.
  - exists k. split_and!; [by rewrite Hk, Hr|by constructor|done].
Qed.

(** The Druid plugin answers for the shape of the message alone: it says
    success exactly when the rows of the message can be read, never a storage
    failure, although only part of the rows, or none when the producer is
    down, need have been delivered. *)
Theorem druid_ignores_send_failures msg (p p' : DruidOutputPlugin Q) r :
  plugin_handle_message msg p = (p', r) ->
  (r = Success <-> is_ok (timeseries_from_str (bi_data msg)) = true) /\
  (forall d, r <> StorageLayerFailure d) /\
  exists k, delivered (dp_producer p') = delivered (dp_producer p) ++ k /\
    k `sublist_of` druid_records (dp_topic p) msg (default [] (result_ok (deserialize_payloads msg))) /\
    ((forall x q, is_ok (producer_send x q).2 = false) -> k = []).
Proof.
  simpl. unfold druid_handle_message, deserialize_payloads.
  destruct (timeseries_from_str (bi_data msg)) as [values|err].
  - simpl. destruct (send_all_spec (druid_records (dp_topic p) msg ((fun payload =>
      druid_message_to_vec (mkDruidOutputMessage (ti_fields payload) (ti_ts payload)
        (bi_object_id msg) (bi_schema_id msg))) <$> values)) (dp_producer p)) as (k & Hk & Hs & Hd).
    destruct (send_all _ _) as [q outcomes]. intros [= <- <-]. split_and!; [done..|]. eauto.
  - intros [= <- <-]. split_and!; [done..|]. exists []. rewrite app_nil_r.
    split_and!; [done|apply sublist_nil_l|done].
Qed.
End druid_properties.

Section psql_properties.
Context {D : Type} `{PostgresLaws D, JsonText}.

Lemma validate_schema_spec schema c :
  validate_schema schema = true -> char_in c schema = true ->
  c = "_"%char \/ is_ascii_alphanumeric c = true.
Proof.
  induction schema as [|a s IH]; simpl; [done|]. intros [Ha Hs]%andb_true_iff [Hc|Hc]%orb_true_iff.
  - apply Ascii.eqb_eq in Hc as ->. apply orb_true_iff in Ha as [Ha|Ha]; [left|by right].
    by apply Ascii.eqb_eq in Ha.
  - auto.
Qed.

Lemma postgres_handle_message_spec (p p' : PostgresOutputPlugin D) msg r :
  validate_schema (pp_schema p) = true -> postgres_handle_message msg p = (p', r) ->
  pp_schema p' = pp_schema p /\
  (r = Success /\ (exists v, json_parse (bi_data msg) = Ok v /\
     pg_rows (pp_pool p') = pg_rows (pp_pool p) ++ [(pp_schema p,
       mkDataRow (bi_object_id msg) (bi_timestamp msg) (bi_schema_id msg) v)]) \/
   r <> Success /\ pg_rows (pp_pool p') = pg_rows (pp_pool p)).
Proof.
  intros Hvalid. unfold postgres_handle_message. destruct (pool_get (pp_pool p)) as [[]|e];
    [|intros [= <- <-]; eauto].
  destruct (json_parse (bi_data msg)) as [v|e]; [|intros [= <- <-]; eauto].
  pose proof (pg_insert_law (pp_schema p) (mkDataRow (bi_object_id msg) (bi_timestamp msg)
    (bi_schema_id msg) v) (pp_pool p) Hvalid) as Hlaw. unfold wp in Hlaw.
  destruct (pg_execute _ _ _) as [d [[]|e]]; intros [= <- <-]; simpl; (split; [done|]); [left|by right].
  split; [done|]. by exists v.
Qed.

(** The PostgreSQL plugin stores a message as one row, object, version
    (the timestamp of the message), schema and parsed payload, in the [data]
    table of its database schema, and says success exactly then; otherwise no
    row is stored.  The database schema spliced into the statement consists of
    letters, digits and underscores. *)
Theorem postgres_stores_row pool schema (p p' : PostgresOutputPlugin D) msg r :
  postgres_new pool schema = Ok p -> plugin_handle_message msg p = (p', r) ->
  (r = Success /\ (exists v, json_parse (bi_data msg) = Ok v /\
     pg_rows (pp_pool p') = pg_rows pool ++
       [(schema, mkDataRow (bi_object_id msg) (bi_timestamp msg) (bi_schema_id msg) v)]) \/
   r <> Success /\ pg_rows (pp_pool p') = pg_rows pool) /\
  pp_schema p' = schema /\
  (forall c, char_in c schema = true -> c = "_"%char \/ is_ascii_alphanumeric c = true).
Proof.
  unfold postgres_new. destruct (pool_build pool) as [[]|e]; simpl; [|done].
  destruct (validate_schema schema) eqn:Hvalid; intros [= <-].
  intros [Hs Hrows]%postgres_handle_message_spec; [|done]. simpl in *.
  split; [done|]. split; [done|]. intros c. by apply validate_schema_spec.
Qed.
End psql_properties.

Section victoria_properties.
Context `{VictoriaTextLaws, ValueText, UuidLib}.

(** what line protocol can carry *)
Definition valid_payload (obj : Payload) : Prop :=
  pl_fields obj <> ∅ /\ map_Forall (fun _ v => invalid_field v = false) (pl_fields obj).
#[export] Instance valid_payload_dec obj : Decision (valid_payload obj).
Proof. unfold valid_payload. apply _. Defined.

Definition field_text (kv : string * Value) : string := kv.1 +:+ "=" +:+ value_display kv.2.
Definition line_text (measurement tag : Uuid) (obj : Payload) : string :=
  uuid_to_string measurement +:+ ",objectId=" +:+ uuid_to_string tag +:+ " " +:+
  join "," (field_text <$> fnv_iter (pl_fields obj)) +:+ " " +:+ u64_display (pl_ts obj).

Lemma elem_of_fnv_iter m k v : (k, v) ∈ fnv_iter m <-> m !! k = Some v.
Proof. rewrite fnv_iter_perm. apply elem_of_map_to_list. Qed.

Lemma fnv_iter_singleton k v : fnv_iter {[k := v]} = [(k, v)].
Proof. apply Permutation_singleton_r. by rewrite fnv_iter_perm, map_to_list_singleton. Qed.

Lemma line_valid measurement tag obj :
  valid_payload obj -> line measurement tag obj = Ok (line_text measurement tag obj).
Proof.
  intros [Hne Hv]. unfold line, get_object_fields. rewrite bool_decide_eq_false_2 by done.
  rewrite (try_map_all_ok _ field_text); [done|]. intros [k v] Hin.
  unfold object_field; simpl. by rewrite (Hv k v) by by apply elem_of_fnv_iter.
Qed.

Lemma line_invalid measurement tag obj :
  ~ valid_payload obj -> exists e, line measurement tag obj = Err e /\
    (e = EmptyFields \/ e = InvalidFieldType).
Proof.
  intros Hbad. unfold line, get_object_fields. case_bool_decide as Hne; [eauto|].
  destruct (try_map object_field (fnv_iter (pl_fields obj))) as [fields|e] eqn:Htry; simpl.
  - destruct Hbad. split; [done|]. intros k v Hk%elem_of_fnv_iter.
    apply try_map_Ok in Htry. destruct (Forall2_forall_elem _ _ _ _ Htry Hk) as (y & _ & Hy).
    unfold object_field in Hy; simpl in Hy. by destruct (invalid_field v).
  - apply try_map_Err in Htry as (kv & _ & Hkv). unfold object_field in Hkv.
    destruct (invalid_field kv.2); [|done]. injection Hkv as <-. eauto.
Qed.

Lemma build_line_protocol_spec measurement tag payload payloads :
  payloads_from_str payload = Ok payloads ->
  (Forall valid_payload payloads ->
   build_line_protocol measurement tag payload =
     Ok (join newline (line_text measurement tag <$> payloads))) /\
  (~ Forall valid_payload payloads ->
   exists e, build_line_protocol measurement tag payload = Err e /\
     (e = EmptyFields \/ e = InvalidFieldType)).
Proof.
  intros Hparse. unfold build_line_protocol. rewrite Hparse. simpl. split; intros Hv.
  - rewrite (try_map_all_ok _ (line_text measurement tag)); [done|].
    intros obj Hobj. apply line_valid. rewrite Forall_forall in Hv. by apply Hv.
  - destruct (try_map (line measurement tag) payloads) as [lines|e] eqn:Htry; simpl.
    + destruct Hv. apply Forall_forall. intros obj Hobj. apply try_map_Ok in Htry.
      destruct (Forall2_forall_elem _ _ _ _ Htry Hobj) as (y & _ & Hy).
      apply dec_stable. intros (e & He & _)%(line_invalid measurement tag). congruence.
    + apply try_map_Err in Htry as (obj & _ & Hobj).
      exists e. split; [done|]. destruct (decide (valid_payload obj)) as [Hok|Hbad].
      * by rewrite line_valid in Hobj.
      * apply (line_invalid measurement tag) in Hbad as (e' & He' & ?). congruence.
Qed.
End victoria_properties.

Section victoria_plugin_properties.
Context {N : Type} `{HttpLib N, VictoriaTextLaws, ValueText, UuidLib}.

(** A message is posted whole or not at all.  When all its rows can be
    carried by line protocol there is one request, to the database of the
    schema, with one line per row in order and the answer is the server's;
    when some row is empty or has an array, null or object field, or the rows
    cannot be read, nothing is posted and the user is told. *)
Theorem victoria_posts_all_or_nothing msg (p : VictoriaMetricsOutputPlugin N) :
  let url := url_set_query (vp_url p) ("db=" +:+ uuid_to_string (bi_schema_id msg)) in
  let lines payloads := line_text (bi_schema_id msg) (bi_object_id msg) <$> payloads in
  (exists payloads, payloads_from_str (bi_data msg) = Ok payloads /\ Forall valid_payload payloads /\
     plugin_handle_message msg p =
       (let '(client, r) := send_data url (join newline (lines payloads)) (vp_client p) in
        (mkVictoriaPlugin client (vp_url p), r))) \/
  ((forall payloads, payloads_from_str (bi_data msg) = Ok payloads -> ~ Forall valid_payload payloads) /\
   exists e, plugin_handle_message msg p = (p, UserFailure (victoria_error_display e) (bi_data msg))).
Proof.
  intros url lines. simpl. unfold victoria_handle_message.
  destruct (payloads_from_str (bi_data msg)) as [payloads|e] eqn:Hparse.
  - destruct (build_line_protocol_spec (bi_schema_id msg) (bi_object_id msg) _ _ Hparse) as [Hok Hbad].
    destruct (decide (Forall valid_payload payloads)) as [Hv|Hv].
    + left. exists payloads. by rewrite Hok.
    + right. destruct (Hbad Hv) as (e & -> & _). split; [by intros ? [= <-]|eauto].
  - right. split; [done|]. exists (DataCannotBeParsed e). unfold build_line_protocol. by rewrite Hparse.
Qed.

(** Field names are not escaped, so line protocol is ambiguous: a row
    with two fields and a row with one oddly named field are posted as the
    very same line, and the server cannot tell them apart. *)
Theorem line_protocol_ambiguous measurement tag v ts :
  invalid_field v = false ->
  exists one two, size (pl_fields one) = 1 /\ size (pl_fields two) = 2 /\
    pl_ts one = ts /\ pl_ts two = ts /\
    exists text, line measurement tag one = Ok text /\ line measurement tag two = Ok text.
Proof.
  intros Hv.
  set (m := <["a" := v]> ({["b" := v]} : gmap string Value)).
  assert (fnv_iter m ≡ₚ [("a", v); ("b", v)]) as Hperm.
  { rewrite fnv_iter_perm. unfold m. by rewrite map_to_list_insert, map_to_list_singleton. }
  assert (exists k, join "," (field_text <$> fnv_iter m) = field_text (k, v)) as [k Hk].
  { symmetry in Hperm. apply Permutation_length_2_inv in Hperm as [-> | ->].
    - exists ("a=" +:+ value_display v +:+ ",b"). unfold field_text, join; simpl.
      by rewrite !string_app_assoc.
    - exists ("b=" +:+ value_display v +:+ ",a"). unfold field_text, join; simpl.
      by rewrite !string_app_assoc. }
  exists (mkPayload {[k := v]} ts), (mkPayload m ts). split_and!; try done.
  - apply map_size_singleton.
  - exists (line_text measurement tag (mkPayload m ts)). split; [|apply line_valid].
    + rewrite line_valid.
      * unfold line_text; simpl. by rewrite fnv_iter_singleton, Hk.
      * split; [done|]. by apply map_Forall_singleton.
    + split; [done|]. apply map_Forall_insert_2; [done|]. by apply map_Forall_singleton.
Qed.
End victoria_plugin_properties.

(** ** Stores in memory *)

(** a Kafka producer that is up or down *)
Record MemoryProducer : Type := mkMemoryProducer { mp_up : bool; mp_log : list FutureRecord }.
#[export] Instance memory_producer : FutureProducer MemoryProducer := {
  producer_send := fun r q =>
    if mp_up q then (mkMemoryProducer true (mp_log q ++ [r]), Ok ()) else (q, Err "timed out");
}.
#[export] Instance memory_producer_laws : FutureProducerLaws MemoryProducer.
Proof. refine {| delivered := mp_log |}. intros r [[] l]; done. Defined.

#[export] Instance druid_text_inst : DruidText := {
  timeseries_from_str := fun s => Ok [mkTimeseriesInputMessage Null 1; mkTimeseriesInputMessage Null 2];
  druid_message_to_vec := fun m => show (Z.to_N (do_ts m));
}.

(** a table whose only statement is the plugin's [INSERT] *)
Fixpoint string_take (n : nat) (s : string) : string :=
  match n, s with S n, String c s => String c (string_take n s) | _, _ => EmptyString end.
Fixpoint string_drop (n : nat) (s : string) : string :=
  match n, s with S n, String c s => string_drop n s | _, _ => s end.

Definition query_schema (query : string) : string :=
  string_take (String.length query - String.length (insert_query "")) (string_drop 12 query).

Definition row_of_parameters (l : list PgValue) : option DataRow :=
  match l with
  | [PgUuid o; PgBigint v; PgUuid s; PgJson p] => Some (mkDataRow o v s p)
  | _ => None
  end.

Lemma string_take_app s t : string_take (String.length s) (s +:+ t) = s.
Proof. induction s as [|c s IH]; [by destruct t|]. exact (f_equal (String c) IH). Qed.
Lemma string_length_app s t : String.length (s +:+ t) = String.length s + String.length t.
Proof. induction s as [|c s IH]; [done|]. exact (f_equal S IH). Qed.

Lemma query_schema_insert schema : query_schema (insert_query schema) = schema.
Proof.
  unfold query_schema, insert_query. rewrite !string_length_app.
  match goal with |- string_take ?n (string_drop 12 (_ +:+ ?t)) = _ =>
    change (string_take n t = schema); replace n with (String.length schema) by (simpl; lia) end.
  apply string_take_app.
Qed.

#[export] Instance memory_postgres : Postgres (list (string * DataRow)) := {
  pool_build := fun _ => Ok ();
  pool_get := fun _ => Ok ();
  pg_execute := fun query params d =>
    match row_of_parameters params with
    | Some r => (d ++ [(query_schema query, r)], Ok ())
    | None => (d, Err "bad parameters")
    end;
}.
#[export] Instance memory_postgres_laws : PostgresLaws (list (string * DataRow)).
Proof.
  refine {| pg_rows := fun d => d |}. intros schema [] d _. unfold wp; simpl.
  by rewrite query_schema_insert.
Defined.

#[export] Instance value_text_inst : ValueText := {
  value_display := fun v => match v with VBool true => "true" | _ => "false" end;
}.
#[export] Instance victoria_text_inst : VictoriaText := {
  payloads_from_str := fun s =>
    if decide (s = "[]") then Ok [mkPayload {["a" := VBool true]} 12] else Err "unexpected character";
  fnv_iter := map_to_list;
}.
#[export] Instance victoria_text_laws_inst : VictoriaTextLaws.
Proof. by split. Qed.
#[export] Instance list_http : HttpLib (list (string * string)) := {
  Url := string;
  url_join := fun u p => Ok (u +:+ "/" +:+ p);
  url_set_query := fun u q => u +:+ "?" +:+ q;
  http_post := fun u b n => (n ++ [(u, b)], Ok (204%Z, Ok ""));
}.

(** ** Witnesses *)

Definition demo_insert : BorrowedInsertMessage := mkBorrowedInsertMessage 1 7 5 "[]".

Lemma druid_ignores_send_failures_witness :
  let p := mkDruidOutputPlugin (mkMemoryProducer false []) "topic" in
  (Success = Success <-> is_ok (timeseries_from_str (bi_data demo_insert)) = true) /\
  (forall d, Success <> StorageLayerFailure d) /\
  exists k, delivered (dp_producer p) = delivered (dp_producer p) ++ k /\
    k `sublist_of` druid_records (dp_topic p) demo_insert
      (default [] (result_ok (deserialize_payloads demo_insert))) /\
    ((forall (x : FutureRecord) (q : MemoryProducer), is_ok (producer_send x q).2 = false) -> k = []).
Proof.
  intros p. apply (druid_ignores_send_failures demo_insert p p Success). vm_eq.
Defined.

Lemma postgres_stores_row_witness :
  let p := mkPostgresOutputPlugin ([] : list (string * DataRow)) "public" in
  let row := mkDataRow 1 5 7 (Array []) in
  let p' := mkPostgresOutputPlugin [("public", row)] "public" in
  (Success = Success /\ (exists v, json_parse (bi_data demo_insert) = Ok v /\
     pg_rows (pp_pool p') = pg_rows [] ++
       [("public", mkDataRow (bi_object_id demo_insert) (bi_timestamp demo_insert)
          (bi_schema_id demo_insert) v)]) \/
   Success <> Success /\ pg_rows (pp_pool p') = pg_rows []) /\
  pp_schema p' = "public" /\
  (forall c, char_in c "public" = true -> c = "_"%char \/ is_ascii_alphanumeric c = true).
Proof.
  intros p row p'. apply (postgres_stores_row [] "public" p p' demo_insert Success); vm_eq.
Defined.

Lemma line_protocol_ambiguous_witness :
  exists one two, size (pl_fields one) = 1 /\ size (pl_fields two) = 2 /\
    pl_ts one = 3%Z /\ pl_ts two = 3%Z /\
    exists text, line 7 1 one = Ok text /\ line 7 1 two = Ok text.
Proof. apply (line_protocol_ambiguous 7 1 (VBool true) 3). reflexivity. Defined.

Lemma victoria_posts_all_or_nothing_witness :
  let p : VictoriaMetricsOutputPlugin (list (string * string)) := mkVictoriaPlugin [] "http://vm/write" in
  let url := url_set_query (vp_url p) ("db=" +:+ uuid_to_string (bi_schema_id demo_insert)) in
  let lines payloads := line_text (bi_schema_id demo_insert) (bi_object_id demo_insert) <$> payloads in
  (exists payloads, payloads_from_str (bi_data demo_insert) = Ok payloads /\
     Forall valid_payload payloads /\
     plugin_handle_message demo_insert p =
       (let '(client, r) := send_data url (join newline (lines payloads)) (vp_client p) in
        (mkVictoriaPlugin client (vp_url p), r))) \/
  ((forall payloads, payloads_from_str (bi_data demo_insert) = Ok payloads ->
      ~ Forall valid_payload payloads) /\
   exists e, plugin_handle_message demo_insert p =
     (p, UserFailure (victoria_error_display e) (bi_data demo_insert))).
Proof.
  exact (victoria_posts_all_or_nothing demo_insert (mkVictoriaPlugin [] "http://vm/write")).
Defined.
