(* ===== verification/CommandMain.v ===== *)
(** Start of the command service, [crates/command-service/src/main.rs]: from the
    communication configuration and the report topic to a listening service. *)
From stdpp Require Import prelude gmap strings list relations.
From S2P Require Import Prelude Json Externals Instances RegistryTypes Messaging MessagingClients MessageTypes.
From S2P Require Import TaskQueue TaskLimiter CommandConfig CommandService CommandOutputs.

(** what is started: the queue consumers, or the gRPC server *)
Inductive Started : Type :=
| StartedListening (consumers : list CommonConsumer) (limit : nat)
| StartedServing (port : Z).

Section start.
Context {W : Type} `{BrokerClients W}.

(** [FullReportSenderBase::new]; the gRPC case is [unreachable!()] *)
Definition full_report_sender_new (config : CommunicationConfig) (topic output_plugin : string) :
    M W (Fault ReportError) FullReportSenderBase :=
  publisher ← match config with
    | ConfigMessageQueue (MqKafka brokers _ _ _ _) =>
        with_err (Failed ∘ ProducerCreation) (publisher_new_kafka brokers)
    | ConfigMessageQueue (MqAmqp _ connection_string _ _ _) =>
        with_err (Failed ∘ ProducerCreation) (publisher_new_amqp connection_string)
    | ConfigGRpc _ => fail Panicked
    end;
  mret (mkFullReportSenderBase publisher topic output_plugin).

(** the loops of [MessageQueueInput::new] *)
Fixpoint create_consumers (configs : list CommonConsumerConfig) : M W InputError (list CommonConsumer) :=
  match configs with
  | [] => mret []
  | config :: configs =>
      consumer ← with_err ConsumerCreationFailed (consumer_new config);
      consumers ← create_consumers configs;
      mret (consumer :: consumers)
  end.

(** [MessageQueueInput::new] *)
Definition message_queue_input_new (config : MessageQueueConfig) : M W InputError (list CommonConsumer) :=
  ordered ← create_consumers (ordered_configs config);
  unordered ← create_consumers (unordered_configs config);
  mret (ordered ++ unordered).

Definition start_services (config : CommunicationConfig) (report_topic : option string)
    (output_name : string) : M W (Fault InputError) (ReportSender * Started) :=
  report_service ← match report_topic with
    | Some topic =>
        base ← with_err (fault_map FailedToInitializeReporting)
                 (full_report_sender_new config topic output_name);
        mret (ReportFull base)
    | None => mret ReportDisabled
    end;
  match config with
  | ConfigMessageQueue c =>
      consumers ← with_err Failed (message_queue_input_new c);
      mret (report_service, StartedListening consumers (task_limit c))
  | ConfigGRpc c => mret (report_service, StartedServing (grpc_port c))
  end.
End start.

(** ** Properties *)

(** all the queues a service reads *)
Definition queue_configs (c : MessageQueueConfig) : list CommonConsumerConfig :=
  ordered_configs c ++ unordered_configs c.

Section start_properties.
Context {W : Type} `{AmqpLaws W}.
Implicit Types (n : W) (l : list CommonConsumerConfig).

(** the consumers of [l] were created one after the other, each compatible with
    those that were there *)
Definition granted l n n' : Prop :=
  amqp_consumers n' = amqp_consumers n ++ (l ≫= consumer_entry broker_of) /\
  forall i j x y, i < j -> length (amqp_consumers n) <= j ->
    amqp_consumers n' !! i = Some x -> amqp_consumers n' !! j = Some y -> compatible x y.

Lemma granted_refl n n' : amqp_consumers n' = amqp_consumers n -> granted [] n n'.
Proof.
  intros Hn. unfold granted. rewrite Hn. simpl. rewrite app_nil_r. split; [done|].
  intros i j x y _ Hj _ Hy%lookup_lt_Some. lia.
Qed.

Lemma granted_app l l' n n1 n2 : granted l n n1 -> granted l' n1 n2 -> granted (l ++ l') n n2.
Proof.
  intros [H1 Hc1] [H2 Hc2]. split; [by rewrite bind_app, app_assoc, <- H1|].
  intros i j x y Hij Hj Hx Hy. destruct (decide (length (amqp_consumers n1) <= j)) as [Hge|Hlt%Nat.nle_gt].
  - by apply (Hc2 i j).
  - apply (Hc1 i j); [done|done| |].
    + rewrite H2, lookup_app_l in Hx by lia. done.
    + rewrite H2, lookup_app_l in Hy by lia. done.
Qed.

Lemma granted_one c n n' :
  amqp_consumers n' = amqp_consumers n ++ consumer_entry broker_of c ->
  (forall b q e, consumed_queue broker_of c = Some (b, q) -> (b, q, e) ∈ amqp_consumers n ->
     e = false /\ is_exclusive c = false) -> granted [c] n n'.
Proof.
  intros Hn Hnew. split; [by simpl; rewrite app_nil_r|]. rewrite Hn. unfold consumer_entry.
  destruct (consumed_queue broker_of c) as [[b q]|] eqn:Hc.
  - intros i j [bq e] y Hij Hj Hx Hy. apply lookup_app_Some in Hy as [Hy%lookup_lt_Some|[_ Hy]]; [lia|].
    apply list_lookup_singleton_Some in Hy as [Hj0 <-]. rewrite lookup_app_l in Hx by lia.
    unfold compatible. simpl. intros ->. eapply (Hnew b q e); [done|]. by eapply list_elem_of_lookup_2.
  - rewrite app_nil_r. intros i j x y _ Hj _ Hy%lookup_lt_Some. lia.
Qed.

(** a configuration and the consumer that is created for it *)
Definition created (c : CommonConsumerConfig) : CommonConsumer :=
  match c with
  | ConsumerKafka brokers group_id topic => CreatedKafka (consumer_settings group_id brokers) [topic]
  | ConsumerAmqp connection_string consumer_tag queue_name options =>
      CreatedAmqp connection_string queue_name consumer_tag (default default_consume_options options)
  end.

Lemma consumer_new_created c n :
  wp (consumer_new c) n (fun x n' => x = created c /\ granted [c] n n') (fun _ n' => granted [] n n').
Proof.
  pose proof (consumer_new_spec c n) as Hspec. unfold wp in *.
  destruct (consumer_new c n) as [n' [x|e]] eqn:Hrun; [|by apply granted_refl].
  split; [|by apply granted_one; apply Hspec].
  destruct c; simpl in Hrun; unfold new_kafka, new_amqp, or_context, or_fail, with_err, mbind, M_bind, mret, M_ret in Hrun;
    repeat (case_match; simplify_eq/=; try done).
Qed.

Lemma create_consumers_spec l n :
  wp (create_consumers l) n (fun xs n' => xs = created <$> l /\ granted l n n')
    (fun _ n' => exists k, k `prefix_of` l /\ k <> l /\ granted k n n').
Proof.
  revert n. induction l as [|c l IH]; intros n; [apply wp_ret; split; [done|by apply granted_refl]|].
  apply wp_bind, wp_with_err. eapply wp_mono; [apply consumer_new_created| |].
  - intros x n1 [-> H1]. apply wp_bind. eapply wp_mono; [apply IH| |].
    + intros xs n2 [-> H2]. apply wp_ret. split; [done|]. by apply (granted_app [c] l _ n1).
    + intros e n2 (k & Hk & Hne & H2). exists (c :: k). split_and!; [by apply prefix_cons|congruence|].
      by apply (granted_app [c] k _ n1).
  - intros e n1 H1. exists []. split_and!; [apply prefix_nil|done|done].
Qed.

Lemma message_queue_input_new_spec c n :
  wp (message_queue_input_new c) n
    (fun xs n' => xs = created <$> queue_configs c /\ granted (queue_configs c) n n')
    (fun _ n' => exists k, k `prefix_of` queue_configs c /\ k <> queue_configs c /\ granted k n n').
Proof.
  apply wp_bind. eapply wp_mono; [apply create_consumers_spec| |].
  - intros xs n1 [-> H1]. apply wp_bind. eapply wp_mono; [apply create_consumers_spec| |].
    + intros ys n2 [-> H2]. apply wp_ret. unfold queue_configs. rewrite fmap_app. split; [done|].
      by eapply granted_app.
    + intros e n2 (k & Hk & Hne & H2). exists (ordered_configs c ++ k). unfold queue_configs. split_and!.
      * by apply prefix_app.
      * by intros ?%app_inv_head.
      * by eapply granted_app.
  - intros e n1 (k & [l Hk] & Hne & H1). exists k. unfold queue_configs. rewrite Hk, <- app_assoc. split_and!; [by eexists| |done].
    intros Heq. rewrite <- (app_nil_r k) in Heq at 1. apply app_inv_head in Heq. symmetry in Heq.
    apply app_nil in Heq as [-> _]. by rewrite app_nil_r in Hk.
Qed.

Lemma full_report_sender_new_spec config topic name n :
  wp (full_report_sender_new config topic name) n
    (fun base n' => granted [] n n' /\ (exists c, config = ConfigMessageQueue c) /\
       exists producer, base = mkFullReportSenderBase producer topic name)
    (fun e n' => granted [] n n' /\
       match e with Panicked => exists c, config = ConfigGRpc c | Failed _ => exists c, config = ConfigMessageQueue c end).
Proof.
  apply wp_bind. destruct config as [[b ? ? ? ?|? s ? ? ?]|c].
  - apply wp_with_err. eapply wp_mono; [apply publisher_new_kafka_spec| |].
    + intros p n1 [_ Hn]. apply wp_ret. split_and!; [by apply granted_refl|by eexists|by eexists].
    + intros e n1 Hn. split; [by apply granted_refl|]. by eexists.
  - apply wp_with_err. eapply wp_mono; [apply publisher_new_amqp_spec| |].
    + intros p n1 [_ Hn]. apply wp_ret. split_and!; [by apply granted_refl|by eexists|by eexists].
    + intros e n1 Hn. split; [by apply granted_refl|]. by eexists.
  - apply wp_fail. split; [by apply granted_refl|]. by eexists.
Qed.

(** what is started, and the consumers that exist then *)
Definition started_as (config : CommunicationConfig) (started : Started) n n' : Prop :=
  match config with
  | ConfigMessageQueue c => started = StartedListening (created <$> queue_configs c) (task_limit c) /\
      granted (queue_configs c) n n'
  | ConfigGRpc c => started = StartedServing (grpc_port c) /\ granted [] n n'
  end.
Definition reports_as (report_topic : option string) (name : string) (reports : ReportSender) : Prop :=
  match report_topic with
  | None => reports = ReportDisabled
  | Some topic => exists producer, reports = ReportFull (mkFullReportSenderBase producer topic name)
  end.

Definition start_failed (config : CommunicationConfig) (report_topic : option string) n
    (e : Fault InputError) n' : Prop :=
  match e with
  | Panicked => (exists c, config = ConfigGRpc c) /\ is_Some report_topic
  | Failed _ => exists c k, config = ConfigMessageQueue c /\ k `prefix_of` queue_configs c /\
      (k <> queue_configs c \/ k = []) /\ granted k n n'
  end.

Lemma start_services_spec config report_topic name n :
  wp (start_services config report_topic name) n
    (fun r n' => reports_as report_topic name r.1 /\ started_as config r.2 n n')
    (start_failed config report_topic n).
Proof.
  apply wp_bind. apply (wp_mono _ _ (fun reports n1 => reports_as report_topic name reports /\ granted [] n n1) _
    (start_failed config report_topic n)).
  - destruct report_topic as [topic|]; [|apply wp_ret; split; [done|by apply granted_refl]].
    apply wp_bind, wp_with_err. eapply wp_mono; [apply full_report_sender_new_spec| |].
    + intros base n1 (Hn & _ & p & ->). apply wp_ret. split; [by eexists|done].
    + intros [e|] n1 [Hn [c ->]]; [|split; by eexists]. simpl. exists c, []. split_and!; [done|apply prefix_nil|by right|done].
  - intros reports n1 [Hr Hn1]. destruct config as [c|c]; [|by apply wp_ret].
    apply wp_bind, wp_with_err. eapply wp_mono; [apply message_queue_input_new_spec| |].
    + intros xs n2 [-> Hn2]. apply wp_ret. split; [done|]. split; [done|]. by apply (granted_app [] _ _ n1).
    + intros e n2 (k & Hk & Hne & Hn2). exists c, k. split_and!; [done|done|by left|]. by apply (granted_app [] _ _ n1).
  - done.
Qed.

(** a start with gRPC and a report topic always panics *)
Lemma start_services_panics c topic name n :
  exists n', start_services (ConfigGRpc c) (Some topic) name n = (n', Err Panicked).
Proof. by eexists. Qed.

(** The service panics at start exactly when a report topic is configured
    together with gRPC.  When it starts, it reads every configured queue, all
    consumers having been granted, with the configured bound on tasks, or serves
    the configured port; and reports go to the configured topic, or nowhere. *)
Theorem start_services_outcome config report_topic name n n' r :
  start_services config report_topic name n = (n', r) ->
  (r = Err Panicked <-> (exists c, config = ConfigGRpc c) /\ is_Some report_topic) /\
  match r with
  | Ok (reports, started) => reports_as report_topic name reports /\ started_as config started n n'
  | Err e => start_failed config report_topic n e n'
  end.
Proof.
  intros Hrun. pose proof (start_services_spec config report_topic name n) as Hspec. unfold wp in Hspec.
  rewrite Hrun in Hspec. split; [|by destruct r as [[]|]]. split; [by intros ->|].
  intros [[c ->] [topic ->]]. destruct (start_services_panics c topic name n) as [m Hm]. congruence.
Qed.

(** a consumer that is granted is compatible with one that was there, or that
    was granted before it *)
Lemma granted_compatible l1 x l2 n n' q e :
  granted (l1 ++ x :: l2) n n' -> consumed_queue broker_of x = Some q ->
  (q, e) ∈ amqp_consumers n ++ (l1 ≫= consumer_entry broker_of) -> e = false /\ is_exclusive x = false.
Proof.
  intros [Hn Hc] Hx [i Hi]%list_elem_of_lookup. set (before := amqp_consumers n ++ (l1 ≫= consumer_entry broker_of)) in *.
  assert (amqp_consumers n' = before ++ (q, is_exclusive x) :: (l2 ≫= consumer_entry broker_of)) as Hn'.
  { unfold before. rewrite Hn, bind_app, <- app_assoc. simpl. unfold consumer_entry at 2. rewrite Hx. by destruct q. }
  apply lookup_lt_Some in Hi as Hlt.
  apply (Hc i (length before) (q, e) (q, is_exclusive x)); [done| | | |done].
  - unfold before. rewrite length_app. lia.
  - rewrite Hn'. by apply lookup_app_l_Some.
  - rewrite Hn'. by apply list_lookup_middle.
Qed.

Lemma entry_of l x q : x ∈ l -> consumed_queue broker_of x = Some q ->
  (q, is_exclusive x) ∈ l ≫= consumer_entry broker_of.
Proof.
  intros Hin Hx. apply list_elem_of_bind. exists x. split; [|done].
  unfold consumer_entry. rewrite Hx. destruct q. by apply list_elem_of_singleton.
Qed.

Lemma ordered_exclusive c x q :
  x ∈ ordered_configs c -> consumed_queue broker_of x = Some q -> is_exclusive x = true.
Proof.
  destruct c; simpl; intros (t & -> & _)%list_elem_of_fmap; [done|]. by intros _.
Qed.

Lemma start_fails c report_topic name n :
  (forall n', ~ granted (queue_configs c) n n') ->
  exists n' e, start_services (ConfigMessageQueue c) report_topic name n = (n', Err (Failed e)).
Proof.
  intros Hno. pose proof (start_services_spec (ConfigMessageQueue c) report_topic name n) as Hspec. unfold wp in Hspec.
  destruct (start_services _ _ _ n) as [n' [r|[e|]]]; [|by eexists _, _|by destruct Hspec as [[? ?] _]].
  destruct Hspec as (_ & _ & Hg). by destruct (Hno n').
Qed.

(** C32: the order of an ordered AMQP queue has one reader.  While a service that
    lists the queue as ordered is running, no other service that lists it, as
    ordered or as unordered, gets through its start; and a service that lists a
    queue twice, once of them as ordered, never starts. *)
Theorem ordered_queue_single_reader c1 c2 topic1 topic2 name1 name2 n n1 n2 r x y q :
  x ∈ ordered_configs c1 -> consumed_queue broker_of x = Some q -> consumed_queue broker_of y = Some q ->
  (start_services (ConfigMessageQueue c1) topic1 name1 n = (n1, Ok r) ->
     amqp_consumers n1 ⊆ amqp_consumers n2 -> y ∈ queue_configs c2 ->
     exists n' e, start_services (ConfigMessageQueue c2) topic2 name2 n2 = (n', Err (Failed e))) /\
  (forall l1 l2 l3, queue_configs c1 = l1 ++ x :: l2 ++ y :: l3 ->
     exists n' e, start_services (ConfigMessageQueue c1) topic1 name1 n = (n', Err (Failed e))).
Proof.
  intros Hx Hqx Hqy. pose proof (ordered_exclusive c1 x q Hx Hqx) as Hex. split.
  - intros Hrun Hsub Hy. apply start_fails. intros n' Hg.
    destruct (wp_ok _ _ _ _ _ _ (start_services_spec (ConfigMessageQueue c1) topic1 name1 n) Hrun) as (_ & _ & [Hn1 _]).
    apply list_elem_of_split in Hy as (l1 & l2 & Hc2). rewrite Hc2 in Hg.
    destruct (granted_compatible _ _ _ _ _ q true Hg Hqy) as [? _]; [|done].
    apply elem_of_app. left. apply Hsub. rewrite Hn1, <- Hex. apply elem_of_app. right. apply entry_of; [|done].
    apply elem_of_app. by left.
  - intros l1 l2 l3 Hc. apply start_fails. intros n' Hg. rewrite Hc in Hg.
    change (x :: l2 ++ y :: l3) with ((x :: l2) ++ y :: l3) in Hg. rewrite app_assoc in Hg.
    destruct (granted_compatible _ _ _ _ _ q true Hg Hqy) as [? _]; [|done].
    apply elem_of_app. right. rewrite <- Hex. apply entry_of; [|done]. set_solver.
Qed.
End start_properties.

(** ** The Druid plugin's producer *)

Record DruidOutputConfig : Type := mkDruidOutputConfig { do_brokers : string; do_topic : string }.

(** [ClientConfig::create] of a [FutureProducer] *)
Class ProducerClient (Q : Type) := { producer_create : ClientConfig -> result string Q }.

Definition druid_settings (brokers : string) : ClientConfig :=
  config_set "message.timeout.ms" "5000" (config_set "bootstrap.servers" brokers ∅).

Definition druid_new {Q} `{ProducerClient Q} (args : DruidOutputConfig) : result string (DruidOutputPlugin Q) :=
  q ← map_err (fun e => "Failed creating producer `" +:+ e +:+ "`")
        (producer_create (druid_settings (do_brokers args)));
  Ok (mkDruidOutputPlugin q (do_topic args)).

(** ** [main]: the chosen plugin *)

(** [OutputArgs] with what each constructor connects: the pool, the settings of
    the producer, the client and its parsed URL *)
Section main.
Context {D Q N W : Type} `{BrokerClients W, Postgres D, FutureProducer Q, !ProducerClient Q, DruidText, HttpLib N,
  VictoriaText, ValueText, UuidLib, JsonText}.

Inductive OutputArgs : Type :=
| ArgsPostgres (pool : D) (schema : string)
| ArgsDruid (config : DruidOutputConfig)
| ArgsVictoriaMetrics (client : N) (url : Url).

Inductive Output : Type :=
| OutputPostgres (p : PostgresOutputPlugin D)
| OutputDruid (p : DruidOutputPlugin Q)
| OutputVictoria (p : VictoriaMetricsOutputPlugin N).

(** the [impl OutputPlugin] that [start_services] is called with *)
#[export] Instance output_plugin : OutputPlugin Output := {
  plugin_handle_message := fun msg p =>
    match p with
    | OutputPostgres p => let '(p, r) := plugin_handle_message msg p in (OutputPostgres p, r)
    | OutputDruid p => let '(p, r) := plugin_handle_message msg p in (OutputDruid p, r)
    | OutputVictoria p => let '(p, r) := plugin_handle_message msg p in (OutputVictoria p, r)
    end;
  plugin_name := fun p =>
    match p with
    | OutputPostgres p => plugin_name p
    | OutputDruid p => plugin_name p
    | OutputVictoria p => plugin_name p
    end;
}.

(** what [main] can fail with *)
Inductive MainError : Type :=
| MainConfig (e : MissingConfigError)
| MainPostgres (e : PostgresError)
| MainDruid (e : string)
| MainVictoria (e : VictoriaError)
| MainServices (e : Fault InputError).

Definition output_new (args : OutputArgs) : result MainError Output :=
  match args with
  | ArgsPostgres pool schema => OutputPostgres <$> map_err MainPostgres (postgres_new pool schema)
  | ArgsDruid config => OutputDruid <$> map_err MainDruid (druid_new config)
  | ArgsVictoriaMetrics client url => OutputVictoria <$> map_err MainVictoria (victoria_new client url)
  end.

Definition command_main (communication : CommunicationArgs) (output : OutputArgs)
    (report_topic : option string) : M W MainError (Output * ReportSender * Started) :=
  config ← lift (map_err MainConfig (communication_config communication));
  output ← lift (output_new output);
  started ← with_err MainServices (start_services config report_topic (plugin_name output));
  mret (output, started.1, started.2).

(** a service that runs with PostgreSQL writes to a schema with a valid name *)
Lemma command_main_postgres communication pool schema report_topic n :
  wp (command_main communication (ArgsPostgres pool schema) report_topic) n
    (fun r _ => r.1.1 = OutputPostgres (mkPostgresOutputPlugin pool schema) /\ validate_schema schema = true)
    (fun _ _ => True).
Proof.
  apply wp_bind, wp_lift; [|done]. intros config _. apply wp_bind, wp_lift; [|done].
  unfold output_new, postgres_new. intros output. destruct (pool_build pool); simpl; [|done].
  destruct (validate_schema schema); simpl; [|done]. intros [= <-].
  apply wp_bind, wp_with_err, wp_intro; [|done]. intros s [r st] _. by apply wp_ret.
Qed.
End main.
Arguments OutputArgs : clear implicits. Arguments Output : clear implicits.

(** ** A command service in memory *)

#[export] Instance command_text_inst : CommandText := {
  report_body_to_vec := fun b => Ok (rb_description b);
  raw_value_from_slice := Ok;
}.

Definition demo_reports : ReportSender :=
  ReportFull (mkFullReportSenderBase PublisherKafka "reports" "PostgreSQL").
Definition demo_command : Command (PostgresOutputPlugin (list (string * DataRow))) MemoryBroker
    (list CommMessage) :=
  mkCommand (mkPostgresOutputPlugin [] "public") demo_reports (mkMemoryBroker ["reports"] []) [].
Definition demo_mq_message : CommMessage := KafkaCommunicationMessage (Some "k") (Some "{}") 0 3.
Definition demo_mq_config : MessageQueueConfig := MqKafka "broker" "group" ["topic"] [] 32.

Lemma mq_handle_message_acks_witness :
  let r := mq_handle_message demo_mq_message demo_command in
  acked (cm_consumer r.1) = acked (cm_consumer demo_command) ++ [demo_mq_message] /\
  exists msg status, resolved_as demo_mq_message msg status demo_command r.1.
Proof.
  apply (mq_handle_message_acks demo_mq_message demo_command
    (mq_handle_message demo_mq_message demo_command).1 (Ok ())). vm_eq.
Defined.

(** the service after each step of handling the message *)
Definition demo_stage (n : nat) : Stage :=
  let msg := mkBorrowedInsertMessage 1 7 0 "{}" in
  let reporter := default ReporterUnit (with_message_body demo_reports msg) in
  match n with
  | 0 => StageStart
  | 1 => StageResolved reporter Success
  | _ => StageReported Success
  end.
Fixpoint demo_after (n : nat) : Command (PostgresOutputPlugin (list (string * DataRow)))
    MemoryBroker (list CommMessage) :=
  match n with O => demo_command | S k => (run_stage demo_mq_message (demo_stage k) (demo_after k)).1 end.
Definition demo_listen (n : nat) : ListenState (PostgresOutputPlugin (list (string * DataRow)))
    MemoryBroker (list CommMessage) :=
  let msg := mkBorrowedInsertMessage 1 7 0 "{}" in
  let running := match n with
    | 0 | 4 => mkTaskLimiter 32 []
    | _ => mkTaskLimiter 31 [at_stage (listen_task demo_mq_message) (demo_stage (pred n))] end in
  mkListenState (match n with 0 => [[Ok demo_mq_message]] | _ => [[]] end) running task_queue_new
    (demo_after (pred n)) false (match n with 0 | 1 => [] | _ => [(demo_mq_message, msg, Success)] end).

Lemma listen_step_eq (s s1 s2 : ListenState (PostgresOutputPlugin (list (string * DataRow)))
    MemoryBroker (list CommMessage)) :
  listen_step s s1 -> s1 = s2 -> listen_step s s2.
Proof. by intros Hstep <-. Qed.

Lemma demo_listen_stage n :
  n = 1 \/ n = 2 -> listen_step (demo_listen n) (demo_listen (S n)).
Proof.
  intros [-> | ->]; (eapply listen_step_eq; [eapply (listen_stage _ 0 _ _ (demo_stage _));
    [reflexivity|reflexivity|]|]);
    [instantiate (2 := demo_after 1); instantiate (1 := 1); vm_eq|vm_eq|
     instantiate (2 := demo_after 2); instantiate (1 := 2); vm_eq|vm_eq].
Qed.

Lemma demo_listen_steps : rtc listen_step (demo_listen 0) (demo_listen 4).
Proof.
  apply (rtc_l _ _ (demo_listen 1)).
  { by apply (listen_spawn (demo_listen 0) 0 demo_mq_message [] (ls_limiter (demo_listen 1))). }
  apply (rtc_l _ _ (demo_listen 2)); [by apply demo_listen_stage; left|].
  apply (rtc_l _ _ (demo_listen 3)); [by apply demo_listen_stage; right|].
  apply rtc_once. eapply listen_step_eq.
  - apply (listen_done (demo_listen 3) 0 (at_stage (listen_task demo_mq_message) (demo_stage 2))
      (demo_after 3) (mkTaskLimiter 32 [])); vm_eq.
  - vm_eq.
Qed.

Lemma listen_acks_resolved_witness :
  let s := demo_listen 4 in
  (exists ms, acked (cm_consumer (ls_command s)) = acked (cm_consumer demo_command) ++ ms /\
     forall m, m ∈ ms -> exists msg status l, (m, msg, status) ∈ ls_resolved s /\
       mq_build_message m = Ok msg /\ reports_of msg status (cm_reports demo_command) l /\
       forall x, x ∈ l -> x ∈ sent (cm_broker (ls_command s))) /\
  plugin_run (cm_plugin demo_command) ((fun x => x.1.2) <$> ls_resolved s) =
    (cm_plugin (ls_command s), snd <$> ls_resolved s) /\
  length (running (ls_limiter s)) <= task_limit demo_mq_config /\
  ls_task_queue s = task_queue_new.
Proof.
  exact (listen_acks_resolved demo_mq_config demo_command [[Ok demo_mq_message]] (demo_listen 4)
    demo_listen_steps).
Defined.

(** one service reads a queue as ordered, a second one lists it as unordered *)
Definition first_config : MessageQueueConfig := MqAmqp "first" "amqp://rabbit" ["orders"] ["events"] 32.
Definition second_config : MessageQueueConfig := MqAmqp "second" "amqp://rabbit" [] ["orders"] 32.
Definition first_started : list (string * string * bool) :=
  (start_services (ConfigMessageQueue first_config) None "PostgreSQL" []).1.

Lemma ordered_queue_single_reader_witness :
  let x := ConsumerAmqp "amqp://rabbit" "first" "orders" (Some (mkBasicConsumeOptions true)) in
  let y := ConsumerAmqp "amqp://rabbit" "second" "orders" (Some (mkBasicConsumeOptions false)) in
  exists n' e, start_services (ConfigMessageQueue second_config) None "PostgreSQL" first_started = (n', Err (Failed e)).
Proof.
  intros x y.
  assert (consumed_queue broker_of x = Some ("amqp://rabbit", "orders")) as Hx by reflexivity.
  assert (consumed_queue broker_of y = Some ("amqp://rabbit", "orders")) as Hy by reflexivity.
  apply (proj1 (ordered_queue_single_reader first_config second_config None None "PostgreSQL" "PostgreSQL" []
    first_started first_started
    (ReportDisabled, StartedListening (created <$> queue_configs first_config) 32) x y ("amqp://rabbit", "orders")
    (list_elem_of_here _ _) Hx Hy)); [vm_eq|done|apply list_elem_of_here].
Defined.
