(* ===== verification/CommandIntake.v ===== *)
(** The command service on Kafka topics: [MessageQueueInput::listen] over one
    consumer per topic ([KafkaIntake]), whose streams [select_all] interleaves.
    The theorems are what the handler of CommandService, the consumers' queues
    of offsets and the bounded tasks promise together. *)
From stdpp Require Import prelude gmap strings list relations.
From S2P Require Import Prelude Json Externals Instances RegistryTypes Messaging AckQueue KafkaIntake.
From S2P Require Import MessageTypes TaskLimiter CommandConfig CommandService CommandOutputs CommandMain.

(** ** The consumers *)

(** a leaked consumer, its topic, and what its stream has handed out *)
Record Source : Type := mkSource {
  so_topic : string;
  so_consumer : KafkaConsumer;
  so_delivered : list CommMessage;
}.
Definition source_new (topic : string) : Source := mkSource topic kafka_consumer_new [].

Definition source_fetch (m : CommMessage) (src : Source) : Source :=
  mkSource (so_topic src) (consumer_fetch (so_topic src) m (so_consumer src)) (so_delivered src ++ [m]).

(** [ack] of a message of the [k]-th consumer, which the message keeps an [Arc] of *)
Definition source_ack (k : nat) (m : CommMessage) : M (list Source) MessagingError () := fun sources =>
  match sources !! k with
  | Some src =>
      let '(c, r) := consumer_ack (so_topic src) m (so_consumer src) in
      (<[k := mkSource (so_topic src) c (so_delivered src)]> sources, r)
  | None => (sources, Err (RuntimeError "no consumer"))
  end.

Definition source_acked (k : nat) (sources : list Source) : list CommMessage :=
  default [] (kc_acked ∘ so_consumer <$> sources !! k).

Definition source_acker (k : nat) : Acker (list Source) := {| ack_message := source_ack k |}.
Definition source_acker_laws (k : nat) : @AckerLaws (list Source) (source_acker k).
Proof.
  refine (@Build_AckerLaws _ (source_acker k) (source_acked k) _). intros m sources. unfold wp, source_acked. cbn [ack_message source_acker].
  unfold source_ack. destruct (sources !! k) as [src|] eqn:Hk; simpl; [|by rewrite Hk].
  pose proof (@ack_message_law _ _ (kafka_acker_laws (so_topic src)) m (so_consumer src)) as Ha.
  unfold wp in Ha. cbn in Ha.
  destruct (consumer_ack _ m (so_consumer src)) as [c [[]|e]]; simpl;
    rewrite list_lookup_insert_eq by (by eapply lookup_lt_Some); exact Ha.
Defined.

(** ** The running service *)

Section intake.
Context {P B : Type} `{OutputPlugin P, BrokerLaws B, UuidLib, JsonText, StdText, MessageText, CommandText}.
Abbreviation St := (Command P B (list Source)) (only parsing).

(** a message that was fetched and waits for a permit; the tasks, each with the
    consumer of its message; the messages whose tasks have panicked *)
Record CommandIntake : Type := mkCommandIntake {
  ci_command : St;
  ci_pending : option (nat * CommMessage);
  ci_tasks : TaskLimiter (nat * ListenTask);
  ci_lost : list (nat * CommMessage);
  ci_resolved : list (CommMessage * BorrowedInsertMessage * Resolution);
  ci_aborted : bool;
}.
Implicit Types (w : CommandIntake) (c : St) (m : CommMessage).

Definition command_intake_new (config : MessageQueueConfig) (plugin : P) (reports : ReportSender)
    (broker : B) (topics : list string) : CommandIntake :=
  mkCommandIntake (mkCommand plugin reports broker (source_new <$> topics)) None
    (task_limiter_new (task_limit config)) [] [] false.

Definition task_entry (t : nat * ListenTask) : nat * CommMessage := (t.1, lt_message t.2).
Definition entry_task (x : nat * CommMessage) : nat * ListenTask := (x.1, listen_task x.2).

(** one stage of a task, acknowledging with the consumer [k] *)
Definition source_stage (k : nat) : CommMessage -> Stage -> M St (Fault InputError) (option Stage) :=
  let _ := source_acker k in run_stage (P := P) (B := B) (K := list Source).

Inductive command_intake_step w : CommandIntake -> Prop :=
| cis_fetch k src key payload partition offset :
    ci_aborted w = false -> ci_pending w = None -> cm_consumer (ci_command w) !! k = Some src ->
    next_offset (so_delivered src) partition offset ->
    let m := KafkaCommunicationMessage key payload partition offset in
    command_intake_step w (mkCommandIntake
      (put_command_consumer (<[k := source_fetch m src]> (cm_consumer (ci_command w))) (ci_command w))
      (Some (k, m)) (ci_tasks w) (ci_lost w) (ci_resolved w) false)
| cis_fetch_error :
    ci_aborted w = false -> ci_pending w = None ->
    command_intake_step w (mkCommandIntake (ci_command w) None (ci_tasks w) (ci_lost w) (ci_resolved w) true)
| cis_spawn x l :
    ci_aborted w = false -> ci_pending w = Some x -> limiter_run (entry_task x) (ci_tasks w) = Some l ->
    command_intake_step w (mkCommandIntake (ci_command w) None l (ci_lost w) (ci_resolved w) false)
| cis_stage i k t c next :
    ci_aborted w = false -> running (ci_tasks w) !! i = Some (k, t) ->
    source_stage k (lt_message t) (lt_stage t) (ci_command w) = (c, Ok (Some next)) ->
    command_intake_step w (mkCommandIntake c (ci_pending w)
      (mkTaskLimiter (permits (ci_tasks w)) (<[i := (k, at_stage t next)]> (running (ci_tasks w))))
      (ci_lost w) (ci_resolved w ++ resolution_of (lt_message t) (lt_stage t) next) false)
| cis_done i k t c l :
    ci_aborted w = false -> limiter_end i (ci_tasks w) = Some ((k, t), l) ->
    source_stage k (lt_message t) (lt_stage t) (ci_command w) = (c, Ok None) ->
    command_intake_step w (mkCommandIntake c (ci_pending w) l (ci_lost w) (ci_resolved w) false)
| cis_panic i k t c l :
    ci_aborted w = false -> limiter_end i (ci_tasks w) = Some ((k, t), l) ->
    source_stage k (lt_message t) (lt_stage t) (ci_command w) = (c, Err Panicked) ->
    command_intake_step w (mkCommandIntake c (ci_pending w) l (ci_lost w ++ [(k, lt_message t)])
      (ci_resolved w) false)
| cis_abort i k t c e :
    ci_aborted w = false -> running (ci_tasks w) !! i = Some (k, t) ->
    source_stage k (lt_message t) (lt_stage t) (ci_command w) = (c, Err (Failed e)) ->
    command_intake_step w (mkCommandIntake c (ci_pending w) (ci_tasks w) (ci_lost w) (ci_resolved w) true).

(** ** Invariant *)

(** what was handed out and is not acknowledged *)
Definition in_flight w : list (nat * CommMessage) :=
  (task_entry <$> running (ci_tasks w)) ++ ci_lost w ++ option_list (ci_pending w).
Definition messages_of (k : nat) (l : list (nat * CommMessage)) : list CommMessage :=
  snd <$> filter (fun x => x.1 = k) l.

Lemma messages_of_app k l l' : messages_of k (l ++ l') = messages_of k l ++ messages_of k l'.
Proof. unfold messages_of. by rewrite filter_app, fmap_app. Qed.
Lemma messages_of_same k m : messages_of k [(k, m)] = [m].
Proof. unfold messages_of. by rewrite filter_cons_True. Qed.
Lemma messages_of_other k k' m : k' <> k -> messages_of k [(k', m)] = [].
Proof. intros Hk. unfold messages_of. by rewrite filter_cons_False. Qed.
#[local] Instance messages_of_perm k : Proper ((≡ₚ) ==> (≡ₚ)) (messages_of k).
Proof. intros l l' Hl. unfold messages_of. by rewrite Hl. Qed.
Lemma messages_of_elem k m l : (k, m) ∈ l -> m ∈ messages_of k l.
Proof. intros Hm. apply (list_elem_of_fmap_2 snd _ (k, m)). by apply list_elem_of_filter. Qed.

Definition sources_ok (flight : list (nat * CommMessage)) (sources : list Source) : Prop :=
  forall k src, sources !! k = Some src ->
    consumer_inv (so_delivered src) (messages_of k flight) (so_consumer src).

Record command_intake_inv (c0 : St) (limit : nat) w : Prop := {
  cn_limit : permits (ci_tasks w) + length (running (ci_tasks w)) = limit;
  cn_command : command_inv c0 (ci_resolved w) (ci_command w) (snd <$> running (ci_tasks w));
  cn_sources : sources_ok (in_flight w) (cm_consumer (ci_command w));
  cn_acked k src m : cm_consumer (ci_command w) !! k = Some src -> m ∈ kc_acked (so_consumer src) ->
    exists st, reported (ci_resolved w) (ci_command w) m st;
}.

(** *** The consumers *)

Lemma sources_ok_perm flight flight' sources :
  sources_ok flight sources -> flight ≡ₚ flight' -> sources_ok flight' sources.
Proof. intros Hok Hf k src Hk. rewrite <- Hf. by apply Hok. Qed.

Lemma sources_ok_fetch flight sources k src m :
  sources_ok flight sources -> sources !! k = Some src ->
  next_offset (so_delivered src) (position m).1 (position m).2 ->
  sources_ok (flight ++ [(k, m)]) (<[k := source_fetch m src]> sources).
Proof.
  intros Hok Hk Hnew k' src'. rewrite messages_of_app. destruct (decide (k = k')) as [<-|Hne].
  - rewrite list_lookup_insert_eq by (by eapply lookup_lt_Some). intros [= <-].
    rewrite messages_of_same. apply consumer_fetch_inv; [|done]. by apply Hok.
  - rewrite list_lookup_insert_ne by done. intros Hk'. rewrite messages_of_other, app_nil_r by done.
    by apply Hok.
Qed.

Lemma sources_ok_ack flight flight' sources sources' k m :
  sources_ok flight' sources -> flight' ≡ₚ (k, m) :: flight ->
  source_ack k m sources = (sources', Ok ()) ->
  sources_ok flight sources' /\
  forall k' src' m', sources' !! k' = Some src' -> m' ∈ kc_acked (so_consumer src') ->
    m' = m \/ exists src, sources !! k' = Some src /\ m' ∈ kc_acked (so_consumer src).
Proof.
  intros Hok Hf Hack. unfold source_ack in Hack. destruct (sources !! k) as [src|] eqn:Hk; [|done].
  pose proof (Hok k src Hk) as Hinv. rewrite Hf in Hinv.
  change ((k, m) :: flight) with ([(k, m)] ++ flight) in *. rewrite messages_of_app, messages_of_same in Hinv.
  destruct (consumer_ack_inv (so_topic src) _ _ _ _ Hinv) as (c & Hc & Hacked & Hinv').
  rewrite Hc in Hack. injection Hack as <-. apply lookup_lt_Some in Hk as Hlt. split.
  - intros k' src'. destruct (decide (k = k')) as [<-|Hne].
    + rewrite list_lookup_insert_eq by done. intros [= <-]. exact Hinv'.
    + rewrite list_lookup_insert_ne by done. intros Hk'%Hok. rewrite Hf in Hk'.
      by rewrite messages_of_app, messages_of_other in Hk'.
  - intros k' src' m'. destruct (decide (k = k')) as [<-|Hne].
    + rewrite list_lookup_insert_eq by done. intros [= <-]. simpl. rewrite Hacked.
      intros [Hm'| ->%list_elem_of_singleton]%elem_of_app; [right; by exists src|by left].
    + rewrite list_lookup_insert_ne by done. eauto.
Qed.

(** *** One stage *)

Section stage.
Context (k : nat).
#[local] Instance acker_here : Acker (list Source) := source_acker k.
#[local] Instance acker_laws_here : AckerLaws (list Source) := source_acker_laws k.

Lemma source_inv_stage c0 log c c' tasks i t next :
  command_inv c0 log c tasks -> tasks !! i = Some t ->
  source_stage k (lt_message t) (lt_stage t) c = (c', Ok (Some next)) ->
  let log' := log ++ resolution_of (lt_message t) (lt_stage t) next in
  command_inv c0 log' c' (<[i := at_stage t next]> tasks) /\
  grows log c log' c' /\ cm_consumer c' = cm_consumer c.
Proof. apply command_inv_stage. Qed.

Lemma source_inv_done c0 log c c' tasks t :
  command_inv c0 log c tasks -> t ∈ tasks ->
  source_stage k (lt_message t) (lt_stage t) c = (c', Ok None) ->
  command_inv c0 log c' tasks /\ grows log c log c' /\ exists st, reported log c' (lt_message t) st.
Proof.
  intros Hc Hin Hrun. destruct (command_inv_done _ _ _ _ _ _ Hc Hin Hrun) as (? & ? & _ & ?). done.
Qed.

Lemma source_inv_failed c0 log c c' tasks t e :
  command_inv c0 log c tasks -> t ∈ tasks ->
  source_stage k (lt_message t) (lt_stage t) c = (c', Err e) ->
  command_inv c0 log c' tasks /\ grows log c log c'.
Proof.
  intros Hc Hin Hrun. destruct (command_inv_failed _ _ _ _ _ _ _ Hc Hin Hrun) as (? & ? & _). done.
Qed.
End stage.

(** the last stage is the acknowledgement *)
Lemma source_stage_done k m stage c c' :
  source_stage k m stage c = (c', Ok None) ->
  source_ack k m (cm_consumer c) = (cm_consumer c', Ok ()).
Proof.
  unfold source_stage, run_stage, mbind, M_bind, reads, lift, with_err. destruct stage as [|reporter st|st].
  - destruct (mq_build_message m) as [msg|e]; simpl; [|done].
    destruct (with_message_body _ msg) as [reporter|]; simpl; [|done].
    by destruct (run_plugin msg c) as [? [?|?]].
  - by destruct (run_report _ _ c) as [? [?|?]].
  - unfold mq_ack. cbn [ack_message source_acker].
    destruct (source_ack k m (cm_consumer c)) as [ss [[]|e]]; simpl; [|done]. by intros [= <-].
Qed.

(** the other stages, and a failed acknowledgement, leave the consumers alone *)
Lemma source_ack_failed k m sources sources' e :
  source_ack k m sources = (sources', Err e) -> sources' = sources.
Proof.
  unfold source_ack. destruct (sources !! k) as [src|] eqn:Hk; [|by intros [= <-]].
  unfold consumer_ack. destruct (ack_queue_ack _ _ _) as [[q cc] [[]|e']]; [done|].
  intros [= <- _]. apply list_insert_id. by destruct src.
Qed.

Lemma source_stage_failed k m stage c c' e :
  source_stage k m stage c = (c', Err e) -> cm_consumer c' = cm_consumer c.
Proof.
  unfold source_stage, run_stage, mbind, M_bind, reads, lift, with_err. destruct stage as [|reporter st|st].
  - destruct (mq_build_message m) as [msg|e']; simpl; [|by intros [= <-]].
    destruct (with_message_body _ msg) as [reporter|]; simpl; [|by intros [= <-]].
    unfold run_plugin. by destruct (plugin_handle_message msg _).
  - unfold run_report. destruct (report _ _ _) as [b [?|?]]; simpl; [done|]. by intros [= <-].
  - unfold mq_ack. cbn [ack_message source_acker].
    destruct (source_ack k m (cm_consumer c)) as [ss [[]|e']] eqn:Hack; simpl; [done|].
    intros [= <- _]. by eapply source_ack_failed.
Qed.

Lemma fmap_snd_sub {A C} (l l' : list (A * C)) : l ⊆ l' -> snd <$> l ⊆ snd <$> l'.
Proof. intros Hl x (y & -> & Hy%Hl)%list_elem_of_fmap. by apply list_elem_of_fmap_2. Qed.

(** *** The steps *)

Lemma running_in_flight w i k t :
  running (ci_tasks w) !! i = Some (k, t) ->
  in_flight w ≡ₚ (k, lt_message t) ::
    (task_entry <$> delete i (running (ci_tasks w))) ++ ci_lost w ++ option_list (ci_pending w).
Proof.
  intros Hi%delete_Permutation%(fmap_Permutation task_entry). unfold in_flight.
  change (?x :: ?l ++ ?r) with ((x :: l) ++ r). by apply Permutation_app_tail.
Qed.

Lemma stage_in_flight (l : list (nat * ListenTask)) i k t next :
  l !! i = Some (k, t) -> task_entry <$> <[i := (k, at_stage t next)]> l = task_entry <$> l.
Proof.
  intros Hi. rewrite list_fmap_insert. apply list_insert_id. by rewrite list_lookup_fmap, Hi.
Qed.

Lemma acked_grows c0 limit w log' c' :
  command_intake_inv c0 limit w -> grows (ci_resolved w) (ci_command w) log' c' ->
  cm_consumer c' = cm_consumer (ci_command w) ->
  forall k src m, cm_consumer c' !! k = Some src -> m ∈ kc_acked (so_consumer src) ->
    exists st, reported log' c' m st.
Proof.
  intros [_ _ _ Hacked] Hg -> k src m Hk Hm. destruct (Hacked k src m Hk Hm) as [st Hst].
  exists st. by eapply reported_grows.
Qed.

Lemma command_intake_new_inv config plugin reports broker topics :
  command_intake_inv (mkCommand plugin reports broker (source_new <$> topics)) (task_limit config)
    (command_intake_new config plugin reports broker topics).
Proof.
  split; simpl; [lia|apply command_inv_new| |].
  - intros k src (topic & -> & _)%list_lookup_fmap_Some. apply consumer_new_inv.
  - intros k src m (topic & -> & _)%list_lookup_fmap_Some. by intros ?%not_elem_of_nil.
Qed.

Lemma command_intake_fetch_inv c0 limit w k src m :
  command_intake_inv c0 limit w -> ci_pending w = None ->
  cm_consumer (ci_command w) !! k = Some src ->
  next_offset (so_delivered src) (position m).1 (position m).2 ->
  command_intake_inv c0 limit (mkCommandIntake
    (put_command_consumer (<[k := source_fetch m src]> (cm_consumer (ci_command w))) (ci_command w))
    (Some (k, m)) (ci_tasks w) (ci_lost w) (ci_resolved w) false).
Proof.
  intros [Hl [Hr Hb Hp Ht] Hs Hacked] Hpend Hk Hnew. split; simpl; [done|by split| |].
  - eapply sources_ok_perm; [by apply sources_ok_fetch|]. unfold in_flight. rewrite Hpend. simpl.
    by rewrite app_nil_r, <- app_assoc.
  - intros k' src' m'. destruct (decide (k = k')) as [<-|Hne].
    + rewrite list_lookup_insert_eq by (by eapply lookup_lt_Some). intros [= <-]. by apply (Hacked k src).
    + rewrite list_lookup_insert_ne by done. apply Hacked.
Qed.

(** a task that ends, by returning or by a panic *)
Lemma command_intake_done_inv c0 limit w i k t c l :
  command_intake_inv c0 limit w -> limiter_end i (ci_tasks w) = Some ((k, t), l) ->
  source_stage k (lt_message t) (lt_stage t) (ci_command w) = (c, Ok None) ->
  command_intake_inv c0 limit (mkCommandIntake c (ci_pending w) l (ci_lost w) (ci_resolved w) false).
Proof.
  intros Hinv Hend Hrun. destruct (limiter_end_sub _ _ _ _ Hend) as [Hin Hsub].
  pose proof (limiter_end_running _ _ _ _ Hend) as [Hi Hdel]. destruct Hinv as [Hl Hc Hs Hacked].
  destruct (source_inv_done k c0 (ci_resolved w) (ci_command w) c _ t Hc) as (Hc' & Hg & Hrep); [by apply (list_elem_of_fmap_2 snd _ (k, t))|done|].
  apply source_stage_done in Hrun as Hack.
  destruct (sources_ok_ack _ _ _ _ _ _ Hs (running_in_flight _ _ _ _ Hi) Hack) as [Hs' Hacked'].
  split; simpl.
  - by rewrite (limiter_end_permits _ _ _ _ Hend).
  - eapply command_inv_sub; [exact Hc'|]. by apply fmap_snd_sub.
  - unfold in_flight. simpl. by rewrite Hdel.
  - intros k' src' m' Hk' [-> |(src & Hk & Hm)]%(Hacked' k' src' m' Hk'); [done|].
    destruct (Hacked k' src m' Hk Hm) as [st Hst]. exists st. by eapply reported_grows.
Qed.

Lemma command_intake_failed_inv c0 limit w i k t c e pending l lost aborted :
  command_intake_inv c0 limit w -> running (ci_tasks w) !! i = Some (k, t) ->
  source_stage k (lt_message t) (lt_stage t) (ci_command w) = (c, Err e) ->
  permits l + length (running l) = limit -> running l ⊆ running (ci_tasks w) ->
  in_flight w ≡ₚ in_flight (mkCommandIntake c pending l lost (ci_resolved w) aborted) ->
  command_intake_inv c0 limit (mkCommandIntake c pending l lost (ci_resolved w) aborted).
Proof.
  intros Hinv Hi Hrun Hl Hsub Hf. pose proof Hinv as [_ Hc Hs _].
  destruct (source_inv_failed k c0 (ci_resolved w) (ci_command w) c _ t e Hc) as [Hc' Hg];
    [by eapply (list_elem_of_fmap_2 snd _ (k, t)), list_elem_of_lookup_2|done|].
  apply source_stage_failed in Hrun. split; simpl; [done| | |by eapply acked_grows].
  - eapply command_inv_sub; [exact Hc'|]. by apply fmap_snd_sub.
  - rewrite Hrun. by eapply sources_ok_perm.
Qed.

Lemma command_intake_step_inv c0 limit w w' :
  command_intake_inv c0 limit w -> command_intake_step w w' -> command_intake_inv c0 limit w'.
Proof.
  intros Hinv Hstep. pose proof Hinv as [Hl Hc Hs Hacked].
  destruct Hstep as [k src key payload p o Hab Hpend Hk Hnew m|Hab Hpend|x l Hab Hpend Hrun|
    i k t c next Hab Hi Hrun|i k t c l Hab Hend Hrun|i k t c l Hab Hend Hrun|i k t c e Hab Hi Hrun].
  - by apply command_intake_fetch_inv.
  - split; simpl; [done..| |done]. eapply sources_ok_perm; [exact Hs|].
    unfold in_flight. by rewrite Hpend.
  - split; simpl; [by rewrite (limiter_run_permits _ _ _ Hrun)| | |done];
      unfold limiter_run in Hrun; (destruct (permits (ci_tasks w)); [done|]); injection Hrun as <-; simpl.
    + rewrite fmap_app. by apply command_inv_spawn.
    + eapply sources_ok_perm; [exact Hs|]. unfold in_flight. rewrite Hpend. simpl.
      rewrite fmap_app, app_nil_r, <- app_assoc. apply Permutation_app_head. simpl.
      destruct x. apply Permutation_app_comm.
  - destruct (source_inv_stage k c0 _ _ c _ i t next Hc) as (Hc' & Hg & Hk);
      [by rewrite list_lookup_fmap, Hi|done|].
    split; simpl; [by rewrite length_insert|by rewrite list_fmap_insert| |by eapply acked_grows].
    rewrite Hk. eapply sources_ok_perm; [exact Hs|]. unfold in_flight. simpl.
    by rewrite (stage_in_flight _ _ _ _ _ Hi).
  - by eapply command_intake_done_inv.
  - destruct (limiter_end_sub _ _ _ _ Hend) as [_ Hsub]. pose proof (limiter_end_running _ _ _ _ Hend) as [Hi Hdel].
    eapply command_intake_failed_inv; [done..|by rewrite (limiter_end_permits _ _ _ _ Hend)|done|].
    rewrite (running_in_flight _ _ _ _ Hi). unfold in_flight. simpl. rewrite Hdel, <- app_assoc. simpl.
    by rewrite app_assoc, Permutation_middle, <- app_assoc.
  - by eapply command_intake_failed_inv.
Qed.

Lemma command_intake_steps_inv c0 limit w w' :
  command_intake_inv c0 limit w -> rtc command_intake_step w w' -> command_intake_inv c0 limit w'.
Proof. intros Hinv Hsteps. induction Hsteps; eauto using command_intake_step_inv. Qed.

(** *** What a run of the service promises *)

Section run.
Context (config : MessageQueueConfig) (plugin : P) (reports : ReportSender) (broker : B) (topics : list string).
#[local] Abbreviation start := (command_intake_new config plugin reports broker topics).

Lemma run_inv w :
  rtc command_intake_step start w ->
  command_intake_inv (mkCommand plugin reports broker (source_new <$> topics)) (task_limit config) w.
Proof. intros Hrun. eapply command_intake_steps_inv; [apply command_intake_new_inv|exact Hrun]. Qed.

(** At-least-once delivery to the plugin.  However the streams of the topics
    and the stages of the tasks interleave, also after an abort: a message up to
    the offset that is stored for its partition, from which a restarted service
    reads on, has been resolved by the plugin, and the answer published if
    reports are on.  The plugin has seen exactly the logged messages, and at most
    [task_limit] tasks run. *)
Theorem stored_messages_resolved w k src p o stored m :
  rtc command_intake_step start w -> cm_consumer (ci_command w) !! k = Some src ->
  kc_stored (so_consumer src) !! p = Some stored -> m ∈ so_delivered src -> position m = (p, o) ->
  (o <= stored)%Z ->
  (exists msg status l, (m, msg, status) ∈ ci_resolved w /\ mq_build_message m = Ok msg /\
     reports_of msg status reports l /\ forall x, x ∈ l -> x ∈ sent (cm_broker (ci_command w))) /\
  plugin_run plugin ((fun x => x.1.2) <$> ci_resolved w) =
    (cm_plugin (ci_command w), snd <$> ci_resolved w) /\
  length (running (ci_tasks w)) <= task_limit config.
Proof.
  intros [Hlim [Hr Hb Hp _] Hs Hacked]%run_inv Hk Hst Hm Hpos Hle.
  destruct (Hacked k src m Hk) as (status & msg & l & Hin & Hl & Hsent).
  { eapply consumer_stored_acked; eauto. }
  simpl in Hr. rewrite Hr in Hl. split_and!; [|done|lia]. exists msg, status, l. eauto.
Qed.

(** A poison message.  With reports on, a message that parses but whose data
    has no [serde_json] value (its depth or a number is beyond the limits of
    [Value]) makes its task panic, which the process survives: the stored offset
    of the partition stays below the message for ever, so a restarted service
    reads it, and every later message, again. *)
Theorem poison_message_holds_offset w k src p o m msg base :
  rtc command_intake_step start w -> cm_consumer (ci_command w) !! k = Some src ->
  m ∈ so_delivered src -> position m = (p, o) -> reports = ReportFull base ->
  mq_build_message m = Ok msg -> borrowed_to_owned msg = None ->
  (forall stored, kc_stored (so_consumer src) !! p = Some stored -> (stored < o)%Z) /\
  (forall t, (k, t) ∈ running (ci_tasks w) -> lt_message t = m ->
     source_stage k m (lt_stage t) (ci_command w) = (ci_command w, Err Panicked)).
Proof.
  intros Hrun%run_inv Hk Hm Hpos Hrep Hbuild Hnone. pose proof Hrun as [_ [Hr Hb _ Ht] Hs Hacked].
  simpl in Hr. rewrite Hrep in Hr.
  assert (forall status, ~ reported (ci_resolved w) (ci_command w) m status) as Hno.
  { intros status (msg' & l & Hin & Hl & _). apply Hb in Hin. rewrite Hr in Hl.
    inversion Hl; congruence. }
  split.
  - intros stored Hst. destruct (Z.lt_ge_cases stored o) as [|Hle]; [done|].
    destruct (Hacked k src m Hk) as [status Hstatus%Hno]; [|done].
    eapply consumer_stored_acked; eauto.
  - intros t Hin <-. specialize (Ht t (list_elem_of_fmap_2 snd _ (k, t) Hin)). unfold task_ok in Ht.
    destruct (lt_stage t) as [|reporter status|status].
    + unfold source_stage, run_stage, mbind, M_bind, lift, reads. rewrite Hbuild. simpl.
      by rewrite Hr; simpl; rewrite Hnone.
    + destruct Ht as (msg' & Hin' & Hw). apply Hb in Hin'. assert (msg' = msg) as -> by congruence.
      rewrite Hr in Hw. simpl in Hw. by rewrite Hnone in Hw.
    + by destruct (Hno status).
Qed.

(** and conversely: a partition with nothing in flight is stored to its end *)
Theorem drained_partition_stored w k src m :
  rtc command_intake_step start w -> cm_consumer (ci_command w) !! k = Some src -> m ∈ so_delivered src ->
  (forall m', (k, m') ∈ in_flight w -> (position m').1 <> (position m).1) ->
  exists stored, kc_stored (so_consumer src) !! (position m).1 = Some stored /\ ((position m).2 <= stored)%Z.
Proof.
  intros [_ _ Hs _]%run_inv Hk Hm Hflight. destruct (consumer_caught_up _ _ _ m (Hs k src Hk) Hm) as (st & Hst & Hle).
  - intros m' ([k' x] & -> & [Hx Hin]%list_elem_of_filter)%list_elem_of_fmap. simpl in *. subst. by apply Hflight.
  - exists st. split; [done|]. by apply Hle.
Qed.
End run.

(** ** Schedules *)

(** what happens next: a stream yields a message, the fetched message gets its
    permit, a task runs to its next suspension *)
Inductive Choice : Type :=
| ChooseFetch (k : nat) (key payload : option string) (partition offset : Z)
| ChooseSpawn
| ChooseTask (i : nat).

Definition take_choice (choice : Choice) w : option CommandIntake :=
  if ci_aborted w then None else
  match choice with
  | ChooseFetch k key payload partition offset =>
      src ← cm_consumer (ci_command w) !! k;
      if bool_decide (ci_pending w = None) && bool_decide (next_offset (so_delivered src) partition offset) then
        let m := KafkaCommunicationMessage key payload partition offset in
        Some (mkCommandIntake
          (put_command_consumer (<[k := source_fetch m src]> (cm_consumer (ci_command w))) (ci_command w))
          (Some (k, m)) (ci_tasks w) (ci_lost w) (ci_resolved w) false)
      else None
  | ChooseSpawn =>
      x ← ci_pending w; l ← limiter_run (entry_task x) (ci_tasks w);
      Some (mkCommandIntake (ci_command w) None l (ci_lost w) (ci_resolved w) false)
  | ChooseTask i =>
      '(k, t, l) ← limiter_end i (ci_tasks w);
      let '(c, r) := source_stage k (lt_message t) (lt_stage t) (ci_command w) in
      Some match r with
      | Ok (Some next) => mkCommandIntake c (ci_pending w)
          (mkTaskLimiter (permits (ci_tasks w)) (<[i := (k, at_stage t next)]> (running (ci_tasks w))))
          (ci_lost w) (ci_resolved w ++ resolution_of (lt_message t) (lt_stage t) next) false
      | Ok None => mkCommandIntake c (ci_pending w) l (ci_lost w) (ci_resolved w) false
      | Err Panicked => mkCommandIntake c (ci_pending w) l (ci_lost w ++ [(k, lt_message t)]) (ci_resolved w) false
      | Err (Failed _) => mkCommandIntake c (ci_pending w) (ci_tasks w) (ci_lost w) (ci_resolved w) true
      end
  end.

Definition run_schedule (l : list Choice) w : option CommandIntake :=
  foldl (fun o choice => w ← o; take_choice choice w) (Some w) l.

Lemma take_choice_step choice w w' : take_choice choice w = Some w' -> command_intake_step w w'.
Proof.
  unfold take_choice. destruct (ci_aborted w) eqn:Hab; [done|].
  destruct choice as [k key payload p o| |i]; simpl.
  - destruct (cm_consumer (ci_command w) !! k) as [src|] eqn:Hk; simpl; [|done].
    case_bool_decide as Hpend; simpl; [|done]. case_bool_decide as Hnew; [|done]. intros [= <-].
    by apply cis_fetch.
  - destruct (ci_pending w) as [x|] eqn:Hpend; simpl; [|done].
    destruct (limiter_run _ _) as [l|] eqn:Hl; simpl; [|done]. intros [= <-]. by eapply cis_spawn.
  - destruct (limiter_end i (ci_tasks w)) as [[[k t] l]|] eqn:Hend; simpl; [|done].
    pose proof (limiter_end_running _ _ _ _ Hend) as [Hi _].
    destruct (source_stage k _ _ _) as [c [[next|]|[e|]]] eqn:Hrun; intros [= <-].
    + by eapply cis_stage.
    + by eapply cis_done.
    + by eapply cis_abort.
    + by eapply cis_panic.
Qed.

Lemma run_schedule_cons choice l w :
  run_schedule (choice :: l) w = w1 ← take_choice choice w; run_schedule l w1.
Proof.
  unfold run_schedule. simpl. destruct (take_choice choice w) as [w1|]; simpl; [done|]. by induction l.
Qed.

Lemma run_schedule_steps l w w' : run_schedule l w = Some w' -> rtc command_intake_step w w'.
Proof.
  revert w. induction l as [|choice l IH]; intros w; [by intros [= ->]|]. rewrite run_schedule_cons.
  destruct (take_choice choice w) as [w1|] eqn:Hc; simpl; [|done]. intros Hl%IH.
  eapply rtc_l; [by eapply take_choice_step|done].
Qed.
End intake.
Arguments CommandIntake : clear implicits.

(** ** Two messages, the second of which is poison *)

Definition intake_config : MessageQueueConfig := MqKafka "broker" "group" ["orders"] ["events"] 2.
Abbreviation MemoryCommandIntake :=
  (CommandIntake (PostgresOutputPlugin (list (string * DataRow))) MemoryBroker) (only parsing).
Definition intake_start : MemoryCommandIntake :=
  command_intake_new intake_config (mkPostgresOutputPlugin [] "public") demo_reports
    (mkMemoryBroker ["reports"] []) ["orders"; "events"].
Definition good_message : CommMessage := KafkaCommunicationMessage (Some "k") (Some "{}") 0 3.
Definition poison_message : CommMessage := KafkaCommunicationMessage (Some "k") (Some "1e999") 0 4.

(** the poison message panics while the first one is under way *)
Definition poison_schedule : list Choice :=
  [ChooseFetch 1 (Some "k") (Some "{}") 0 3; ChooseSpawn; ChooseTask 0;
   ChooseFetch 1 (Some "k") (Some "1e999") 0 4; ChooseSpawn; ChooseTask 1; ChooseTask 0; ChooseTask 0].
Definition poisoned : MemoryCommandIntake := Eval vm_compute in
  default intake_start (run_schedule poison_schedule intake_start).
Definition poisoned_source : Source := Eval vm_compute in
  default (source_new "events") (cm_consumer (ci_command poisoned) !! 1).

Lemma poisoned_steps : rtc command_intake_step intake_start poisoned.
Proof. apply (run_schedule_steps poison_schedule). vm_eq. Qed.

Lemma stored_messages_resolved_witness :
  (exists msg status l, (good_message, msg, status) ∈ ci_resolved poisoned /\
     mq_build_message good_message = Ok msg /\ reports_of msg status demo_reports l /\
     forall x, x ∈ l -> x ∈ sent (cm_broker (ci_command poisoned))) /\
  plugin_run (mkPostgresOutputPlugin [] "public") ((fun x => x.1.2) <$> ci_resolved poisoned) =
    (cm_plugin (ci_command poisoned), snd <$> ci_resolved poisoned) /\
  length (running (ci_tasks poisoned)) <= task_limit intake_config.
Proof.
  apply (stored_messages_resolved intake_config (mkPostgresOutputPlugin [] "public") demo_reports
    (mkMemoryBroker ["reports"] []) ["orders"; "events"] poisoned 1 poisoned_source 0 3 3 good_message);
    [apply poisoned_steps|vm_eq|vm_eq|apply elem_of_cons; by left|done|lia].
Defined.

Lemma poison_message_holds_offset_witness :
  (forall stored, kc_stored (so_consumer poisoned_source) !! 0%Z = Some stored -> (stored < 4)%Z) /\
  (forall t, (1, t) ∈ running (ci_tasks poisoned) -> lt_message t = poison_message ->
     source_stage 1 poison_message (lt_stage t) (ci_command poisoned) = (ci_command poisoned, Err Panicked)).
Proof.
  apply (poison_message_holds_offset intake_config (mkPostgresOutputPlugin [] "public") demo_reports
    (mkMemoryBroker ["reports"] []) ["orders"; "events"] poisoned 1 poisoned_source 0 4 poison_message
    (mkBorrowedInsertMessage 1 7 0 "1e999") (mkFullReportSenderBase PublisherKafka "reports" "PostgreSQL"));
    [apply poisoned_steps|vm_eq|apply elem_of_cons; right; apply elem_of_cons; by left|done|done|vm_eq|vm_eq].
Defined.
