(* ===== verification/CommandLive.v ===== *)
(** Progress of the command service over Kafka topics ([CommandIntake]): left to
    its permits and tasks, whatever their order, it comes to rest, and at rest
    the offsets of its partitions have caught up. *)
From stdpp Require Import prelude gmap strings list numbers relations.
From S2P Require Import Prelude Json Externals Instances RegistryTypes Messaging AckQueue KafkaIntake.
From S2P Require Import MessageTypes TaskLimiter CommandConfig CommandService CommandOutputs CommandMain CommandIntake.

Section live.
Context {P B : Type} `{OutputPlugin P, BrokerLaws B, UuidLib, JsonText, StdText, MessageText, CommandText}.
Implicit Types (w : CommandIntake P B) (m : CommMessage) (k : nat).

(** ** The steps the service takes by itself *)

Definition is_fetch (choice : Choice) : bool :=
  match choice with ChooseFetch _ _ _ _ _ => true | _ => false end.
Definition work_step w w' : Prop := exists choice, is_fetch choice = false /\ take_choice choice w = Some w'.

Lemma work_step_step w w' : work_step w w' -> command_intake_step w w'.
Proof. intros (choice & _ & Hc). by eapply take_choice_step. Qed.
Lemma work_steps_steps n w w' : nsteps work_step n w w' -> rtc command_intake_step w w'.
Proof. induction 1 as [|n w1 w2 w3 Hs _ IH]; [done|]. eapply rtc_l; [by apply work_step_step|done]. Qed.

Lemma run_schedule_work l w w' :
  forallb (negb ∘ is_fetch) l = true -> run_schedule l w = Some w' -> nsteps work_step (length l) w w'.
Proof.
  revert w. induction l as [|choice l IH]; intros w; [intros _ [= ->]; constructor|].
  simpl. intros [Hf Hl]%andb_true_iff. rewrite run_schedule_cons.
  destruct (take_choice choice w) as [w1|] eqn:Hc; simpl; [|done]. intros Hrun.
  eapply nsteps_l; [exists choice; by apply negb_true_iff in Hf|by apply IH].
Qed.

(** how many stages a message has left, and a fetched one also its permit *)
Definition stage_work (stage : Stage) : nat :=
  match stage with StageStart => 3 | StageResolved _ _ => 2 | StageReported _ => 1 end.
Definition tasks_work (l : list (nat * ListenTask)) : nat :=
  sum_list_with (fun t => stage_work (lt_stage t.2)) l.
Definition work_left w : nat :=
  if ci_aborted w then 0 else
  tasks_work (running (ci_tasks w)) + match ci_pending w with Some _ => 4 | None => 0 end.

Lemma run_stage_less k m stage c c' next :
  source_stage (P := P) (B := B) k m stage c = (c', Ok (Some next)) -> stage_work next < stage_work stage.
Proof.
  unfold source_stage, run_stage, mbind, M_bind, reads, lift, with_err. destruct stage as [|reporter st|st].
  - destruct (mq_build_message m) as [msg|e]; simpl; [|done].
    destruct (with_message_body _ msg) as [reporter|]; simpl; [|done].
    destruct (run_plugin msg c) as [? [?|?]]; simpl; [|done]. intros [= _ <-]. simpl. lia.
  - destruct (run_report _ _ c) as [? [?|?]]; simpl; [|done]. intros [= _ <-]. simpl. lia.
  - by destruct (mq_ack m c) as [? [?|?]].
Qed.

Lemma tasks_work_insert l i t u :
  l !! i = Some t -> stage_work (lt_stage u.2) < stage_work (lt_stage t.2) ->
  tasks_work (<[i := u]> l) < tasks_work l.
Proof.
  intros Hi Hu. unfold tasks_work. pose proof (take_drop_middle l i t Hi) as Hl.
  rewrite (insert_take_drop l i u) by (by eapply lookup_lt_Some). rewrite <- Hl at 3.
  rewrite !sum_list_with_app. simpl. lia.
Qed.

Lemma tasks_work_delete l i t : l !! i = Some t -> tasks_work (delete i l) < tasks_work l.
Proof.
  intros Hi. unfold tasks_work. rewrite delete_take_drop. pose proof (take_drop_middle l i t Hi) as Hl.
  rewrite <- Hl at 3. rewrite !sum_list_with_app. simpl. destruct (lt_stage t.2); simpl; lia.
Qed.

(** every step is one stage or one permit less *)
Lemma work_step_less w w' : work_step w w' -> work_left w' < work_left w.
Proof.
  intros (choice & Hf & Hc). unfold take_choice in Hc. destruct (ci_aborted w) eqn:Hab; [done|].
  unfold work_left at 2. rewrite Hab. destruct choice as [| |i]; [done| |].
  - destruct (ci_pending w) as [[k m]|]; simpl in Hc; [|done]. unfold limiter_run in Hc.
    destruct (permits (ci_tasks w)) as [|n]; simpl in Hc; [done|]. injection Hc as <-. unfold work_left. simpl.
    unfold tasks_work. rewrite sum_list_with_app. simpl. lia.
  - destruct (limiter_end i (ci_tasks w)) as [[[k t] l]|] eqn:Hend; simpl in Hc; [|done].
    destruct (limiter_end_running _ _ _ _ Hend) as [Hi Hdel]. pose proof (tasks_work_delete _ _ _ Hi) as Hless.
    destruct (source_stage k _ _ _) as [c [[next|]|[e|]]] eqn:Hrun; injection Hc as <-; unfold work_left; simpl;
      rewrite ?Hdel; [|lia..].
    enough (tasks_work (<[i:=(k, at_stage t next)]> (running (ci_tasks w))) < tasks_work (running (ci_tasks w))) by lia.
    apply (tasks_work_insert _ _ _ _ Hi). simpl. by eapply run_stage_less.
Qed.

Lemma work_steps_less n w w' : nsteps work_step n w w' -> n + work_left w' <= work_left w.
Proof. induction 1 as [|n w1 w2 w3 Hs%work_step_less _ IH]; lia. Qed.

Lemma tasks_work_bound l : tasks_work l <= 3 * length l.
Proof.
  unfold tasks_work. induction l as [|[k t] l IH]; simpl; [lia|]. destruct (lt_stage t); simpl; lia.
Qed.

(** a service that is not at rest can go on *)
Definition at_rest w : Prop := ci_pending w = None /\ running (ci_tasks w) = [].

Lemma work_step_exists limit w :
  permits (ci_tasks w) + length (running (ci_tasks w)) = limit -> 0 < limit -> ci_aborted w = false ->
  ~ at_rest w -> exists w', work_step w w'.
Proof.
  intros Hlim Hpos Hab Hrest. destruct (running (ci_tasks w)) as [|t l] eqn:Hrun.
  - destruct (ci_pending w) as [x|] eqn:Hp; [|by destruct Hrest].
    destruct (permits (ci_tasks w)) as [|n] eqn:Hn; [simpl in Hlim; lia|].
    eexists. exists ChooseSpawn. split; [done|]. unfold take_choice. rewrite Hab, Hp. simpl.
    unfold limiter_run. by rewrite Hn.
  - assert (exists w', take_choice (ChooseTask 0) w = Some w') as [w' Hw].
    { unfold take_choice. rewrite Hab. unfold limiter_end. rewrite Hrun. simpl. destruct t as [k t].
      destruct (source_stage k _ _ _) as [c r]. by eexists. }
    exists w', (ChooseTask 0). done.
Qed.

(** ** What it comes to *)

Section run.
Context (config : MessageQueueConfig) (plugin : P) (reports : ReportSender) (broker : B) (topics : list string).
#[local] Abbreviation start := (command_intake_new config plugin reports broker topics).

(** C26: the service comes to rest.  From any state it can be in, and in whatever
    order its permits and tasks take turns, it can take at most four steps for
    the message it has fetched and three for each task before it has aborted or
    has nothing in progress; and then every message that was handed out, on a
    partition where no task has panicked, is at or below the stored offset. *)
Theorem intake_drains w n w' :
  0 < task_limit config -> rtc command_intake_step start w -> nsteps work_step n w w' ->
  n <= 4 + 3 * task_limit config /\
  ((exists w'', work_step w' w'') \/ ci_aborted w' = true \/ at_rest w' /\
     forall k src m, cm_consumer (ci_command w') !! k = Some src -> m ∈ so_delivered src ->
       (forall m', (k, m') ∈ ci_lost w' -> (position m').1 <> (position m).1) ->
       exists stored, kc_stored (so_consumer src) !! (position m).1 = Some stored /\ ((position m).2 <= stored)%Z).
Proof.
  intros Hpos Hw Hn. pose proof (run_inv config plugin reports broker topics w Hw) as [Hlim _ _ _].
  assert (rtc command_intake_step start w') as Hw' by (etrans; [exact Hw|by eapply work_steps_steps]).
  pose proof (run_inv config plugin reports broker topics w' Hw') as [Hlim' _ _ _]. split.
  - apply work_steps_less in Hn. unfold work_left at 2 in Hn. destruct (ci_aborted w); [lia|].
    pose proof (tasks_work_bound (running (ci_tasks w))). destruct (ci_pending w); lia.
  - destruct (ci_aborted w') eqn:Hab; [by right; left|].
    destruct (decide (ci_pending w' = None)) as [Hp|Hp]; [destruct (decide (running (ci_tasks w') = [])) as [Hrun|Hrun]|].
    2,3: left; eapply work_step_exists; [exact Hlim'|done..|by intros [? ?]].
    right. right. split; [done|]. intros k src m Hk Hm Hlost.
    eapply drained_partition_stored; [exact Hw'|exact Hk|done|]. intros m' Hin. apply Hlost.
    unfold in_flight in Hin. by rewrite Hrun, Hp, app_nil_r in Hin.
Qed.
End run.
End live.

(** ** A fetched message, to the end *)

Definition live_fetched : MemoryCommandIntake := Eval vm_compute in
  default intake_start (run_schedule [ChooseFetch 1 (Some "k") (Some "{}") 0 3] intake_start).
Definition live_choices : list Choice := [ChooseSpawn; ChooseTask 0; ChooseTask 0; ChooseTask 0].
Definition live_done : MemoryCommandIntake := Eval vm_compute in
  default intake_start (run_schedule live_choices live_fetched).

Lemma intake_drains_witness :
  4 <= 4 + 3 * task_limit intake_config /\
  ((exists w'', work_step live_done w'') \/ ci_aborted live_done = true \/ at_rest live_done /\
     forall k src m, cm_consumer (ci_command live_done) !! k = Some src -> m ∈ so_delivered src ->
       (forall m', (k, m') ∈ ci_lost live_done -> (position m').1 <> (position m).1) ->
       exists stored, kc_stored (so_consumer src) !! (position m).1 = Some stored /\ ((position m).2 <= stored)%Z).
Proof.
  apply (intake_drains intake_config (mkPostgresOutputPlugin [] "public") demo_reports
    (mkMemoryBroker ["reports"] []) ["orders"; "events"] live_fetched 4 live_done).
  - apply Nat.ltb_lt. vm_eq.
  - apply (run_schedule_steps [ChooseFetch 1 (Some "k") (Some "{}") 0 3]). vm_eq.
  - apply (run_schedule_work live_choices); vm_eq.
Defined.
