(* ===== verification/CommandRestart.v ===== *)
(** The command service over its crashes: what producers have written stays in
    Kafka, the offsets that were committed say where the next process begins,
    and the process itself ([CommandIntake]) can end at any moment, by an abort
    or from outside.  The database and the broker outlive it. *)
From stdpp Require Import prelude gmap strings list relations.
From S2P Require Import Prelude Json Externals Instances RegistryTypes Messaging AckQueue KafkaIntake.
From S2P Require Import MessageTypes TaskLimiter CommandConfig CommandService CommandOutputs CommandMain CommandIntake.

Section restart.
Context {P B : Type} `{OutputPlugin P, BrokerLaws B, UuidLib, JsonText, StdText, MessageText, CommandText}.
#[local] Abbreviation Answer := (CommMessage * BorrowedInsertMessage * Resolution)%type (only parsing).

(** ** The service and its topics *)

(** what was written to the topics, each message with the number of its topic;
    the committed offset of each partition, and the one at which the running
    process began; what earlier processes have answered *)
Record Cluster : Type := mkCluster {
  cl_log : list (nat * CommMessage);
  cl_committed : gmap (nat * Z) Z;
  cl_begin : gmap (nat * Z) Z;
  cl_past : list Answer;
  cl_service : CommandIntake P B;
}.
Implicit Types (c : Cluster) (m : CommMessage) (k : nat) (p o : Z).

Definition put_service (w : CommandIntake P B) c : Cluster :=
  mkCluster (cl_log c) (cl_committed c) (cl_begin c) (cl_past c) w.

(** what the stream of a topic has handed out, and where it began
    ([auto.offset.reset] is [earliest]) *)
Definition handed_out c k : list CommMessage :=
  default [] (so_delivered <$> cm_consumer (ci_command (cl_service c)) !! k).
Definition begins_at c k p : Z := default 0%Z (cl_begin c !! (k, p)).

(** the messages of a partition from [begins_at] up to, not including, an offset *)
Definition before c k p o : list (nat * CommMessage) :=
  filter (fun x => x.1 = k /\ (position x.2).1 = p /\ (begins_at c k p <= (position x.2).2 < o)%Z) (cl_log c).

(** Kafka hands out the messages of a partition one after the other *)
Definition next_read c k m : Prop :=
  (k, m) ∈ cl_log c /\ (begins_at c k (position m).1 <= (position m).2)%Z /\
  Forall (fun x => x.2 ∈ handed_out c k) (before c k (position m).1 (position m).2).
#[export] Instance next_read_dec c k m : Decision (next_read c k m).
Proof. unfold next_read. apply _. Defined.

(** what happens next: a message is written to a topic; the service takes a
    step; its stream fails; a stored offset is committed; the process ends and
    another one is started *)
Inductive ClusterChoice : Type :=
| Produce (k : nat) (key payload : option string) (partition offset : Z)
| Serve (choice : Choice)
| StreamFails
| Commit (k : nat) (partition : Z)
| Restart.

(** the group reads on from the committed offsets as they are *)
Definition restarted (config : MessageQueueConfig) (reports : ReportSender) (topics : list string) c : Cluster :=
  let w := cl_service c in
  mkCluster (cl_log c) (cl_committed c) (cl_committed c) (cl_past c ++ ci_resolved w)
    (command_intake_new config (cm_plugin (ci_command w)) reports (cm_broker (ci_command w)) topics).

Definition may_serve c (choice : Choice) : bool :=
  match choice with
  | ChooseFetch k key payload partition offset =>
      bool_decide (next_read c k (KafkaCommunicationMessage key payload partition offset))
  | _ => true
  end.

Section steps.
Context (config : MessageQueueConfig) (plugin : P) (reports : ReportSender) (broker : B) (topics : list string).

Definition take_cluster (choice : ClusterChoice) c : option Cluster :=
  let w := cl_service c in
  match choice with
  | Produce k key payload partition offset =>
      if bool_decide (next_offset (messages_of k (cl_log c)) partition offset) then
        Some (mkCluster (cl_log c ++ [(k, KafkaCommunicationMessage key payload partition offset)])
          (cl_committed c) (cl_begin c) (cl_past c) w)
      else None
  | Serve choice => if may_serve c choice then w' ← take_choice choice w; Some (put_service w' c) else None
  | StreamFails =>
      if negb (ci_aborted w) && bool_decide (ci_pending w = None) then
        Some (put_service (mkCommandIntake (ci_command w) None (ci_tasks w) (ci_lost w) (ci_resolved w) true) c)
      else None
  | Commit k partition =>
      src ← cm_consumer (ci_command w) !! k; stored ← kc_stored (so_consumer src) !! partition;
      if bool_decide (0 <= partition < 2 ^ 31)%Z then
        Some (mkCluster (cl_log c) (<[(k, partition) := stored]> (cl_committed c)) (cl_begin c) (cl_past c) w)
      else None
  | Restart => Some (restarted config reports topics c)
  end.

Definition cluster_new : Cluster :=
  mkCluster [] ∅ ∅ [] (command_intake_new config plugin reports broker topics).
Fixpoint run_cluster (l : list ClusterChoice) c : option Cluster :=
  match l with [] => Some c | choice :: l => c' ← take_cluster choice c; run_cluster l c' end.

(** all answers of the plugin, of this process and of the earlier ones *)
Definition answered c : list Answer := cl_past c ++ ci_resolved (cl_service c).

(** ** Invariant *)

(** answered, and the answer published *)
Definition settled c m : Prop := exists status, reported (answered c) (ci_command (cl_service c)) m status.

(** what lies below a table of offsets is settled, and the table is not ahead of the log *)
Record below_settled (offsets : gmap (nat * Z) Z) c : Prop := {
  bs_settled k m n : (k, m) ∈ cl_log c -> offsets !! (k, (position m).1) = Some n ->
    ((position m).2 <= n)%Z -> settled c m;
  bs_bound k p n : offsets !! (k, p) = Some n ->
    exists m, (k, m) ∈ cl_log c /\ (position m).1 = p /\ (n <= (position m).2)%Z;
}.

(** the running process, as one that was started where the past has ended *)
Record process_inv c : Prop := {
  pi_service : exists pl b, plugin_run plugin ((fun x => x.1.2) <$> cl_past c) = (pl, snd <$> cl_past c) /\
    command_intake_inv (mkCommand pl reports b (source_new <$> topics)) (task_limit config) (cl_service c);
  pi_past x : x ∈ cl_past c -> mq_build_message x.1.1 = Ok x.1.2;
}.

(** a process has been handed out what the log holds from its beginning on,
    without a gap *)
Record reading_inv c : Prop := {
  ri_offsets k m m' : (k, m) ∈ cl_log c -> (k, m') ∈ cl_log c -> position m = position m' -> m = m';
  ri_range k m : (k, m) ∈ cl_log c -> (0 <= (position m).2)%Z;
  ri_read k m : m ∈ handed_out c k ->
    (k, m) ∈ cl_log c /\ (begins_at c k (position m).1 <= (position m).2)%Z;
  ri_no_gap k m m' : (k, m) ∈ cl_log c -> m' ∈ handed_out c k -> (position m).1 = (position m').1 ->
    (begins_at c k (position m).1 <= (position m).2 <= (position m').2)%Z -> m ∈ handed_out c k;
}.

Record cluster_inv c : Prop := {
  ci_process : process_inv c;
  ci_reading : reading_inv c;
  ci_begun : below_settled (cl_begin c) c;
  ci_committed : below_settled (cl_committed c) c;
}.

(** *** The process *)

Lemma process_reports c : process_inv c -> cm_reports (ci_command (cl_service c)) = reports.
Proof. intros [(p & b & _ & [_ [Hr _ _ _] _ _]) _]. exact Hr. Qed.

Lemma process_plugin c :
  process_inv c -> plugin_run plugin ((fun x => x.1.2) <$> answered c) =
    (cm_plugin (ci_command (cl_service c)), snd <$> answered c).
Proof.
  intros [(p & b & Hpast & [_ [_ _ Hp _] _ _]) _]. unfold answered. rewrite !fmap_app, plugin_run_app, Hpast.
  simpl in Hp. by rewrite Hp.
Qed.

Lemma process_build c x : process_inv c -> x ∈ answered c -> mq_build_message x.1.1 = Ok x.1.2.
Proof.
  intros [(p & b & _ & [_ [_ Hb _ _] _ _]) Hpast] [Hx|Hx]%elem_of_app; [by apply Hpast|].
  destruct x as [[m msg] st]. by eapply Hb.
Qed.

(** what a service has settled stays so *)
Lemma intake_step_grows s0 limit (w w' : CommandIntake P B) :
  command_intake_inv s0 limit w -> command_intake_step w w' ->
  grows (ci_resolved w) (ci_command w) (ci_resolved w') (ci_command w').
Proof.
  intros Hinv Hstep. pose proof Hinv as [_ Hc _ _].
  destruct Hstep as [k src key payload p o Hab Hpend Hk Hnew m|Hab Hpend|x l Hab Hpend Hrun|
    i k t s next Hab Hi Hrun|i k t s l Hab Hend Hrun|i k t s l Hab Hend Hrun|i k t s e Hab Hi Hrun]; try apply grows_refl.
  - by split_and!.
  - eapply (source_inv_stage k s0 _ _ s _ i t next Hc); [by rewrite list_lookup_fmap, Hi|done].
  - destruct (limiter_end_sub _ _ _ _ Hend) as [Hin _].
    eapply (source_inv_done k s0 _ _ s _ t Hc); [by apply (list_elem_of_fmap_2 snd _ (k, t))|done].
  - destruct (limiter_end_sub _ _ _ _ Hend) as [Hin _].
    eapply (source_inv_failed k s0 _ _ s _ t _ Hc); [by apply (list_elem_of_fmap_2 snd _ (k, t))|done].
  - eapply (source_inv_failed k s0 _ _ s _ t _ Hc);
      [by eapply (list_elem_of_fmap_2 snd _ (k, t)), list_elem_of_lookup_2|done].
Qed.

Lemma below_settled_grows offsets c c' :
  below_settled offsets c -> cl_log c' = cl_log c ->
  grows (answered c) (ci_command (cl_service c)) (answered c') (ci_command (cl_service c')) ->
  below_settled offsets c'.
Proof.
  intros [Hs Hb] Hlog Hg. split; rewrite Hlog; [|done]. intros k m n Hin Hn Hle.
  destruct (Hs k m n Hin Hn Hle) as [st Hst]. exists st. by eapply reported_grows.
Qed.

(** *** What is handed out *)

Definition delivered_by (sources : list Source) : list (list CommMessage) := so_delivered <$> sources.

Lemma handed_out_delivered c k : handed_out c k = default [] (delivered_by (cm_consumer (ci_command (cl_service c))) !! k).
Proof. unfold handed_out, delivered_by. by rewrite list_lookup_fmap. Qed.

Lemma source_ack_delivered k m sources sources' r :
  source_ack k m sources = (sources', r) -> delivered_by sources' = delivered_by sources.
Proof.
  unfold source_ack. destruct (sources !! k) as [src|] eqn:Hk; [|by intros [= <- _]].
  destruct (consumer_ack _ m _) as [s a]. intros [= <- _]. unfold delivered_by. rewrite list_fmap_insert. simpl.
  apply list_insert_id. by rewrite list_lookup_fmap, Hk.
Qed.

Lemma source_stage_delivered k m stage (s s' : Command P B (list Source)) r :
  source_stage k m stage s = (s', r) -> delivered_by (cm_consumer s') = delivered_by (cm_consumer s).
Proof.
  destruct r as [[next|]|e]; intros Hrun.
  - unfold source_stage, run_stage, mbind, M_bind, reads, lift, with_err in Hrun. destruct stage as [|reporter st|st].
    + destruct (mq_build_message m) as [msg|e]; simpl in Hrun; [|done].
      destruct (with_message_body _ msg) as [reporter|]; simpl in Hrun; [|done]. unfold run_plugin in Hrun.
      destruct (plugin_handle_message msg _) as [q st]; simpl in Hrun. by injection Hrun as <- _.
    + unfold run_report in Hrun. destruct (report _ _ _) as [b [?|?]]; simpl in Hrun; [|done]. by injection Hrun as <- _.
    + by destruct (mq_ack m s) as [? [?|?]].
  - by eapply source_ack_delivered, source_stage_done.
  - by rewrite (source_stage_failed _ _ _ _ _ _ Hrun).
Qed.

(** only a fetch hands out a message *)
Lemma take_choice_delivered choice (w w' : CommandIntake P B) :
  take_choice choice w = Some w' ->
  match choice with
  | ChooseFetch k key payload partition offset => exists l,
      delivered_by (cm_consumer (ci_command w)) !! k = Some l /\ next_offset l partition offset /\
      delivered_by (cm_consumer (ci_command w')) =
        <[k := l ++ [KafkaCommunicationMessage key payload partition offset]]> (delivered_by (cm_consumer (ci_command w)))
  | _ => delivered_by (cm_consumer (ci_command w')) = delivered_by (cm_consumer (ci_command w))
  end.
Proof.
  unfold take_choice. destruct (ci_aborted w); [done|]. destruct choice as [k key payload p o| |i]; simpl.
  - destruct (cm_consumer (ci_command w) !! k) as [src|] eqn:Hk; simpl; [|done].
    case_bool_decide; simpl; [|done]. case_bool_decide as Hn; [|done]. intros [= <-]. exists (so_delivered src).
    unfold delivered_by. rewrite list_lookup_fmap, Hk. simpl. by rewrite list_fmap_insert.
  - destruct (ci_pending w); simpl; [|done]. destruct (limiter_run _ _); simpl; [|done]. by intros [= <-].
  - destruct (limiter_end i (ci_tasks w)) as [[[k t] l]|]; simpl; [|done].
    destruct (source_stage k _ _ _) as [s r] eqn:Hrun. apply source_stage_delivered in Hrun.
    by destruct r as [[next|]|[e|]]; intros [= <-].
Qed.

Lemma reading_inv_same c c' :
  reading_inv c -> cl_log c' = cl_log c -> cl_begin c' = cl_begin c ->
  (forall k, handed_out c' k = handed_out c k) -> reading_inv c'.
Proof.
  intros [Ho Hr Hd Hg] Hl Hb Hh. split; unfold begins_at in *; try setoid_rewrite Hl;
    try setoid_rewrite Hh; try setoid_rewrite Hb; assumption.
Qed.

Lemma reading_inv_fetch c c' k m :
  reading_inv c -> next_read c k m -> cl_log c' = cl_log c -> cl_begin c' = cl_begin c ->
  handed_out c' k = handed_out c k ++ [m] -> (forall k', k' <> k -> handed_out c' k' = handed_out c k') ->
  reading_inv c'.
Proof.
  intros [Ho Hr Hd Hg] (Hin & Hle & Hbefore) Hl Hb Hk Hother.
  assert (forall k' x, x ∈ handed_out c' k' -> x ∈ handed_out c k' \/ k' = k /\ x = m) as Hout.
  { intros k' x. destruct (decide (k' = k)) as [->|Hne]; [|rewrite Hother by done; by left].
    rewrite Hk. intros [?| ->%list_elem_of_singleton]%elem_of_app; [by left|by right]. }
  assert (forall k' x, x ∈ handed_out c k' -> x ∈ handed_out c' k') as Hkeep.
  { intros k' x. destruct (decide (k' = k)) as [->|Hne]; [rewrite Hk, elem_of_app; by left|by rewrite Hother]. }
  assert (forall k' q, begins_at c' k' q = begins_at c k' q) as Hbeg by (intros; unfold begins_at; by rewrite Hb).
  split.
  - intros k'. rewrite Hl. apply Ho.
  - intros k'. rewrite Hl. apply Hr.
  - intros k' x Hx. rewrite Hl, Hbeg. by apply Hout in Hx as [Hx%Hd|[-> ->]].
  - intros k' x y. rewrite Hl, Hbeg. intros Hx [Hy|[-> ->]]%Hout Hp Hrange; [by eapply Hkeep, Hg|].
    destruct (decide ((position x).2 = (position m).2)) as [Heq|Hne].
    + rewrite (Ho k x m Hx Hin) by (rewrite (surjective_pairing (position x)), Hp, Heq; by destruct (position m)).
      rewrite Hk. apply elem_of_app. right. apply list_elem_of_here.
    + rewrite Forall_forall in Hbefore. apply Hkeep. apply (Hbefore (k, x)).
      apply list_elem_of_filter. simpl. split_and!; [done|done| |lia|done]. rewrite <- Hp. lia.
Qed.

(** *** The steps *)

Lemma served_inv c w' :
  cluster_inv c -> command_intake_step (cl_service c) w' -> reading_inv (put_service w' c) ->
  cluster_inv (put_service w' c).
Proof.
  intros [Hproc _ Hbeg Hcom] Hstep Hread. pose proof Hproc as [(pl & b & Hpast & Hinv) Hbuild].
  assert (grows (answered c) (ci_command (cl_service c)) (answered (put_service w' c)) (ci_command w')) as Hg.
  { destruct (intake_step_grows _ _ _ _ Hinv Hstep) as (Hr & Hlog & Hsent). split_and!; [done| |done].
    intros x. unfold answered. simpl. rewrite !elem_of_app. intros [?|?]; [by left|right; by apply Hlog]. }
  split; [|done|by eapply below_settled_grows..]. split; [|done]. exists pl, b. split; [done|].
  by eapply command_intake_step_inv.
Qed.

Lemma produce_inv c k m :
  cluster_inv c -> next_offset (messages_of k (cl_log c)) (position m).1 (position m).2 ->
  cluster_inv (mkCluster (cl_log c ++ [(k, m)]) (cl_committed c) (cl_begin c) (cl_past c) (cl_service c)).
Proof.
  intros [Hproc [Ho Hr Hd Hg] Hbeg Hcom] (Hp & Hoff & Hnew).
  assert (forall k' m', (k', m') ∈ cl_log c ++ [(k, m)] -> (k', m') ∈ cl_log c \/ k' = k /\ m' = m) as Hin.
  { intros k' m' [?|[= -> ->]%list_elem_of_singleton]%elem_of_app; [by left|by right]. }
  assert (forall x, (k, x) ∈ cl_log c -> (position x).1 = (position m).1 -> ((position x).2 < (position m).2)%Z) as Hlt.
  { intros x Hx. apply Hnew. by apply messages_of_elem. }
  assert (forall offsets, below_settled offsets c ->
    below_settled offsets (mkCluster (cl_log c ++ [(k, m)]) (cl_committed c) (cl_begin c) (cl_past c) (cl_service c))) as Hbs.
  { intros offsets [Hs Hb]. split; simpl.
    - intros k' m' n [Hm'|[-> ->]]%Hin Hn Hle; [by eapply Hs|].
      destruct (Hb _ _ _ Hn) as (x & Hx & Hpx & Hle'). specialize (Hlt x Hx Hpx). lia.
    - intros k' q n Hn. destruct (Hb _ _ _ Hn) as (x & Hx & Hpx). exists x. split; [apply elem_of_app; by left|done]. }
  split; [destruct Hproc as [Hservice Hbuild]; by split| |by apply Hbs..]. split; simpl.
  - intros k' x y [Hx|[-> ->]]%Hin [Hy|[? ->]]%Hin; subst; [by eapply Ho|..|done]; intros Hpos; exfalso;
      [specialize (Hlt x Hx)|specialize (Hlt y Hy)]; rewrite Hpos in Hlt; specialize (Hlt eq_refl); lia.
  - intros k' x [Hx|[-> ->]]%Hin; [by eapply Hr|apply Hoff].
  - intros k' x Hx. destruct (Hd k' x Hx). split; [apply elem_of_app; by left|done].
  - intros k' x y [Hx|[-> ->]]%Hin Hy Hpos Hrange; [by eapply Hg|].
    destruct (Hd _ _ Hy) as [Hlog _]. specialize (Hlt y Hlog (eq_sym Hpos)). lia.
Qed.

Lemma commit_inv c k p src stored :
  cluster_inv c -> cm_consumer (ci_command (cl_service c)) !! k = Some src ->
  kc_stored (so_consumer src) !! p = Some stored -> is_partition p ->
  cluster_inv (mkCluster (cl_log c) (<[(k, p) := stored]> (cl_committed c)) (cl_begin c) (cl_past c) (cl_service c)).
Proof.
  intros [Hproc Hread [Hbs Hbb] [Hcs Hcb]] Hk Hst Hp. pose proof Hread as [_ Hr Hd Hg].
  assert (handed_out c k = so_delivered src) as Hout by (unfold handed_out; by rewrite Hk).
  pose proof Hproc as [(pl & b & _ & [_ _ Hs Hacked]) _]. specialize (Hs k src Hk).
  destruct (consumer_stored_bound _ _ _ _ _ Hs Hp Hst) as (y & Hy & Hpy & Hley). rewrite <- Hout in Hy.
  split; [destruct Hproc as [Hservice Hbuild]; by split|by destruct Hread; split|by split|].
  split; simpl.
  - intros k' m n Hin [[[= <- ->] <-]|[_ Hn]]%lookup_insert_Some Hle; [|by eapply Hcs].
    destruct (Z.lt_ge_cases (position m).2 (begins_at c k (position m).1)) as [Hlt|Hge].
    + unfold begins_at in Hlt. destruct (cl_begin c !! _) as [n|] eqn:Hn; simpl in Hlt.
      * eapply Hbs; [done|exact Hn|lia].
      * specialize (Hr k m Hin). lia.
    + assert (m ∈ handed_out c k) as Hm by (eapply (Hg k m y); [done|done|congruence|lia]).
      rewrite Hout in Hm. assert (m ∈ kc_acked (so_consumer src)) as Ha.
      { eapply consumer_stored_acked; [exact Hs|exact Hst|done|by apply surjective_pairing|done]. }
      destruct (Hacked k src m Hk Ha) as [st Hrep]. exists st. eapply reported_grows; [|exact Hrep].
      split_and!; [done| |done]. intros x Hx. apply elem_of_app. by right.
  - intros k' q n [[[= <- <-] <-]|[_ Hn]]%lookup_insert_Some; [|by eapply Hcb].
    exists y. split; [by apply Hd|done].
Qed.

Lemma restarted_inv c : cluster_inv c -> cluster_inv (restarted config reports topics c).
Proof.
  intros [Hproc [Ho Hr Hd Hg] _ Hcom]. set (c' := restarted config reports topics c).
  assert (forall k, handed_out c' k = []) as Hout.
  { intros k. unfold handed_out, c', restarted. simpl. rewrite list_lookup_fmap. by destruct (topics !! k). }
  assert (below_settled (cl_committed c) c') as Hbs.
  { eapply below_settled_grows; [exact Hcom|done|]. unfold answered, c', restarted. simpl. rewrite app_nil_r.
    split_and!; [symmetry; by apply process_reports|done|done]. }
  split; [|split|done|done]; simpl.
  - split.
    + exists (cm_plugin (ci_command (cl_service c))), (cm_broker (ci_command (cl_service c))).
      split; [by apply process_plugin|apply command_intake_new_inv].
    + intros x. by apply process_build.
  - done.
  - done.
  - intros k m. rewrite Hout. by intros ?%not_elem_of_nil.
  - intros k m m'. rewrite Hout. by intros _ ?%not_elem_of_nil.
Qed.

Lemma take_cluster_inv choice c c' : cluster_inv c -> take_cluster choice c = Some c' -> cluster_inv c'.
Proof.
  intros Hinv. destruct choice as [k key payload p o|choice| |k p|]; simpl.
  - case_bool_decide as Hnew; [|done]. intros [= <-]. by apply produce_inv.
  - destruct (may_serve c choice) eqn:Hmay; [|done].
    destruct (take_choice choice (cl_service c)) as [w'|] eqn:Hw; simpl; [|done]. intros [= <-].
    apply served_inv; [done|by eapply take_choice_step|]. apply take_choice_delivered in Hw.
    destruct choice as [k key payload p o| |i]; simpl in Hmay.
    + destruct Hw as (l & Hl & _ & Hdel). apply bool_decide_eq_true in Hmay.
      eapply reading_inv_fetch; [by apply Hinv|exact Hmay|done|done|..].
      * rewrite !handed_out_delivered. simpl. rewrite Hdel, Hl. by rewrite list_lookup_insert_eq by (by eapply lookup_lt_Some).
      * intros k' Hne. rewrite !handed_out_delivered. simpl. by rewrite Hdel, list_lookup_insert_ne.
    + eapply reading_inv_same; [by apply Hinv|done..|]. intros k. by rewrite !handed_out_delivered; simpl; rewrite Hw.
    + eapply reading_inv_same; [by apply Hinv|done..|]. intros k. by rewrite !handed_out_delivered; simpl; rewrite Hw.
  - destruct (ci_aborted (cl_service c)) eqn:Hab; simpl; [done|]. case_bool_decide as Hp; [|done]. intros [= <-].
    apply served_inv; [done|by apply cis_fetch_error|]. by eapply reading_inv_same; [apply Hinv|..].
  - destruct (cm_consumer _ !! k) as [src|] eqn:Hk; simpl; [|done].
    destruct (kc_stored _ !! p) as [stored|] eqn:Hst; simpl; [|done]. case_bool_decide as Hp; [|done].
    intros [= <-]. by eapply commit_inv.
  - intros [= <-]. by apply restarted_inv.
Qed.

Lemma cluster_new_inv : cluster_inv cluster_new.
Proof.
  assert (forall k, handed_out cluster_new k = []) as Hout.
  { intros k. unfold handed_out. simpl. rewrite list_lookup_fmap. by destruct (topics !! k). }
  assert (below_settled ∅ cluster_new) as Hbs by (by split; intros; simpl in *; rewrite ?lookup_empty in *).
  split; [|split|done|done]; simpl.
  - split; [|by intros x ?%not_elem_of_nil]. exists plugin, broker. split; [done|apply command_intake_new_inv].
  - by intros k m m' ?%not_elem_of_nil.
  - by intros k m ?%not_elem_of_nil.
  - intros k m. rewrite Hout. by intros ?%not_elem_of_nil.
  - by intros k m m' ?%not_elem_of_nil.
Qed.

Lemma run_cluster_inv l c c' : cluster_inv c -> run_cluster l c = Some c' -> cluster_inv c'.
Proof.
  revert c. induction l as [|choice l IH]; intros c Hc; simpl; [by intros [= <-]|].
  destruct (take_cluster choice c) as [c1|] eqn:Hstep; simpl; [|done]. apply IH. by eapply take_cluster_inv.
Qed.

(** ** What survives a crash *)

Lemma settled_answered c m : cluster_inv c -> settled c m ->
  exists msg status l, (m, msg, status) ∈ answered c /\ mq_build_message m = Ok msg /\
    reports_of msg status reports l /\ forall x, x ∈ l -> x ∈ sent (cm_broker (ci_command (cl_service c))).
Proof.
  intros [Hproc _ _ _] (status & msg & l & Hin & Hl & Hsent). exists msg, status, l.
  rewrite (process_reports c Hproc) in Hl. split_and!; [done| |done..]. by apply (process_build c _ Hproc Hin).
Qed.

(** C24: crashes lose nothing.  Whatever is written to the topics, in whatever
    order the stages of the tasks take turns, whenever stored offsets are
    committed and whenever the process ends and is started again: a message at
    or below the committed offset of its partition has been answered by the
    plugin, in this process or an earlier one, and the answer published; the
    plugin has seen exactly the answered messages; and the next process begins
    with the first message from the committed offset on, so none is skipped, and
    the one at the committed offset itself, answered already, comes again.  (A
    call of the plugin is one step: a process that ends after a row was stored
    and before the plugin's answer is one that ends right after this step.) *)
Theorem restarts_lose_nothing l c :
  run_cluster l cluster_new = Some c ->
  (forall k m n, (k, m) ∈ cl_log c -> cl_committed c !! (k, (position m).1) = Some n -> ((position m).2 <= n)%Z ->
     exists msg status l', (m, msg, status) ∈ answered c /\ mq_build_message m = Ok msg /\
       reports_of msg status reports l' /\ forall x, x ∈ l' -> x ∈ sent (cm_broker (ci_command (cl_service c)))) /\
  plugin_run plugin ((fun x => x.1.2) <$> answered c) =
    (cm_plugin (ci_command (cl_service c)), snd <$> answered c) /\
  (forall k m n, (k, m) ∈ cl_log c -> cl_committed c !! (k, (position m).1) = Some n -> (n <= (position m).2)%Z ->
     (forall m', (k, m') ∈ cl_log c -> (position m').1 = (position m).1 -> (n <= (position m').2)%Z ->
        ((position m).2 <= (position m').2)%Z) ->
     next_read (restarted config reports topics c) k m).
Proof.
  intros Hinv%run_cluster_inv; [|apply cluster_new_inv]. pose proof Hinv as [Hproc _ _ [Hs _]]. split_and!.
  - intros k m n Hin Hn Hle. apply settled_answered; [done|]. by eapply Hs.
  - by apply process_plugin.
  - intros k m n Hin Hn Hle Hfirst. unfold next_read, begins_at. simpl. rewrite Hn. simpl.
    split_and!; [done|done|]. apply Forall_forall. intros [k' m'] Hm'%list_elem_of_filter. simpl in *.
    destruct Hm' as ((-> & Hp & Hrange) & Hlog). unfold begins_at in Hrange. simpl in Hrange. rewrite Hn in Hrange.
    simpl in Hrange. specialize (Hfirst m' Hlog Hp). lia.
Qed.

(** C25: a message that cannot be read stops the service for good.  It aborts
    every process that handles it, and since it is not acknowledged before, the
    committed offset of its partition stays below it through all restarts, so
    every process gets it again. *)
Theorem unreadable_message_blocks l c k m e :
  run_cluster l cluster_new = Some c -> (k, m) ∈ cl_log c -> mq_build_message m = Err e ->
  (forall n, cl_committed c !! (k, (position m).1) = Some n -> (n < (position m).2)%Z) /\
  forall i t, ci_aborted (cl_service c) = false -> running (ci_tasks (cl_service c)) !! i = Some (k, t) ->
    lt_message t = m -> exists c', take_cluster (Serve (ChooseTask i)) c = Some c' /\ ci_aborted (cl_service c') = true.
Proof.
  intros Hinv%run_cluster_inv Hin Hbuild; [|apply cluster_new_inv].
  assert (forall st, ~ settled c m /\ ~ reported (ci_resolved (cl_service c)) (ci_command (cl_service c)) m st) as Hno.
  { intros st. assert (~ settled c m) as Hn.
    { intros (msg & _ & _ & _ & Hb & _)%settled_answered; [|done]. congruence. }
    split; [done|]. intros Hr. apply Hn. exists st. eapply reported_grows; [|exact Hr].
    split_and!; [done| |done]. intros x Hx. apply elem_of_app. by right. }
  pose proof Hinv as [Hproc _ _ [Hs _]]. split.
  - intros n Hn. destruct (Z.lt_ge_cases n (position m).2) as [|Hle]; [done|].
    destruct (proj1 (Hno Success)). by eapply Hs.
  - intros i t Hab Hi Ht. destruct Hproc as [(pl & b & _ & [_ [_ Hb _ Htasks] _ _]) _].
    specialize (Htasks t (list_elem_of_fmap_2 snd _ (k, t) (list_elem_of_lookup_2 _ _ _ Hi))). unfold task_ok in Htasks.
    destruct (lt_stage t) as [|reporter st|st] eqn:Hst.
    + simpl. unfold take_choice. rewrite Hab. unfold limiter_end. rewrite Hi. simpl. rewrite Hst, Ht.
      unfold source_stage, run_stage, mbind, M_bind, lift. rewrite Hbuild. simpl. by eexists.
    + destruct Htasks as (msg & Hm & _). apply Hb in Hm. rewrite Ht in Hm. congruence.
    + rewrite Ht in Htasks. by destruct (proj2 (Hno st)).
Qed.
End steps.
End restart.
Arguments Cluster : clear implicits.

(** ** A crash after a commit, and a message without a payload *)

Abbreviation MemoryCluster :=
  (Cluster (PostgresOutputPlugin (list (string * DataRow))) MemoryBroker) (only parsing).
Definition crash_new : MemoryCluster :=
  cluster_new intake_config (mkPostgresOutputPlugin [] "public") demo_reports (mkMemoryBroker ["reports"] [])
    ["orders"; "events"].
Definition crash_run : list ClusterChoice -> MemoryCluster -> option MemoryCluster :=
  run_cluster intake_config demo_reports ["orders"; "events"].
Definition crash_choices : list ClusterChoice :=
  [Produce 1 (Some "k") (Some "{}") 0 3; Produce 1 (Some "k") None 0 5;
   Serve (ChooseFetch 1 (Some "k") (Some "{}") 0 3); Serve ChooseSpawn; Serve (ChooseTask 0); Serve (ChooseTask 0);
   Serve (ChooseTask 0); Commit 1 0; Restart; Serve (ChooseFetch 1 (Some "k") (Some "{}") 0 3); Serve ChooseSpawn;
   Serve (ChooseFetch 1 (Some "k") None 0 5); Serve ChooseSpawn].
Definition crashed : MemoryCluster := Eval vm_compute in default crash_new (crash_run crash_choices crash_new).
Definition empty_message : CommMessage := KafkaCommunicationMessage (Some "k") None 0 5.
Definition crashed_task : ListenTask := Eval vm_compute in
  default (listen_task empty_message) (snd <$> running (ci_tasks (cl_service crashed)) !! 1).

Lemma restarts_lose_nothing_witness :
  (exists msg status l', (good_message, msg, status) ∈ answered crashed /\ mq_build_message good_message = Ok msg /\
     reports_of msg status demo_reports l' /\
     forall x, x ∈ l' -> x ∈ sent (cm_broker (ci_command (cl_service crashed)))) /\
  next_read (restarted intake_config demo_reports ["orders"; "events"] crashed) 1 good_message.
Proof.
  destruct (restarts_lose_nothing intake_config (mkPostgresOutputPlugin [] "public") demo_reports
    (mkMemoryBroker ["reports"] []) ["orders"; "events"] crash_choices crashed) as (Hsettled & _ & Hnext); [vm_eq|].
  split.
  - apply (Hsettled 1 good_message 3%Z); [apply list_elem_of_here|vm_eq|done].
  - apply (Hnext 1 good_message 3%Z); [apply list_elem_of_here|vm_eq|done|].
    intros m' Hm' _ _. apply elem_of_cons in Hm' as [[= ->]|[= ->]%list_elem_of_singleton]; by vm_compute.
Defined.

Lemma unreadable_message_blocks_witness :
  (forall n, cl_committed crashed !! (1, 0%Z) = Some n -> (n < 5)%Z) /\
  exists c', take_cluster intake_config demo_reports ["orders"; "events"] (Serve (ChooseTask 1)) crashed = Some c' /\
    ci_aborted (cl_service c') = true.
Proof.
  destruct (unreadable_message_blocks intake_config (mkPostgresOutputPlugin [] "public") demo_reports
    (mkMemoryBroker ["reports"] []) ["orders"; "events"] crash_choices crashed 1 empty_message
    (MissingPayload (CommunicationError "Message has no payload"))) as [Hn Hab]; [vm_eq| |vm_eq|].
  - apply elem_of_cons. right. apply list_elem_of_here.
  - split; [exact Hn|]. by apply (Hab 1 crashed_task).
Defined.
