(* ===== verification/Shrinker.v ===== *)
(** The PostgreSQL shrinker, [crates/db-shrinker-postgres/src/main.rs]: all rows
    of an object are merged into the row of its latest version.  The database
    client is a class whose laws say what PostgreSQL documents of the statements
    the program sends. *)
From stdpp Require Import prelude gmap strings list fin_maps sorting.
From S2P Require Import Prelude StringSplit Json Externals Instances CommandOutputs.

(** ** Merging documents *)

(** [merge]: the members of [b] are merged into those of [a], a missing one
    counting as [null]; anything else is replaced.  The members of [b] have
    distinct names, so the order of the loop does not matter (see
    [merge_ascending]). *)
Fixpoint merge (a b : Value) {struct b} : Value :=
  match b with
  | Object mb =>
      match a with
      | Object ma =>
          Object (map_fold (fun k v acc => <[k := merge (default Null (acc !! k)) v]> acc) ma mb)
      | _ => b
      end
  | _ => b
  end.

(** [minimize_document]: [fold_first] over the payloads of the rows *)
Definition minimize_document (payloads : list Value) : option Value := fold_first merge payloads.

(** what one member of a merged object is *)
Definition merged_member (a b : option Value) : option Value :=
  match b with Some v => Some (merge (default Null a) v) | None => a end.

Section merge.
Implicit Types (a b : gmap string Value).

Lemma merge_fold_lookup a b k :
  map_fold (fun k v acc => <[k := merge (default Null (acc !! k)) v]> acc) a b !! k =
    merged_member (a !! k) (b !! k).
Proof.
  apply (map_fold_weak_ind (fun r m => forall k, r !! k = merged_member (a !! k) (m !! k))
    (fun k v acc => <[k := merge (default Null (acc !! k)) v]> acc)).
  - intros j. by rewrite lookup_empty.
  - intros j v m r Hj IH k'. destruct (decide (j = k')) as [<-|Hne].
    + rewrite !lookup_insert_eq. rewrite IH, Hj. done.
    + rewrite !lookup_insert_ne by done. apply IH.
Qed.

(** merging two objects is member by member *)
Lemma merge_objects a b :
  exists c, merge (Object a) (Object b) = Object c /\
    forall k, c !! k = merged_member (a !! k) (b !! k).
Proof. eexists. split; [done|]. intros k. apply merge_fold_lookup. Qed.

Lemma merge_replaces (x y : Value) : is_object x = false \/ is_object y = false -> merge x y = y.
Proof. destruct x, y; simpl; naive_solver. Qed.

(** the loop of the source, in ascending order of the members *)
Lemma merge_loop_lookup l a k :
  NoDup l.*1 ->
  foldl (fun acc kv => <[kv.1 := merge (default Null (acc !! kv.1)) kv.2]> acc) a l !! k =
    merged_member (a !! k) ((list_to_map l : gmap string Value) !! k).
Proof.
  revert a. induction l as [|[j v] l IH]; intros a Hnd; simpl; [by rewrite lookup_empty|].
  apply NoDup_cons in Hnd as [Hj Hnd]. rewrite IH by done.
  destruct (decide (j = k)) as [<-|Hne].
  - by rewrite !lookup_insert_eq, (not_elem_of_list_to_map_1 _ _ Hj).
  - by rewrite !lookup_insert_ne.
Qed.

Lemma merge_ascending a b :
  merge (Object a) (Object b) =
    Object (foldl (fun acc kv => <[kv.1 := merge (default Null (acc !! kv.1)) kv.2]> acc) a
      (object_iter b)).
Proof.
  simpl. f_equal. apply map_eq. intros k.
  rewrite merge_fold_lookup, merge_loop_lookup by apply NoDup_object_iter. f_equal.
  rewrite (list_to_map_proper (object_iter b) (map_to_list b));
    [by rewrite list_to_map_to_list|apply NoDup_object_iter|apply object_iter_perm].
Qed.
End merge.

(** merging in stages is merging at once: what a shrinker run leaves can be
    merged with rows stored later *)
Lemma minimize_document_stages l k doc :
  minimize_document l = Some doc -> minimize_document (l ++ k) = minimize_document (doc :: k).
Proof. destruct l as [|x l]; [done|]. simpl. intros [= <-]. by rewrite foldl_app. Qed.

(** ** The database client *)

(** the [postgres] crate: statements without and with a result, and a
    transaction, which is committed if its body succeeds and else rolled back *)
Class SqlClient (D : Type) := {
  sql_execute : string -> M D string ();
  sql_query : string -> list PgValue -> M D string (list (list PgValue));
  sql_transaction : M D string () -> M D string ();
}.

Definition set_path_statement (schema : string) : string :=
  "set search_path to '" +:+ schema +:+ "'".
Definition duplicated_query : string :=
  "SELECT object_id FROM data GROUP BY object_id HAVING count(*) > 1".
Definition by_id_query : string :=
  "SELECT version, payload FROM data WHERE object_id = $1 ORDER BY version ASC".
Definition delete_statement : string := "DELETE FROM data WHERE object_id = $1 AND version < $2".
Definition update_statement : string :=
  "UPDATE data SET payload = $1 WHERE object_id = $2 AND version = $3".

Definition set_payload (doc : Value) (r : DataRow) : DataRow :=
  mkDataRow (row_object_id r) (row_version r) (row_schema_id r) doc.

(** what the statements do to the [data] table of the selected schema *)
Definition deleted (id : Uuid) (version : Z) (r : DataRow) : Prop :=
  row_object_id r = id /\ (row_version r < version)%Z.
Definition updated (id : Uuid) (version : Z) (r : DataRow) : Prop :=
  row_object_id r = id /\ row_version r = version.
#[export] Instance deleted_dec id v r : Decision (deleted id v r).
Proof. unfold deleted. apply _. Defined.
#[export] Instance updated_dec id v r : Decision (updated id v r).
Proof. unfold updated. apply _. Defined.
Definition update_row (id : Uuid) (version : Z) (doc : Value) (r : DataRow) : DataRow :=
  if decide (updated id version r) then set_payload doc r else r.
Definition version_le (r r' : DataRow) : Prop := (row_version r <= row_version r')%Z.

(** the rows of an object *)
Definition rows_of (id : Uuid) (l : list DataRow) : list DataRow :=
  filter (fun r => row_object_id r = id) l.

Class SqlLaws (D : Type) `{SqlClient D} := {
  data_rows : D -> list DataRow;       (* of the selected schema *)
  schema_rows : string -> D -> list DataRow;
  sql_set_path_law schema d :
    validate_schema schema = true ->
    wp (sql_execute (set_path_statement schema)) d
      (fun _ d' => data_rows d' = schema_rows schema d) (fun _ d' => d' = d);
  sql_duplicated_law d :
    wp (sql_query duplicated_query []) d
      (fun rows d' => d' = d /\ exists ids, rows = (fun id => [PgUuid id]) <$> ids /\ NoDup ids /\
         forall id, id ∈ ids <-> 1 < length (rows_of id (data_rows d))) (fun _ d' => d' = d);
  sql_by_id_law id d :
    wp (sql_query by_id_query [PgUuid id]) d
      (fun rows d' => d' = d /\ exists l, l ≡ₚ rows_of id (data_rows d) /\ StronglySorted version_le l /\
         rows = (fun r => [PgBigint (row_version r); PgJson (row_payload r)]) <$> l)
      (fun _ d' => d' = d);
  sql_delete_law id version d :
    wp (sql_query delete_statement [PgUuid id; PgBigint version]) d
      (fun _ d' => data_rows d' ≡ₚ filter (fun r => ~ deleted id version r) (data_rows d))
      (fun _ _ => True);
  sql_update_law doc id version d :
    wp (sql_query update_statement [PgJson doc; PgUuid id; PgBigint version]) d
      (fun _ d' => data_rows d' ≡ₚ update_row id version doc <$> data_rows d) (fun _ _ => True);
  sql_transaction_law body d (Q : () -> D -> Prop) :
    (forall u d1 d2, data_rows d1 = data_rows d2 -> Q u d1 -> Q u d2) ->
    wp body d Q (fun _ _ => True) ->
    wp (sql_transaction body) d Q (fun _ d' => data_rows d' = data_rows d);
}.

(** ** The program *)

(** how the program stops: an [anyhow] chain, outermost message first, or the
    panic of a row accessor *)
Inductive Stopped : Type := Failure (chain : list string) | RowPanic.
Definition add_context (c : string) (e : Stopped) : Stopped :=
  match e with Failure l => Failure (c :: l) | RowPanic => RowPanic end.

Section shrinker.
Context {D : Type} `{SqlClient D, UuidLib}.
Abbreviation Run A := (M D Stopped A) (only parsing).

Definition sql {A} (m : M D string A) : Run A := with_err (fun e => Failure [e]) m.
Definition with_context {A} (c : string) (m : Run A) : Run A := with_err (add_context c) m.

(** [row.get(0)] as an integer, [row.get(1)] as JSON *)
Definition row_version_at (row : list PgValue) : result Stopped Z :=
  match row with PgBigint v :: _ => Ok v | _ => Err RowPanic end.
Definition row_payload_at (row : list PgValue) : result Stopped Value :=
  match row with _ :: PgJson v :: _ => Ok v | _ => Err RowPanic end.
Definition row_id_at (row : list PgValue) : result Stopped Uuid :=
  match row with PgUuid id :: _ => Ok id | _ => Err RowPanic end.

Definition get_all_with_id (id : Uuid) : Run (list (list PgValue)) :=
  sql (sql_query by_id_query [PgUuid id]).

Definition shrink_by_id (object_id : Uuid) : Run () :=
  rows ← get_all_with_id object_id;
  row ← lift (ok_or (Failure ["No rows with selected ID, did database change mid-shrink?"]) (last rows));
  version ← lift (row_version_at row);
  payloads ← lift (try_map row_payload_at rows);
  document ← lift (ok_or (Failure ["Failed minimizing document"]) (minimize_document payloads));
  sql (sql_transaction
    (sql_query delete_statement [PgUuid object_id; PgBigint version] ;;
     sql_query update_statement [PgJson document; PgUuid object_id; PgBigint version] ;;
     mret ())).

Definition shrink_main (schema : string) : Run () :=
  with_context "Unable to select schema!" (sql (sql_execute (set_path_statement schema))) ;;
  changed_ids ← with_context "Select duplicated object_ids" (sql (sql_query duplicated_query []));
  for_each (fun row =>
    object_id ← lift (row_id_at row);
    with_context ("Shrinking of " +:+ uuid_to_string object_id) (shrink_by_id object_id)) changed_ids.
End shrinker.

(** ** Properties *)

(** the rows [old] of an object become [new]: only the rows of its latest
    version stay (one, if versions differ), and hold the merge of all payloads
    in the order of their versions *)
Definition shrunk (old new : list DataRow) : Prop :=
  exists l r doc, l ≡ₚ old /\ StronglySorted version_le l /\ last l = Some r /\
    minimize_document (row_payload <$> l) = Some doc /\
    new ≡ₚ set_payload doc <$> filter (fun x => row_version x = row_version r) old.

Lemma list_filter_iff_elem {A} (P Q : A -> Prop) `{!forall x, Decision (P x), !forall x, Decision (Q x)} (l : list A) :
  (forall x, x ∈ l -> P x <-> Q x) -> filter P l = filter Q l.
Proof.
  induction l as [|x l IH]; intros HPQ; [done|].
  assert (filter P l = filter Q l) as Hl by (apply IH; intros y Hy; apply HPQ; set_solver).
  destruct (decide (P x)) as [HP|HP].
  - rewrite !filter_cons_True, Hl; [done|apply HPQ; [set_solver|done]|done].
  - rewrite !filter_cons_False, Hl; [done|intros HQ; apply HP, HPQ; [set_solver|done]|done].
Qed.

Lemma list_filter_all {A} (P : A -> Prop) `{!forall x, Decision (P x)} (l : list A) :
  (forall x, x ∈ l -> P x) -> filter P l = l.
Proof.
  intros HP. rewrite (list_filter_iff_elem P (fun _ => True) l) by (intros x ?%HP; done).
  induction l as [|x l IH]; [done|]. rewrite filter_cons_True by done. f_equal. apply IH. set_solver.
Qed.

Section row_lemmas.
Implicit Types (l : list DataRow).

Lemma update_row_id id v doc r : row_object_id (update_row id v doc r) = row_object_id r.
Proof. unfold update_row. by destruct (decide _). Qed.

Lemma rows_of_update j id v doc l :
  rows_of j (update_row id v doc <$> l) = update_row id v doc <$> rows_of j l.
Proof.
  unfold rows_of. induction l as [|r l IH]; [done|]. cbn [fmap list_fmap].
  destruct (decide (row_object_id r = j)) as [Hr|Hr].
  - rewrite !filter_cons_True by (rewrite ?update_row_id; done). cbn [fmap list_fmap]. by rewrite IH.
  - by rewrite !filter_cons_False by (rewrite ?update_row_id; done).
Qed.

Lemma update_row_ne j id v doc l : j <> id -> update_row id v doc <$> rows_of j l = rows_of j l.
Proof.
  intros Hj. rewrite <- (list_fmap_id (rows_of j l)) at 2. apply list_fmap_ext.
  intros i r [Hr _]%list_elem_of_lookup_2%list_elem_of_filter. unfold update_row.
  rewrite decide_False; [done|]. intros [? _]. congruence.
Qed.

Lemma rows_of_deleted_ne j id v l :
  j <> id -> rows_of j (filter (fun r => ~ deleted id v r) l) = rows_of j l.
Proof.
  intros Hj. unfold rows_of. rewrite list_filter_filter. apply list_filter_iff.
  intros r. unfold deleted. split; [by intros []|]. intros Hr. split; [done|]. intros [? _]. congruence.
Qed.

(** when no row is later than [v], deleting the earlier ones and updating the
    rest leaves the rows of version [v], with the new payload *)
Lemma rows_of_shrunk id v doc l :
  (forall r, r ∈ rows_of id l -> (row_version r <= v)%Z) ->
  update_row id v doc <$> rows_of id (filter (fun r => ~ deleted id v r) l) =
    set_payload doc <$> filter (fun r => row_version r = v) (rows_of id l).
Proof.
  intros Hmax. assert (rows_of id (filter (fun r => ~ deleted id v r) l) =
    filter (fun r => row_version r = v) (rows_of id l)) as ->.
  { unfold rows_of. rewrite !list_filter_filter. apply list_filter_iff_elem.
    intros r Hr. unfold deleted. split; [intros [Hid Hd]|intros [Hv Hid]; split; [done|lia]].
    split; [|done]. assert (row_version r <= v)%Z by (by apply Hmax, list_elem_of_filter). lia. }
  apply list_fmap_ext. intros i r [Hv [Hid _]%list_elem_of_filter]%list_elem_of_lookup_2%list_elem_of_filter.
  unfold update_row. by rewrite decide_True.
Qed.

Lemma last_max l r :
  StronglySorted version_le l -> last l = Some r -> forall x, x ∈ l -> (row_version x <= row_version r)%Z.
Proof.
  induction 1 as [|y l Hs IH Hy]; [done|]. destruct l as [|z l].
  - intros [= ->] x ->%list_elem_of_singleton. lia.
  - rewrite last_cons_cons. intros Hl x [-> |Hx]%elem_of_cons; [|by apply IH].
    rewrite Forall_forall in Hy. apply Hy. by apply last_Some_elem_of.
Qed.

Lemma minimize_document_Some l : l <> [] -> is_Some (minimize_document (row_payload <$> l)).
Proof. destruct l; [done|]. intros _. by eexists. Qed.
End row_lemmas.

Section properties.
Context {D : Type} `{SqlLaws D, UuidLib}.

Lemma transaction_spec id v doc d :
  (forall r, r ∈ rows_of id (data_rows d) -> (row_version r <= v)%Z) ->
  wp (sql_transaction
       (sql_query delete_statement [PgUuid id; PgBigint v] ;;
        sql_query update_statement [PgJson doc; PgUuid id; PgBigint v] ;; mret ())) d
    (fun _ d' => (rows_of id (data_rows d') ≡ₚ set_payload doc <$>
         filter (fun r => row_version r = v) (rows_of id (data_rows d))) /\
       forall j, j <> id -> rows_of j (data_rows d') ≡ₚ rows_of j (data_rows d))
    (fun _ d' => data_rows d' = data_rows d).
Proof.
  intros Hmax. apply sql_transaction_law; [by intros u d1 d2 ->|].
  apply wp_bind. eapply wp_mono; [apply sql_delete_law| |done]. intros a1 d1 Hd1.
  apply wp_bind. eapply wp_mono; [apply sql_update_law| |done]. intros a2 d2 Hd2. apply wp_ret.
  assert (forall j, rows_of j (data_rows d2) ≡ₚ
    update_row id v doc <$> rows_of j (filter (fun r => ~ deleted id v r) (data_rows d))) as Hj.
  { intros j. rewrite <- rows_of_update. unfold rows_of. by rewrite Hd2, Hd1. }
  split.
  - rewrite Hj. by rewrite rows_of_shrunk.
  - intros j Hne. rewrite Hj, rows_of_deleted_ne by done. by rewrite update_row_ne.
Qed.

Lemma try_map_payloads (l : list DataRow) :
  try_map row_payload_at ((fun r => [PgBigint (row_version r); PgJson (row_payload r)]) <$> l) =
    Ok (row_payload <$> l).
Proof. apply try_map_Ok. by induction l as [|r l IH]; constructor. Qed.

(** one object: merged as [shrunk] says, atomically, and no other touched *)
Lemma shrink_by_id_spec id d :
  wp (shrink_by_id id) d
    (fun _ d' => shrunk (rows_of id (data_rows d)) (rows_of id (data_rows d')) /\
       forall j, j <> id -> rows_of j (data_rows d') ≡ₚ rows_of j (data_rows d))
    (fun _ d' => data_rows d' = data_rows d).
Proof.
  apply wp_bind, wp_with_err. eapply wp_mono; [apply sql_by_id_law| |by intros e d1 ->].
  intros rows d1 (-> & l & Hl & Hs & ->).
  apply wp_bind, wp_lift; [|done]. intros row Hrow. rewrite fmap_last in Hrow.
  destruct (last l) as [r|] eqn:Hr; simpl in Hrow; [|done]. injection Hrow as <-.
  apply wp_bind, wp_lift; [|done]. intros v [= <-].
  apply wp_bind, wp_lift; [|done]. intros payloads. rewrite try_map_payloads. intros [= <-].
  apply wp_bind, wp_lift; [|done]. intros doc Hdoc.
  apply wp_with_err. eapply wp_mono; [apply transaction_spec| |done].
  - intros x Hx. apply (last_max l); [done..|]. by rewrite Hl.
  - intros u d2 [Hid Hne]. split; [|done]. exists l, r, doc. split_and!; [done..| |done].
    by destruct (minimize_document _); simplify_eq/=.
Qed.
(** an object after the run has got to [done] of the duplicated ids *)
Definition settled (start : list DataRow) (todo : list Uuid) (now : list DataRow) : Prop :=
  forall id,
    (1 < length (rows_of id start) /\ id ∉ todo -> shrunk (rows_of id start) (rows_of id now)) /\
    (length (rows_of id start) <= 1 \/ id ∈ todo -> rows_of id now ≡ₚ rows_of id start).

(** each object is whole: as it was, or merged *)
Definition whole (start now : list DataRow) : Prop :=
  forall id, (rows_of id now ≡ₚ rows_of id start) \/ shrunk (rows_of id start) (rows_of id now).

Lemma settled_whole start todo now : settled start todo now -> whole start now.
Proof.
  intros Hs id. destruct (Hs id) as [Hshrunk Hsame].
  destruct (decide (1 < length (rows_of id start) /\ id ∉ todo)) as [Hd|Hd]; [right; auto|left].
  apply Hsame. destruct (decide (id ∈ todo)); [by right|left].
  apply Nat.le_ngt. intros ?. by apply Hd.
Qed.

Lemma shrunk_perm old old' new : old ≡ₚ old' -> shrunk old new -> shrunk old' new.
Proof.
  intros Hp (l & r & doc & Hl & Hs & Hlast & Hdoc & Hnew). exists l, r, doc.
  split_and!; [by rewrite Hl|done..|]. by rewrite <- Hp.
Qed.

Lemma shrink_all_spec start ids d :
  NoDup ids -> (forall id, id ∈ ids -> 1 < length (rows_of id start)) ->
  settled start ids (data_rows d) ->
  wp (for_each (fun row => object_id ← lift (row_id_at row);
        with_context ("Shrinking of " +:+ uuid_to_string object_id) (shrink_by_id object_id))
      ((fun id => [PgUuid id]) <$> ids)) d
    (fun _ d' => settled start [] (data_rows d')) (fun _ d' => whole start (data_rows d')).
Proof.
  revert d. induction ids as [|id ids IH]; intros d Hnd Hdup Hs; [by apply wp_ret|].
  apply NoDup_cons in Hnd as [Hid Hnd]. simpl.
  apply wp_bind, wp_bind, wp_lift; [|done]. intros i [= <-].
  apply wp_with_err. eapply wp_mono; [apply shrink_by_id_spec| |].
  - intros _ d1 [Hsh Hne]. apply IH; [done|by intros ? ?; apply Hdup, elem_of_cons; right|]. intros j.
    destruct (Hs j) as [Hshrunk Hsame]. destruct (decide (j = id)) as [-> |Hj].
    + split; [|intros [Hle|?]; [|done]; specialize (Hdup id (list_elem_of_here _ _)); lia].
      intros _. eapply shrunk_perm, Hsh. apply Hsame. right. apply list_elem_of_here.
    + split.
      * intros [Hlen Hin]. assert (j ∉ id :: ids) as Hj' by (by apply not_elem_of_cons).
        destruct (Hshrunk (conj Hlen Hj')) as (l & r & doc & ?).
        exists l, r, doc. rewrite (Hne j Hj). tauto.
      * intros Hor. rewrite (Hne j Hj). apply Hsame. rewrite elem_of_cons. tauto.
  - intros e d1 ->. by eapply settled_whole.
Qed.

Lemma shrink_main_spec schema d d' r :
  validate_schema schema = true -> shrink_main schema d = (d', r) ->
  let start := schema_rows schema d in
  match r with
  | Ok _ => forall id,
      (length (rows_of id start) <= 1 -> rows_of id (data_rows d') ≡ₚ rows_of id start) /\
      (1 < length (rows_of id start) -> shrunk (rows_of id start) (rows_of id (data_rows d')))
  | Err _ => d' = d \/ whole start (data_rows d')
  end.
Proof.
  intros Hschema Hrun start.
  assert (wp (shrink_main schema) d (fun _ d' => settled start [] (data_rows d'))
    (fun _ d' => d' = d \/ whole start (data_rows d'))) as Hwp.
  { apply wp_bind, wp_with_err, wp_with_err.
    eapply wp_mono; [by apply sql_set_path_law| |by intros e d1 ->; left]. intros u d1 Hd1.
    fold start in Hd1. apply wp_bind, wp_with_err, wp_with_err.
    eapply wp_mono; [apply sql_duplicated_law| |].
    - intros rows d2 (-> & ids & -> & Hnd & Hids). rewrite Hd1 in Hids.
      eapply wp_mono; [apply (shrink_all_spec start)|done|by right]; [done|by intros ? ?%Hids|].
      rewrite Hd1. intros id. split; [|done]. by intros [?%Hids ?].
    - intros e d2 ->. right. intros id. left. by rewrite Hd1. }
  unfold wp in Hwp. rewrite Hrun in Hwp. destruct r as [[]|e]; [|done].
  intros id. destruct (Hwp id) as [Hshrunk Hsame]. split; [intros; apply Hsame; by left|].
  intros Hlen. apply Hshrunk. split; [done|]. apply not_elem_of_nil.
Qed.

Lemma shrink_main_rows schema d d' :
  validate_schema schema = true -> shrink_main schema d = (d', Ok ()) -> forall id,
  let start := rows_of id (schema_rows schema d) in
  (length start <= 1 -> rows_of id (data_rows d') ≡ₚ start) /\
  (1 < length start -> shrunk start (rows_of id (data_rows d'))).
Proof. intros Hschema Hrun. exact (shrink_main_spec schema d d' (Ok ()) Hschema Hrun). Qed.

(** C33: a shrinker run that ends well merges every object that has several
    rows and touches no other: of its rows only those of the latest version
    are left, holding the merge of all its payloads in the order of their
    versions.  A run that fails leaves every object whole, merged or as it
    was, whatever the statement that failed. *)
Theorem shrink_main_merges schema d d' r :
  validate_schema schema = true -> shrink_main schema d = (d', r) ->
  let start := schema_rows schema d in
  match r with
  | Ok _ => forall id,
      (length (rows_of id start) <= 1 -> rows_of id (data_rows d') ≡ₚ rows_of id start) /\
      (1 < length (rows_of id start) -> shrunk (rows_of id start) (rows_of id (data_rows d')))
  | Err _ => d' = d \/ whole start (data_rows d')
  end.
Proof. apply shrink_main_spec. Qed.
End properties.

(** ** A database in memory *)

#[export] Instance version_le_dec : RelDecision version_le.
Proof. intros r r'. unfold version_le. apply _. Defined.
#[export] Instance version_le_total : Total version_le.
Proof. intros r r'. unfold version_le. lia. Qed.
#[export] Instance version_le_trans : Transitive version_le.
Proof. intros x y z. unfold version_le. lia. Qed.

Record MemorySql : Type := mkMemorySql {
  msq_tables : gmap string (list DataRow); msq_path : string }.
Definition msq_rows (schema : string) (d : MemorySql) : list DataRow :=
  default [] (msq_tables d !! schema).
Definition msq_put (rows : list DataRow) (d : MemorySql) : MemorySql :=
  mkMemorySql (<[msq_path d := rows]> (msq_tables d)) (msq_path d).

Definition statement_schema (query : string) : string :=
  string_take (String.length query - String.length (set_path_statement "")) (string_drop 20 query).

Lemma statement_schema_set schema : statement_schema (set_path_statement schema) = schema.
Proof.
  unfold statement_schema, set_path_statement. rewrite !string_length_app.
  match goal with |- string_take ?n (string_drop 20 (_ +:+ ?t)) = _ =>
    change (string_take n t = schema); replace n with (String.length schema) by (simpl; lia) end.
  apply string_take_app.
Qed.

Definition msq_query (query : string) (params : list PgValue) : M MemorySql string (list (list PgValue)) :=
  fun d =>
  let rows := msq_rows (msq_path d) d in
  if decide (query = duplicated_query) then
    (d, Ok ((fun id => [PgUuid id]) <$>
      filter (fun id => 1 < length (rows_of id rows)) (remove_dups (row_object_id <$> rows))))
  else if decide (query = by_id_query) then
    match params with
    | [PgUuid id] => (d, Ok ((fun r => [PgBigint (row_version r); PgJson (row_payload r)]) <$>
        merge_sort version_le (rows_of id rows)))
    | _ => (d, Err "bad parameters")
    end
  else if decide (query = delete_statement) then
    match params with
    | [PgUuid id; PgBigint v] => (msq_put (filter (fun r => ~ deleted id v r) rows) d, Ok [])
    | _ => (d, Err "bad parameters")
    end
  else if decide (query = update_statement) then
    match params with
    | [PgJson doc; PgUuid id; PgBigint v] => (msq_put (update_row id v doc <$> rows) d, Ok [])
    | _ => (d, Err "bad parameters")
    end
  else (d, Err "syntax error").

#[export] Instance memory_sql : SqlClient MemorySql := {
  sql_execute := fun query d => (mkMemorySql (msq_tables d) (statement_schema query), Ok ());
  sql_query := msq_query;
  sql_transaction := fun body d =>
    match body d with (d', Ok u) => (d', Ok u) | (_, Err e) => (d, Err e) end;
}.

Lemma msq_rows_put rows d : msq_rows (msq_path d) (msq_put rows d) = rows.
Proof. unfold msq_rows, msq_put; simpl. by rewrite lookup_insert_eq. Qed.

#[export] Instance memory_sql_laws : SqlLaws MemorySql.
Proof.
  refine {| data_rows := fun d => msq_rows (msq_path d) d; schema_rows := msq_rows |}.
  - intros schema d _. unfold wp; simpl. by rewrite statement_schema_set.
  - intros d. unfold wp; simpl. split; [done|]. eexists. split; [done|]. split.
    + apply NoDup_filter, NoDup_remove_dups.
    + intros id. rewrite list_elem_of_filter, elem_of_remove_dups. split; [by intros []|].
      intros Hlen. split; [done|]. destruct (rows_of id _) as [|r l] eqn:Hl; [simpl in Hlen; lia|].
      assert (r ∈ rows_of id (msq_rows (msq_path d) d)) as Hr by (rewrite Hl; apply list_elem_of_here).
      apply list_elem_of_filter in Hr as [<- Hr]. apply list_elem_of_fmap. eauto.
  - intros id d. unfold wp; simpl. split; [done|]. exists (merge_sort version_le (rows_of id (msq_rows (msq_path d) d))).
    split_and!; [apply merge_sort_Permutation|apply (StronglySorted_merge_sort _)|done].
  - intros id v d. unfold wp; simpl. by rewrite msq_rows_put.
  - intros doc id v d. unfold wp; simpl. by rewrite msq_rows_put.
  - intros body d Q HQ. unfold wp; simpl. by destruct (body d) as [d' [u|e]].
Defined.

Definition demo_tables : MemorySql :=
  mkMemorySql {["public" := [mkDataRow 1 5 7 (Object {["a" := VBool true]});
                             mkDataRow 2 1 7 Null;
                             mkDataRow 1 6 7 (Object {["b" := Null]})]]} "".

Lemma shrink_main_merges_witness :
  let start := schema_rows "public" demo_tables in
  let d' := (shrink_main "public" demo_tables).1 in
  1 < length (rows_of 1 start) /\ shrunk (rows_of 1 start) (rows_of 1 (data_rows d')) /\
  rows_of 2 (data_rows d') ≡ₚ rows_of 2 start.
Proof.
  intros start d'.
  assert (validate_schema "public" = true) as Hv by reflexivity.
  assert (shrink_main "public" demo_tables = (d', Ok ())) as Hrun by vm_eq.
  pose proof (shrink_main_merges "public" demo_tables d' (Ok ()) Hv Hrun) as Hall. split_and!.
  - apply Nat.ltb_lt. vm_eq.
  - apply (Hall 1%N). apply Nat.ltb_lt. vm_eq.
  - apply (Hall 2%N). apply Nat.leb_le. vm_eq.
Defined.
