(* ===== verification/QueryService.v ===== *)
(** The PostgreSQL query service, [crates/query-service/src/psql.rs]: documents
    are read from the [data] table the command service writes, one per object. *)
From stdpp Require Import prelude gmap strings list fin_maps pretty.
From S2P Require Import Prelude Json Externals Instances RegistryTypes CommandOutputs Shrinker.

(** ** The database *)

Inductive SimpleQueryMessage : Type :=
| SimpleRow (fields : list (result string (option string)))   (* [try_get] of each column *)
| CommandComplete (rows : Z)
| OtherMessage.

(** [bb8]'s pool and [tokio_postgres]: reads only *)
Class QueryDb (D : Type) := {
  qd_build : D -> result string ();
  qd_get : D -> result string ();
  qd_prepare : string -> D -> result string ();
  qd_query : string -> list PgValue -> D -> result string (list (list PgValue));
  qd_simple_query : string -> D -> result string (list SimpleQueryMessage);
}.

Definition multiple_query (schema : string) : string :=
  "SELECT d.object_id, d.payload FROM (SELECT object_id, max(version) as max FROM " +:+ schema +:+
  ".data WHERE object_id = ANY($1) GROUP BY object_id) maxes JOIN " +:+ schema +:+
  ".data d ON d.object_id = maxes.object_id AND d.version = maxes.max".
Definition by_schema_query (schema : string) : string :=
  "SELECT object_id, payload FROM " +:+ schema +:+
  ".data d1 WHERE schema_id = $1 AND d1.version = (SELECT MAX(version) FROM " +:+ schema +:+
  ".data d2 WHERE d2.object_id = d1.object_id)".

(** [r] is of the latest version of its object *)
Definition latest_row (all : list DataRow) (r : DataRow) : Prop :=
  Forall (fun r' => row_object_id r' = row_object_id r -> (row_version r' <= row_version r)%Z) all.
#[export] Instance latest_row_dec all r : Decision (latest_row all r).
Proof. unfold latest_row. apply _. Defined.
Definition id_payload (r : DataRow) : list PgValue := [PgUuid (row_object_id r); PgJson (row_payload r)].

(** what PostgreSQL documents of the two statements *)
Class QueryDbLaws (D : Type) `{QueryDb D} := {
  qd_rows : string -> D -> list DataRow;
  qd_multiple_law schema ids d rows :
    validate_schema schema = true -> qd_query (multiple_query schema) [PgUuids ids] d = Ok rows ->
    rows ≡ₚ id_payload <$> filter (fun r => row_object_id r ∈ ids /\ latest_row (qd_rows schema d) r)
                             (qd_rows schema d);
  qd_by_schema_law schema id d rows :
    validate_schema schema = true -> qd_query (by_schema_query schema) [PgUuid id] d = Ok rows ->
    rows ≡ₚ id_payload <$> filter (fun r => row_schema_id r = id /\ latest_row (qd_rows schema d) r)
                             (qd_rows schema d);
}.

(** the tables the command service writes are those the query service reads: both
    name the schema without quotes *)
Class SharedTable (D : Type) `{PostgresLaws D, !QueryDb D, !QueryDbLaws D} : Prop := {
  shared_rows schema d :
    qd_rows schema d = snd <$> filter (fun x => schema_named x.1 = schema_named schema) (pg_rows d);
}.

(** ** The service *)

Record PsqlQuery (D : Type) : Type := mkPsqlQuery { pq_pool : D; pq_schema : string }.
Arguments mkPsqlQuery {_}. Arguments pq_pool {_}. Arguments pq_schema {_}.

Section service.
Context {D : Type} `{QueryDb D, UuidLib, JsonText, ValueText}.

Definition psql_load (pool : D) (schema : string) : result (list string) (PsqlQuery D) :=
  map_err (fun e => ["Failed to build connection pool"; e]) (qd_build pool) ;;
  if validate_schema schema then Ok (mkPsqlQuery pool schema)
  else Err ["Schema `" +:+ schema +:+
    "` has invalid name. It can contain only ascii letters, numbers and underscores"].

Definition internal (context err : string) : Fault Status := Failed (mkStatus Internal (context +:+ err)).

Definition pq_connect (q : PsqlQuery D) : result (Fault Status) () :=
  map_err (internal "Unable to connect to database: ") (qd_get (pq_pool q)).

Definition make_query (q : PsqlQuery D) (query : string) (args : list PgValue) :
    result (Fault Status) (list (list PgValue)) :=
  pq_connect q ;;
  map_err (internal "Unable to prepare query statement: ") (qd_prepare query (pq_pool q)) ;;
  map_err (internal "Unable to query data: ") (qd_query query args (pq_pool q)).

(** the accessors of a row panic on other columns *)
Definition id_payload_row (row : list PgValue) : result (Fault Status) (string * string) :=
  match row with
  | PgUuid id :: PgJson v :: _ => Ok (uuid_to_string id, value_display v)
  | _ => Err Panicked
  end.

Definition collect_id_payload_rows (rows : list (list PgValue)) :
    result (Fault Status) (gmap string string) :=
  l ← try_map id_payload_row rows; Ok (collect_map l).

Definition simple_field (ix : nat * result string (option string)) : result string string :=
  match ix.2 with
  | Ok o => Ok (default EmptyString o)
  | Err e => Err ("Error getting data from row at column " +:+ pretty ix.1 +:+ ": " +:+ e)
  end.

Definition simple_message (msg : SimpleQueryMessage) : result string (list string) :=
  match msg with
  | SimpleRow fields => try_map simple_field (imap pair fields)
  | CommandComplete command => Ok [pretty (Z.to_N command)]
  | OtherMessage => Err "Could not match SimpleQueryMessage"
  end.

Definition collect_simple_query_messages (messages : list SimpleQueryMessage) :
    result string string :=
  data ← try_map simple_message messages;
  map_err (fun e => "Error serializing data to json: " +:+ e)
    (json_to_string (Array ((fun fields => Array (VString <$> fields)) <$> data))).

Definition query_multiple (object_ids : list string) (q : PsqlQuery D) :
    result (Fault Status) (gmap string string) :=
  ids ← map_err (fun e => Failed (mkStatus InvalidArgument e)) (try_map uuid_parse_str object_ids);
  rows ← make_query q (multiple_query (pq_schema q)) [PgUuids ids];
  collect_id_payload_rows rows.

Definition query_by_schema (schema_id : string) (q : PsqlQuery D) :
    result (Fault Status) (gmap string string) :=
  id ← map_err (fun e => Failed (mkStatus InvalidArgument e)) (uuid_parse_str schema_id);
  rows ← make_query q (by_schema_query (pq_schema q)) [PgUuid id];
  collect_id_payload_rows rows.

Definition query_raw (raw_statement : string) (q : PsqlQuery D) : result (Fault Status) string :=
  pq_connect q ;;
  messages ← map_err (internal "Unable to query_raw data: ")
               (qd_simple_query raw_statement (pq_pool q));
  map_err (internal "Unable to collect simple query messages data: ")
    (collect_simple_query_messages messages).
End service.

(** ** Properties *)

Section properties.
Context {D : Type} `{QueryDbLaws D, UuidLaws, JsonText, ValueText}.
Implicit Types (q : PsqlQuery D).

Lemma collect_rows_Ok (l : list DataRow) :
  collect_id_payload_rows (id_payload <$> l) =
    Ok (collect_map ((fun r => (uuid_to_string (row_object_id r), value_display (row_payload r))) <$> l)).
Proof.
  unfold collect_id_payload_rows.
  assert (try_map id_payload_row (id_payload <$> l) =
    Ok ((fun r => (uuid_to_string (row_object_id r), value_display (row_payload r))) <$> l)) as ->; [|done].
  apply try_map_Ok. by induction l as [|r l IH]; constructor.
Qed.

Lemma foldl_insert_mono {A} (l : list (string * A)) (m : gmap string A) k :
  foldl (fun m kv => <[kv.1 := kv.2]> m) m l !! k = m !! k \/
  exists a, (k, a) ∈ l /\ foldl (fun m kv => <[kv.1 := kv.2]> m) m l !! k = Some a.
Proof.
  revert m. induction l as [|[j a] l IH]; intros m; simpl; [by left|].
  destruct (IH (<[j := a]> m)) as [Hk|(b & Hb & Hk)].
  - rewrite Hk. destruct (decide (j = k)) as [-> |Hne].
    + right. exists a. rewrite lookup_insert_eq. split; [apply list_elem_of_here|done].
    + left. by rewrite lookup_insert_ne.
  - right. exists b. split; [by apply elem_of_cons; right|done].
Qed.

Lemma collect_map_in {A} (l : list (string * A)) k a : collect_map l !! k = Some a -> (k, a) ∈ l.
Proof.
  unfold collect_map. destruct (foldl_insert_mono l ∅ k) as [Hk|(b & Hb & Hk)].
  - intros Ha. rewrite Hk, lookup_empty in Ha. done.
  - intros Ha. by simplify_eq.
Qed.

(** the rows a list of rows holds of the latest version of an object *)
Lemma latest_row_exists (l : list DataRow) r :
  r ∈ l -> exists r', r' ∈ l /\ row_object_id r' = row_object_id r /\ latest_row l r'.
Proof.
  intros Hr. set (l' := rows_of (row_object_id r) l).
  assert (r ∈ l') as Hr' by (by apply list_elem_of_filter).
  destruct (max_by_key Z.leb row_version l') as [m|] eqn:Hm.
  - apply max_by_key_Some in Hm as [Hin Hmax]; [|intros x y; rewrite !Z.leb_le; lia|
      intros x y z; rewrite !Z.leb_le; lia].
    apply list_elem_of_filter in Hin as [Hid Hin]. exists m. split_and!; [done..|].
    apply Forall_forall. intros r' Hin' Hid'. apply Z.leb_le, Hmax, list_elem_of_filter.
    split; [congruence|done].
  - apply max_by_key_None in Hm. rewrite Hm in Hr'. by apply not_elem_of_nil in Hr'.
Qed.

(** what a map of documents says about the rows [P] selects *)
Definition latest_documents (P : DataRow -> Prop) (all : list DataRow) (m : gmap string string) : Prop :=
  (forall k text, m !! k = Some text -> exists r, r ∈ all /\ P r /\ latest_row all r /\
     k = uuid_to_string (row_object_id r) /\ text = value_display (row_payload r)) /\
  (forall r, r ∈ all -> P r -> latest_row all r -> is_Some (m !! uuid_to_string (row_object_id r))).

Lemma collect_latest (P : DataRow -> Prop) `{!forall r, Decision (P r)} all rows m :
  rows ≡ₚ id_payload <$> filter (fun r => P r /\ latest_row all r) all ->
  collect_id_payload_rows rows = Ok m -> latest_documents P all m.
Proof.
  intros Hrows Hm. destruct (Permutation_map_inv _ _ Hrows) as (l & -> & Hl).
  change (map id_payload l) with (id_payload <$> l) in Hm.
  rewrite collect_rows_Ok in Hm. injection Hm as <-. split.
  - intros k text Hk%collect_map_in. apply list_elem_of_fmap in Hk as (r & Hr & Hin).
    injection Hr as -> ->. rewrite <- Hl in Hin.
    apply list_elem_of_filter in Hin as [[HP Hlat] Hin]. by exists r.
  - intros r Hin HP Hlat. apply collect_map_is_Some. rewrite <- list_fmap_compose.
    apply list_elem_of_fmap. exists r. split; [done|]. rewrite <- Hl.
    by apply list_elem_of_filter.
Qed.

Lemma make_query_Ok q query args rows :
  make_query q query args = Ok rows -> qd_query query args (pq_pool q) = Ok rows.
Proof.
  unfold make_query, pq_connect. destruct (qd_get (pq_pool q)); simpl; [|done].
  destruct (qd_prepare query (pq_pool q)); simpl; [|done].
  destruct (qd_query query args (pq_pool q)) eqn:Hq; simpl; [|done]. by intros [= ->].
Qed.

Lemma query_multiple_latest q texts m :
  validate_schema (pq_schema q) = true -> query_multiple texts q = Ok m ->
  exists ids, Forall2 (fun t i => uuid_parse_str t = Ok i) texts ids /\
    latest_documents (fun r => row_object_id r ∈ ids) (qd_rows (pq_schema q) (pq_pool q)) m.
Proof.
  intros Hvalid. unfold query_multiple.
  destruct (try_map uuid_parse_str texts) as [ids|e] eqn:Hids; simpl; [|done].
  destruct (make_query _ (multiple_query (pq_schema q)) _) as [rows|e] eqn:Hrows; simpl; [|done]. intros Hm.
  apply make_query_Ok, qd_multiple_law in Hrows; [|done].
  exists ids. split; [by apply try_map_Ok|]. exact (collect_latest _ _ _ _ Hrows Hm).
Qed.

(** A query for several objects answers, under the text of each requested
    id that has rows, the payload of one of its rows of the latest version,
    and nothing else; likewise a query for a schema, for the objects whose
    latest row is of that schema.  Rows of earlier versions are not looked at,
    so what a partial document adds is all that is answered until the
    shrinker has merged the rows. *)
Theorem query_answers_latest pool schema q texts schema_id m ms :
  psql_load pool schema = Ok q -> query_multiple texts q = Ok m ->
  query_by_schema schema_id q = Ok ms ->
  exists ids id, Forall2 (fun t i => uuid_parse_str t = Ok i) texts ids /\
    uuid_parse_str schema_id = Ok id /\
    latest_documents (fun r => row_object_id r ∈ ids) (qd_rows schema pool) m /\
    latest_documents (fun r => row_schema_id r = id) (qd_rows schema pool) ms /\
    forall i, i ∈ ids -> is_Some (m !! uuid_to_string i) <->
      exists r, r ∈ qd_rows schema pool /\ row_object_id r = i.
Proof.
  unfold psql_load. destruct (qd_build pool); simpl; [|done].
  destruct (validate_schema schema) eqn:Hvalid; intros [= <-].
  intros (ids & Hids & Hm)%query_multiple_latest; [|done]. unfold query_by_schema. simpl in *.
  destruct (uuid_parse_str schema_id) as [id|e] eqn:Hid; simpl; [|done].
  destruct (make_query _ (by_schema_query schema) _) as [rows'|e] eqn:Hrows'; simpl; [|done]. intros Hms.
  apply make_query_Ok in Hrows'. simpl in *. apply qd_by_schema_law in Hrows'; [|done].
  apply (collect_latest _ _ _ _ Hrows') in Hms.
  exists ids, id. split_and!; [done..|].
  intros i Hi. split.
  - intros [text Htext]. destruct (proj1 Hm _ _ Htext) as (r & Hin & _ & _ & Hr & _).
    apply uuid_to_string_inj in Hr as ->. eauto.
  - intros (r & Hin & <-). destruct (latest_row_exists _ _ Hin) as (r' & Hin' & Hid' & Hlat).
    rewrite <- Hid'. apply (proj2 Hm); [done|congruence|done].
Qed.
End properties.

(** ** A database in memory *)

(** the schema that occurs twice in a query, first after [skip] characters *)
Definition twice_schema (base : string -> string) (skip : nat) (query : string) : string :=
  string_take (Nat.div2 (String.length query - String.length (base ""))) (string_drop skip query).

Lemma double_hole (n a b : nat) : a = b + 2 * n -> Nat.div2 (a - b) = n.
Proof. intros ->. replace (b + 2 * n - b) with (2 * n) by lia. apply Nat.div2_double. Qed.

Lemma twice_schema_multiple schema : twice_schema multiple_query 79 (multiple_query schema) = schema.
Proof.
  unfold twice_schema. rewrite (double_hole (String.length schema)).
  - unfold multiple_query.
    match goal with |- string_take ?n (string_drop 79 (_ +:+ ?t)) = _ => change (string_take n t = schema) end.
    apply string_take_app.
  - unfold multiple_query. rewrite !string_length_app. simpl. lia.
Qed.
Lemma twice_schema_by_schema schema : twice_schema by_schema_query 31 (by_schema_query schema) = schema.
Proof.
  unfold twice_schema. rewrite (double_hole (String.length schema)).
  - unfold by_schema_query.
    match goal with |- string_take ?n (string_drop 31 (_ +:+ ?t)) = _ => change (string_take n t = schema) end.
    apply string_take_app.
  - unfold by_schema_query. rewrite !string_length_app. simpl. lia.
Qed.

Lemma queries_differ s s' : multiple_query s <> by_schema_query s'.
Proof. done. Qed.

Definition table_rows (schema : string) (d : list (string * DataRow)) : list DataRow :=
  snd <$> filter (fun x => schema_named x.1 = schema_named schema) d.

(** a database whose tables are read by [tables] *)
Section tables.
Context {D : Type} (tables : string -> D -> list DataRow).

Definition query_db_of : QueryDb D := {|
  qd_build := fun _ => Ok ();
  qd_get := fun _ => Ok ();
  qd_prepare := fun _ _ => Ok ();
  qd_query := fun query params d =>
    let s := twice_schema multiple_query 79 query in
    let s' := twice_schema by_schema_query 31 query in
    match params with
    | [PgUuids ids] =>
        if decide (query = multiple_query s) then
          Ok (id_payload <$> filter (fun r => row_object_id r ∈ ids /\ latest_row (tables s d) r) (tables s d))
        else Err "syntax error"
    | [PgUuid id] =>
        if decide (query = by_schema_query s') then
          Ok (id_payload <$> filter (fun r => row_schema_id r = id /\ latest_row (tables s' d) r) (tables s' d))
        else Err "syntax error"
    | _ => Err "bad parameters"
    end;
  qd_simple_query := fun _ _ => Ok [];
|}.

Definition query_db_of_laws : @QueryDbLaws D query_db_of.
Proof.
  refine (@Build_QueryDbLaws _ query_db_of tables _ _).
  - intros schema ids d rows _. cbn [qd_query query_db_of]. cbv zeta.
    rewrite twice_schema_multiple, decide_True by done. by intros [= <-].
  - intros schema id d rows _. cbn [qd_query query_db_of]. cbv zeta.
    rewrite twice_schema_by_schema, decide_True by done. by intros [= <-].
Defined.
End tables.

#[export] Instance memory_query_db : QueryDb (list (string * DataRow)) := query_db_of table_rows.
#[export] Instance memory_query_db_laws : QueryDbLaws (list (string * DataRow)) := query_db_of_laws table_rows.

Definition demo_pool : list (string * DataRow) :=
  [("public", mkDataRow 1 5 7 Null); ("public", mkDataRow 1 6 7 (VBool true)); ("public", mkDataRow 2 1 8 Null)].
Definition demo_query : PsqlQuery (list (string * DataRow)) := mkPsqlQuery demo_pool "public".
Definition demo_answer (r : result (Fault Status) (gmap string string)) : gmap string string :=
  default ∅ (result_ok r).

Lemma query_answers_latest_witness :
  let texts := [uuid_to_string 1%N; uuid_to_string 3%N] in
  let m := demo_answer (query_multiple texts demo_query) in
  let ms := demo_answer (query_by_schema (uuid_to_string 7%N) demo_query) in
  exists ids id, Forall2 (fun t i => uuid_parse_str t = Ok i) texts ids /\
    uuid_parse_str (uuid_to_string 7%N) = Ok id /\
    latest_documents (fun r => row_object_id r ∈ ids) (qd_rows "public" demo_pool) m /\
    latest_documents (fun r => row_schema_id r = id) (qd_rows "public" demo_pool) ms /\
    forall i, i ∈ ids -> is_Some (m !! uuid_to_string i) <->
      exists r, r ∈ qd_rows "public" demo_pool /\ row_object_id r = i.
Proof.
  intros texts m ms. apply (query_answers_latest demo_pool "public" demo_query texts
    (uuid_to_string 7%N) m ms); vm_eq.
Defined.
