(* ===== verification/PostgresKey.v ===== *)
(** The table of the PostgreSQL plugin as [deployment/compose/setup/postgres/init.sql]
    creates it: its primary key is the object and the version, and the version is
    the millisecond in which the data router saw the message. *)
From stdpp Require Import prelude gmap strings list.
From S2P Require Import Prelude Json Externals Instances Messaging MessageTypes CommandConfig CommandService.
From S2P Require Import CommandOutputs QueryService.

(** [PRIMARY KEY (object_id, version)] *)
Definition row_key (r : DataRow) : Uuid * Z := (row_object_id r, row_version r).
Definition message_row_key (msg : BorrowedInsertMessage) : Uuid * Z := (bi_object_id msg, bi_timestamp msg).
(** the keys in the table of a schema, under whatever name it was written to *)
Definition keys_of (schema : string) (rows : list (string * DataRow)) : list (Uuid * Z) :=
  (fun x => row_key x.2) <$> filter (fun x => schema_named x.1 = schema_named schema) rows.

(** PostgreSQL refuses a row whose key is there *)
Class PrimaryKey (D : Type) `{PostgresLaws D} : Prop := {
  pg_key_law schema r d :
    validate_schema schema = true ->
    wp (pg_execute (insert_query schema) (row_parameters r)) d
      (fun _ _ => row_key r ∉ keys_of schema (pg_rows d)) (fun _ _ => True);
}.

(** ** One message *)

Section key.
Context {D : Type} `{PrimaryKey D, JsonText}.
Implicit Types (p : PostgresOutputPlugin D) (msg : BorrowedInsertMessage).

(** the keys of the table the plugin writes to *)
Definition plugin_keys p : list (Uuid * Z) := keys_of (pp_schema p) (pg_rows (pp_pool p)).

Lemma keys_of_app schema l l' : keys_of schema (l ++ l') = keys_of schema l ++ keys_of schema l'.
Proof. unfold keys_of. by rewrite filter_app, fmap_app. Qed.

(** stored, under a key that was not there, or not stored *)
Lemma keyed_handle_message_spec p p' msg r :
  validate_schema (pp_schema p) = true -> postgres_handle_message msg p = (p', r) ->
  pp_schema p' = pp_schema p /\
  (r = Success /\ message_row_key msg ∉ plugin_keys p /\ plugin_keys p' = plugin_keys p ++ [message_row_key msg] \/
   r <> Success /\ pg_rows (pp_pool p') = pg_rows (pp_pool p)).
Proof.
  intros Hvalid Hrun. destruct (postgres_handle_message_spec p p' msg r Hvalid Hrun) as [Hs [[-> (v & Hv & Hrows)]|Hno]];
    (split; [done|]); [left|by right].
  split; [done|]. unfold plugin_keys. rewrite Hs, Hrows, keys_of_app. unfold keys_of at 3.
  rewrite filter_cons_True by done. split; [|done]. unfold postgres_handle_message in Hrun.
  destruct (pool_get (pp_pool p)) as [[]|e]; [|done]. rewrite Hv in Hrun.
  pose proof (pg_key_law (pp_schema p) (mkDataRow (bi_object_id msg) (bi_timestamp msg) (bi_schema_id msg) v)
    (pp_pool p) Hvalid) as Hkey. unfold wp in Hkey. by destruct (pg_execute _ _ _) as [d [[]|e]].
Qed.

(** the runs of the plugin keep the key *)
Lemma keyed_run_spec l p p' rs :
  validate_schema (pp_schema p) = true -> plugin_run p l = (p', rs) ->
  pp_schema p' = pp_schema p /\ plugin_keys p ⊆ plugin_keys p' /\
  (NoDup (plugin_keys p) -> NoDup (plugin_keys p')) /\
  (forall msg, (msg, Success) ∈ zip l rs -> message_row_key msg ∈ plugin_keys p').
Proof.
  revert p rs. induction l as [|msg l IH]; intros p rs Hvalid; simpl.
  - intros [= <- <-]. split_and!; [done..|]. by intros msg ?%not_elem_of_nil.
  - destruct (postgres_handle_message msg p) as [p1 r] eqn:Hmsg.
    destruct (plugin_run p1 l) as [p2 rs'] eqn:Hrun. intros [= <- <-].
    destruct (keyed_handle_message_spec p p1 msg r Hvalid Hmsg) as [Hs Hcases].
    assert (validate_schema (pp_schema p1) = true) as Hvalid1 by (by rewrite Hs).
    destruct (IH p1 rs' Hvalid1 Hrun) as (Hs2 & Hsub & Hnodup & Hin).
    assert (plugin_keys p ⊆ plugin_keys p1 /\ (NoDup (plugin_keys p) -> NoDup (plugin_keys p1)) /\
      (r = Success -> message_row_key msg ∈ plugin_keys p1)) as (Hsub1 & Hnodup1 & Hr).
    { destruct Hcases as [(-> & Hnew & ->)|[Hr Hrows]].
      - split_and!; [set_solver| |set_solver]. intros Hn. apply NoDup_app. split_and!; [done|set_solver|apply NoDup_singleton].
      - unfold plugin_keys. rewrite Hs, Hrows. split_and!; done. }
    split_and!; [congruence|set_solver|auto|]. intros msg' [[= -> <-] | Hmsg']%elem_of_cons; [apply Hsub; auto|by apply Hin].
Qed.

(** a message whose key is there *)
Lemma duplicate_refused p p' msg r :
  validate_schema (pp_schema p) = true -> message_row_key msg ∈ plugin_keys p ->
  postgres_handle_message msg p = (p', r) ->
  pp_schema p' = pp_schema p /\ pg_rows (pp_pool p') = pg_rows (pp_pool p) /\ r <> Success.
Proof.
  intros Hvalid Hin Hrun. destruct (keyed_handle_message_spec p p' msg r Hvalid Hrun) as [Hs [(_ & Hnew & _)|[Hr Hrows]]];
    [by destruct Hnew|done].
Qed.

Lemma duplicates_refused l p p' rs :
  validate_schema (pp_schema p) = true -> Forall (fun msg => message_row_key msg ∈ plugin_keys p) l ->
  plugin_run p l = (p', rs) ->
  pp_schema p' = pp_schema p /\ pg_rows (pp_pool p') = pg_rows (pp_pool p) /\ Success ∉ rs.
Proof.
  revert p rs. induction l as [|msg l IH]; intros p rs Hvalid Hl; simpl.
  - intros [= <- <-]. split_and!; [done..|]. apply not_elem_of_nil.
  - destruct (postgres_handle_message msg p) as [p1 r] eqn:Hmsg.
    destruct (plugin_run p1 l) as [p2 rs'] eqn:Hrun. intros [= <- <-]. inversion Hl as [|? ? Hkey Hl']; subst.
    destruct (duplicate_refused p p1 msg r Hvalid Hkey Hmsg) as (Hs & Hrows & Hr).
    destruct (IH p1 rs') as (Hs2 & Hrows2 & Hrs); [by rewrite Hs| |done|].
    + unfold plugin_keys in *. by rewrite Hs, Hrows.
    + split_and!; [congruence..|]. by intros [?|?]%elem_of_cons.
Qed.

(** ** What is answered *)

Context `{UuidLaws, ValueText, !QueryDb D, !QueryDbLaws D, !SharedTable D}.

(** with the key, what is answered is a function of the rows *)
Lemma latest_documents_unique (P : DataRow -> Prop) all m m' :
  NoDup (row_key <$> all) -> latest_documents P all m -> latest_documents P all m' -> m = m'.
Proof.
  intros Hkey. assert (forall m m', latest_documents P all m -> latest_documents P all m' ->
    forall k text, m !! k = Some text -> m' !! k = Some text) as Hsub.
  { intros m1 m2 [Hin1 _] [Hin2 Hall2] k text Hk. destruct (Hin1 _ _ Hk) as (r & Hr & HP & Hlat & -> & ->).
    destruct (Hall2 r Hr HP Hlat) as [text' Hk']. destruct (Hin2 _ _ Hk') as (r' & Hr' & _ & Hlat' & Hid & ->).
    apply uuid_to_string_inj in Hid. rewrite Hk'. do 2 f_equal. unfold latest_row in *. rewrite Forall_forall in Hlat, Hlat'.
    specialize (Hlat r' Hr' (eq_sym Hid)). specialize (Hlat' r Hr Hid).
    enough (r' = r) as -> by done. apply (NoDup_fmap_same row_key all); [done..|].
    unfold row_key. f_equal; [done|lia]. }
  intros Hm Hm'. apply map_eq. intros k. destruct (m !! k) as [text|] eqn:Hk; [by rewrite (Hsub m m' Hm Hm' k text Hk)|].
  destruct (m' !! k) as [text|] eqn:Hk'; [|done]. by rewrite (Hsub m' m Hm' Hm k text Hk') in Hk.
Qed.

Lemma query_multiple_function schema texts d d' m m' :
  validate_schema schema = true -> pg_rows d' = pg_rows d -> NoDup (keys_of schema (pg_rows d)) ->
  query_multiple texts (mkPsqlQuery d schema) = Ok m -> query_multiple texts (mkPsqlQuery d' schema) = Ok m' -> m = m'.
Proof.
  intros Hvalid Hrows Hkeys Hm Hm'.
  destruct (query_multiple_latest (mkPsqlQuery d schema) texts m Hvalid Hm) as (ids & Hids & Hl).
  destruct (query_multiple_latest (mkPsqlQuery d' schema) texts m' Hvalid Hm') as (ids' & Hids' & Hl').
  apply try_map_Ok in Hids, Hids'. assert (ids' = ids) as -> by congruence.
  simpl in *. rewrite shared_rows in Hl, Hl'. rewrite Hrows in Hl'. eapply latest_documents_unique; [|exact Hl|exact Hl'].
  unfold keys_of in Hkeys. by rewrite <- list_fmap_compose.
Qed.

(** C27: redelivery is harmless, and a second message of an object in the same
    millisecond is lost.  When the plugin handles messages whose object and
    timestamp are those of messages it has stored before, whether Kafka has
    brought those again or others were routed in the same millisecond, the table
    stays as it is, the queries answer what they answered, and every such message
    is answered with a failure, also one that had been stored. *)
Theorem redelivery_harmless pool schema p p1 p2 l1 rs1 l2 rs2 :
  postgres_new pool schema = Ok p -> NoDup (keys_of schema (pg_rows pool)) ->
  plugin_run p l1 = (p1, rs1) ->
  (forall msg, msg ∈ l2 -> exists msg', (msg', Success) ∈ zip l1 rs1 /\ message_row_key msg' = message_row_key msg) ->
  plugin_run p1 l2 = (p2, rs2) ->
  pg_rows (pp_pool p2) = pg_rows (pp_pool p1) /\ Success ∉ rs2 /\ NoDup (keys_of schema (pg_rows (pp_pool p2))) /\
  forall texts m1 m2, query_multiple texts (mkPsqlQuery (pp_pool p1) schema) = Ok m1 ->
    query_multiple texts (mkPsqlQuery (pp_pool p2) schema) = Ok m2 -> m1 = m2.
Proof.
  unfold postgres_new. destruct (pool_build pool) as [[]|e]; simpl; [|done].
  destruct (validate_schema schema) eqn:Hvalid; intros [= <-]. intros Hkeys Hrun1 Hl2 Hrun2.
  destruct (keyed_run_spec l1 (mkPostgresOutputPlugin pool schema) p1 rs1 Hvalid Hrun1) as (Hs & _ & Hnodup & Hin).
  specialize (Hnodup Hkeys). simpl in Hs.
  destruct (duplicates_refused l2 p1 p2 rs2) as (Hs2 & Hrows & Hrs); [by rewrite Hs| |done|].
  { apply Forall_forall. intros msg (msg' & Hmsg' & <-)%Hl2. by apply Hin. }
  unfold plugin_keys in Hnodup. rewrite Hs in Hnodup. split_and!; [done|done|by rewrite Hrows|].
  intros texts m1 m2. by apply query_multiple_function.
Qed.
End key.

(** ** A table with its key, in memory *)

Record KeyedTable : Type := mkKeyedTable { kt_rows : list (string * DataRow) }.

#[local] Instance keyed_postgres : Postgres KeyedTable := {
  pool_build := fun _ => Ok ();
  pool_get := fun _ => Ok ();
  pg_execute := fun query params d =>
    match row_of_parameters params with
    | Some r => if decide (row_key r ∈ keys_of (query_schema query) (kt_rows d)) then (d, Err "duplicate key")
                else (mkKeyedTable (kt_rows d ++ [(query_schema query, r)]), Ok ())
    | None => (d, Err "bad parameters")
    end;
}.
#[local] Instance keyed_postgres_laws : PostgresLaws KeyedTable.
Proof.
  refine {| pg_rows := kt_rows |}. intros schema [] d _. unfold wp; simpl. rewrite query_schema_insert.
  by case_decide.
Defined.
#[local] Instance keyed_primary_key : PrimaryKey KeyedTable.
Proof.
  split. intros schema [] d _. unfold wp; simpl. rewrite query_schema_insert. by case_decide.
Qed.
#[local] Instance keyed_query : QueryDb KeyedTable := query_db_of (fun schema d => table_rows schema (kt_rows d)).
#[local] Instance keyed_query_laws : QueryDbLaws KeyedTable := query_db_of_laws (fun schema d => table_rows schema (kt_rows d)).
#[local] Instance keyed_shared : SharedTable KeyedTable.
Proof. by split. Qed.

(** stored once; then again, and with another document of the same millisecond *)
Definition keyed_message (data : string) : BorrowedInsertMessage := mkBorrowedInsertMessage 1 7 5 data.
Definition keyed_new : PostgresOutputPlugin KeyedTable := mkPostgresOutputPlugin (mkKeyedTable []) "public".
Definition keyed_stored := Eval vm_compute in plugin_run keyed_new [keyed_message "[]"].
Definition keyed_again := Eval vm_compute in plugin_run keyed_stored.1 [keyed_message "[]"; keyed_message "{}"].

Lemma redelivery_harmless_witness :
  pg_rows (pp_pool keyed_again.1) = pg_rows (pp_pool keyed_stored.1) /\ Success ∉ keyed_again.2 /\
  NoDup (keys_of "public" (pg_rows (pp_pool keyed_again.1))) /\
  forall texts m1 m2, query_multiple texts (mkPsqlQuery (pp_pool keyed_stored.1) "public") = Ok m1 ->
    query_multiple texts (mkPsqlQuery (pp_pool keyed_again.1) "public") = Ok m2 -> m1 = m2.
Proof.
  apply (redelivery_harmless (mkKeyedTable []) "public" keyed_new keyed_stored.1 keyed_again.1
    [keyed_message "[]"] keyed_stored.2 [keyed_message "[]"; keyed_message "{}"] keyed_again.2).
  - vm_eq.
  - constructor.
  - vm_eq.
  - intros msg Hmsg. exists (keyed_message "[]"). split; [apply list_elem_of_here|].
    by apply elem_of_cons in Hmsg as [-> | ->%list_elem_of_singleton].
  - vm_eq.
Defined.
Example keyed_answers : keyed_again.2 = [StorageLayerFailure "duplicate key"; StorageLayerFailure "duplicate key"].
Proof. reflexivity. Qed.
