(* ===== verification/ShrinkQuery.v ===== *)
(** The shrinker ([db-shrinker-postgres/src/main.rs]) next to the programs that
    share its table: a second run, rows that the command service inserts while a
    run is under way, and the answers of the query service
    ([query-service/src/psql.rs]) before and after a run.  Two rows of one object
    and version are covered too, although the table of
    [deployment/compose/setup/postgres/init.sql] excludes them by its primary key. *)
From stdpp Require Import prelude gmap strings list fin_maps sorting.
From S2P Require Import Prelude Json Externals Instances RegistryTypes CommandOutputs Shrinker QueryService.

(** ** Merging a document with itself *)

Lemma merge_null_l (v : Value) : merge Null v = v.
Proof. by destruct v. Qed.

Lemma merge_idem (v : Value) : merge v v = v.
Proof.
  induction v as [v IH] using value_object_ind. destruct v as [|b|n|s|l|m]; try done.
  destruct (merge_objects m m) as (c & -> & Hc). f_equal. apply map_eq. intros k. rewrite Hc.
  destruct (m !! k) as [w|] eqn:Hw; simpl; [|done]. by rewrite (IH m eq_refl k w).
Qed.

Lemma minimize_same (l : list Value) doc :
  l <> [] -> (forall v, v ∈ l -> v = doc) -> minimize_document l = Some doc.
Proof.
  destruct l as [|v l]; [done|]. intros _ Hl. assert (v = doc) as -> by (apply Hl; set_solver).
  unfold minimize_document. simpl. f_equal. induction l as [|w l IH]; [done|]. simpl.
  assert (w = doc) as -> by (apply Hl; set_solver). rewrite merge_idem. apply IH. set_solver.
Qed.

(** ** The selected schema *)

(** what PostgreSQL documents of [search_path]: it selects the schema of the
    unqualified names of the session, and only [SET] changes it *)
Class SearchPathLaws (D : Type) `{SqlLaws D} := {
  search_path : D -> string;
  search_path_rows d : data_rows d = schema_rows (search_path d) d;
  search_path_set schema d :
    validate_schema schema = true ->
    wp (sql_execute (set_path_statement schema)) d (fun _ d' => search_path d' = schema) (fun _ _ => True);
  search_path_query query params d :
    wp (sql_query query params) d (fun _ d' => search_path d' = search_path d)
      (fun _ d' => search_path d' = search_path d);
  search_path_transaction body d schema :
    wp body d (fun _ d' => search_path d' = schema) (fun _ d' => search_path d' = schema) ->
    search_path d = schema ->
    wp (sql_transaction body) d (fun _ d' => search_path d' = schema) (fun _ d' => search_path d' = schema);
}.

Section path.
Context {D : Type} `{SearchPathLaws D, UuidLib}.

Definition keeps_path {E A} (m : M D E A) : Prop := forall schema d, search_path d = schema ->
  wp m d (fun _ d' => search_path d' = schema) (fun _ d' => search_path d' = schema).

Lemma keeps_path_ret {E A} (a : A) : keeps_path (mret (M := M D E) a).
Proof. by intros schema d Hd. Qed.
Lemma keeps_path_lift {E A} (r : result E A) : keeps_path (lift r).
Proof. intros schema d Hd. by apply wp_lift. Qed.
Lemma keeps_path_query q params : keeps_path (sql_query q params).
Proof. intros schema d <-. apply search_path_query. Qed.
Lemma keeps_path_err {E F A} (f : F -> E) (m : M D F A) : keeps_path m -> keeps_path (with_err f m).
Proof. intros Hm schema d Hd. apply wp_with_err. by apply Hm. Qed.
Lemma keeps_path_bind {E A B} (m : M D E A) (f : A -> M D E B) :
  keeps_path m -> (forall a, keeps_path (f a)) -> keeps_path (m ≫= f).
Proof.
  intros Hm Hf schema d Hd. apply wp_bind. eapply wp_mono; [by apply Hm| |done].
  intros a d' Hd'. by apply Hf.
Qed.
Lemma keeps_path_transaction body : keeps_path body -> keeps_path (sql_transaction body).
Proof. intros Hb schema d Hd. apply search_path_transaction; [by apply Hb|done]. Qed.
Lemma keeps_path_for_each {E A} (f : A -> M D E ()) (l : list A) :
  (forall a, keeps_path (f a)) -> keeps_path (for_each f l).
Proof. intros Hf. induction l as [|a l IH]; [apply keeps_path_ret|]. by apply keeps_path_bind. Qed.
End path.
Create HintDb path discriminated.
#[export] Hint Resolve keeps_path_ret keeps_path_lift keeps_path_query keeps_path_err keeps_path_bind
  keeps_path_transaction keeps_path_for_each : path.

Section shrinks.
Context {D : Type} `{SearchPathLaws D, UuidLib}.
Implicit Types (id : Uuid) (d : D) (rows : list DataRow).

Lemma shrink_by_id_path id : keeps_path (shrink_by_id id).
Proof. unfold shrink_by_id, get_all_with_id, sql. repeat (first [apply keeps_path_bind; [|intros ?]|solve [auto with path]]). Qed.

(** after a run the selected schema is the shrunk one *)
Lemma shrink_main_path schema d d' :
  validate_schema schema = true -> shrink_main schema d = (d', Ok ()) -> data_rows d' = schema_rows schema d'.
Proof.
  intros Hschema Hrun. assert (wp (shrink_main schema) d (fun _ d' => search_path d' = schema) (fun _ _ => True)) as Hwp.
  { apply wp_bind, wp_with_err, wp_with_err. eapply wp_mono; [by apply search_path_set| |done]. intros [] d1 Hd1.
    assert (keeps_path (changed_ids ← with_context "Select duplicated object_ids" (sql (sql_query duplicated_query []));
      for_each (fun row => object_id ← lift (row_id_at row);
        with_context ("Shrinking of " +:+ uuid_to_string object_id) (shrink_by_id object_id)) changed_ids)) as Hk.
    { unfold with_context, sql. apply keeps_path_bind; [auto with path|]. intros ids. apply keeps_path_for_each. intros row.
      apply keeps_path_bind; [auto with path|]. intros id. apply keeps_path_err, shrink_by_id_path. }
    eapply wp_mono; [by apply (Hk schema)|done..]. }
  unfold wp in Hwp. rewrite Hrun in Hwp. by rewrite search_path_rows, Hwp.
Qed.

(** ** A second run *)

Lemma set_payload_same doc (r : DataRow) : row_payload r = doc -> set_payload doc r = r.
Proof. destruct r. by intros [= ->]. Qed.

(** the rows a run leaves of an object are of one version and hold one document *)
Lemma shrunk_uniform (old new : list DataRow) :
  shrunk old new -> exists v doc, forall r, r ∈ new -> row_version r = v /\ row_payload r = doc.
Proof.
  intros (l & r & doc & _ & _ & _ & _ & Hnew). exists (row_version r), doc. intros x.
  rewrite Hnew. by intros (y & -> & [Hy _]%list_elem_of_filter)%list_elem_of_fmap.
Qed.

Lemma shrunk_again v doc (rows rows' : list DataRow) :
  (forall r, r ∈ rows -> row_version r = v /\ row_payload r = doc) -> shrunk rows rows' -> rows' ≡ₚ rows.
Proof.
  intros Hrows (l & r & doc' & Hl & _ & Hr & Hdoc & Hnew). rewrite Hnew.
  assert (forall x, x ∈ l -> row_version x = v /\ row_payload x = doc) as Hall by (intros x; rewrite Hl; apply Hrows).
  apply last_Some_elem_of in Hr as Hin. destruct (Hall r Hin) as [-> _].
  rewrite (minimize_same _ doc) in Hdoc.
  - injection Hdoc as <-. rewrite list_filter_all by (intros x Hx; by apply Hrows).
    assert (set_payload doc <$> rows = id <$> rows) as ->; [|by rewrite list_fmap_id]. apply list_fmap_ext.
    intros i x Hx%list_elem_of_lookup_2. apply set_payload_same. by apply Hrows.
  - intros Hnil%fmap_nil_inv. by rewrite Hnil in Hin; apply not_elem_of_nil in Hin.
  - intros w (x & -> & Hx)%list_elem_of_fmap. by apply Hall.
Qed.

(** C34: running the shrinker twice is running it once: on a table a run has
    left, a second run changes no object, not even one whose rows share a
    version and therefore stay several. *)
Theorem shrink_main_idempotent schema d d1 d2 :
  validate_schema schema = true -> shrink_main schema d = (d1, Ok ()) -> shrink_main schema d1 = (d2, Ok ()) ->
  forall id, rows_of id (data_rows d2) ≡ₚ rows_of id (data_rows d1).
Proof.
  intros Hschema Hrun Hrun' id. pose proof (shrink_main_path _ _ _ Hschema Hrun) as Hpath.
  destruct (shrink_main_rows schema d d1 Hschema Hrun id) as [Hsame Hshrunk].
  destruct (shrink_main_rows schema d1 d2 Hschema Hrun' id) as [Hsame' Hshrunk']. rewrite <- Hpath in *.
  destruct (decide (length (rows_of id (data_rows d1)) <= 1)) as [Hle|Hgt%Nat.nle_gt]; [by apply Hsame'|].
  destruct (decide (length (rows_of id (schema_rows schema d)) <= 1)) as [Hle0|Hgt0%Nat.nle_gt].
  - rewrite (Hsame Hle0) in Hgt. lia.
  - destruct (shrunk_uniform _ _ (Hshrunk Hgt0)) as (v & doc & Hu). eapply shrunk_again; [exact Hu|by apply Hshrunk'].
Qed.

(** ** Rows inserted while an object is being shrunk *)

(** [shrink_by_id] up to the merged document, and its transaction: the first
    half is not part of the transaction *)
Definition shrink_read id : M D Stopped (Z * Value) :=
  rows ← get_all_with_id id;
  row ← lift (ok_or (Failure ["No rows with selected ID, did database change mid-shrink?"]) (last rows));
  version ← lift (row_version_at row);
  payloads ← lift (try_map row_payload_at rows);
  document ← lift (ok_or (Failure ["Failed minimizing document"]) (minimize_document payloads));
  mret (version, document).
Definition shrink_write id (read : Z * Value) : M D Stopped () :=
  sql (sql_transaction
    (sql_query delete_statement [PgUuid id; PgBigint read.1] ;;
     sql_query update_statement [PgJson read.2; PgUuid id; PgBigint read.1] ;;
     mret ())).

Lemma shrink_by_id_halves id d : shrink_by_id id d = (shrink_read id ≫= shrink_write id) d.
Proof.
  unfold shrink_by_id, shrink_read, mbind, M_bind. destruct (get_all_with_id id d) as [d1 [rows|e]]; [|done].
  unfold lift. destruct (ok_or _ (last rows)) as [row|e]; [|done]. destruct (row_version_at row); [|done].
  destruct (try_map row_payload_at rows) as [payloads|e]; [|done]. by destruct (ok_or _ (minimize_document payloads)).
Qed.

(** what was read: the latest version and the merge of the rows in their order *)
Definition read_of rows (v : Z) (doc : Value) : Prop :=
  exists l r, l ≡ₚ rows /\ StronglySorted version_le l /\ last l = Some r /\ row_version r = v /\
    minimize_document (row_payload <$> l) = Some doc.

Lemma shrink_read_spec id d :
  wp (shrink_read id) d (fun x d' => d' = d /\ read_of (rows_of id (data_rows d)) x.1 x.2) (fun _ d' => d' = d).
Proof.
  apply wp_bind, wp_with_err. eapply wp_mono; [apply sql_by_id_law| |by intros e d1 ->].
  intros rows d1 (-> & l & Hl & Hs & ->).
  apply wp_bind, wp_lift; [|done]. intros row Hrow. rewrite fmap_last in Hrow.
  destruct (last l) as [r|] eqn:Hr; simpl in Hrow; [|done]. injection Hrow as <-.
  apply wp_bind, wp_lift; [|done]. intros v [= <-].
  apply wp_bind, wp_lift; [|done]. intros payloads. rewrite try_map_payloads. intros [= <-].
  apply wp_bind, wp_lift; [|done]. intros doc Hdoc%ok_or_Ok. apply wp_ret. split; [done|]. by exists l, r.
Qed.

(** one row of an object after the transaction *)
Definition written (v : Z) (doc : Value) (r : DataRow) : list DataRow :=
  if decide (row_version r < v)%Z then [] else if decide (row_version r = v) then [set_payload doc r] else [r].

Lemma rows_of_written id v doc (l : list DataRow) :
  update_row id v doc <$> rows_of id (filter (fun r => ~ deleted id v r) l) =
    rows_of id l ≫= written v doc.
Proof.
  unfold rows_of, written, update_row. induction l as [|r l IH]; [done|].
  destruct (decide (row_object_id r = id)) as [Hid|Hid].
  - rewrite (filter_cons_True (fun r => row_object_id r = id)) by done. cbn [mbind list_bind].
    destruct (decide (row_version r < v)%Z) as [Hlt|Hge].
    + rewrite (filter_cons_False (fun r => ~ deleted id v r)) by (unfold deleted; tauto). exact IH.
    + rewrite (filter_cons_True (fun r => ~ deleted id v r)) by (unfold deleted; tauto).
      rewrite filter_cons_True by done. cbn [fmap list_fmap]. rewrite IH. unfold updated.
      by repeat case_decide; try tauto.
  - rewrite (filter_cons_False (fun r => row_object_id r = id) r l) by done.
    rewrite filter_cons_True by (unfold deleted; tauto). by rewrite filter_cons_False.
Qed.

Lemma shrink_write_spec id v doc d :
  wp (shrink_write id (v, doc)) d
    (fun _ d' => (rows_of id (data_rows d') ≡ₚ rows_of id (data_rows d) ≫= written v doc) /\
       forall j, j <> id -> rows_of j (data_rows d') ≡ₚ rows_of j (data_rows d))
    (fun _ d' => data_rows d' = data_rows d).
Proof.
  apply wp_with_err, sql_transaction_law; [by intros u d1 d2 ->|].
  apply wp_bind. eapply wp_mono; [apply sql_delete_law| |done]. intros a1 d1 Hd1.
  apply wp_bind. eapply wp_mono; [apply sql_update_law| |done]. intros a2 d2 Hd2. apply wp_ret. simpl in *.
  assert (forall j, rows_of j (data_rows d2) ≡ₚ
    update_row id v doc <$> rows_of j (filter (fun r => ~ deleted id v r) (data_rows d))) as Hj.
  { intros j. rewrite <- rows_of_update. unfold rows_of. by rewrite Hd2, Hd1. }
  split; [by rewrite Hj, rows_of_written|].
  intros j Hne. by rewrite Hj, rows_of_deleted_ne, update_row_ne.
Qed.

Lemma written_read rows v doc r : read_of rows v doc -> r ∈ rows -> (row_version r <= v)%Z.
Proof. intros (l & x & Hl & Hs & Hx & <- & _) Hr. apply (last_max l); [done..|]. by rewrite Hl. Qed.

(** a list of rows no later than the version that was read *)
Lemma written_old v doc rows :
  (forall r, r ∈ rows -> (row_version r <= v)%Z) ->
  rows ≫= written v doc = set_payload doc <$> filter (fun r => row_version r = v) rows.
Proof.
  induction rows as [|r rows IH]; intros Hle; [done|]. cbn [mbind list_bind].
  rewrite IH by (intros x Hx; apply Hle; set_solver). unfold written.
  specialize (Hle r (list_elem_of_here _ _)). destruct (decide (row_version r = v)) as [Hv|Hv].
  - rewrite decide_False by lia. by rewrite filter_cons_True.
  - rewrite decide_True by lia. by rewrite filter_cons_False.
Qed.
Lemma written_new v doc rows : (forall r, r ∈ rows -> (v < row_version r)%Z) -> rows ≫= written v doc = rows.
Proof.
  induction rows as [|r rows IH]; intros Hlt; [done|]. cbn [mbind list_bind].
  rewrite IH by (intros x Hx; apply Hlt; set_solver). specialize (Hlt r (list_elem_of_here _ _)).
  unfold written. by rewrite !decide_False by lia.
Qed.

(** C35: a row that is inserted between the two halves of [shrink_by_id], which
    no transaction spans, survives exactly if its version is later than every
    version that was read.  A later row is left as it is next to the merged
    document; an earlier one is deleted unread, and one of the same version is
    overwritten: then every row of the object holds the document that was merged
    without it.  Other objects keep their rows. *)
Theorem insert_during_shrink id d d0 d1 d2 v doc inserted :
  shrink_read id d = (d0, Ok (v, doc)) -> data_rows d1 ≡ₚ inserted ++ data_rows d0 ->
  shrink_write id (v, doc) d1 = (d2, Ok ()) ->
  read_of (rows_of id (data_rows d)) v doc /\
  ((forall r, r ∈ rows_of id inserted -> (v < row_version r)%Z) ->
     rows_of id (data_rows d2) ≡ₚ rows_of id inserted ++
       (set_payload doc <$> filter (fun r => row_version r = v) (rows_of id (data_rows d)))) /\
  ((forall r, r ∈ rows_of id inserted -> (row_version r <= v)%Z) ->
     forall r, r ∈ rows_of id (data_rows d2) -> row_version r = v /\ row_payload r = doc) /\
  forall j, j <> id -> rows_of j (data_rows d2) ≡ₚ rows_of j inserted ++ rows_of j (data_rows d).
Proof.
  intros Hread Hd1 Hwrite. destruct (wp_ok _ _ _ _ _ _ (shrink_read_spec id d) Hread) as [-> Hr].
  destruct (wp_ok _ _ _ _ _ _ (shrink_write_spec id v doc d1) Hwrite) as [Hid Hother].
  assert (forall j, rows_of j (data_rows d1) ≡ₚ rows_of j inserted ++ rows_of j (data_rows d)) as Hj.
  { intros j. unfold rows_of. by rewrite Hd1, filter_app. }
  simpl in Hr. split_and!; [done| | |].
  - intros Hnew. rewrite Hid, Hj, bind_app, written_new by done.
    rewrite (written_old v doc (rows_of id (data_rows d))); [done|]. intros r. by apply (written_read _ _ doc).
  - intros Hold r. rewrite Hid, Hj, bind_app, !written_old;
      [|intros x; by apply (written_read _ _ doc)|done].
    rewrite <- fmap_app. by intros (x & -> & [[Hx _]%list_elem_of_filter|[Hx _]%list_elem_of_filter]%elem_of_app)%list_elem_of_fmap.
  - intros j Hne. by rewrite Hother, Hj.
Qed.
End shrinks.

(** ** The answers of the query service *)

(** the query service reads the tables the shrinker works on; it names their schema
    without quotes, the shrinker's [search_path] has it in quotes *)
Class SharedSql (D : Type) `{SearchPathLaws D, !QueryDb D, !QueryDbLaws D} : Prop := {
  shared_sql_rows name d : qd_rows name d = schema_rows (schema_named name) d;
}.

Section answers.
Context {D : Type} `{SharedSql D, UuidLaws, JsonText, ValueText}.
Implicit Types (id : Uuid) (d : D).

(** the answer for one object *)
Lemma query_one name schema id d m :
  validate_schema name = true -> schema_named name = schema ->
  query_multiple [uuid_to_string id] (mkPsqlQuery d name) = Ok m ->
  (forall text, m !! uuid_to_string id = Some text -> exists r, r ∈ rows_of id (schema_rows schema d) /\
     latest_row (schema_rows schema d) r /\ text = value_display (row_payload r)) /\
  (rows_of id (schema_rows schema d) <> [] -> is_Some (m !! uuid_to_string id)).
Proof.
  intros Hname <- Hm. destruct (query_multiple_latest (mkPsqlQuery d name) _ _ Hname Hm) as (ids & Hids & Hlat & Hall).
  simpl in *. rewrite shared_sql_rows in *. set (schema := schema_named name) in *.
  assert (ids = [id]) as ->.
  { inversion Hids as [|? i ? ids' Hi Hnil]; subst. inversion Hnil; subst.
    rewrite uuid_parse_to_string in Hi. by simplify_eq. }
  split.
  - intros text Ht. destruct (Hlat _ _ Ht) as (r & Hr & Hid & Hrl & _ & ->).
    exists r. split_and!; [|done..]. apply list_elem_of_filter. set_solver.
  - intros Hne. destruct (rows_of id (schema_rows schema d)) as [|r l] eqn:Hrows; [done|].
    assert (r ∈ rows_of id (schema_rows schema d)) as [Hid Hin]%list_elem_of_filter by (rewrite Hrows; set_solver).
    destruct (latest_row_exists _ _ Hin) as (r' & Hin' & Hid' & Hr').
    rewrite <- Hid, <- Hid'. apply Hall; [done|set_solver|done].
Qed.

(** C36: a shrinker run changes what the query service answers.  For an object
    with several rows it answers the document of a latest row before the run,
    and afterwards the merge of all its documents in the order of their
    versions; for the other objects it answers the same.  (The query service names
    the schema without quotes: it is the shrunk one when its folded name is.) *)
Theorem shrink_changes_answers schema name id d d' before after :
  validate_schema schema = true -> shrink_main schema d = (d', Ok ()) ->
  validate_schema name = true -> schema_named name = schema ->
  query_multiple [uuid_to_string id] (mkPsqlQuery d name) = Ok before ->
  query_multiple [uuid_to_string id] (mkPsqlQuery d' name) = Ok after ->
  let rows := rows_of id (schema_rows schema d) in
  (length rows <= 1 -> after !! uuid_to_string id = before !! uuid_to_string id) /\
  (1 < length rows -> exists r v doc, r ∈ rows /\ latest_row (schema_rows schema d) r /\ read_of rows v doc /\
     before !! uuid_to_string id = Some (value_display (row_payload r)) /\
     after !! uuid_to_string id = Some (value_display doc)).
Proof.
  intros Hschema Hrun Hvalid Hname Hb Ha rows. pose proof (shrink_main_path _ _ _ Hschema Hrun) as Hpath.
  destruct (shrink_main_rows schema d d' Hschema Hrun id) as [Hsame Hshrunk]. rewrite Hpath in *.
  destruct (query_one _ _ _ _ _ Hvalid Hname Hb) as [Hb1 Hb2], (query_one _ _ _ _ _ Hvalid Hname Ha) as [Ha1 Ha2].
  fold rows in Hb1, Hb2, Hsame, Hshrunk. split.
  - intros Hlen. specialize (Hsame Hlen). destruct rows as [|r [|]] eqn:Hrows; [| |simpl in Hlen; lia].
    + destruct (before !! _) as [t|]; [by destruct (Hb1 t eq_refl) as (? & ?%not_elem_of_nil & _)|].
      destruct (after !! _) as [t|]; [|done]. destruct (Ha1 t eq_refl) as (? & Hin & _).
      rewrite Hsame in Hin. by apply not_elem_of_nil in Hin.
    + destruct Hb2 as [t Ht]; [done|]. destruct (Hb1 t Ht) as (x & ->%list_elem_of_singleton & _ & ->).
      destruct Ha2 as [t' Ht']; [by intros Hnil; rewrite Hnil in Hsame; apply Permutation_nil_cons in Hsame|].
      destruct (Ha1 t' Ht') as (y & Hy & _ & ->). rewrite Hsame in Hy.
      apply list_elem_of_singleton in Hy as ->. congruence.
  - intros Hlen. specialize (Hshrunk Hlen). destruct Hshrunk as (l & x & doc & Hl & Hs & Hx & Hdoc & Hnew).
    destruct Hb2 as [t Ht]; [by intros Hnil; rewrite Hnil in Hlen; simpl in Hlen; lia|].
    destruct (Hb1 t Ht) as (r & Hr & Hrl & ->). exists r, (row_version x), doc. split_and!; [done..|by exists l, x|done|].
    assert (set_payload doc x ∈ rows_of id (schema_rows schema d')) as Hin.
    { rewrite Hnew. apply list_elem_of_fmap_2, list_elem_of_filter. split; [done|].
      rewrite <- Hl. by apply last_Some_elem_of. }
    destruct Ha2 as [t' Ht']; [by intros Hnil; rewrite Hnil in Hin; apply not_elem_of_nil in Hin|].
    destruct (Ha1 t' Ht') as (y & Hy & _ & ->). rewrite Hnew in Hy.
    apply list_elem_of_fmap in Hy as (z & -> & _). done.
Qed.
End answers.

(** ** A database in memory *)

#[export] Instance memory_sql_path : SearchPathLaws MemorySql.
Proof.
  refine {| search_path := msq_path |}.
  - done.
  - intros schema d _. unfold wp; simpl. by rewrite statement_schema_set.
  - intros query params d. unfold wp; simpl. unfold msq_query.
    repeat (case_decide; [repeat case_match; simplify_eq/=; done|]). done.
  - intros body d schema. unfold wp; simpl. by destruct (body d) as [d' [u|e]].
Defined.
#[export] Instance memory_sql_query : QueryDb MemorySql := query_db_of (fun name => msq_rows (schema_named name)).
#[export] Instance memory_sql_query_laws : QueryDbLaws MemorySql := query_db_of_laws (fun name => msq_rows (schema_named name)).
#[export] Instance memory_sql_shared : SharedSql MemorySql.
Proof. by split. Qed.

Definition demo_once : MemorySql := Eval vm_compute in (shrink_main "public" demo_tables).1.
Definition demo_twice : MemorySql := Eval vm_compute in (shrink_main "public" demo_once).1.

Lemma shrink_main_idempotent_witness : rows_of 1 (data_rows demo_twice) ≡ₚ rows_of 1 (data_rows demo_once).
Proof. apply (shrink_main_idempotent "public" demo_tables demo_once demo_twice); vm_eq. Defined.

(** a row of version 4 arrives after the rows of versions 5 and 6 were read *)
Definition late_row : DataRow := mkDataRow 1 4 7 (Object {["c" := Null]}).
Definition demo_selected : MemorySql := mkMemorySql (msq_tables demo_tables) "public".
Definition demo_read : Z * Value := Eval vm_compute in
  match shrink_read 1%N demo_selected with (_, Ok x) => x | _ => (0%Z, Null) end.
Definition demo_interrupted : MemorySql := Eval vm_compute in
  msq_put (late_row :: data_rows demo_selected) demo_selected.
Definition demo_written : MemorySql := Eval vm_compute in (shrink_write 1%N demo_read demo_interrupted).1.

Lemma insert_during_shrink_witness :
  read_of (rows_of 1 (data_rows demo_selected)) 6 demo_read.2 /\
  ((forall r, r ∈ rows_of 1 [late_row] -> (6 < row_version r)%Z) ->
     rows_of 1 (data_rows demo_written) ≡ₚ rows_of 1 [late_row] ++
       (set_payload demo_read.2 <$> filter (fun r => row_version r = 6%Z) (rows_of 1 (data_rows demo_selected)))) /\
  ((forall r, r ∈ rows_of 1 [late_row] -> (row_version r <= 6)%Z) ->
     forall r, r ∈ rows_of 1 (data_rows demo_written) -> row_version r = 6%Z /\ row_payload r = demo_read.2) /\
  forall j, j <> 1%N ->
    rows_of j (data_rows demo_written) ≡ₚ rows_of j [late_row] ++ rows_of j (data_rows demo_selected).
Proof.
  apply (insert_during_shrink 1 demo_selected demo_selected demo_interrupted demo_written 6 demo_read.2 [late_row]);
    [vm_eq|by vm_compute|vm_eq].
Defined.

#[local] Instance demo_value_text : ValueText := {
  value_display := fun v => match v with Object m => if decide (size m = 2) then "{2}" else "{1}" | _ => "null" end }.
Definition demo_before : gmap string string := Eval vm_compute in
  default ∅ (result_ok (query_multiple [uuid_to_string 1%N] (mkPsqlQuery demo_tables "Public"))).
Definition demo_after : gmap string string := Eval vm_compute in
  default ∅ (result_ok (query_multiple [uuid_to_string 1%N] (mkPsqlQuery demo_once "Public"))).

Lemma shrink_changes_answers_witness :
  let rows := rows_of 1 (schema_rows "public" demo_tables) in
  (length rows <= 1 -> demo_after !! uuid_to_string 1%N = demo_before !! uuid_to_string 1%N) /\
  (1 < length rows -> exists r v doc, r ∈ rows /\ latest_row (schema_rows "public" demo_tables) r /\
     read_of rows v doc /\
     demo_before !! uuid_to_string 1%N = Some (value_display (row_payload r)) /\
     demo_after !! uuid_to_string 1%N = Some (value_display doc)).
Proof. apply (shrink_changes_answers "public" "Public" 1 demo_tables demo_once demo_before demo_after); vm_eq. Defined.

Example demo_answers_differ :
  (demo_before !! uuid_to_string 1%N, demo_after !! uuid_to_string 1%N) = (Some "{1}", Some "{2}").
Proof. vm_eq. Qed.
