(* ===== verification/QueryServiceTs.v ===== *)
(** The timeseries query services, [crates/query-service-ts/src/{druid,victoria}.rs]:
    requests are turned into Druid scan queries and VictoriaMetrics selectors. *)
From Stdlib Require Import Ascii.
From stdpp Require Import prelude gmap strings list fin_maps.
From S2P Require Import Prelude StringSplit Json Externals Instances RegistryTypes CommandOutputs.

(** ** HTTP *)

Inductive HttpRequest : Type :=
| PostJson (url : string) (body : Value)
| PostBody (url body : string)
| PostForm (url : string) (form : list (string * string))
| GetQuery (url : string) (query : list (string * string)).

(** the pool, whose connections are [reqwest] clients; a response is the outcome
    of reading its body *)
Class HttpQuery (N : Type) := {
  hq_get : N -> result string ();
  hq_send : HttpRequest -> M N string (result string string);
}.

(** [rpc::query_service_ts::Range] *)
Record Range : Type := mkRange {
  rg_schema_id : string; rg_object_id : string; rg_start : string; rg_end : string; rg_step : string }.

Definition json_object (l : list (string * Value)) : Value := Object (collect_map l).

Section http.
Context {N : Type} `{HttpQuery N}.
Abbreviation Query A := (M N Status A) (only parsing).

Definition status_of (context err : string) : Status := mkStatus Internal (context +:+ err).

Definition ts_connect : Query () :=
  reads (fun n => map_err (status_of "Unable to connect to database: ") (hq_get n)).

Definition ts_send (send_context read_context : string) (request : HttpRequest) : Query string :=
  response ← with_err (status_of send_context) (hq_send request);
  lift (map_err (status_of read_context) response).

(** *** Druid *)

Record DruidQuery : Type := mkDruidQuery { dq_addr : string; dq_table_name : string }.

Definition druid_query_db (q : DruidQuery) (query : Value) : Query string :=
  ts_connect ;;
  ts_send "Error requesting value from druid: " "Failed to deserialize response from Druid: "
    (PostJson (dq_addr q) query).

Definition druid_query_raw (query : string) (q : DruidQuery) : Query string :=
  ts_connect ;;
  ts_send "Error when querying DRUID with raw query: " "Couldn't retrieve respones bytes: "
    (PostBody (dq_addr q) query).

Definition selector (dimension value : string) : Value :=
  json_object [("type", VString "selector"); ("dimension", VString dimension); ("value", VString value)].

Definition druid_scan (table : string) (filter : Value) (granularity interval : string) : Value :=
  json_object [("queryType", VString "scan"); ("dataSource", VString table); ("columns", Array []);
    ("filter", filter); ("granularity", VString granularity); ("intervals", Array [VString interval])].

Definition druid_query_by_range (request : Range) (q : DruidQuery) : Query string :=
  let intervals := rg_start request +:+ "/" +:+ rg_end request in
  let filter := json_object [("type", VString "and");
    ("fields", Array [selector "object_id" (rg_object_id request);
                      selector "schema_id" (rg_schema_id request)])] in
  druid_query_db q (druid_scan (dq_table_name q) filter (rg_step request) intervals).

Definition druid_query_by_schema (schema_id : string) (q : DruidQuery) : Query string :=
  druid_query_db q (druid_scan (dq_table_name q) (selector "schema_id" schema_id) "none"
    "2000-01-01T00:00Z/3000-01-01T00:00Z").

(** the [query_raw] of the service, over the inherent one *)
Definition druid_raw_statement (raw_statement : string) (q : DruidQuery) : Query string :=
  druid_query_raw raw_statement q.

(** *** VictoriaMetrics *)

Record VictoriaQuery : Type := mkVictoriaQuery { vq_addr : string }.

Definition victoria_query_db (q : VictoriaQuery) (method endpoint : string)
    (query : list (string * string)) : Query string :=
  ts_connect ;;
  let url := vq_addr q +:+ endpoint in
  request ← lift (if decide (method = "POST") then Ok (PostForm url query)
                  else if decide (method = "GET") then Ok (GetQuery url query)
                  else Err (mkStatus Internal ("Method " +:+ dq +:+ method +:+ dq +:+
                         " not matched. Only POST and GET are currently supported")));
  ts_send "Error requesting value from VictoriaMetrics: "
    "Failed to deserialize response from VictoriaMetrics: " request.

(** the query of [query_by_range]: optional bounds are left out when empty *)
Definition range_parameters (request : Range) : list (string * string) :=
  let optional name value := if decide (value = EmptyString) then [] else [(name, value)] in
  [("query", "{object_id=" +:+ dq +:+ rg_object_id request +:+ dq +:+ "}")] ++
  optional "start" (rg_start request) ++ optional "end" (rg_end request) ++
  optional "step" (rg_step request).

Definition victoria_query_by_range (request : Range) (q : VictoriaQuery) : Query string :=
  victoria_query_db q "GET" "/query_range" (range_parameters request).

Definition victoria_query_by_schema (schema_id : string) (q : VictoriaQuery) : Query string :=
  victoria_query_db q "GET" "/query"
    [("query", "{__name__=~" +:+ dq +:+ schema_id +:+ "_.*" +:+ dq +:+ "}")].

(** [RawStatementParameters] and its serde-derived reader *)
Record RawStatementParameters : Type := mkRawStatementParameters {
  rs_method : string; rs_endpoint : string; rs_queries : list (string * string) }.
Class RawStatementText := { raw_statement_from_str : string -> result string RawStatementParameters }.

Definition victoria_query_raw `{RawStatementText} (raw_statement : string) (q : VictoriaQuery) :
    Query string :=
  params ← lift (map_err (status_of "Did not deserialize raw_statement: ")
                   (raw_statement_from_str raw_statement));
  victoria_query_db q (rs_method params) (rs_endpoint params) (rs_queries params).
End http.

(** ** Selectors and written series *)

(** the tags of a line of line protocol: what follows the measurement, up to the
    first space, as comma-separated [name=value] pairs *)
Definition line_tags (line : string) : list (string * string) :=
  let head := default EmptyString (split_on " " line !! 0) in
  (fun pair => match split_on "=" pair with
               | [k; v] => (k, v) | k :: _ => (k, EmptyString) | [] => (EmptyString, EmptyString) end)
  <$> tail (split_on "," head).

(** the label a selector [{label="value"}] constrains *)
Definition selector_label (query : string) : string :=
  string_drop 1 (default EmptyString (split_on "=" query !! 0)).

(** the text of a [Uuid] is hexadecimal digits and hyphens *)
Class UuidChars `{UuidLib} : Prop := {
  uuid_chars u c : char_in c (uuid_to_string u) = true -> c = "-"%char \/ is_ascii_alphanumeric c = true;
}.

Section properties.
Context `{UuidChars, VictoriaTextLaws, ValueText}.

Lemma uuid_without u c :
  c <> "-"%char -> is_ascii_alphanumeric c = false -> char_in c (uuid_to_string u) = false.
Proof.
  intros Hc Hn. apply not_true_is_false. intros Hin. destruct (uuid_chars u c Hin); congruence.
Qed.

Lemma char_in_app c s t : char_in c (s +:+ t) = char_in c s || char_in c t.
Proof. induction s as [|a s IH]; [done|]. change (Ascii.eqb a c || char_in c (s +:+ t) = Ascii.eqb a c || char_in c s || char_in c t). by rewrite IH, orb_assoc. Qed.

Lemma line_text_tags measurement tag obj :
  line_tags (line_text measurement tag obj) = [("objectId", uuid_to_string tag)].
Proof.
  unfold line_tags, line_text.
  set (rest := join "," _ +:+ _).
  replace (uuid_to_string measurement +:+ ",objectId=" +:+ uuid_to_string tag +:+ " " +:+ rest)
    with ((uuid_to_string measurement +:+ ",objectId=" +:+ uuid_to_string tag) +:+ String " " rest)
    by (by rewrite !string_app_assoc).
  rewrite split_on_app.
  - cbn [lookup list_lookup default id]. change (",objectId=" +:+ uuid_to_string tag)
      with (String "," ("objectId=" +:+ uuid_to_string tag)).
    rewrite split_on_app by (by apply uuid_without). cbn [tail].
    rewrite split_on_none; [|rewrite char_in_app; simpl; by apply uuid_without].
    cbn [fmap list_fmap].
    change ("objectId=" +:+ uuid_to_string tag) with ("objectId" +:+ String "=" (uuid_to_string tag)).
    rewrite split_on_app by done. rewrite split_on_none by (by apply uuid_without). done.
  - rewrite !char_in_app. rewrite !uuid_without by done. done.
Qed.

(** The range query of the VictoriaMetrics service finds nothing of what
    the command service has written: its selector asks for a label that no
    written line carries (the label is [object_id] here, [objectId] there). *)
Theorem victoria_range_query_misses measurement tag obj text request query :
  line measurement tag obj = Ok text -> ("query", query) ∈ range_parameters request ->
  selector_label query ∉ (line_tags text).*1.
Proof.
  intros Hline Hquery.
  assert (selector_label query = "object_id") as ->.
  { assert (query = "{object_id=" +:+ dq +:+ rg_object_id request +:+ dq +:+ "}") as ->; [|done].
    unfold range_parameters in Hquery.
    repeat (apply elem_of_app in Hquery as [Hquery|Hquery]; [|]);
      try (case_decide; set_solver). set_solver. }
  destruct (decide (valid_payload obj)) as [Hv|Hv].
  - rewrite line_valid in Hline by done. injection Hline as <-. rewrite line_text_tags. set_solver.
  - destruct (line_invalid measurement tag obj Hv) as (e & He & _). congruence.
Qed.
End properties.

(** ** Witness *)

#[export] Instance uuid_chars_inst : UuidChars.
Proof.
  split. intros u c. change (char_in c (pos_to_string (encode u)) = true ->
    c = "-"%char \/ is_ascii_alphanumeric c = true). generalize (encode u).
  assert (forall a, a = "O"%char \/ a = "I"%char \/ a = "H"%char -> Ascii.eqb a c = true ->
    is_ascii_alphanumeric c = true) as Ha.
  { intros a Ha Hc%Ascii.eqb_eq. subst c. by destruct Ha as [-> |[-> | ->]]. }
  induction p as [p IH|p IH|]; intros [Hc|Hc]%orb_true_iff; eauto; try done.
Qed.

Definition demo_range : Range := mkRange "7" "1" "2020" "" "1m".
Definition demo_payload : Payload := mkPayload {["a" := VBool true]} 12.

Lemma victoria_range_query_misses_witness :
  selector_label ("{object_id=" +:+ dq +:+ "1" +:+ dq +:+ "}") ∉ (line_tags (line_text 7 1 demo_payload)).*1.
Proof.
  apply (victoria_range_query_misses 7 1 demo_payload (line_text 7 1 demo_payload) demo_range).
  - vm_eq.
  - apply list_elem_of_here.
Defined.
