(* ===== verification/Mains.v ===== *)
(** Starting the services around the databases, and the HTTP surface of the API:
    [query-service/src/main.rs], [query-service-ts/src/main.rs], the options of
    [db-shrinker-postgres/src/main.rs], and the filters of [api/src/main.rs]. *)
From stdpp Require Import prelude gmap strings list fin_maps.
From S2P Require Import Prelude Json Externals Instances RegistryTypes CommandOutputs Shrinker QueryService.
From S2P Require Import QueryServiceTs.

(** ** PostgreSQL *)

(** [PsqlConfig], [PostgresOutputConfig] and the shrinker's [Opts] *)
Record PsqlConfig : Type := mkPsqlConfig {
  pc_username : string; pc_password : string; pc_host : string; pc_port : Z;
  pc_dbname : string; pc_schema : string }.
(** the [Config] of the client library *)
Record PgConfig : Type := mkPgConfig {
  pg_user : string; pg_password : string; pg_host : string; pg_port : Z; pg_dbname : string }.
Definition pg_config (c : PsqlConfig) : PgConfig :=
  mkPgConfig (pc_username c) (pc_password c) (pc_host c) (pc_port c) (pc_dbname c).

(** a pool is made without connecting; a client connects *)
Class PgConnect (D : Type) := {
  pool_for : PgConfig -> D;
  client_for : PgConfig -> result string D;
}.

(** the gRPC server of a service on a port: how it ends *)
Class GrpcServer := { grpc_serve : Z -> result string () }.

Definition spawn_server `{GrpcServer} (port : Z) : result (list string) () :=
  map_err (fun e => ["gRPC server failed"; e]) (grpc_serve port).

Section postgres.
Context {D : Type} `{QueryDb D, PgConnect D, GrpcServer, UuidLib}.

(** [PsqlQuery::load] *)
Definition load_psql (config : PsqlConfig) : result (list string) (PsqlQuery D) :=
  psql_load (pool_for (pg_config config)) (pc_schema config).

(** [main] of the query service: the service, once its server has ended *)
Definition query_service_main (config : PsqlConfig) (input_port : Z) : result (list string) (PsqlQuery D) :=
  service ← load_psql config; spawn_server input_port ;; Ok service.

(** [main] of the shrinker: the database it leaves and how the run ended, unless
    it did not connect *)
Definition shrinker_main `{SqlClient D} (opts : PsqlConfig) : result (list string) (D * result Stopped ()) :=
  client ← map_err (fun e => ["Connection to PostgreSQL"; e]) (client_for (pg_config opts));
  Ok (shrink_main (pc_schema opts) client).

(** a query service that serves has a schema with a valid name, in the database
    the options name *)
Lemma query_service_main_Ok config port service :
  query_service_main config port = Ok service ->
  service = mkPsqlQuery (pool_for (pg_config config)) (pc_schema config) /\ validate_schema (pc_schema config) = true.
Proof.
  unfold query_service_main, load_psql, psql_load. destruct (qd_build _); simpl; [|done].
  destruct (validate_schema (pc_schema config)); simpl; [|done].
  destruct (spawn_server port); simpl; [|done]. by intros [= <-].
Qed.
End postgres.

(** ** Timeseries *)

Inductive TsConfigType : Type :=
| ConfigVictoria (victoria_url : string)
| ConfigDruid (druid_url druid_table_name : string).
Inductive TsService : Type := ServesVictoria (q : VictoriaQuery) | ServesDruid (q : DruidQuery).

Section timeseries.
(** [bb8]'s pool of HTTP clients; its manager's [connect] never fails *)
Context (pool_built : result string ()) `{GrpcServer}.

(** [VictoriaQuery::load] and [DruidQuery::load] *)
Definition victoria_load (url : string) : result (list string) VictoriaQuery :=
  map_err (fun e => ["Failed to build connection pool"; e]) pool_built ;; Ok (mkVictoriaQuery url).
Definition druid_load (url table : string) : result (list string) DruidQuery :=
  map_err (fun e => ["Failed to build connection pool"; e]) pool_built ;; Ok (mkDruidQuery url table).

Definition query_service_ts_main (config : TsConfigType) (input_port : Z) : result (list string) TsService :=
  match config with
  | ConfigVictoria url =>
      service ← victoria_load url; spawn_server input_port ;; Ok (ServesVictoria service)
  | ConfigDruid url table =>
      service ← druid_load url table; spawn_server input_port ;; Ok (ServesDruid service)
  end.
End timeseries.

(** ** The HTTP surface of the API *)

(** what the filters look at: the method, the segments of the path, and whether
    the request asks for a websocket. The requests are those of a page of the same
    origin: what [warp::cors] answers to the others is left out. *)
Record ApiRequest : Type := mkApiRequest {
  ar_method : string;
  ar_path : list string;
  ar_websocket : bool;
}.
Inductive ApiRoute : Type := Graphiql | Homepage | Graphql | Subscriptions.
#[export] Instance ApiRoute_eq_dec : EqDecision ApiRoute.
Proof. solve_decision. Defined.

(** [warp::path(p)] takes a first segment, whatever follows it *)
Definition path_filter (p : string) (r : ApiRequest) : bool :=
  match ar_path r with segment :: _ => bool_decide (segment = p) | [] => false end.
Definition path_end (r : ApiRequest) : bool := bool_decide (ar_path r = []).

Section routes.
(** what [juniper_warp]'s filter accepts as a GraphQL request *)
Context (graphql_request : ApiRequest -> bool).

Definition graphiql_filter (r : ApiRequest) : option ApiRoute :=
  if bool_decide (ar_method r = "GET") && path_filter "graphiql" r then Some Graphiql else None.
Definition homepage_filter (r : ApiRequest) : option ApiRoute := if path_end r then Some Homepage else None.
Definition graphql_filter (r : ApiRequest) : option ApiRoute :=
  if path_filter "graphql" r && graphql_request r then Some Graphql else None.
Definition subscriptions_filter (r : ApiRequest) : option ApiRoute :=
  if path_filter "subscriptions" r && ar_websocket r then Some Subscriptions else None.

(** the filters, in the order of their [or] *)
Definition api_filters : list (ApiRequest -> option ApiRoute) :=
  [graphiql_filter; homepage_filter; graphql_filter; subscriptions_filter].
Definition api_routes (r : ApiRequest) : option ApiRoute := head (omap (fun f => f r) api_filters).

(** the header of the reply to a websocket *)
Definition reply_header (route : ApiRoute) : option (string * string) :=
  match route with Subscriptions => Some ("Sec-WebSocket-Protocol", "graphql-ws") | _ => None end.

(** what a route is for *)
Definition serves (r : ApiRequest) (route : ApiRoute) : Prop :=
  match route with
  | Graphiql => ar_method r = "GET" /\ head (ar_path r) = Some "graphiql"
  | Homepage => ar_path r = []
  | Graphql => head (ar_path r) = Some "graphql" /\ graphql_request r = true
  | Subscriptions => head (ar_path r) = Some "subscriptions" /\ ar_websocket r = true
  end.

Lemma path_filter_head p r : path_filter p r = true <-> head (ar_path r) = Some p.
Proof.
  unfold path_filter. destruct (ar_path r) as [|segment l]; simpl; [done|]. rewrite bool_decide_eq_true. naive_solver.
Qed.

(** no request has two routes, so the order of the filters does not matter *)
Theorem api_routes_exact r route : api_routes r = Some route <-> serves r route.
Proof.
  assert (forall route', (exists f, f ∈ api_filters /\ f r = Some route') <-> serves r route') as Hf.
  { intros route'. unfold api_filters. setoid_rewrite elem_of_cons. split.
    - intros (f & Hin & Hr). destruct Hin as [->|[->|[->|[->|?%not_elem_of_nil]%elem_of_cons]%elem_of_cons]%elem_of_cons]; [..|done];
        unfold graphiql_filter, homepage_filter, graphql_filter, subscriptions_filter, path_end in Hr; simpl;
        (case_match; [|done]); injection Hr as <-; simpl;
        rewrite ?andb_true_iff, ?bool_decide_eq_true, ?path_filter_head in *; done.
    - intros Hs. destruct route'; simpl in Hs.
      + exists graphiql_filter. split; [by left|]. unfold graphiql_filter. destruct Hs as [-> Hp%path_filter_head].
        by rewrite Hp.
      + exists homepage_filter. split; [right; set_solver|]. unfold homepage_filter, path_end. by rewrite Hs.
      + exists graphql_filter. split; [right; set_solver|]. unfold graphql_filter. destruct Hs as [Hp%path_filter_head ->].
        by rewrite Hp.
      + exists subscriptions_filter. split; [right; set_solver|]. unfold subscriptions_filter.
        destruct Hs as [Hp%path_filter_head ->]. by rewrite Hp. }
  assert (forall a b, serves r a -> serves r b -> a = b) as Hone.
  { intros [] []; simpl; intros; destruct_and?; try done; destruct (ar_path r); simplify_eq/=. }
  rewrite <- Hf. unfold api_routes. split.
  - intros Hh. apply head_Some_elem_of in Hh. apply list_elem_of_omap in Hh as (f & ? & ?). by exists f.
  - intros (f & Hin & Hr). destruct (omap (fun f => f r) api_filters) as [|x l] eqn:Ho; simpl.
    + assert (route ∈ omap (fun f => f r) api_filters) as Hx by (apply list_elem_of_omap; by exists f).
      rewrite Ho in Hx. by apply not_elem_of_nil in Hx.
    + f_equal. apply Hone.
      * apply Hf. assert (x ∈ omap (fun f => f r) api_filters) as Hx by (rewrite Ho; apply list_elem_of_here).
        apply list_elem_of_omap in Hx as (f' & ? & ?). by exists f'.
      * apply Hf. by exists f.
Qed.
End routes.
