(* ===== verification/QueryRouter.v ===== *)
(** The query router, [crates/query-router/src/{cache,handler,error}.rs], with the
    clients it calls, [crates/rpc/src/{query_service,query_service_ts}.rs].
    The servers behind the clients are a class; the address and type of a schema
    come from the schema registry and are cached. *)
From Stdlib Require Import Ascii.
From stdpp Require Import prelude gmap strings list fin_maps.
From S2P Require Import Prelude StringSplit Json Externals Instances RegistryTypes RegistryRpc Lru.
From S2P Require Import Messaging RegistryClient.

(** ** Clients *)

(** the servers, by address: connecting, and the calls the router makes *)
Class Servers (R : Type) := {
  srv_connect : string -> R -> result string ();
  srv_get_schema_query_address : string -> string -> R -> result Status string;
  srv_get_schema_type : string -> string -> R -> result Status Z;
  srv_query_multiple : string -> list string -> R -> result Status (gmap string string);
  srv_query_by_schema : string -> string -> R -> result Status (gmap string string);
  srv_query_raw : string -> string -> R -> result Status string;
  srv_ts_query_by_range : string -> string -> string -> string -> string -> string -> R ->
    result Status string;
  srv_ts_query_by_schema : string -> string -> R -> result Status string;
  srv_ts_query_raw : string -> string -> R -> result Status string;
}.

Section clients.
Context {R : Type} `{Servers R}.

(** connect to [addr], then call *)
Definition client_call {A} (service addr : string) (call : R -> result Status A) (net : R) :
    result ClientError A :=
  map_err (ConnectionError service) (srv_connect addr net) ;;
  map_err (QueryError service) (call net).

Definition qs_query_multiple (object_ids : list string) (addr : string) : R -> result ClientError (gmap string string) :=
  client_call "query service" addr (srv_query_multiple addr object_ids).
Definition qs_query_by_schema (schema_id addr : string) : R -> result ClientError (gmap string string) :=
  client_call "query service" addr (srv_query_by_schema addr schema_id).
Definition qs_query_raw (raw_statement addr : string) : R -> result ClientError string :=
  client_call "query service" addr (srv_query_raw addr raw_statement).
Definition ts_query_by_range (schema_id object_id start end_ step addr : string) :
    R -> result ClientError string :=
  client_call "timeseries query service" addr
    (srv_ts_query_by_range addr schema_id object_id start end_ step).
Definition ts_query_by_schema (schema_id addr : string) : R -> result ClientError string :=
  client_call "timeseries query service" addr (srv_ts_query_by_schema addr schema_id).
Definition ts_query_raw (raw_statement addr : string) : R -> result ClientError string :=
  client_call "timeseries query service" addr (srv_ts_query_raw addr raw_statement).
End clients.

(** ** Errors and bodies *)

Inductive RouterError : Type :=
| RouterClientError (e : ClientError)
| JsonError (e : string)
| SingleQueryMissingValue
| RawQueryMissingValue
| WrongValueFormat.

Inductive Body : Type :=
| BodyRange (from to step : string)
| BodyRaw (raw_statement : string)
| BodyEmpty.

(** [#[serde(untagged)]]: the first variant whose fields are there; other
    members are ignored, so every object is at least [Empty] *)
Definition body_from_value (v : Value) : option Body :=
  let field k := get_key k v ≫= string_from_value in
  match field "from", field "to", field "step" with
  | Some from, Some to, Some step => Some (BodyRange from to step)
  | _, _, _ =>
      match field "raw_statement" with
      | Some raw_statement => Some (BodyRaw raw_statement)
      | None => if is_object v then Some BodyEmpty else None
      end
  end.

(** a reply: bytes passed through, or a map written as a JSON object (in an
    unspecified order of its members) *)
Inductive Reply : Type := ReplyBytes (bytes : string) | ReplyJson (values : gmap string Value).

(** ** The service *)

Section router.
Context {C R : Type} `{LruLib (string * SchemaType) C, Servers R, UuidLib, JsonText, StringHashIter}.
Abbreviation Handler A := (M C RouterError A) (only parsing).

(** [SchemaRegistryCache::get_schema_info] *)
Definition fetch_schema_info (schema_registry_addr : string) (schema_id : Uuid) (net : R) :
    result RouterError (string * SchemaType) :=
  let id := uuid_to_string schema_id in
  map_err (RouterClientError ∘ ConnectionError "schema registry") (srv_connect schema_registry_addr net) ;;
  address ← map_err (RouterClientError ∘ QueryError "schema registry")
              (srv_get_schema_query_address schema_registry_addr id net);
  t ← map_err (RouterClientError ∘ QueryError "schema registry")
        (srv_get_schema_type schema_registry_addr id net);
  Ok (address, schema_type_from_proto (schema_type_or_default t)).

Definition get_schema_info (schema_registry_addr : string) (schema_id : Uuid) (net : R) :
    Handler (string * SchemaType) := fun cache =>
  let '(cached_data, cache1) := lru_get_mut schema_id cache in
  match cached_data with
  | Some info => (cache1, Ok info)
  | None =>
      match fetch_schema_info schema_registry_addr schema_id net with
      | Ok info => (lru_insert schema_id info cache1, Ok info)
      | Err e => (cache1, Err e)
      end
  end.

Definition client {A} (r : result ClientError A) : Handler A := lift (map_err RouterClientError r).

Definition query_single (sr : string) (object_id schema_id : Uuid) (request_body : Body) (net : R) :
    Handler Reply :=
  info ← get_schema_info sr schema_id net;
  let address := info.1 in
  match info.2, request_body with
  | DocumentStorage, _ =>
      values ← client (qs_query_multiple [uuid_to_string object_id] address net);
      lift (ReplyBytes <$> ok_or SingleQueryMissingValue (values !! uuid_to_string object_id))
  | Timeseries, BodyRange from to step =>
      timeseries ← client (ts_query_by_range (uuid_to_string schema_id) (uuid_to_string object_id)
                             from to step address net);
      mret (ReplyBytes timeseries)
  | Timeseries, BodyEmpty => fail SingleQueryMissingValue
  | _, BodyRaw _ => fail WrongValueFormat
  end.

Definition byte_map_to_json_map (map : gmap string string) : result RouterError (gmap string Value) :=
  l ← try_map (fun kv => v ← map_err JsonError (json_parse kv.2); Ok (kv.1, v)) (string_hash_iter map);
  Ok (collect_map l).

Definition query_multiple (sr : string) (object_ids : string) (schema_id : Uuid) (net : R) :
    Handler Reply :=
  info ← get_schema_info sr schema_id net;
  values ← client (qs_query_multiple (split_on "," object_ids) info.1 net);
  lift (ReplyJson <$> byte_map_to_json_map values).

Definition query_by_schema (sr : string) (schema_id : Uuid) (net : R) : Handler Reply :=
  info ← get_schema_info sr schema_id net;
  match info.2 with
  | DocumentStorage =>
      values ← client (qs_query_by_schema (uuid_to_string schema_id) info.1 net);
      lift (ReplyJson <$> byte_map_to_json_map values)
  | Timeseries =>
      timeseries ← client (ts_query_by_schema (uuid_to_string schema_id) info.1 net);
      mret (ReplyBytes timeseries)
  end.

Definition query_raw (sr : string) (schema_id : Uuid) (request_body : Body) (net : R) : Handler Reply :=
  info ← get_schema_info sr schema_id net;
  match request_body, info.2 with
  | BodyRaw raw_statement, DocumentStorage =>
      values ← client (qs_query_raw raw_statement info.1 net); mret (ReplyBytes values)
  | BodyRaw raw_statement, Timeseries =>
      values ← client (ts_query_raw raw_statement info.1 net); mret (ReplyBytes values)
  | BodyEmpty, _ => fail RawQueryMissingValue
  | BodyRange _ _ _, _ => fail WrongValueFormat
  end.
End router.

(** ** Rejections *)

(** [recover]: the status and body made of a rejection of this crate; any other
    ([None]) is passed on.  ([main] does not install it.) *)
Definition recover `{StatusText} (rejection : option RouterError) : option (Z * Value) :=
  error ← rejection;
  let message := match error with
    | RouterClientError err => client_error_display err
    | JsonError err => "Unable to serialize JSON: " +:+ err
    | SingleQueryMissingValue | WrongValueFormat | RawQueryMissingValue => EmptyString
    end in
  Some (500%Z, Object {["message" := VString message]}).

(** ** Properties *)

Section properties.
Context {C R : Type} `{LruLaws (string * SchemaType) C, Servers R, UuidLib, JsonText, StringHashIter}.
Implicit Types (c : C) (net : R).

(** where the address and type of a schema come from *)
Definition info_source (sr : string) (schema_id : Uuid) net c (info : string * SchemaType) : Prop :=
  match lru_entries c !! schema_id with
  | Some cached => info = cached
  | None => fetch_schema_info sr schema_id net = Ok info
  end.

Lemma get_schema_info_spec sr schema_id net c :
  wp (get_schema_info sr schema_id net) c
    (fun info c' => info_source sr schema_id net c info /\
       lru_entries c' ⊆ <[schema_id := info]> (lru_entries c) /\
       (is_Some (lru_entries c !! schema_id) -> lru_entries c' = lru_entries c))
    (fun e c' => lru_entries c' = lru_entries c).
Proof.
  unfold wp, get_schema_info, info_source.
  pose proof (lru_get_entries schema_id c) as Hget. pose proof (lru_get_keeps schema_id c) as Hkeep.
  destruct (lru_get_mut schema_id c) as [[info|] c1]; simpl in *; rewrite <- Hget.
  - split_and!; [done| |done]. by rewrite Hkeep, insert_id.
  - destruct (fetch_schema_info sr schema_id net) as [info|e]; [|done]. split_and!; [done| |by intros []].
    rewrite <- Hkeep. apply lru_insert_sub.
Qed.

(** where there is a source, the function returns what it has *)
Lemma get_schema_info_source sr schema_id net c info :
  info_source sr schema_id net c info -> exists c', get_schema_info sr schema_id net c = (c', Ok info).
Proof.
  unfold info_source, get_schema_info. pose proof (lru_get_entries schema_id c) as Hget.
  destruct (lru_get_mut schema_id c) as [[x|] c1]; simpl in Hget; rewrite <- Hget.
  - intros ->. by exists c1.
  - intros ->. by eexists.
Qed.

(** an object of a document schema that the query service has is answered *)
Lemma query_single_document sr object_id schema_id body net c address values bytes :
  info_source sr schema_id net c (address, DocumentStorage) ->
  qs_query_multiple [uuid_to_string object_id] address net = Ok values ->
  values !! uuid_to_string object_id = Some bytes ->
  exists c', query_single sr object_id schema_id body net c = (c', Ok (ReplyBytes bytes)).
Proof.
  intros Hinfo Hq Hb. destruct (get_schema_info_source _ _ _ _ _ Hinfo) as [c1 Hc1].
  exists c1. unfold query_single, mbind, M_bind. rewrite Hc1. cbn. unfold client, lift. rewrite Hq. cbn. by rewrite Hb.
Qed.

(** an entry of the cache is used whatever the registry says by now *)
Lemma get_schema_info_stale sr schema_id net c info :
  lru_entries c !! schema_id = Some info -> (get_schema_info sr schema_id net c).2 = Ok info.
Proof.
  unfold get_schema_info. pose proof (lru_get_entries schema_id c) as Hget. intros Hc.
  rewrite Hc in Hget. destruct (lru_get_mut schema_id c) as [[x|] c1]; simpl in *; by simplify_eq.
Qed.

Lemma query_single_spec sr object_id schema_id body net c c' reply :
  query_single sr object_id schema_id body net c = (c', Ok reply) ->
  exists address t, info_source sr schema_id net c (address, t) /\
    match t with
    | DocumentStorage => exists values bytes,
        qs_query_multiple [uuid_to_string object_id] address net = Ok values /\
        values !! uuid_to_string object_id = Some bytes /\ reply = ReplyBytes bytes
    | Timeseries => exists from to step bytes, body = BodyRange from to step /\
        ts_query_by_range (uuid_to_string schema_id) (uuid_to_string object_id) from to step address net
          = Ok bytes /\ reply = ReplyBytes bytes
    end /\
    lru_entries c' ⊆ <[schema_id := (address, t)]> (lru_entries c) /\
    (is_Some (lru_entries c' !! schema_id) ->
     forall net', (get_schema_info sr schema_id net' c').2 = Ok (address, t)).
Proof.
  unfold query_single, mbind, M_bind. pose proof (get_schema_info_spec sr schema_id net c) as Hinfo.
  unfold wp in Hinfo. destruct (get_schema_info sr schema_id net c) as [c1 [[address t]|e]]; [|done].
  destruct Hinfo as (Hsource & Hsub & _). intros Hrun. exists address, t.
  assert (c' = c1 /\ match t with
    | DocumentStorage => exists values bytes,
        qs_query_multiple [uuid_to_string object_id] address net = Ok values /\
        values !! uuid_to_string object_id = Some bytes /\ reply = ReplyBytes bytes
    | Timeseries => exists from to step bytes, body = BodyRange from to step /\
        ts_query_by_range (uuid_to_string schema_id) (uuid_to_string object_id) from to step address net
          = Ok bytes /\ reply = ReplyBytes bytes
    end) as [-> Hanswer].
  { unfold client, lift in Hrun. destruct t, body as [from to step|raw|]; simpl in Hrun;
      try done; [..|];
      try (destruct (qs_query_multiple _ address net) as [values|e]; simpl in Hrun; [|done];
           destruct (values !! uuid_to_string object_id) as [bytes|] eqn:Hb; simpl in Hrun; [|done];
           simplify_eq; by eauto 10).
    destruct (ts_query_by_range _ _ from to step address net) as [bytes|e] eqn:Hts;
      simpl in Hrun; [|done]. unfold mret, M_ret in Hrun. simplify_eq. eauto 10. }
  split_and!; [done..|]. intros [info Hin] net'.
  pose proof (lookup_weaken _ _ _ _ Hin Hsub) as Hw. rewrite lookup_insert_eq in Hw. simplify_eq.
  by apply get_schema_info_stale.
Qed.
Lemma query_multiple_spec sr object_ids schema_id net c c' reply :
  query_multiple sr object_ids schema_id net c = (c', Ok reply) ->
  exists address t values jsons, info_source sr schema_id net c (address, t) /\
    qs_query_multiple (split_on "," object_ids) address net = Ok values /\
    byte_map_to_json_map values = Ok jsons /\ reply = ReplyJson jsons.
Proof.
  unfold query_multiple, mbind, M_bind. pose proof (get_schema_info_spec sr schema_id net c) as Hinfo.
  unfold wp in Hinfo. destruct (get_schema_info sr schema_id net c) as [c1 [[address t]|e]]; [|done].
  destruct Hinfo as (Hsource & _). unfold client, lift. simpl.
  destruct (qs_query_multiple _ address net) as [values|e] eqn:Hq; simpl; [|done].
  destruct (byte_map_to_json_map values) as [jsons|e] eqn:Hj; simpl; [|done]. intros [= _ <-].
  by exists address, t, values, jsons.
Qed.

(** An answer to a single-object query is, byte for byte, what the query
    service at the address of the schema has under that object id (documents),
    or its answer for that object and range (timeseries, which need a range).
    The address and type are those the registry gave; once cached they are
    used for as long as the entry lasts, whatever the registry says later. *)
Theorem query_single_answers sr object_id schema_id body net c c' reply :
  query_single sr object_id schema_id body net c = (c', Ok reply) ->
  exists address t, info_source sr schema_id net c (address, t) /\
    match t with
    | DocumentStorage => exists values bytes,
        qs_query_multiple [uuid_to_string object_id] address net = Ok values /\
        values !! uuid_to_string object_id = Some bytes /\ reply = ReplyBytes bytes
    | Timeseries => exists from to step bytes, body = BodyRange from to step /\
        ts_query_by_range (uuid_to_string schema_id) (uuid_to_string object_id) from to step address net
          = Ok bytes /\ reply = ReplyBytes bytes
    end /\
    lru_entries c' ⊆ <[schema_id := (address, t)]> (lru_entries c) /\
    (is_Some (lru_entries c' !! schema_id) ->
     forall net', (get_schema_info sr schema_id net' c').2 = Ok (address, t)).
Proof. apply query_single_spec. Qed.
End properties.

(** ** Servers in memory *)

(** a registry that knows one document schema, and its query service *)
#[export] Instance demo_servers : Servers (gmap string string) := {
  srv_connect := fun _ _ => Ok ();
  srv_get_schema_query_address := fun _ _ _ => Ok "http://documents";
  srv_get_schema_type := fun _ _ _ => Ok 0%Z;
  srv_query_multiple := fun _ ids docs => Ok (filter (fun kv => kv.1 ∈ ids) docs);
  srv_query_by_schema := fun _ _ docs => Ok docs;
  srv_query_raw := fun _ q _ => Ok q;
  srv_ts_query_by_range := fun _ _ _ _ _ _ _ => Err (mkStatus Internal "no timeseries");
  srv_ts_query_by_schema := fun _ _ _ => Err (mkStatus Internal "no timeseries");
  srv_ts_query_raw := fun _ _ _ => Err (mkStatus Internal "no timeseries");
}.

Definition demo_documents : gmap string string := {[uuid_to_string 1%N := "{}"]}.
Definition demo_single :
    gmap Uuid (string * SchemaType) * result RouterError Reply :=
  query_single "http://registry" 1 7 BodyEmpty demo_documents (∅ : gmap Uuid (string * SchemaType)).

Lemma query_single_answers_witness :
  exists address t,
    info_source "http://registry" 7 demo_documents (∅ : gmap Uuid (string * SchemaType)) (address, t) /\
    match t with
    | DocumentStorage => exists values bytes,
        qs_query_multiple [uuid_to_string 1%N] address demo_documents = Ok values /\
        values !! uuid_to_string 1%N = Some bytes /\ ReplyBytes "{}" = ReplyBytes bytes
    | Timeseries => exists from to step bytes, BodyEmpty = BodyRange from to step /\
        ts_query_by_range (uuid_to_string 7%N) (uuid_to_string 1%N) from to step address demo_documents
          = Ok bytes /\ ReplyBytes "{}" = ReplyBytes bytes
    end /\
    lru_entries demo_single.1 ⊆ <[7%N := (address, t)]> (lru_entries (∅ : gmap Uuid (string * SchemaType))) /\
    (is_Some (lru_entries demo_single.1 !! 7%N) ->
     forall net', (get_schema_info "http://registry" 7 net' demo_single.1).2 = Ok (address, t)).
Proof.
  apply (query_single_answers "http://registry" 1 7 BodyEmpty demo_documents
    (∅ : gmap Uuid (string * SchemaType)) demo_single.1 (ReplyBytes "{}")). vm_eq.
Defined.
