(* ===== verification/QueryRouterCache.v ===== *)
(** Requests of the query router that look up the same cache while the registry
    goes on changing: [SchemaRegistryCache::get_schema_info] of
    [crates/query-router/src/cache.rs] holds the lock of the cache only for the
    lookup and for the insertion, and makes two calls in between. *)
From stdpp Require Import prelude gmap strings list fin_maps.
From S2P Require Import Prelude Json Externals Instances RegistryTypes RegistryRpc Lru RegistryClient QueryRouter.

(** ** The steps of one lookup *)

(** what a request does next: take the lock and look; connect; ask for the
    address; ask for the type; take the lock and insert *)
Inductive Lookup : Type :=
| LookupCached
| LookupConnect
| LookupAddress
| LookupType (address : string)
| LookupInsert (info : string * SchemaType)
| LookupDone (outcome : result RouterError (string * SchemaType)).

Section lookup.
Context {C R : Type} `{LruLib (string * SchemaType) C, Servers R, UuidLib}.
Context (schema_registry_addr : string).

(** the answers of the registry [net] to the two calls *)
Definition asked_address (schema_id : Uuid) (net : R) : result RouterError string :=
  map_err (RouterClientError ∘ QueryError "schema registry")
    (srv_get_schema_query_address schema_registry_addr (uuid_to_string schema_id) net).
Definition asked_type (schema_id : Uuid) (net : R) : result RouterError SchemaType :=
  t ← map_err (RouterClientError ∘ QueryError "schema registry")
        (srv_get_schema_type schema_registry_addr (uuid_to_string schema_id) net);
  Ok (schema_type_from_proto (schema_type_or_default t)).

Definition or_done {A} (r : result RouterError A) (next : A -> Lookup) : Lookup :=
  match r with Ok a => next a | Err e => LookupDone (Err e) end.

Definition lookup_stage (schema_id : Uuid) (net : R) (stage : Lookup) (cache : C) : C * Lookup :=
  match stage with
  | LookupCached =>
      let '(cached_data, cache1) := lru_get_mut schema_id cache in
      (cache1, match cached_data with Some info => LookupDone (Ok info) | None => LookupConnect end)
  | LookupConnect =>
      (cache, or_done (map_err (RouterClientError ∘ ConnectionError "schema registry")
                         (srv_connect schema_registry_addr net)) (fun _ => LookupAddress))
  | LookupAddress => (cache, or_done (asked_address schema_id net) LookupType)
  | LookupType address => (cache, or_done (asked_type schema_id net) (fun t => LookupInsert (address, t)))
  | LookupInsert info => (lru_insert schema_id info cache, LookupDone (Ok info))
  | LookupDone outcome => (cache, LookupDone outcome)
  end.

(** stages in a row, under a registry that does not change *)
Fixpoint lookup_stages (n : nat) (schema_id : Uuid) (net : R) (stage : Lookup) (cache : C) : C * Lookup :=
  match n with
  | O => (cache, stage)
  | S n => let '(cache1, next) := lookup_stage schema_id net stage cache in
           lookup_stages n schema_id net next cache1
  end.

(** alone, the five stages are [get_schema_info] *)
Lemma lookup_alone schema_id net cache :
  lookup_stages 5 schema_id net LookupCached cache =
    let '(cache1, r) := get_schema_info schema_registry_addr schema_id net cache in (cache1, LookupDone r).
Proof.
  unfold get_schema_info, fetch_schema_info. cbn [lookup_stages lookup_stage].
  destruct (lru_get_mut schema_id cache) as [[info|] cache1]; [done|].
  destruct (srv_connect schema_registry_addr net) as [[]|e] eqn:Hc,
    (srv_get_schema_query_address schema_registry_addr (uuid_to_string schema_id) net) as [address|e'] eqn:Ha,
    (srv_get_schema_type schema_registry_addr (uuid_to_string schema_id) net) as [t|e''] eqn:Ht;
    repeat (progress (unfold asked_address, asked_type; simpl; rewrite ?Hc, ?Ha, ?Ht)); done.
Qed.

(** ** Many lookups, and a registry that changes *)

(** what the registry has been, the present last; the cache; the lookups *)
Record CacheRun : Type := mkCacheRun {
  cr_registry : list R;
  cr_cache : C;
  cr_lookups : list (Uuid * Lookup);
}.
Definition cache_run_new (capacity : Z) (net : R) : CacheRun := mkCacheRun [net] (lru_new capacity) [].

(** what happens next: the registry changes, a request comes, or a lookup goes on *)
Inductive CacheChoice : Type := RegistryChanges (net : R) | RequestComes (schema_id : Uuid) | LookupGoesOn (i : nat).

Definition take_cache (choice : CacheChoice) (w : CacheRun) : option CacheRun :=
  match choice with
  | RegistryChanges net => Some (mkCacheRun (cr_registry w ++ [net]) (cr_cache w) (cr_lookups w))
  | RequestComes schema_id =>
      Some (mkCacheRun (cr_registry w) (cr_cache w) (cr_lookups w ++ [(schema_id, LookupCached)]))
  | LookupGoesOn i =>
      '(schema_id, stage) ← cr_lookups w !! i;
      net ← last (cr_registry w);
      let '(cache, next) := lookup_stage schema_id net stage (cr_cache w) in
      Some (mkCacheRun (cr_registry w) cache (<[i := (schema_id, next)]> (cr_lookups w)))
  end.
Definition run_cache (l : list CacheChoice) (w : CacheRun) : option CacheRun :=
  foldr (fun choice k w => w' ← take_cache choice w; k w') Some l w.

(** ** What a lookup can have read *)

Definition read_address (nets : list R) (schema_id : Uuid) (address : string) (i : nat) : Prop :=
  exists net, nets !! i = Some net /\ asked_address schema_id net = Ok address.
(** the address at one moment and the type at the same or a later one *)
Definition read_info (nets : list R) (schema_id : Uuid) (info : string * SchemaType) : Prop :=
  exists i j net, i <= j /\ read_address nets schema_id info.1 i /\ nets !! j = Some net /\
    asked_type schema_id net = Ok info.2.
Definition stage_read (nets : list R) (schema_id : Uuid) (stage : Lookup) : Prop :=
  match stage with
  | LookupType address => exists i, read_address nets schema_id address i
  | LookupInsert info | LookupDone (Ok info) => read_info nets schema_id info
  | _ => True
  end.
End lookup.
Arguments CacheRun : clear implicits. Arguments CacheChoice : clear implicits.

Section properties.
Context {C R : Type} `{LruLaws (string * SchemaType) C, Servers R, UuidLib}.
Context (sr : string).
Implicit Types (w : CacheRun C R) (nets : list R) (net : R).

Record cache_run_inv w : Prop := {
  cri_cache id info : lru_entries (cr_cache w) !! id = Some info -> read_info sr (cr_registry w) id info;
  cri_lookups id stage : (id, stage) ∈ cr_lookups w -> stage_read sr (cr_registry w) id stage;
}.

Lemma read_address_grows nets net id address i :
  read_address sr nets id address i -> read_address sr (nets ++ [net]) id address i.
Proof. intros (x & Hi & Hx). exists x. split; [by apply lookup_app_l_Some|done]. Qed.

Lemma read_info_grows nets net id info : read_info sr nets id info -> read_info sr (nets ++ [net]) id info.
Proof.
  intros (i & j & x & Hle & Ha & Hj & Ht). exists i, j, x.
  split_and!; [done|by apply read_address_grows|by apply lookup_app_l_Some|done].
Qed.

Lemma stage_read_grows nets net id stage : stage_read sr nets id stage -> stage_read sr (nets ++ [net]) id stage.
Proof.
  destruct stage as [| | |address|info|[info|e]]; try done; simpl; [|apply read_info_grows..].
  intros [i Hi]. exists i. by apply read_address_grows.
Qed.

(** one stage reads the present registry, and writes to the cache what it has read *)
Lemma lookup_stage_read nets net id stage c c' next :
  last nets = Some net -> lookup_stage sr id net stage c = (c', next) ->
  (forall id' info, lru_entries c !! id' = Some info -> read_info sr nets id' info) ->
  stage_read sr nets id stage ->
  stage_read sr nets id next /\ forall id' info, lru_entries c' !! id' = Some info -> read_info sr nets id' info.
Proof.
  intros Hlast Hstage Hc Hs. rewrite last_lookup in Hlast.
  destruct stage as [| | |address|info|outcome]; simpl in Hstage.
  - pose proof (lru_get_entries id c) as Hget. pose proof (lru_get_keeps id c) as Hkeep.
    destruct (lru_get_mut id c) as [[info|] c1]; simpl in *; injection Hstage as <- <-; rewrite Hkeep;
      (split; [|done]); [|done]. simpl. by apply Hc.
  - injection Hstage as <- <-. split; [|done]. by destruct (srv_connect _ _) as [[]|e].
  - injection Hstage as <- <-. split; [|done]. destruct (asked_address sr id net) as [address|e] eqn:Ha; [|done].
    simpl. by exists (pred (length nets)), net.
  - injection Hstage as <- <-. split; [|done]. destruct (asked_type sr id net) as [t|e] eqn:Ht; [|done].
    simpl in *. destruct Hs as [i Hi]. exists i, (pred (length nets)), net. split_and!; [|done..].
    destruct Hi as (x & Hi%lookup_lt_Some & _). lia.
  - injection Hstage as <- <-. split; [done|]. intros id' info' Hin.
    pose proof (lookup_weaken _ _ _ _ Hin (lru_insert_sub id info c)) as Hw.
    apply lookup_insert_Some in Hw as [[<- <-]|[_ Hw]]; [done|by apply Hc].
  - by injection Hstage as <- <-.
Qed.

Lemma cache_run_new_inv capacity net : cache_run_inv (cache_run_new capacity net).
Proof.
  split; simpl; intros id x; [by rewrite lru_new_empty, lookup_empty|intros Hin; by apply not_elem_of_nil in Hin].
Qed.

Lemma take_cache_inv choice w w' : cache_run_inv w -> take_cache sr choice w = Some w' -> cache_run_inv w'.
Proof.
  intros [Hc Hl]. destruct choice as [net|id|i]; simpl.
  - intros [= <-]. split; simpl; intros id x; [intros; by apply read_info_grows, Hc|intros; by apply stage_read_grows, Hl].
  - intros [= <-]. split; simpl; [done|]. intros id' stage [Hin|[= -> ->]%list_elem_of_singleton]%elem_of_app; [by apply Hl|done].
  - destruct (cr_lookups w !! i) as [[id stage]|] eqn:Hi; simpl; [|done].
    destruct (last (cr_registry w)) as [net|] eqn:Hlast; simpl; [|done].
    destruct (lookup_stage sr id net stage (cr_cache w)) as [c next] eqn:Hstage. intros [= <-].
    destruct (lookup_stage_read _ _ _ _ _ _ _ Hlast Hstage Hc) as [Hnext Hc'];
      [apply Hl; by eapply list_elem_of_lookup_2|].
    split; simpl; [done|]. intros id' stage' [j Hj]%list_elem_of_lookup.
    apply list_lookup_insert_Some in Hj as [(_ & [= <- <-] & _)|[_ Hj]]; [done|].
    apply Hl. by eapply list_elem_of_lookup_2.
Qed.

Lemma run_cache_inv l w w' : run_cache sr l w = Some w' -> cache_run_inv w -> cache_run_inv w'.
Proof.
  unfold run_cache. revert w. induction l as [|choice l IH]; intros w; simpl; [by intros [= ->]|].
  destruct (take_cache sr choice w) as [w1|] eqn:Hw; simpl; [|done]. intros Hl Hinv.
  eapply IH; [done|by eapply take_cache_inv].
Qed.

Lemma fetch_asked id net info :
  fetch_schema_info sr id net = Ok info -> asked_address sr id net = Ok info.1 /\ asked_type sr id net = Ok info.2.
Proof.
  unfold fetch_schema_info, asked_address, asked_type. destruct (srv_connect sr net) as [[]|e]; [|done].
  destruct (srv_get_schema_query_address _ _ net) as [address|e]; [|done].
  destruct (srv_get_schema_type _ _ net) as [t|e]; [|done]. by intros [= <-].
Qed.

(** C37: what concurrent lookups answer.  However requests interleave and however
    the registry changes meanwhile, also through the cache a request gets an
    address that the registry gave for its schema at some moment, with a type
    that it gave at that moment or later; while the registry's answers for the
    schema stay the same, that is their pair.  If they change between the two
    calls of a lookup, the request gets the old address with the new type, which
    the registry never had together, and a cache with room for an entry keeps
    that pair: the next request gets it, whatever the registry says by then. *)
Theorem lookups_answer_what_was_read capacity net :
  (forall l w id info, run_cache sr l (cache_run_new capacity net) = Some w ->
     (id, LookupDone (Ok info)) ∈ cr_lookups w ->
     read_info sr (cr_registry w) id info /\
     forall info', (forall net', net' ∈ cr_registry w -> fetch_schema_info sr id net' = Ok info') -> info = info') /\
  (forall net' id address t, srv_connect sr net = Ok () -> asked_address sr id net = Ok address ->
     asked_type sr id net' = Ok t -> (0 < capacity)%Z ->
     exists l w, run_cache sr l (cache_run_new capacity net) = Some w /\ cr_registry w = [net; net'] /\
       cr_lookups w = [(id, LookupDone (Ok (address, t)))] /\
       lru_entries (cr_cache w) = {[id := (address, t)]} /\
       forall net'', exists w', run_cache sr [RegistryChanges net''; RequestComes id; LookupGoesOn 1] w = Some w' /\
         cr_lookups w' !! 1 = Some (id, LookupDone (Ok (address, t)))).
Proof.
  split.
  - intros l w id info Hrun Hin. destruct (run_cache_inv _ _ _ Hrun (cache_run_new_inv capacity net)) as [_ Hl].
    apply Hl in Hin. simpl in Hin. split; [done|]. intros info' Hall.
    destruct Hin as (i & j & x & _ & (y & Hy & Ha) & Hx & Ht). destruct info as [a t], info' as [a' t']; simpl in *.
    destruct (fetch_asked _ _ _ (Hall y (list_elem_of_lookup_2 _ _ _ Hy))) as [Ha' _].
    destruct (fetch_asked _ _ _ (Hall x (list_elem_of_lookup_2 _ _ _ Hx))) as [_ Ht']. simpl in *. congruence.
  - intros net' id address t Hc Ha Ht Hcap.
    pose proof (lru_get_entries id (lru_new capacity)) as Hget. pose proof (lru_get_keeps id (lru_new capacity)) as Hkeep.
    pose proof (lru_get_room id _ (lru_new_room capacity Hcap)) as Hroom.
    rewrite lru_new_empty, ?lookup_empty in *. destruct (lru_get_mut id (lru_new capacity)) as [r c] eqn:Hnew. simpl in *. subst r.
    exists [RequestComes id; LookupGoesOn 0; LookupGoesOn 0; LookupGoesOn 0; RegistryChanges net'; LookupGoesOn 0; LookupGoesOn 0].
    pose proof (lru_insert_there id (address, t) c Hroom) as Hthere.
    exists (mkCacheRun [net; net'] (lru_insert id (address, t) c) [(id, LookupDone (Ok (address, t)))]). split_and!.
    + unfold run_cache. simpl. rewrite Hnew. simpl. rewrite Hc. simpl. rewrite Ha. simpl. rewrite Ht. reflexivity.
    + done.
    + done.
    + simpl. apply map_eq. intros k. destruct (decide (k = id)) as [->|Hne]; [by rewrite lookup_singleton_eq|].
      rewrite lookup_singleton_ne by done. destruct (lru_entries _ !! k) as [x|] eqn:Hk; [|done].
      pose proof (lookup_weaken _ _ _ _ Hk (lru_insert_sub id (address, t) c)) as Hw.
      by rewrite lookup_insert_ne, Hkeep, lookup_empty in Hw by done.
    + intros net''. unfold run_cache. simpl. pose proof (lru_get_entries id (lru_insert id (address, t) c)) as Hagain.
      destruct (lru_get_mut id (lru_insert id (address, t) c)) as [r c'] eqn:Hr. simpl in Hagain. rewrite Hthere in Hagain.
      subst r. by eexists.
Qed.
End properties.

(** ** A registry whose schema moves to another service *)

#[local] Instance moving_servers : Servers (string * Z) := {
  srv_connect := fun _ _ => Ok ();
  srv_get_schema_query_address := fun _ _ net => Ok net.1;
  srv_get_schema_type := fun _ _ net => Ok net.2;
  srv_query_multiple := fun _ _ _ => Ok ∅;
  srv_query_by_schema := fun _ _ _ => Ok ∅;
  srv_query_raw := fun _ q _ => Ok q;
  srv_ts_query_by_range := fun _ _ _ _ _ _ _ => Ok EmptyString;
  srv_ts_query_by_schema := fun _ _ _ => Ok EmptyString;
  srv_ts_query_raw := fun _ q _ => Ok q;
}.
Definition documents_then : string * Z := ("http://documents", 0%Z).
Definition timeseries_now : string * Z := ("http://timeseries", 1%Z).
Definition calm_choices : list (CacheChoice (string * Z)) :=
  [RequestComes 1%N; LookupGoesOn 0; LookupGoesOn 0; LookupGoesOn 0; LookupGoesOn 0; LookupGoesOn 0].
Definition calm_run : CacheRun (gmap Uuid (string * SchemaType)) (string * Z) := Eval vm_compute in
  default (cache_run_new 8 documents_then)
    (run_cache "registry" calm_choices (cache_run_new 8 documents_then)).

Lemma lookups_answer_what_was_read_witness :
  read_info "registry" (cr_registry calm_run) 1%N ("http://documents", DocumentStorage) /\
  exists l (w : CacheRun (gmap Uuid (string * SchemaType)) (string * Z)),
    run_cache "registry" l (cache_run_new 8 documents_then) = Some w /\
    cr_registry w = [documents_then; timeseries_now] /\
    cr_lookups w = [(1%N, LookupDone (Ok ("http://documents", Timeseries)))] /\
    (lru_entries (cr_cache w) : gmap Uuid (string * SchemaType)) = {[1%N := ("http://documents", Timeseries)]} /\
    forall net'', exists w',
      run_cache "registry" [RegistryChanges net''; RequestComes 1%N; LookupGoesOn 1] w = Some w' /\
      cr_lookups w' !! 1 = Some (1%N, LookupDone (Ok ("http://documents", Timeseries))).
Proof.
  destruct (lookups_answer_what_was_read (C := gmap Uuid (string * SchemaType)) "registry" 8 documents_then) as [Hall Htorn].
  split.
  - apply (Hall calm_choices calm_run 1%N); [vm_eq|apply list_elem_of_here].
  - by apply (Htorn timeseries_now 1%N).
Defined.
