(* ===== verification/QueryRouterMain.v ===== *)
(** The HTTP surface of the query router, [crates/query-router/src/main.rs]: the
    [warp] filters that lead a request to its handler, and the response. *)
From Stdlib Require Import Ascii.
From stdpp Require Import prelude gmap strings list fin_maps.
From S2P Require Import Prelude StringSplit Json Externals Instances RegistryTypes Lru RegistryClient.
From S2P Require Import QueryRouter.

(** ** Requests *)

Inductive HttpMethod : Type := HttpGet | HttpPost.

(** what the filters look at: the method, the segments of the path, the
    [SCHEMA_ID] and content headers, and the body *)
Record HttpRequest : Type := mkHttpRequest {
  hr_method : HttpMethod;
  hr_path : list string;
  hr_schema_id : option string;
  hr_content_length : option Z;
  hr_content_type : option string;
  hr_body : string;
}.

Definition BODY_LIMIT : Z := 1024 * 32.

(** the handler a request reaches, with its arguments *)
Inductive Route : Type :=
| RouteSingle (object_id schema_id : Uuid) (request_body : Body)
| RouteMultiple (object_ids : string) (schema_id : Uuid)
| RouteSchema (schema_id : Uuid)
| RouteRaw (schema_id : Uuid) (request_body : Body).

Section routes.
Context `{UuidLib, JsonText}.

(** [warp::header::header::<Uuid>("SCHEMA_ID")] *)
Definition schema_id_filter (r : HttpRequest) : option Uuid :=
  hr_schema_id r ≫= fun s => result_ok (uuid_parse_str s).

(** [content_length_limit(..).and(json())]; a missing content type is accepted *)
Definition body_filter (r : HttpRequest) : option Body :=
  len ← hr_content_length r;
  guard (len <= BODY_LIMIT)%Z;;
  guard (hr_content_type r = None \/ hr_content_type r = Some "application/json");;
  v ← result_ok (json_parse (hr_body r));
  body_from_value v.

(** a path parameter: a segment that is not empty and parses *)
Definition path_uuid (segment : string) : option Uuid := result_ok (uuid_parse_str segment).
Definition path_string (segment : string) : option string :=
  if decide (segment = EmptyString) then None else Some segment.

Definition single_route (r : HttpRequest) : option Route :=
  match hr_path r with
  | ["single"; segment] =>
      object_id ← path_string segment ≫= path_uuid;
      schema_id ← schema_id_filter r;
      body ← body_filter r;
      Some (RouteSingle object_id schema_id body)
  | _ => None
  end.
Definition multiple_route (r : HttpRequest) : option Route :=
  match hr_path r with
  | ["multiple"; segment] =>
      object_ids ← path_string segment;
      schema_id ← schema_id_filter r;
      Some (RouteMultiple object_ids schema_id)
  | _ => None
  end.
Definition schema_route (r : HttpRequest) : option Route :=
  match hr_path r with
  | ["schema"] => RouteSchema <$> schema_id_filter r
  | _ => None
  end.
Definition raw_route (r : HttpRequest) : option Route :=
  match hr_path r with
  | ["raw"] =>
      schema_id ← schema_id_filter r;
      body ← body_filter r;
      Some (RouteRaw schema_id body)
  | _ => None
  end.

Definition or_route (a b : option Route) : option Route :=
  match a with Some x => Some x | None => b end.

Definition routes (r : HttpRequest) : option Route :=
  match hr_method r with
  | HttpPost => or_route (single_route r) (raw_route r)
  | HttpGet => or_route (multiple_route r) (schema_route r)
  end.
End routes.

(** ** Responses *)

(** [warp]'s texts: a map as a JSON object, and the bodies of the replies to a
    request no filter accepts and to a rejection nobody recovers *)
Class WarpText := {
  reply_json : gmap string Value -> string;
  not_routed : HttpRequest -> string;
  unhandled_rejection : RouterError -> string;
}.

Section server.
Context {C R : Type} `{LruLib (string * SchemaType) C, Servers R, UuidLib, JsonText, StringHashIter,
  WarpText}.

Definition handle_route (sr : string) (route : Route) (net : R) : M C RouterError Reply :=
  match route with
  | RouteSingle object_id schema_id body => query_single sr object_id schema_id body net
  | RouteMultiple object_ids schema_id => query_multiple sr object_ids schema_id net
  | RouteSchema schema_id => query_by_schema sr schema_id net
  | RouteRaw schema_id body => query_raw sr schema_id body net
  end.

Definition reply_body (reply : Reply) : string :=
  match reply with ReplyBytes bytes => bytes | ReplyJson values => reply_json values end.

(** the body of the response to a request *)
Definition serve_http (sr : string) (r : HttpRequest) (net : R) (cache : C) : C * string :=
  match routes r with
  | None => (cache, not_routed r)
  | Some route =>
      let '(cache', outcome) := handle_route sr route net cache in
      (cache', match outcome with Ok reply => reply_body reply | Err e => unhandled_rejection e end)
  end.
End server.
