(* ===== verification/ApiEvents.v ===== *)
(** Subscriptions of the GraphQL API: [crates/api/src/{config,events}.rs],
    [schema/{context,subscription}.rs] and [types/report.rs].  Clients that ask
    for the same topic share one consumer task, which forwards what it reads to
    a [tokio::sync::broadcast] channel; the channel, the tasks and the streams
    of the clients form one state, and its steps are what they may do next. *)
From stdpp Require Import prelude gmap strings list fin_maps relations.
From S2P Require Import Prelude Json Externals Messaging.

(** ** Configuration *)

Inductive ApiQueueKind : Type := ApiAmqp | ApiKafka.
Record MessageQueueArgs : Type := mkMessageQueueArgs {
  mqa_message_queue : ApiQueueKind;
  mqa_kafka_brokers : option string;
  mqa_kafka_group_id : option string;
  mqa_amqp_connection_string : option string;
  mqa_amqp_consumer_tag : option string;
}.
Inductive ApiQueueConfig : Type :=
| ApiKafkaConfig (group_id brokers : string)
| ApiAmqpConfig (connection_string consumer_tag : string).

Record ApiConfig : Type := mkApiConfig {
  ac_schema_registry_addr : string;
  ac_query_router_addr : string;
  ac_input_port : Z;
  ac_message_queue : MessageQueueArgs;
  ac_report_topic_or_queue : string;
  ac_data_router_topic_or_queue : string;
}.

Definition message_queue_config (args : MessageQueueArgs) : result string ApiQueueConfig :=
  match mqa_message_queue args with
  | ApiKafka =>
      brokers ← ok_or "Missing kafka brokers" (mqa_kafka_brokers args);
      group_id ← ok_or "Missing kafka group" (mqa_kafka_group_id args);
      mret (ApiKafkaConfig group_id brokers)
  | ApiAmqp =>
      connection_string ← ok_or "Missing AMQP connection string" (mqa_amqp_connection_string args);
      consumer_tag ← ok_or "Missing AMQP consumer tag" (mqa_amqp_consumer_tag args);
      mret (ApiAmqpConfig connection_string consumer_tag)
  end.

Definition consumer_config (config : ApiQueueConfig) (topic_or_queue : string) : CommonConsumerConfig :=
  match config with
  | ApiKafkaConfig group_id brokers => ConsumerKafka brokers group_id topic_or_queue
  | ApiAmqpConfig connection_string consumer_tag =>
      ConsumerAmqp connection_string consumer_tag topic_or_queue None
  end.

(** ** Events *)

Record Event : Type := mkEvent { ev_key : option string; ev_payload : option string }.

Definition event_of `{StdText} (msg : CommMessage) : Event :=
  mkEvent (result_ok (message_key msg)) (result_ok (message_payload msg)).

(** what goes through the channel *)
Abbreviation Item := (result MessagingError Event) (only parsing).

(** ** Channels, tasks and streams *)

(** the consumer task of [EventSubscriber::new]: in the loop, past it (the
    stream of the consumer has ended), and over *)
Inductive ConsumerTask : Type := Consuming | Drained | Over.

(** A broadcast channel with the task that sends to it.  The channel is kept as
    everything that was ever sent; its buffer is the last [CAPACITY] items. *)
Record Channel : Type := mkChannel {
  ch_config : CommonConsumerConfig;
  ch_topic : string;
  ch_sent : list Item;
  ch_task : ConsumerTask;
}.
Definition CAPACITY : nat := 32.

(** An [EventStream]: the position of its receiver, and whether its generator
    has not ended.  [es_seen] is what its polls have given to its client (not
    kept by the code). *)
Record EventStream : Type := mkEventStream {
  es_chan : nat;
  es_next : nat;
  es_open : bool;
  es_seen : list (result string Event);
}.

(** The [Context]: the map of subscribers (each holds a sender of its channel),
    with the channels and streams made so far. *)
Record Context : Type := mkContext {
  mq_events : gmap string nat;
  cx_channels : list Channel;
  cx_streams : list EventStream;
}.
Definition context_new : Context := mkContext ∅ [] [].

Definition put_stream (i : nat) (s : EventStream) (w : Context) : Context :=
  mkContext (mq_events w) (cx_channels w) (<[i := s]> (cx_streams w)).
Definition put_channel (c : nat) (ch : Channel) (w : Context) : Context :=
  mkContext (mq_events w) (<[c := ch]> (cx_channels w)) (cx_streams w).

(** a new receiver is at the end of what was sent *)
Definition stream_at (c position : nat) : EventStream := mkEventStream c position true [].

(** [EventSubscriber::subscribe] *)
Definition subscribe (c : nat) (w : Context) : Context * nat :=
  let position := match cx_channels w !! c with Some ch => length (ch_sent ch) | None => 0 end in
  (mkContext (mq_events w) (cx_channels w) (cx_streams w ++ [stream_at c position]),
   length (cx_streams w)).

(** [EventSubscriber::new]: [created] is the outcome of [CommonConsumer::new] *)
Definition event_subscriber_new (config : ApiQueueConfig) (topic : string)
    (created : result string ()) : M Context string (nat * nat) := fun w =>
  match created with
  | Err e => (w, Err e)
  | Ok _ =>
      let c := length (cx_channels w) in
      (mkContext (mq_events w)
         (cx_channels w ++ [mkChannel (consumer_config config topic) topic [] Consuming])
         (cx_streams w ++ [stream_at c 0]),
       Ok (c, length (cx_streams w)))
  end.

(** [Context::subscribe_on_message_queue], under the lock of the map *)
Definition subscribe_on_message_queue (args : MessageQueueArgs) (topic : string)
    (created : result string ()) : M Context string nat := fun w =>
  match mq_events w !! topic with
  | Some subscriber => let '(w', stream) := subscribe subscriber w in (w', Ok stream)
  | None =>
      match message_queue_config args with
      | Err e => (w, Err e)
      | Ok config =>
          let '(w', r) := event_subscriber_new config topic created w in
          match r with
          | Err e => (w', Err e)
          | Ok (subscriber, stream) =>
              (mkContext (<[topic := subscriber]> (mq_events w')) (cx_channels w') (cx_streams w'),
               Ok stream)
          end
      end
  end.

(** the future [on_close] returns, if it is awaited *)
Definition on_close (topic : string) (w : Context) : Context :=
  mkContext (delete topic (mq_events w)) (cx_channels w) (cx_streams w).

(** *** What the consumer task does *)

Section task.
Context `{StdText}.

(** the next item of the consumer's stream is sent; after an error
    the stream has no more *)
Definition forward (c : nat) (delivery : result string CommMessage) (w : Context) : Context :=
  match cx_channels w !! c with
  | None => w
  | Some ch =>
      let '(item, task) := match delivery with
        | Ok msg => (Ok (event_of msg), Consuming)
        | Err e => (Err (CommunicationError e), Drained)
        end in
      put_channel c (mkChannel (ch_config ch) (ch_topic ch) (ch_sent ch ++ [item]) task) w
  end.

(** the broker ends the stream *)
Definition drain (c : nat) (w : Context) : Context :=
  match cx_channels w !! c with
  | None => w
  | Some ch => put_channel c (mkChannel (ch_config ch) (ch_topic ch) (ch_sent ch) Drained) w
  end.

(** the end of the task: [on_close(topic)] makes a future, which is dropped
    without being awaited, so [on_close] does not run *)
Definition task_end (c : nat) (w : Context) : Context :=
  match cx_channels w !! c with
  | None => w
  | Some ch => put_channel c (mkChannel (ch_config ch) (ch_topic ch) (ch_sent ch) Over) w
  end.
End task.

(** *** What a stream does when it is polled *)

Inductive Poll : Type := Pending | Ready (item : option (result string Event)).

(** senders of channel [c]: that of the subscriber in the map, and that of the
    task as long as it runs *)
Definition has_sender (c : nat) (w : Context) : bool :=
  bool_decide (map_Exists (fun _ d => d = c) (mq_events w)) ||
  match cx_channels w !! c with
  | Some ch => match ch_task ch with Over => false | _ => true end
  | None => false
  end.

(** [rx.recv()]: [None] is "wait" *)
Inductive Recv : Type := RecvItem (item : Item) | RecvLagged (missed : nat) | RecvClosed | RecvWait.
Definition recv (s : EventStream) (w : Context) : Recv :=
  let sent := match cx_channels w !! es_chan s with Some ch => ch_sent ch | None => [] end in
  if es_next s + CAPACITY <? length sent then RecvLagged (length sent - CAPACITY - es_next s)
  else match sent !! es_next s with
  | Some item => RecvItem item
  | None => if has_sender (es_chan s) w then RecvWait else RecvClosed
  end.

(** [EventStream::poll_next]: the generator ends after the first error *)
Definition poll_next (i : nat) (w : Context) : Context * Poll :=
  match cx_streams w !! i with
  | None => (w, Ready None)
  | Some s =>
      let failed e := (put_stream i (mkEventStream (es_chan s) (es_next s) false (es_seen s ++ [Err e])) w, Ready (Some (Err e))) in
      if negb (es_open s) then (w, Ready None)
      else match recv s w with
      | RecvWait => (w, Pending)
      | RecvClosed => failed "channel closed"
      | RecvLagged _ => failed "channel lagged"
      | RecvItem (Err e) => failed (messaging_error_display e)
      | RecvItem (Ok event) =>
          (put_stream i (mkEventStream (es_chan s) (S (es_next s)) true (es_seen s ++ [Ok event])) w, Ready (Some (Ok event)))
      end
  end.

(** ** The running API *)

Section steps.
Context `{StdText} (args : MessageQueueArgs).

Inductive events_step : Context -> Context -> Prop :=
| step_subscribe w topic created w' r :
    subscribe_on_message_queue args topic created w = (w', r) -> events_step w w'
| step_forward w c ch delivery :
    cx_channels w !! c = Some ch -> ch_task ch = Consuming ->
    events_step w (forward c delivery w)
| step_drain w c ch :
    cx_channels w !! c = Some ch -> ch_task ch = Consuming -> events_step w (drain c w)
| step_end w c ch :
    cx_channels w !! c = Some ch -> ch_task ch = Drained -> events_step w (task_end c w)
| step_poll w i w' p :
    poll_next i w = (w', p) -> events_step w w'.

Definition events_reach : Context -> Context -> Prop := rtc events_step.
End steps.

(** ** Reports, [types/report.rs] and [schema/subscription.rs] *)

Record Report : Type := mkReport {
  rp_application : string;
  rp_output_plugin : option string;
  rp_description : string;
  rp_object_id : Uuid;
  rp_payload : Value;
}.

Section reports.
Context `{UuidLib, JsonText}.

(** the derived reader; unknown members are ignored, [null] is an absent
    [output_plugin] *)
Definition report_from_value (v : Value) : option Report :=
  application ← get_key "application" v ≫= as_str;
  output_plugin ← match get_key "output_plugin" v with
    | None | Some Null => Some None
    | Some x => Some <$> as_str x
    end;
  description ← get_key "description" v ≫= as_str;
  object_id ← get_key "object_id" v ≫= as_str;
  object_id ← result_ok (uuid_parse_str object_id);
  payload ← get_key "payload" v;
  Some (mkReport application output_plugin description object_id payload).

Definition report_from_str (text : string) : result string Report :=
  v ← json_parse text;
  ok_or "invalid report" (report_from_value v).

(** [Subscription::reports] on what the event stream yields *)
Fixpoint reports (events : list (result string Event)) : list (result string Report) :=
  match events with
  | [] => []
  | Err e :: l => Err e :: reports l
  | Ok ev :: l =>
      match ev_payload ev with
      | None => reports l
      | Some payload => report_from_str payload :: reports l
      end
  end.
End reports.

(** ** What clients see *)

Section streams.
Context `{StdText} (args : MessageQueueArgs).
Implicit Types (w : Context) (s : EventStream) (ch : Channel).

(** the channel of a topic that is subscribed to, and the queue its consumer reads *)
Definition channel_of (topic : string) (c : nat) w ch : Prop :=
  mq_events w !! topic = Some c /\ cx_channels w !! c = Some ch /\ ch_topic ch = topic /\
  exists config, message_queue_config args = Ok config /\ ch_config ch = consumer_config config topic.

Definition subscribers_ok w : Prop :=
  forall topic c, mq_events w !! topic = Some c -> exists ch, channel_of topic c w ch.

(** a channel that has been sent to, or whose task went on *)
Lemma channel_of_put topic c w ch d ch0 more task :
  channel_of topic c w ch -> cx_channels w !! d = Some ch0 ->
  exists ch' more', channel_of topic c
    (put_channel d (mkChannel (ch_config ch0) (ch_topic ch0) (ch_sent ch0 ++ more) task) w) ch' /\
    ch_sent ch' = ch_sent ch ++ more'.
Proof.
  intros (Hm & Hc & Ht & Hconfig) Hd. destruct (decide (d = c)) as [->|Hne].
  - rewrite Hc in Hd. injection Hd as <-. exists (mkChannel (ch_config ch) (ch_topic ch) (ch_sent ch ++ more) task), more. split; [|reflexivity].
    split; [done|]. simpl. rewrite list_lookup_insert_eq by (by eapply lookup_lt_Some). done.
  - exists ch, []. rewrite app_nil_r. split; [|done]. split; [done|]. simpl. by rewrite list_lookup_insert_ne.
Qed.

Lemma channel_of_subscribe topic c w ch topic' created w' r :
  channel_of topic c w ch -> subscribe_on_message_queue args topic' created w = (w', r) -> channel_of topic c w' ch.
Proof.
  intros Hch Hrun. pose proof Hch as (Hm & Hc & Hrest). unfold subscribe_on_message_queue in Hrun.
  destruct (mq_events w !! topic') as [d|] eqn:Hd; [injection Hrun as <- _; exact Hch|].
  destruct (message_queue_config args) as [config|e] eqn:Hconfig; [|injection Hrun as <- _; exact Hch].
  destruct created as [[]|e]; simpl in Hrun; injection Hrun as <- _; [|exact Hch].
  split; simpl; [by rewrite lookup_insert_ne by congruence|].
  rewrite (lookup_app_l_Some _ _ _ _ Hc). split; [done|by rewrite Hconfig].
Qed.

Lemma poll_next_same i w w' p :
  poll_next i w = (w', p) -> mq_events w' = mq_events w /\ cx_channels w' = cx_channels w.
Proof. unfold poll_next. intros Hrun. repeat case_match; by injection Hrun as <- _. Qed.

(** channels stay where they are, and only grow *)
Lemma channel_of_step topic c w w' ch :
  channel_of topic c w ch -> events_step args w w' ->
  exists ch' more, channel_of topic c w' ch' /\ ch_sent ch' = ch_sent ch ++ more.
Proof.
  intros Hch Hstep.
  destruct Hstep as [w t created w' r Hrun|w d ch0 delivery Hd _|w d ch0 Hd _|w d ch0 Hd _|w i w' p Hrun].
  - exists ch, []. rewrite app_nil_r. split; [|done]. by eapply channel_of_subscribe.
  - unfold forward. rewrite Hd. destruct delivery; by eapply channel_of_put.
  - unfold drain. rewrite Hd, <- (app_nil_r (ch_sent ch0)). by eapply channel_of_put.
  - unfold task_end. rewrite Hd, <- (app_nil_r (ch_sent ch0)). by eapply channel_of_put.
  - exists ch, []. rewrite app_nil_r. split; [|done]. unfold channel_of.
    destruct (poll_next_same _ _ _ _ Hrun) as [-> ->]. exact Hch.
Qed.

(** a subscription: the stream is new and at the end of the topic's channel *)
Lemma subscribe_at_end topic created w w' i :
  subscribers_ok w -> subscribe_on_message_queue args topic created w = (w', Ok i) ->
  exists c ch, channel_of topic c w' ch /\ cx_streams w' !! i = Some (stream_at c (length (ch_sent ch))).
Proof.
  intros Hok Hrun. unfold subscribe_on_message_queue in Hrun.
  destruct (mq_events w !! topic) as [c|] eqn:Hc.
  - destruct (Hok _ _ Hc) as (ch & Hch). pose proof Hch as (_ & Hd & _). unfold subscribe in Hrun. rewrite Hd in Hrun.
    injection Hrun as <- <-. exists c, ch. split; [exact Hch|]. simpl. by rewrite lookup_app_r, Nat.sub_diag by done.
  - destruct (message_queue_config args) as [config|e] eqn:Hconfig; [|done].
    destruct created as [[]|e]; simpl in Hrun; [|done]. injection Hrun as <- <-.
    exists (length (cx_channels w)), (mkChannel (consumer_config config topic) topic [] Consuming).
    split; [split_and!|]; simpl.
    + by rewrite lookup_insert_eq.
    + by rewrite lookup_app_r, Nat.sub_diag by done.
    + done.
    + by exists config.
    + by rewrite lookup_app_r, Nat.sub_diag by done.
Qed.

Lemma subscribers_step w w' : subscribers_ok w -> events_step args w w' -> subscribers_ok w'.
Proof.
  intros Hok Hstep topic c Hc. destruct (mq_events w !! topic) as [d|] eqn:Hd.
  - destruct (Hok _ _ Hd) as (ch & Hch). destruct (channel_of_step _ _ _ _ _ Hch Hstep) as (ch' & _ & Hch' & _).
    assert (d = c) as -> by (destruct Hch' as (Hm & _); congruence). by exists ch'.
  - destruct Hstep as [w t created w' r Hrun|w e ch0 delivery He _|w e ch0 He _|w e ch0 He _|w i w' p Hrun].
    + destruct r as [i|e].
      * destruct (decide (t = topic)) as [->|Hne].
        -- destruct (subscribe_at_end _ _ _ _ _ Hok Hrun) as (c' & ch & Hch & _).
           assert (c' = c) as -> by (destruct Hch as (Hm & _); congruence). by exists ch.
        -- unfold subscribe_on_message_queue in Hrun. destruct (mq_events w !! t); [injection Hrun as <- _; simpl in Hc; congruence|].
           destruct (message_queue_config args); [|done]. destruct created as [[]|]; simpl in Hrun; [|done].
           injection Hrun as <- _. simpl in Hc. rewrite lookup_insert_ne in Hc by done. congruence.
      * unfold subscribe_on_message_queue in Hrun. destruct (mq_events w !! t); [done|].
        destruct (message_queue_config args); [|injection Hrun as <- _; congruence].
        destruct created as [[]|]; simpl in Hrun; [done|]. injection Hrun as <- _. congruence.
    + unfold forward in Hc. rewrite He in Hc. destruct delivery; simpl in Hc; congruence.
    + unfold drain in Hc. rewrite He in Hc. simpl in Hc. congruence.
    + unfold task_end in Hc. rewrite He in Hc. simpl in Hc. congruence.
    + destruct (poll_next_same _ _ _ _ Hrun) as [Hm _]. congruence.
Qed.

Lemma reach_subscribers w : events_reach args context_new w -> subscribers_ok w.
Proof.
  intros Hreach. unfold events_reach in Hreach.
  eapply (rtc_ind_r subscribers_ok); [|..|exact Hreach]; [by intros topic c Hc|].
  intros x y _ Hstep Hx. by eapply subscribers_step.
Qed.

(** *** One stream *)

(** why a stream has ended: its client was too far behind, or its consumer failed *)
Definition ended_by (e : string) (after : list Item) : Prop :=
  (e = "channel lagged" /\ CAPACITY < length after) \/
  exists error rest, after = Err error :: rest /\ e = messaging_error_display error.

(** what an open stream answers to a poll, by what its client has not seen yet *)
Definition outlook (after : list Item) : Poll :=
  if CAPACITY <? length after then Ready (Some (Err "channel lagged"))
  else match after with
  | [] => Pending
  | Ok event :: _ => Ready (Some (Ok event))
  | Err error :: _ => Ready (Some (Err (messaging_error_display error)))
  end.

(** a stream that began after [sent0]: it has given [evs], and [after] is to come *)
Definition view (sent0 : list Item) ch s (evs : list Event) (after : list Item) : Prop :=
  ch_sent ch = sent0 ++ (Ok <$> evs) ++ after /\ es_next s = length sent0 + length evs /\
  if es_open s then es_seen s = Ok <$> evs
  else exists e, es_seen s = (Ok <$> evs) ++ [Err e] /\ ended_by e after.

Definition follows (topic : string) (c : nat) (sent0 : list Item) (i : nat) w : Prop :=
  exists ch s evs after, channel_of topic c w ch /\ cx_streams w !! i = Some s /\ es_chan s = c /\
    view sent0 ch s evs after.

Lemma ended_by_grows e after more : ended_by e after -> ended_by e (after ++ more).
Proof.
  intros [[-> Hl]|(error & rest & -> & ->)]; [left; rewrite length_app; split; [done|lia]|right].
  by exists error, (rest ++ more).
Qed.

Lemma view_grows sent0 ch ch' s evs after more :
  view sent0 ch s evs after -> ch_sent ch' = ch_sent ch ++ more -> view sent0 ch' s evs (after ++ more).
Proof.
  intros (Hsent & Hnext & Hseen) Hch. split_and!; [by rewrite Hch, Hsent, <- !app_assoc|done|].
  destruct (es_open s); [done|]. destruct Hseen as (e & He & Hend). exists e. split; [done|by apply ended_by_grows].
Qed.

(** what [recv] finds; the topic's subscriber keeps its channel open *)
Lemma recv_view topic c w ch s sent0 evs after :
  channel_of topic c w ch -> es_chan s = c -> view sent0 ch s evs after ->
  recv s w = if CAPACITY <? length after then RecvLagged (length after - CAPACITY)
             else match after with [] => RecvWait | item :: _ => RecvItem item end.
Proof.
  intros (Hm & Hc & _) Hs (Hsent & Hnext & _). unfold recv. rewrite Hs, Hc, Hsent, Hnext, !length_app, length_fmap.
  replace (length sent0 + length evs + CAPACITY <? length sent0 + (length evs + length after))
    with (CAPACITY <? length after)
    by (destruct (Nat.ltb_spec CAPACITY (length after)), (Nat.ltb_spec (length sent0 + length evs + CAPACITY)
          (length sent0 + (length evs + length after))); lia || done).
  destruct (CAPACITY <? length after); [f_equal; lia|].
  rewrite lookup_app_r, lookup_app_r by (rewrite ?length_fmap; lia).
  replace (length sent0 + length evs - length sent0 - length (Ok <$> evs)) with 0 by (rewrite length_fmap; lia).
  destruct after as [|item after]; [|done]. simpl.
  replace (has_sender c w) with true; [done|]. symmetry. apply orb_true_iff. left.
  apply bool_decide_eq_true_2. by exists topic, c.
Qed.

Lemma poll_view topic c w ch i s sent0 evs after :
  channel_of topic c w ch -> cx_streams w !! i = Some s -> es_chan s = c -> view sent0 ch s evs after ->
  (poll_next i w).2 = if es_open s then outlook after else Ready None.
Proof.
  intros Hch Hi Hs Hv. unfold poll_next. rewrite Hi. destruct (es_open s) eqn:Hopen; [|done]. cbn [negb].
  rewrite (recv_view _ _ _ _ _ _ _ _ Hch Hs Hv). unfold outlook.
  destruct (CAPACITY <? length after); [done|]. by destruct after as [|[event|error] after].
Qed.

Lemma poll_follows topic c sent0 i w w' p :
  follows topic c sent0 i w -> poll_next i w = (w', p) -> follows topic c sent0 i w'.
Proof.
  intros (ch & s & evs & after & Hch & Hi & Hs & Hv) Hrun.
  pose proof (poll_next_same _ _ _ _ Hrun) as [Hm Hc]. unfold poll_next in Hrun. rewrite Hi in Hrun.
  destruct (es_open s) eqn:Hopen; cbn [negb] in Hrun.
  2: { injection Hrun as <- _. by exists ch, s, evs, after. }
  rewrite (recv_view _ _ _ _ _ _ _ _ Hch Hs Hv) in Hrun. destruct Hv as (Hsent & Hnext & Hseen). rewrite Hopen in Hseen.
  assert (i < length (cx_streams w)) as Hlt by (by eapply lookup_lt_Some).
  destruct (CAPACITY <? length after) eqn:Hlag; [|destruct after as [|[event|error] after]]; injection Hrun as <- _.
  - eexists ch, _, evs, after. split; [exact Hch|]. simpl. rewrite list_lookup_insert_eq by done. split; [done|].
    split; [done|]. split_and!; [done..|]. simpl. exists "channel lagged". rewrite Hseen. split; [done|]. left.
    split; [done|by apply Nat.ltb_lt].
  - exists ch, s, evs, []. split; [exact Hch|]. split; [exact Hi|]. split; [done|].
    unfold view. rewrite Hopen. split_and!; done.
  - eexists ch, _, (evs ++ [event]), after. split; [exact Hch|]. simpl. rewrite list_lookup_insert_eq by done. split; [done|].
    split; [done|]. unfold view. cbn [es_open es_next es_seen]. rewrite fmap_app. split_and!; simpl; [by rewrite Hsent, <- !app_assoc|rewrite length_app; simpl; lia|].
    rewrite fmap_app, Hseen. reflexivity.
  - eexists ch, _, evs, (Err error :: after). split; [exact Hch|]. simpl. rewrite list_lookup_insert_eq by done. split; [done|].
    split; [done|]. split_and!; [done..|]. simpl. eexists. rewrite Hseen. split; [done|]. right. by exists error, after.
Qed.

Lemma stream_kept i s w w' : cx_streams w !! i = Some s -> events_step args w w' ->
  cx_streams w' !! i = Some s \/ exists p, poll_next i w = (w', p).
Proof.
  intros Hi Hstep.
  destruct Hstep as [w t created w' r Hrun|w d ch0 delivery Hd _|w d ch0 Hd _|w d ch0 Hd _|w j w' p Hrun].
  - left. unfold subscribe_on_message_queue in Hrun.
    destruct (mq_events w !! t) as [d|]; [injection Hrun as <- _; by apply lookup_app_l_Some|].
    destruct (message_queue_config args) as [config|e]; [|by injection Hrun as <- _].
    destruct created as [[]|e]; simpl in Hrun; injection Hrun as <- _; [by apply lookup_app_l_Some|done].
  - left. unfold forward. rewrite Hd. by destruct delivery.
  - left. unfold drain. by rewrite Hd.
  - left. unfold task_end. by rewrite Hd.
  - destruct (decide (j = i)) as [->|Hne]; [right; by exists p|left]. unfold poll_next in Hrun.
    repeat case_match; injection Hrun as <- _; try done; simpl; by rewrite list_lookup_insert_ne.
Qed.

Lemma follows_step topic c sent0 i w w' :
  follows topic c sent0 i w -> events_step args w w' -> follows topic c sent0 i w'.
Proof.
  intros Hf Hstep. pose proof Hf as (ch & s & evs & after & Hch & Hi & Hs & Hv).
  destruct (stream_kept i s w w' Hi Hstep) as [Hi'|[p Hp]]; [|by eapply poll_follows].
  destruct (channel_of_step _ _ _ _ _ Hch Hstep) as (ch' & more & Hch' & Hmore).
  exists ch', s, evs, (after ++ more). split_and!; [done..|]. by eapply view_grows.
Qed.

(** C38: a client that subscribes to a topic sees what the topic's consumer reads
    from that moment on, in order, with no event left out or repeated.  Each poll
    yields the next event, waits when there is none, and ends the stream with an
    error when more than 32 events are unseen or the consumer failed next; a
    stream ends for no other reason, and yields nothing after its error. *)
Theorem stream_contiguous topic created w0 w1 i w2 s :
  events_reach args context_new w0 -> subscribe_on_message_queue args topic created w0 = (w1, Ok i) ->
  events_reach args w1 w2 -> cx_streams w2 !! i = Some s ->
  exists c ch1 ch2 evs after, channel_of topic c w1 ch1 /\ channel_of topic c w2 ch2 /\
    ch_sent ch2 = ch_sent ch1 ++ (Ok <$> evs) ++ after /\
    if es_open s then es_seen s = Ok <$> evs /\ (poll_next i w2).2 = outlook after
    else (exists e, es_seen s = (Ok <$> evs) ++ [Err e] /\ ended_by e after) /\ (poll_next i w2).2 = Ready None.
Proof.
  intros Hreach Hsub Hrest Hi. apply reach_subscribers in Hreach.
  destruct (subscribe_at_end _ _ _ _ _ Hreach Hsub) as (c & ch1 & Hch1 & Hi1).
  assert (follows topic c (ch_sent ch1) i w2) as (ch2 & s' & evs & after & Hch2 & Hi2 & Hs & Hv).
  { unfold events_reach in Hrest. eapply (rtc_ind_r (follows topic c (ch_sent ch1) i)); [|..|exact Hrest].
    - exists ch1, (stream_at c (length (ch_sent ch1))), [], []. split_and!; [done..|]. unfold view. simpl.
      by rewrite !app_nil_r, Nat.add_0_r.
    - intros x y _ Hstep Hx. by eapply follows_step. }
  rewrite Hi in Hi2. injection Hi2 as <-. pose proof (poll_view _ _ _ _ _ _ _ _ _ Hch2 Hi Hs Hv) as Hpoll.
  destruct Hv as (Hsent & _ & Hseen). exists c, ch1, ch2, evs, after. split_and!; [done..|].
  by destruct (es_open s).
Qed.
End streams.

(** ** A topic whose consumer has ended *)

Section ended.
Context `{StdText} (args : MessageQueueArgs).

(** the subscriber of the topic stays in the map, its channel gets nothing more,
    and stream [i] has seen all of it *)
Definition stuck (topic : string) (c i : nat) (sent : list Item) (w : Context) : Prop :=
  mq_events w !! topic = Some c /\
  (exists ch, cx_channels w !! c = Some ch /\ ch_sent ch = sent /\ ch_task ch <> Consuming) /\
  cx_streams w !! i = Some (stream_at c (length sent)).

Lemma stuck_pending topic c i sent w : stuck topic c i sent w -> poll_next i w = (w, Pending).
Proof.
  intros (Hm & (ch & Hc & Hsent & _) & Hi). unfold poll_next. rewrite Hi. simpl.
  unfold recv. simpl. rewrite Hc, Hsent.
  replace (length sent + CAPACITY <? length sent) with false by (symmetry; apply Nat.ltb_ge; lia).
  rewrite lookup_ge_None_2 by done.
  replace (has_sender c w) with true; [done|]. symmetry. apply orb_true_iff. left.
  apply bool_decide_eq_true_2. by exists topic, c.
Qed.

Lemma stuck_put_channel topic c i sent w d config t l task :
  stuck topic c i sent w -> (d = c -> l = sent /\ task <> Consuming) ->
  stuck topic c i sent (put_channel d (mkChannel config t l task) w).
Proof.
  intros (Hm & (ch & Hc & Hrest) & Hi) Hd. split; [done|]. split; [|done]. simpl.
  destruct (decide (d = c)) as [->|Hne].
  - rewrite list_lookup_insert_eq by (by eapply lookup_lt_Some). eexists. split; [done|]. by apply Hd.
  - rewrite list_lookup_insert_ne by done. by exists ch.
Qed.

Lemma stuck_put_stream topic c i sent w j s :
  stuck topic c i sent w -> j <> i -> stuck topic c i sent (put_stream j s w).
Proof.
  intros (Hm & Hc & Hi) Hj. split_and!; [done..|]. simpl. by rewrite list_lookup_insert_ne.
Qed.

Lemma stuck_subscribe topic c i sent w t created w' r :
  stuck topic c i sent w -> subscribe_on_message_queue args t created w = (w', r) ->
  stuck topic c i sent w'.
Proof.
  intros (Hm & (ch & Hc & Hrest) & Hi) Hrun. unfold subscribe_on_message_queue in Hrun.
  destruct (mq_events w !! t) as [d|] eqn:Ht.
  - injection Hrun as <- _. split_and!; [done|by exists ch|]. simpl. by apply lookup_app_l_Some.
  - destruct (message_queue_config args) as [config|e]; [|injection Hrun as <- _; by split_and!; [|exists ch|]].
    destruct created as [[]|e]; simpl in Hrun; injection Hrun as <- _; [|by split_and!; [|exists ch|]].
    split_and!; simpl.
    + rewrite lookup_insert_ne; [done|]. by intros ->; rewrite Ht in Hm.
    + exists ch. by rewrite (lookup_app_l_Some _ _ _ _ Hc).
    + by apply lookup_app_l_Some.
Qed.

Lemma stuck_step topic c i sent w w' :
  stuck topic c i sent w -> events_step args w w' -> stuck topic c i sent w'.
Proof.
  intros Hst Hstep.
  destruct Hstep as [w t created w' r Hrun|w d ch delivery Hd Ht|w d ch Hd Ht|w d ch Hd Ht|w j w' p Hrun].
  - by eapply stuck_subscribe.
  - assert (d <> c) as Hne by (intros ->; destruct Hst as (_ & (ch' & Hc & _ & Hn) & _); congruence).
    unfold forward. rewrite Hd. destruct delivery; by apply stuck_put_channel.
  - assert (d <> c) as Hne by (intros ->; destruct Hst as (_ & (ch' & Hc & _ & Hn) & _); congruence).
    unfold drain. rewrite Hd. by apply stuck_put_channel.
  - unfold task_end. rewrite Hd. apply stuck_put_channel; [done|]. intros ->.
    destruct Hst as (_ & (ch' & Hc & Hsent & _) & _). rewrite Hd in Hc. by simplify_eq.
  - destruct (decide (j = i)) as [->|Hne].
    + rewrite (stuck_pending _ _ _ _ _ Hst) in Hrun. by injection Hrun as <- _.
    + unfold poll_next in Hrun. repeat case_match; injection Hrun as <- _; try done; by apply stuck_put_stream.
Qed.

(** C39: once the consumer of a topic has ended, the topic is lost for as long
    as the process runs.  [on_close] is never run, so the ended subscriber stays
    in the map: every later subscription succeeds, without a new consumer, and
    its stream yields nothing, no event, no error and no end, whatever happens
    afterwards. *)
Theorem ended_topic_hangs w topic c ch created w1 r :
  mq_events w !! topic = Some c -> cx_channels w !! c = Some ch -> ch_task ch <> Consuming ->
  subscribe_on_message_queue args topic created w = (w1, r) ->
  exists i, r = Ok i /\ cx_channels w1 = cx_channels w /\
    forall w2, events_reach args w1 w2 -> poll_next i w2 = (w2, Pending).
Proof.
  intros Hm Hc Ht Hrun. unfold subscribe_on_message_queue in Hrun. rewrite Hm in Hrun.
  unfold subscribe in Hrun. rewrite Hc in Hrun. injection Hrun as <- <-.
  exists (length (cx_streams w)). split_and!; [done..|]. intros w2 Hreach.
  apply (stuck_pending topic c _ (ch_sent ch)). unfold events_reach in Hreach.
  eapply (rtc_ind_r (stuck topic c (length (cx_streams w)) (ch_sent ch))); [|..|exact Hreach].
  - split_and!; [done|by exists ch|]. simpl. rewrite lookup_app_r by done. by rewrite Nat.sub_diag.
  - intros x y _ Hstep Hx. by eapply stuck_step.
Qed.
End ended.

(** ** A run *)

Definition demo_args : MessageQueueArgs :=
  mkMessageQueueArgs ApiKafka (Some "kafka") (Some "api") None None.
Definition demo_event : CommMessage := KafkaCommunicationMessage (Some "k") (Some "{}") 0 0.
Definition demo_subscribed : Context :=
  (subscribe_on_message_queue demo_args "reports" (Ok ()) context_new).1.
(** one event was read and seen, then the consumer failed *)
Definition demo_seen : Context := (poll_next 0 (forward 0 (Ok demo_event) demo_subscribed)).1.
Definition demo_failed : Context := forward 0 (Err "broker down") demo_seen.

Lemma demo_seen_reach : events_reach demo_args demo_subscribed demo_seen.
Proof.
  eapply rtc_l; [eapply (step_forward _ _ 0 _ (Ok demo_event)); reflexivity|].
  apply rtc_once. eapply (step_poll _ _ 0). reflexivity.
Qed.

Lemma stream_contiguous_witness :
  exists s, cx_streams demo_seen !! 0 = Some s /\
  exists c ch1 ch2 evs after, channel_of demo_args "reports" c demo_subscribed ch1 /\
    channel_of demo_args "reports" c demo_seen ch2 /\ ch_sent ch2 = ch_sent ch1 ++ (Ok <$> evs) ++ after /\
    if es_open s then es_seen s = Ok <$> evs /\ (poll_next 0 demo_seen).2 = outlook after
    else (exists e, es_seen s = (Ok <$> evs) ++ [Err e] /\ ended_by e after) /\ (poll_next 0 demo_seen).2 = Ready None.
Proof.
  eexists. split; [reflexivity|].
  apply (stream_contiguous demo_args "reports" (Ok ()) context_new demo_subscribed 0 demo_seen).
  - apply rtc_refl.
  - reflexivity.
  - apply demo_seen_reach.
  - reflexivity.
Defined.

Lemma ended_topic_hangs_witness :
  exists i, (subscribe_on_message_queue demo_args "reports" (Ok ()) demo_failed).2 = Ok i /\
    cx_channels (subscribe_on_message_queue demo_args "reports" (Ok ()) demo_failed).1 =
      cx_channels demo_failed /\
    forall w2, events_reach demo_args
        (subscribe_on_message_queue demo_args "reports" (Ok ()) demo_failed).1 w2 ->
      poll_next i w2 = (w2, Pending).
Proof.
  apply (ended_topic_hangs demo_args demo_failed "reports" 0
    (mkChannel (ConsumerKafka "kafka" "api" "reports") "reports"
       [Ok (event_of demo_event); Err (CommunicationError "broker down")] Drained) (Ok ())
    (subscribe_on_message_queue demo_args "reports" (Ok ()) demo_failed).1);
    [reflexivity|reflexivity|done|reflexivity].
Defined.
