(* ===== verification/Api.v ===== *)
(** Queries and mutations of the GraphQL API: [crates/api/src/schema/{query,
    mutation,utils,context}.rs] and [types/{schema,data}.rs].  A resolver is a
    computation over the services the API calls: the schema registry, the query
    router over HTTP, and the broker of the data router. *)
From stdpp Require Import prelude gmap strings list fin_maps.
From S2P Require Import Prelude StringSplit Json Externals Indradb RegistryTypes SchemaDb SchemaDbSpec.
From S2P Require Import Registry Instances RegistryRun Messaging MessageTypes RegistryRpc RpcSpec.
From S2P Require Import RegistryClient QueryRouterMain ApiEvents.

(** ** Types *)

Inductive GSchemaType : Type := GDocumentStorage | GTimeseries.
(** the derived [FromPrimitive] and [ToPrimitive] *)
Definition gschema_type_from_i32 (n : Z) : option GSchemaType :=
  if (n =? 0)%Z then Some GDocumentStorage else if (n =? 1)%Z then Some GTimeseries else None.
Definition gschema_type_to_i32 (t : GSchemaType) : Z :=
  match t with GDocumentStorage => 0 | GTimeseries => 1 end.

Record GSchema : Type := mkGSchema {
  gs_id : Uuid; gs_name : string; gs_topic : string; gs_query_address : string;
  gs_schema_type : GSchemaType }.
Record GDefinition : Type := mkGDefinition { gd_definition : string; gd_version : string }.
Record GView : Type := mkGView { gv_id : Uuid; gv_name : string; gv_expression : string }.
Record GNewSchema : Type := mkGNewSchema {
  gn_name : string; gn_query_address : string; gn_topic : string; gn_definition : string;
  gn_schema_type : GSchemaType }.
Record GNewView : Type := mkGNewView { gnv_name : string; gnv_expression : string }.
Record GNewVersion : Type := mkGNewVersion { gnr_version : string; gnr_definition : string }.
Record GUpdateSchema : Type := mkGUpdateSchema {
  gu_name : option string; gu_query_address : option string; gu_topic : option string;
  gu_schema_type : option GSchemaType }.
Record GUpdateView : Type := mkGUpdateView {
  guv_name : option string; guv_expression : option string }.
Record InputMessage : Type := mkInputMessage {
  inp_object_id : Uuid; inp_schema_id : Uuid; inp_payload : string }.
Record CdlObject : Type := mkCdlObject { co_object_id : Uuid; co_data : Value }.

(** [CdlObject::data]: [to_string().unwrap_or_default()] *)
Definition cdl_object_data `{JsonText} (o : CdlObject) : string :=
  match json_to_string (co_data o) with Ok text => text | Err _ => EmptyString end.

(** ** Errors: the sources of a [FieldError] *)

Inductive ApiError : Type :=
| ApiClientError (e : ClientError)
| ApiUuid (e : string)
| ApiInvalidSchemaType (n : Z)
| ApiPublisherError (e : MessagingError)
| ApiJson (e : string)
| ApiHttp (e : string)
| ApiConfigError (e : string).

(** ** Services *)

(** [reqwest]: a request to a URL with headers and body; the bytes of the
    response whatever its status is *)
Class HttpClient (N : Type) := {
  http_send : HttpMethod -> string -> list (string * string) -> string -> M N string string;
}.

(** the derived writer of [DataRouterInsertMessage], and [RawValue::from_string] *)
Class InsertText := {
  insert_message_to_vec : DataRouterInsertMessage -> result string string;
  raw_value_from_string : string -> result string string;
}.

(** ** Resolvers *)

Section resolvers.
Context {N : Type} `{RegistryService N, HttpClient N, UuidLib, JsonText, StringHashIter, HashIter}
  (config : ApiConfig).
Abbreviation Field A := (M N ApiError A) (only parsing).

Definition connect_to_registry : Field string :=
  with_err ApiClientError (connect (ac_schema_registry_addr config)).
Definition call {A} (conn : string) (request : Request A) : Field A :=
  with_err (ApiClientError ∘ registry_error) (sv_call conn request).

Definition parse_id (id : string) : result ApiError Uuid := map_err ApiUuid (uuid_parse_str id).

(** *** [schema/utils.rs] *)

Definition gschema_of (id : Uuid) (schema : RespSchema) : result ApiError GSchema :=
  schema_type ← ok_or (ApiInvalidSchemaType (rs_schema_type schema))
                  (gschema_type_from_i32 (rs_schema_type schema));
  Ok (mkGSchema id (rs_name schema) (rs_topic schema) (rs_query_address schema) schema_type).

Definition api_get_view (conn : string) (id : Uuid) : Field GView :=
  view ← call conn (GetView (uuid_to_string id));
  mret (mkGView id (view_name view) (view_jmespath view)).

Definition api_get_schema (conn : string) (id : Uuid) : Field GSchema :=
  schema ← call conn (GetSchemaMetadata (uuid_to_string id));
  lift (gschema_of id schema).

(** *** Fields of a schema *)

Definition fetch_definition (conn id version_req : string) : Field GDefinition :=
  schema_def ← call conn (GetSchema (mkVersionedId id version_req));
  mret (mkGDefinition (rd_definition schema_def) (rd_version schema_def)).

Definition schema_definition_field (self : GSchema) (version : string) : Field GDefinition :=
  conn ← connect_to_registry;
  fetch_definition conn (uuid_to_string (gs_id self)) version.

Fixpoint fetch_definitions (conn id : string) (versions : list string) : Field (list GDefinition) :=
  match versions with
  | [] => mret []
  | version :: l =>
      d ← fetch_definition conn id ("=" +:+ version);
      ds ← fetch_definitions conn id l;
      mret (d :: ds)
  end.

Definition definitions (self : GSchema) : Field (list GDefinition) :=
  conn ← connect_to_registry;
  let id := uuid_to_string (gs_id self) in
  versions ← call conn (GetSchemaVersions id);
  fetch_definitions conn id versions.

Definition gview_of (entry : string * View) : result ApiError GView :=
  id ← parse_id entry.1; Ok (mkGView id (view_name entry.2) (view_jmespath entry.2)).

Definition views (self : GSchema) : Field (list GView) :=
  conn ← connect_to_registry;
  views ← call conn (GetAllViewsOfSchema (uuid_to_string (gs_id self)));
  lift (try_map gview_of (string_hash_iter views)).

(** *** Queries *)

Definition query_schema (id : Uuid) : Field GSchema :=
  conn ← connect_to_registry; api_get_schema conn id.

Definition gschema_entry (entry : string * RespSchema) : result ApiError GSchema :=
  id ← parse_id entry.1; gschema_of id entry.2.

Definition schemas : Field (list GSchema) :=
  conn ← connect_to_registry;
  schemas ← call conn GetAllSchemas;
  lift (try_map gschema_entry (string_hash_iter schemas)).

Definition query_view (id : Uuid) : Field GView :=
  conn ← connect_to_registry; api_get_view conn id.

Definition object (object_id schema_id : Uuid) : Field CdlObject :=
  bytes ← with_err ApiHttp (http_send HttpPost
    (ac_query_router_addr config +:+ "/single/" +:+ uuid_to_string object_id)
    [("SCHEMA_ID", uuid_to_string schema_id)] "{}");
  data ← lift (map_err ApiJson (json_parse bytes));
  mret (mkCdlObject object_id data).

(** [.json::<HashMap<Uuid, Value>>()] *)
Definition uuid_map_from_str (text : string) : result string (gmap Uuid Value) :=
  v ← json_parse text;
  m ← ok_or "invalid type: expected a map" (as_object v);
  l ← try_map (fun kv => id ← uuid_parse_str kv.1; Ok (id, kv.2)) (object_iter m);
  Ok (collect_map l).

Definition fetch_objects (path : string) (schema_id : Uuid) : Field (list CdlObject) :=
  body ← with_err ApiHttp (http_send HttpGet (ac_query_router_addr config +:+ path)
           [("SCHEMA_ID", uuid_to_string schema_id)] EmptyString);
  values ← lift (map_err ApiHttp (uuid_map_from_str body));
  mret ((fun kv => mkCdlObject kv.1 kv.2) <$> hash_iter values).

Definition objects (object_ids : list Uuid) (schema_id : Uuid) : Field (list CdlObject) :=
  fetch_objects ("/multiple/" +:+ join "," (uuid_to_string <$> object_ids)) schema_id.
Definition schema_objects (schema_id : Uuid) : Field (list CdlObject) :=
  fetch_objects "/schema" schema_id.

(** *** Mutations of the registry *)

Definition api_add_schema (new : GNewSchema) : Field GSchema :=
  conn ← connect_to_registry;
  text ← call conn (AddSchema (mkReqNewSchema EmptyString (gn_name new) (gn_query_address new)
                      (gn_topic new) (gn_definition new) (gschema_type_to_i32 (gn_schema_type new))));
  id ← lift (parse_id text);
  mret (mkGSchema id (gn_name new) (gn_topic new) (gn_query_address new) (gn_schema_type new)).

Definition add_schema_definition (schema_id : Uuid) (new_version : GNewVersion) : Field GDefinition :=
  conn ← connect_to_registry;
  call conn (AddSchemaVersion (mkReqNewSchemaVersion (uuid_to_string schema_id)
               (gnr_version new_version) (gnr_definition new_version))) ;;
  mret (mkGDefinition (gnr_definition new_version) (gnr_version new_version)).

Definition add_view (schema_id : Uuid) (new_view : GNewView) : Field GView :=
  conn ← connect_to_registry;
  text ← call conn (AddViewToSchema (mkReqNewSchemaView (uuid_to_string schema_id) EmptyString
                      (gnv_name new_view) (gnv_expression new_view)));
  id ← lift (parse_id text);
  mret (mkGView id (gnv_name new_view) (gnv_expression new_view)).

Definition api_update_view (id : Uuid) (update : GUpdateView) : Field GView :=
  conn ← connect_to_registry;
  call conn (UpdateView (mkUpdatedView (uuid_to_string id) (guv_name update) (guv_expression update))) ;;
  api_get_view conn id.

Definition update_schema (id : Uuid) (update : GUpdateSchema) : Field GSchema :=
  conn ← connect_to_registry;
  call conn (UpdateSchemaMetadata (mkSchemaMetadataUpdate (uuid_to_string id) (gu_name update)
               (gu_topic update) (gu_query_address update)
               (gschema_type_to_i32 <$> gu_schema_type update))) ;;
  api_get_schema conn id.
End resolvers.

(** *** Mutations that feed the data router *)

Section insert.
Context {B : Type} `{Broker B, UuidLib, InsertText} (config : ApiConfig).
Abbreviation Field A := (M B ApiError A) (only parsing).

(** [connect_to_data_router]: [created] is the outcome of [CommonPublisher::new_*] *)
Definition connect_to_data_router (created : result MessagingError ()) : Field CommonPublisher :=
  mq ← lift (map_err ApiConfigError (message_queue_config (ac_message_queue config)));
  lift (map_err ApiPublisherError created) ;;
  mret (match mq with ApiAmqpConfig _ _ => PublisherAmqp | ApiKafkaConfig _ _ => PublisherKafka end).

(** one message, serialized and published under an order group *)
Definition publish_input (publisher : CommonPublisher) (key : string) (message : InputMessage) :
    Field () :=
  data ← lift (map_err ApiJson (raw_value_from_string (inp_payload message)));
  payload ← lift (map_err ApiJson (insert_message_to_vec
              (mkDataRouterInsertMessage (inp_object_id message) (inp_schema_id message) data)));
  with_err ApiPublisherError
    (publish_message publisher (ac_data_router_topic_or_queue config) key payload).

Definition insert_message (created : result MessagingError ()) (message : InputMessage) : Field bool :=
  publisher ← connect_to_data_router created;
  publish_input publisher EmptyString message ;;
  mret true.

(** [order_group_id] is the result of [Uuid::new_v4] *)
Definition insert_batch (created : result MessagingError ()) (order_group_id : Uuid)
    (messages : list InputMessage) : Field bool :=
  publisher ← connect_to_data_router created;
  for_each (publish_input publisher (uuid_to_string order_group_id)) messages ;;
  mret true.
End insert.
