(* ===== verification/ApiSpec.v ===== *)
(** What clients of the GraphQL API observe: the definitions of a schema, a
    schema that was just added, and a batch of messages. *)
From stdpp Require Import prelude gmap strings list fin_maps.
From S2P Require Import Prelude Json Externals Indradb RegistryTypes SchemaDb SchemaDbSpec.
From S2P Require Import Registry Instances RegistryRun Messaging MessageTypes Replication RegistryRpc.
From S2P Require Import ReplicaSpec RpcSpec RegistryClient ApiEvents Api.

(** ** Reading versions from the registry *)

Section reading.
Context {D B : Type} `{DatastoreLaws D, !ReliableDatastore D, Broker B, SemVerLaws, !ExactReqLaws,
  UuidLaws, JsonText, JsonSchemaLib, JmespathLib, HashIter}.
Implicit Types (s : SchemaRegistryImpl D B) (g : Graph).

Lemma rpc_get_schema_versions_wf s id :
  wf (graph (impl_db s)) -> fits (graph (impl_db s)) ->
  exists vs, versions_of (graph (impl_db s)) id vs /\
    rpc_get_schema_versions (uuid_to_string id) s =
      (s, Ok ((fun p => version_to_string p.1) <$> vs)).
Proof.
  intros Hwf Hfits.
  destruct (safe_returns (get_schema_versions id) (impl_db s) _ _ (safe_get_schema_versions id)
    (get_schema_versions_spec (impl_db s) id)) as (vs & d' & Hrun & -> & Hvs).
  - intros e d' [-> [He|(_ & i & x & Hx & Hn)]]; [done|].
    exfalso. by eapply wf_version_decodes in Hx; [|apply Hwf].
  - exists vs. split; [done|]. unfold rpc_get_schema_versions, mbind, M_bind, lift.
    rewrite parse_uuid_display. erewrite on_database_run by exact Hrun. by destruct s.
Qed.

(** an exact requirement finds the version it names *)
Lemma rpc_get_schema_exact s id v i def :
  wf (graph (impl_db s)) -> fits (graph (impl_db s)) ->
  g_version (graph (impl_db s)) id i = Some v ->
  g_vprop (graph (impl_db s)) i Definition_VALUE = Some def ->
  rpc_get_schema (mkVersionedId (uuid_to_string id) ("=" +:+ version_to_string v)) s =
    (s, mkRespDefinition (version_to_string v) <$> serialize_json def).
Proof.
  intros Hwf Hfits Hv Hdef. destruct (exact_req_parse v) as (r & Hr & Hm).
  assert (get_schema_definition (versioned_new id r) (impl_db s) =
          (impl_db s, Ok (mkSchemaDefinition v def))) as Hget.
  { apply (get_definition_wf _ _ _ i); [done|done| | |done].
    - split_and!; [done|by apply Hm; split; apply version_leb_refl|]. intros w j _ Hw.
      by apply Hm in Hw as [_ Hw].
    - intros w j (Hw & Hmw & _). apply Hm in Hmw.
      by apply (wf_versions_distinct (graph (impl_db s)) (proj1 Hwf) id j i w v). }
  unfold rpc_get_schema, mbind, M_bind, lift. cbn [vi_id vi_version_req].
  rewrite parse_uuid_display. unfold parse_version_req. rewrite Hr. cbn [map_err].
  erewrite on_database_run by exact Hget. cbn [map_err sd_definition sd_version].
  destruct (serialize_json def); by destruct s.
Qed.
End reading.

(** ** Definitions of a schema *)

Section definitions.
Context {L D B : Type} `{ReliableTransport L, DatastoreLaws D, !ReliableDatastore D, Broker B,
  SemVerLaws, !ExactReqLaws, UuidLaws, JsonText, JsonSchemaLib, JmespathLib, HashIter}
  (config : ApiConfig).
Implicit Types (n : Net L D B) (s : SchemaRegistryImpl D B) (g : Graph).

(** the stored definition that an answer of the API shows *)
Definition shows g (stored : Version * Uuid) (d : GDefinition) : Prop :=
  exists def, g_vprop g stored.2 Definition_VALUE = Some def /\
    json_to_string def = Ok (gd_definition d) /\ gd_version d = version_to_string stored.1.

Lemma wp_api_connect s n (Q : string -> Net L D B -> Prop) R :
  net_hosts n !! ac_schema_registry_addr config = Some s ->
  (forall n', net_hosts n' = net_hosts n -> Q (ac_schema_registry_addr config) n') ->
  wp (connect_to_registry config) n Q R.
Proof. intros Hs HQ. apply wp_with_err. by eapply wp_connect_host. Qed.

(** a request that the registry at [addr] serves without changing *)
Lemma wp_api_read {A} addr (request : Request A) s n a (Q : A -> Net L D B -> Prop) R :
  net_hosts n !! addr = Some s -> serve_request link_reset request s = (s, Ok a) ->
  (forall n', net_hosts n' = net_hosts n -> Q a n') -> wp (call addr request) n Q R.
Proof.
  intros Hs Hserve HQ. apply wp_with_err. eapply wp_call_host; [done|].
  unfold wp. rewrite Hserve. intros n' Hn'. apply HQ. by rewrite Hn', insert_id.
Qed.

Lemma fetch_definitions_spec addr s n id vs :
  net_hosts n !! addr = Some s -> wf (graph (impl_db s)) -> fits (graph (impl_db s)) ->
  (forall v, is_ok (json_to_string v) = true) ->
  (forall v i, (v, i) ∈ vs -> g_version (graph (impl_db s)) id i = Some v) ->
  wp (fetch_definitions addr (uuid_to_string id) ((fun p => version_to_string p.1) <$> vs)) n
    (fun ds n' => net_hosts n' = net_hosts n /\ Forall2 (shows (graph (impl_db s))) vs ds)
    (fun _ _ => False).
Proof.
  intros Hs Hwf Hfits Htext. revert n Hs. induction vs as [|[v i] vs IH]; intros n Hs Hvs; [by apply wp_ret|].
  pose proof (Hvs v i ltac:(by left)) as Hv.
  destruct (wf_version_definition _ id i v (proj1 Hwf) Hv) as [def Hdef].
  pose proof (Htext def) as Hok. destruct (json_to_string def) as [text|e] eqn:Hdt; [|done].
  cbn [fmap list_fmap fetch_definitions]. apply wp_bind. unfold fetch_definition. apply wp_bind.
  eapply wp_api_read; [exact Hs| |].
  { cbn [serve_request fst]. rewrite (rpc_get_schema_exact s id v i def) by done.
    unfold serialize_json. by rewrite Hdt. }
  intros n1 Hn1. apply wp_ret, wp_bind. eapply wp_mono; [apply IH; [by rewrite Hn1|]|..].
  - intros w j Hw. apply Hvs. by right.
  - intros ds n2 [Hn2 Hds]. apply wp_ret. rewrite Hn2, Hn1. split; [done|].
    constructor; [|done]. by exists def.
  - done.
Qed.

Lemma definitions_spec n s self :
  net_hosts n !! ac_schema_registry_addr config = Some s ->
  wf (graph (impl_db s)) -> fits (graph (impl_db s)) ->
  (forall v, is_ok (json_to_string v) = true) ->
  exists n' vs ds, definitions config self n = (n', Ok ds) /\ net_hosts n' = net_hosts n /\
    NoDup vs.*2 /\
    (forall v i, (v, i) ∈ vs <-> g_version (graph (impl_db s)) (gs_id self) i = Some v) /\
    Forall2 (shows (graph (impl_db s))) vs ds.
Proof.
  intros Hs Hwf Hfits Htext.
  destruct (rpc_get_schema_versions_wf s (gs_id self) Hwf Hfits) as (vs & Hvs & Hrun).
  destruct Hvs as (Hnd & Hsound & Hcomplete). specialize (Hcomplete (wf_regular _ Hwf Hfits)).
  cut (wp (definitions config self) n
    (fun ds n' => net_hosts n' = net_hosts n /\ Forall2 (shows (graph (impl_db s))) vs ds)
    (fun _ _ => False)).
  { unfold wp. destruct (definitions config self n) as [n' [ds|e]]; [|done]. intros [Hn' Hds].
    exists n', vs, ds. split_and!; try done. intros v i. split; [apply Hsound|apply Hcomplete]. }
  unfold definitions. apply wp_bind. eapply wp_api_connect; [done|]. intros n1 Hn1. apply wp_bind.
  eapply wp_api_read; [by rewrite Hn1|exact Hrun|]. intros n2 Hn2.
  eapply wp_mono; [apply (fetch_definitions_spec _ s); try done; by rewrite Hn2, Hn1| |done].
  intros ds n3 [Hn3 Hds]. by rewrite Hn3, Hn2, Hn1.
Qed.

(** The [definitions] of a schema are all its stored versions, each once,
    each with the definition stored for that very version.  The query always
    succeeds when the registry can be reached, and changes nothing. *)
Theorem definitions_lists_versions n s self :
  net_hosts n !! ac_schema_registry_addr config = Some s ->
  wf (graph (impl_db s)) -> fits (graph (impl_db s)) ->
  (forall v, is_ok (json_to_string v) = true) ->
  exists n' vs ds, definitions config self n = (n', Ok ds) /\ net_hosts n' = net_hosts n /\
    NoDup vs.*2 /\
    (forall v i, (v, i) ∈ vs <-> g_version (graph (impl_db s)) (gs_id self) i = Some v) /\
    Forall2 (shows (graph (impl_db s))) vs ds.
Proof. apply definitions_spec. Qed.

Lemma singleton_versions (vs : list (Version * Uuid)) v i :
  NoDup vs.*2 -> (forall w j, (w, j) ∈ vs <-> j = i /\ w = v) -> vs = [(v, i)].
Proof.
  intros Hnd Hvs. apply Permutation_singleton_r, NoDup_Permutation;
    [by eapply NoDup_fmap_1|apply NoDup_singleton|].
  intros [w j]. rewrite list_elem_of_singleton, Hvs. naive_solver.
Qed.

Lemma gschema_type_roundtrip t :
  gschema_type_from_i32 (schema_type_as_i32
    (schema_type_from_proto (schema_type_or_default (gschema_type_to_i32 t)))) = Some t.
Proof. by destruct t. Qed.

(** what [api_add_schema] has the registry do *)
Lemma api_add_schema_spec n s new :
  net_hosts n !! ac_schema_registry_addr config = Some s ->
  wp (api_add_schema config new) n (fun schema n' => exists s' id def,
    schema = mkGSchema id (gn_name new) (gn_topic new) (gn_query_address new) (gn_schema_type new) /\
    net_hosts n' !! ac_schema_registry_addr config = Some s' /\
    parse_json (gn_definition new) = Ok def /\
    add_schema (mkNewSchema (gn_name new) def (gn_topic new) (gn_query_address new)
      (schema_type_from_proto (schema_type_or_default (gschema_type_to_i32 (gn_schema_type new)))))
      None (impl_db s) = (impl_db s', Ok id)) (fun _ _ => True).
Proof.
  intros Hs. unfold api_add_schema. apply wp_bind.
  eapply wp_api_connect; [done|]. intros n1 Hn1. apply wp_bind, wp_with_err.
  eapply wp_call_host; [by rewrite Hn1|]. cbn [serve_request].
  eapply wp_mono; [apply rpc_add_schema_spec| |done].
  intros text s' (id & def & u & -> & Hdef & Hu & _ & Hadd) n2 Hn2.
  apply wp_bind, wp_lift; [|done]. unfold parse_id. rewrite uuid_parse_to_string. intros ? [= <-].
  apply wp_ret. exists s', id, def. rewrite Hn2, lookup_insert_eq. injection Hu as <-. done.
Qed.

Lemma query_schema_stored n s id t x y :
  net_hosts n !! ac_schema_registry_addr config = Some s ->
  g_vertices (graph (impl_db s)) !! id = Some (mkVData t (collect_map (schema_into_properties x))) ->
  gschema_of id (resp_schema x) = Ok y ->
  exists n', query_schema config id n = (n', Ok y).
Proof.
  intros Hs Hv Hy.
  cut (wp (query_schema config id) n (fun z _ => z = y) (fun _ _ => False)).
  { unfold wp. destruct (query_schema config id n) as [n' [z|e]]; [|done]. intros ->. by exists n'. }
  unfold query_schema. apply wp_bind. eapply wp_api_connect; [done|]. intros n1 Hn1.
  unfold api_get_schema. apply wp_bind. eapply (wp_api_read _ _ s _ (resp_schema x)); [by rewrite Hn1| |].
  - cbn [serve_request]. unfold rpc_get_schema_metadata, mbind, M_bind, lift.
    rewrite parse_uuid_display. erewrite on_database_run by (by eapply get_schema_stored). by destruct s.
  - intros n2 _. apply wp_lift; rewrite Hy; [|done]. by intros ? [= <-].
Qed.

(** A schema added through the API is the schema a query for its id
    answers, field by field, and its only definition is version 1.0.0 of the
    submitted one, with its references resolved. *)
Theorem add_schema_then_query n s s' new n' schema :
  net_hosts n !! ac_schema_registry_addr config = Some s ->
  wf (graph (impl_db s)) -> fits (graph (impl_db s)) ->
  (forall v, is_ok (json_to_string v) = true) ->
  api_add_schema config new n = (n', Ok schema) ->
  net_hosts n' !! ac_schema_registry_addr config = Some s' -> fits (graph (impl_db s')) ->
  schema = mkGSchema (gs_id schema) (gn_name new) (gn_topic new) (gn_query_address new)
             (gn_schema_type new) /\
  (exists n2, query_schema config (gs_id schema) n' = (n2, Ok schema)) /\
  exists n2 def full text, parse_json (gn_definition new) = Ok def /\
    resolved (graph (impl_db s)) def full /\ json_to_string full = Ok text /\
    definitions config schema n' = (n2, Ok [mkGDefinition text (version_to_string (version_new 1 0 0))]).
Proof.
  intros Hs Hwf Hfits Htext Hrun Hs' Hfits'.
  destruct (wp_ok _ _ _ _ _ _ (api_add_schema_spec n s new Hs) Hrun)
    as (s2 & id & def & -> & Hs2 & Hdef & Hadd).
  rewrite Hs' in Hs2. injection Hs2 as <-. cbn [gs_id].
  destruct (add_schema_back _ _ _ _ _ Hwf Hfits Hfits' Hadd)
    as (Hwf' & _ & Hv & i & full & Hversions & Hfull & Hres & _).
  split; [done|]. split; [|].
  - apply (query_schema_stored n' s' id _ _ _ Hs' Hv). unfold gschema_of. cbn [rs_schema_type resp_schema sc_schema_type new_schema_vertex fst ns_schema_type].
    by rewrite gschema_type_roundtrip.
  - destruct (definitions_spec n' s' (mkGSchema id (gn_name new) (gn_topic new) (gn_query_address new)
      (gn_schema_type new)) Hs' Hwf' Hfits' Htext) as (n2 & vs & ds & Hds & _ & Hnd & Hvs & Hshow).
    assert (vs = [(version_new 1 0 0, i)]) as ->.
    { apply singleton_versions; [done|]. intros w j. rewrite Hvs. apply Hversions. }
    apply list.Forall2_cons_inv_l in Hshow as (d & ds' & (x & Hx & Hdt & Hdv) & Hnil & ->).
    apply list.Forall2_nil_inv_l in Hnil as ->. simpl in Hx. rewrite Hfull in Hx. injection Hx as <-.
    exists n2, def, full, (gd_definition d). rewrite Hds. destruct d; simpl in *; subst. done.
Qed.
End definitions.

(** ** Batches of messages *)

(** what is written is what the data router reads *)
Class InsertTextLaws `{InsertText, MessageText} : Prop := {
  insert_text_roundtrip m text : insert_message_to_vec m = Ok text -> insert_message_from_str text = Ok m;
}.

Section batch.
Context {B : Type} `{BrokerLaws B, UuidLib, InsertTextLaws} (config : ApiConfig).
Implicit Types (b : B) (messages : list InputMessage).

(** the publication of a message, as the data router reads it *)
Definition published_as (key : string) (message : InputMessage) (entry : string * string * string) : Prop :=
  exists data payload, entry = (ac_data_router_topic_or_queue config, key, payload) /\
    let insert := mkDataRouterInsertMessage (inp_object_id message) (inp_schema_id message) data in
    raw_value_from_string (inp_payload message) = Ok data /\
    insert_message_to_vec insert = Ok payload /\ insert_message_from_str payload = Ok insert.

Lemma publish_input_spec publisher key message b :
  wp (publish_input config publisher key message) b
    (fun _ b' => exists entry, published_as key message entry /\ sent b' = sent b ++ [entry])
    (fun _ b' => sent b `prefix_of` sent b').
Proof.
  unfold publish_input. apply wp_bind, wp_lift; [|done]. intros data Hdata%map_err_Ok.
  apply wp_bind, wp_lift; [|done]. intros payload Hpayload%map_err_Ok. apply wp_with_err.
  eapply wp_mono; [apply publish_message_spec| |done]. cbv beta. intros [] b' Hb'.
  eexists. split; [|exact Hb']. exists data, payload. split; [done|]. split_and!; [done..|]. by apply insert_text_roundtrip.
Qed.

Lemma connect_to_data_router_keeps created b :
  wp (connect_to_data_router config created) b (fun _ b' => b' = b) (fun _ b' => b' = b).
Proof.
  unfold connect_to_data_router. apply wp_bind, wp_lift; [|done]. intros mq _.
  apply wp_bind, wp_lift; [|done]. intros [] _. by apply wp_ret.
Qed.

Lemma insert_message_spec created message b :
  wp (insert_message config created message) b
    (fun _ b' => exists entry, published_as EmptyString message entry /\ sent b' = sent b ++ [entry])
    (fun _ b' => sent b `prefix_of` sent b').
Proof.
  unfold insert_message. apply wp_bind. eapply wp_mono; [apply connect_to_data_router_keeps| |].
  - intros publisher b' ->. apply wp_bind. eapply wp_mono; [apply publish_input_spec|by intros [] ? ?|done].
  - by intros e b' ->.
Qed.

Lemma publish_inputs_spec publisher key messages b :
  wp (for_each (publish_input config publisher key) messages) b
    (fun _ b' => exists entries, Forall2 (published_as key) messages entries /\ sent b' = sent b ++ entries)
    (fun _ b' => exists before message after entries, messages = before ++ message :: after /\
       Forall2 (published_as key) before entries /\ sent b ++ entries `prefix_of` sent b').
Proof.
  revert b. induction messages as [|m ms IH]; intros b; simpl.
  { apply wp_ret. exists []. by rewrite app_nil_r. }
  apply wp_bind. eapply wp_mono; [apply publish_input_spec| |].
  - intros [] b1 (entry & Hentry & Hb1). eapply wp_mono; [apply IH| |].
    + intros [] b2 (entries & Hentries & Hb2). exists (entry :: entries). split; [by constructor|].
      by rewrite Hb2, Hb1, <- app_assoc.
    + intros e b2 (before & x & after & entries & -> & Hentries & Hb2).
      exists (m :: before), x, after, (entry :: entries). split_and!; [done|by constructor|].
      by rewrite Hb1, <- app_assoc in Hb2.
  - intros e b1 Hb1. exists [], m, ms, []. split_and!; [done|done|]. by rewrite app_nil_r.
Qed.

(** A batch that is answered with success has been published to the data
    router in order, every message under the one order group of the batch and
    as the data router reads it back.  A batch that is answered with an error
    has not been taken back: either nothing was tried, or the messages before
    the one that failed have been published. *)
Theorem insert_batch_publishes created group messages b b' r :
  insert_batch config created group messages b = (b', r) ->
  match r with
  | Ok _ => exists entries, Forall2 (published_as (uuid_to_string group)) messages entries /\
      sent b' = sent b ++ entries
  | Err _ => b' = b \/
      exists before message after entries, messages = before ++ message :: after /\
        Forall2 (published_as (uuid_to_string group)) before entries /\
        sent b ++ entries `prefix_of` sent b'
  end.
Proof.
  intros Hrun. unfold insert_batch, mbind, M_bind in Hrun.
  pose proof (connect_to_data_router_keeps created b) as Hconnect. unfold wp in Hconnect.
  destruct (connect_to_data_router config created b) as [b1 [publisher|e]]; subst b1.
  2: { injection Hrun as <- <-. by left. }
  pose proof (publish_inputs_spec publisher (uuid_to_string group) messages b) as Hspec. unfold wp in Hspec.
  destruct (for_each _ messages b) as [b2 [[]|e]]; injection Hrun as <- <-; [done|by right].
Qed.
End batch.

(** ** Runs in memory *)

Definition demo_api : ApiConfig :=
  mkApiConfig "http://registry" "http://query-router" 8080
    (mkMessageQueueArgs ApiKafka (Some "kafka") (Some "api") None None) "reports" "orders.topic".

Lemma definitions_lists_versions_witness :
  exists n' vs ds,
    definitions demo_api (mkGSchema 7 "orders" "t" "q" GTimeseries) demo_net = (n', Ok ds) /\
    net_hosts n' = net_hosts demo_net /\ NoDup vs.*2 /\
    (forall v i, (v, i) ∈ vs <-> g_version (graph demo_state) 7 i = Some v) /\
    Forall2 (shows (graph demo_state)) vs ds.
Proof.
  apply (definitions_lists_versions demo_api demo_net demo_host (mkGSchema 7 "orders" "t" "q" GTimeseries));
    [done|apply demo_state_wf|apply demo_state_fits|]. intros []; reflexivity.
Defined.

Definition demo_gnew : GNewSchema := mkGNewSchema "payments" "http://qs" "orders.topic" "{}" GTimeseries.
Definition demo_added : Net () MemoryDatastore MemoryBroker := (api_add_schema demo_api demo_gnew demo_net).1.
Definition demo_added_host : SchemaRegistryImpl MemoryDatastore MemoryBroker :=
  (rpc_add_schema (mkReqNewSchema "" "payments" "http://qs" "orders.topic" "{}" 1) demo_host).1.
Definition demo_gschema : GSchema := mkGSchema 1001 "payments" "orders.topic" "http://qs" GTimeseries.

Lemma add_schema_then_query_witness :
  (exists n2, query_schema demo_api (gs_id demo_gschema) demo_added = (n2, Ok demo_gschema)) /\
  exists n2 def full text, parse_json "{}" = Ok def /\ resolved (graph demo_state) def full /\
    json_to_string full = Ok text /\
    definitions demo_api demo_gschema demo_added =
      (n2, Ok [mkGDefinition text (version_to_string (version_new 1 0 0))]).
Proof.
  apply (add_schema_then_query demo_api demo_net demo_host demo_added_host demo_gnew demo_added demo_gschema);
    [done|apply demo_state_wf|apply demo_state_fits|by intros []|vm_eq|vm_eq|apply fits_compute; vm_eq].
Defined.

(** the texts of the demo: the three fields, encoded *)
#[local] Instance demo_insert_text : InsertText := {
  insert_message_to_vec := fun m => Ok (show (dr_object_id m, dr_schema_id m, dr_data m));
  raw_value_from_string := fun s => if decide (s = "") then Err "EOF while parsing" else Ok s;
}.
#[local] Instance demo_message_text : MessageText := {
  insert_message_from_str := fun s =>
    '(object_id, schema_id, data) ← read (A := Uuid * Uuid * string) s;
    Ok (mkDataRouterInsertMessage object_id schema_id data);
  insert_messages_from_str := fun _ => Err "expected a sequence";
  borrowed_to_string := fun m => Ok (bi_data m);
  borrowed_from_str := fun s => Ok (mkBorrowedInsertMessage 1 7 0 s);
}.
#[local] Instance demo_insert_laws : InsertTextLaws.
Proof.
  split. intros [o s d] text [= <-]. cbn [insert_message_from_str demo_message_text dr_object_id dr_schema_id dr_data].
  by rewrite read_show.
Qed.

(** the second message has no payload *)
Definition demo_batch : list InputMessage := [mkInputMessage 1 7 "{}"; mkInputMessage 2 7 ""].
Definition demo_broker : MemoryBroker := mkMemoryBroker ["orders.topic"] [].

Lemma insert_batch_publishes_witness :
  exists before message after entries, demo_batch = before ++ message :: after /\
    Forall2 (published_as demo_api (uuid_to_string 5%N)) before entries /\
    [] ++ entries `prefix_of` sent (insert_batch demo_api (Ok ()) 5 demo_batch demo_broker).1.
Proof.
  destruct (insert_batch_publishes demo_api (Ok ()) 5 demo_batch demo_broker
    (insert_batch demo_api (Ok ()) 5 demo_batch demo_broker).1 (Err (ApiJson "EOF while parsing")))
    as [Hsame|Hpublished]; [vm_eq|discriminate Hsame|exact Hpublished].
Defined.
