(* ===== verification/LeaderElector.v ===== *)
(** The leader elector, [crates/leader-elector/src/main.rs]: when the master
    registry stops answering, its pods are deleted and a slave is promoted.  The
    Kubernetes API is a class; the registries are reached through the client
    functions of [schema_registry::lib]. *)
From Stdlib Require Import Ascii.
From stdpp Require Import prelude gmap strings list fin_maps pretty.
From S2P Require Import Prelude Json Externals RegistryTypes RegistryRpc RegistryClient Instances.

(** ** Pods *)

Record Pod : Type := mkPod { pod_name : string; pod_labels : gmap string string }.

(** the calls of the [kube] crate: list by label selector, delete, and
    server-side apply of a patch; [kube_delay] is what happens in a cluster
    during [tokio::time::delay_for] *)
Class Kube (K : Type) := {
  kube_client : K -> result string ();
  kube_list : string -> M K string (list Pod);
  kube_delete : string -> M K string ();
  kube_patch : string -> string -> M K string ();
  kube_delay : Z -> K -> K;
}.

(** [serde_yaml::to_vec] *)
Class YamlText := { yaml_to_vec : Value -> result string string }.

(** ** Configuration *)

Record ElectorConfig : Type := mkElectorConfig {
  ec_heartbeat_secs : Z; ec_schema_app_name : string; ec_schema_addr : string; ec_schema_port : Z }.

Inductive LeaderElectorType : Type := ElectSchema.

Record LeaderElector : Type := mkLeaderElector {
  master_addr : string;
  slave_addr : string;
  el_name : string;
  el_port : Z;
  heartbeat_time : Z;
  election_type : LeaderElectorType;
  el_namespace : string;
}.

(** the elector [main] builds *)
Definition elector_of (config : ElectorConfig) (namespace : string) : LeaderElector :=
  mkLeaderElector (ec_schema_addr config +:+ "-master") (ec_schema_addr config)
    (ec_schema_app_name config) (ec_schema_port config) (ec_heartbeat_secs config) ElectSchema namespace.

(** ** Election *)

Inductive ElectorError : Type := KubeError (e : string) | YamlError (e : string).

Definition master_patch : Value :=
  Object {["apiVersion" := VString "v1"; "kind" := VString "Pod";
    "metadata" := Object {["labels" := Object {["role" := VString "master"]}]}]}.

Section elector.
Context {K : Type} `{Kube K, RegistryService K, YamlText} (self : LeaderElector).
Abbreviation Elect A := (M K ElectorError A) (only parsing).

Definition host_port (addr : string) (port : Z) : string :=
  addr +:+ ":" +:+ pretty (Z.to_N port).
Definition schema_heartbeat (addr : string) (port : Z) : M K RegistryClientError () :=
  heartbeat (host_port addr port).
Definition schema_promotion (addr : string) (port : Z) : M K RegistryClientError string :=
  promote_to_master (host_port addr port).

(** a call whose failure is looked at, not propagated *)
Definition outcome {A} (m : M K RegistryClientError A) : Elect (result RegistryClientError A) :=
  fun k => let '(k', r) := m k in (k', Ok r).

Definition master_selector : string := "app=" +:+ el_name self +:+ ",role=master".

Definition remove_master_instance : Elect () :=
  pods ← with_err KubeError (kube_list master_selector);
  for_each (fun pod => with_err KubeError (kube_delete (pod_name pod))) pods.

Definition promote_slave_to_master : Elect () :=
  promotion ← outcome (match election_type self with
                       | ElectSchema => schema_promotion (slave_addr self) (el_port self)
                       end);
  match promotion with
  | Err _ => mret ()                                      (* no active pods *)
  | Ok pod_name =>
      patch ← lift (map_err YamlError (yaml_to_vec master_patch));
      with_err KubeError (kube_patch pod_name patch)
  end.

(** the body of the loop of [elect_leader] *)
Definition elect_round : Elect () :=
  (fun k => (kube_delay (heartbeat_time self) k, Ok ())) ;;
  heartbeat ← outcome (match election_type self with
                       | ElectSchema => schema_heartbeat (master_addr self) (el_port self)
                       end);
  if is_ok heartbeat then mret ()
  else remove_master_instance ;; promote_slave_to_master.

(** [n] rounds of the loop, which never ends but by an error *)
Fixpoint elect_rounds (n : nat) : Elect () :=
  match n with
  | O => mret ()
  | S n => elect_round ;; elect_rounds n
  end.

(** [elect_leader] up to its [n]-th heartbeat *)
Definition elect_leader (n : nat) : Elect () :=
  reads (fun k => map_err KubeError (kube_client k)) ;; elect_rounds n.
End elector.

(** ** What Kubernetes documents *)

(** the characters of label values *)
Definition label_char (c : ascii) : bool :=
  let n := N_of_ascii c in
  ((48 <=? n) && (n <=? 57) || (65 <=? n) && (n <=? 90) || (97 <=? n) && (n <=? 122) ||
   (n =? 45) || (n =? 46) || (n =? 95))%N.
Definition label_value (s : string) : bool := forallb label_char (String.list_ascii_of_string s).

(** pods by name, with their labels; the registries' calls and the passing of
    time make no pod a master *)
Class KubeLaws (K : Type) `{Kube K, RegistryService K, YamlText} := {
  pods : K -> gmap string (gmap string string);
  kube_list_law app k : label_value app = true ->
    wp (kube_list ("app=" +:+ app +:+ ",role=master")) k
      (fun l k' => pods k' = pods k /\ forall name labels,
         pods k !! name = Some labels -> labels !! "app" = Some app -> labels !! "role" = Some "master" ->
         name ∈ pod_name <$> l)
      (fun _ k' => pods k' = pods k);
  kube_delete_law name k :
    wp (kube_delete name) k (fun _ k' => pods k' = delete name (pods k)) (fun _ k' => pods k' = pods k);
  kube_patch_law name v labels bytes k :
    yaml_to_vec v = Ok bytes ->
    get_key "metadata" v ≫= get_key "labels" = Some (Object (VString <$> labels)) ->
    wp (kube_patch name bytes) k
      (fun _ k' => pods k' = alter (fun old => labels ∪ old) name (pods k)) (fun _ k' => pods k' = pods k);
  kube_delay_law secs k name labels :
    pods (kube_delay secs k) !! name = Some labels -> labels !! "role" = Some "master" ->
    exists old, pods k !! name = Some old /\ old !! "role" = Some "master" /\ old !! "app" = labels !! "app";
  connect_keeps_pods addr k : pods (sv_connect addr k).1 = pods k;
  call_keeps_pods {A} addr (request : Request A) k : pods (sv_call addr request k).1 = pods k;
}.

(** ** At most one master *)

Section single_master.
Context {K : Type} `{KubeLaws K} (self : LeaderElector) (Hname : label_value (el_name self) = true).
Implicit Types (k : K).

(** the pods the elector takes for masters *)
Definition is_master k (name : string) : Prop :=
  exists labels, pods k !! name = Some labels /\ labels !! "app" = Some (el_name self) /\
    labels !! "role" = Some "master".

Definition single_master k : Prop := forall p q, is_master k p -> is_master k q -> p = q.
Definition no_master k : Prop := forall p, ~ is_master k p.

Lemma is_master_eq k k' name : pods k' = pods k -> is_master k' name <-> is_master k name.
Proof. intros Hp. unfold is_master. by rewrite Hp. Qed.

Lemma client_keeps_pods {A} (addr : string) (request : Request A) k :
  pods ((client ← lib_connect addr; lib_call client request) k).1 = pods k.
Proof.
  unfold lib_connect, lib_call, RegistryClient.connect, mbind, M_bind, with_err, mret, M_ret.
  pose proof (connect_keeps_pods addr k) as Hc.
  destruct (sv_connect addr k) as [k1 [[]|e]]; simpl in *; [|done].
  pose proof (call_keeps_pods addr request k1) as Hq.
  destruct (sv_call addr request k1) as [k2 r]; simpl in *. congruence.
Qed.

Lemma wp_outcome {A} (m : M K RegistryClientError A) k (Q : result RegistryClientError A -> K -> Prop) R :
  (forall k' r, m k = (k', r) -> Q r k') -> wp (outcome m) k Q R.
Proof. intros HQ. unfold wp, outcome. destruct (m k) as [k' r]. by apply HQ. Qed.

(** deleting pods makes no master *)
Lemma delete_pods_spec (l : list Pod) k :
  wp (for_each (fun pod => with_err KubeError (kube_delete (pod_name pod))) l) k
    (fun _ k' => forall p, is_master k' p -> is_master k p /\ p ∉ pod_name <$> l)
    (fun _ k' => forall p, is_master k' p -> is_master k p).
Proof.
  revert k. induction l as [|pod l IH]; intros k; simpl.
  { apply wp_ret. intros p Hp. split; [done|]. apply not_elem_of_nil. }
  apply wp_bind, wp_with_err. eapply wp_mono; [apply kube_delete_law| |].
  - intros [] k1 Hk1.
    assert (forall p, is_master k1 p -> is_master k p /\ p <> pod_name pod) as Hsub.
    { intros p (labels & Hp & Hl). rewrite Hk1 in Hp. apply lookup_delete_Some in Hp as [? ?].
      split; [by exists labels|done]. }
    eapply wp_mono; [apply IH| |]; cbv beta.
    + intros [] k2 Hk2 p Hp. destruct (Hk2 p Hp) as [Hp1 Hin]. destruct (Hsub p Hp1).
      split; [done|]. csimpl. set_solver.
    + intros e k2 Hk2 p Hp. by apply Hsub, Hk2.
  - intros e k1 Hk1 p. by apply is_master_eq.
Qed.

(** all masters are removed, or the elector fails *)
Lemma remove_master_spec k :
  wp (remove_master_instance self) k (fun _ k' => no_master k')
    (fun _ k' => forall p, is_master k' p -> is_master k p).
Proof.
  unfold remove_master_instance. apply wp_bind, wp_with_err.
  eapply wp_mono; [by apply kube_list_law| |].
  - intros l k1 [Hk1 Hl]. eapply wp_mono; [apply delete_pods_spec| |]; cbv beta.
    + intros [] k2 Hk2 p Hp. destruct (Hk2 p Hp) as [(labels & Hp1 & Happ & Hrole) Hin].
      rewrite Hk1 in Hp1. by apply Hin, (Hl p labels).
    + intros e k2 Hk2 p Hp. by apply (is_master_eq k k1), Hk2.
  - intros e k1 Hk1 p. by apply is_master_eq.
Qed.

(** the pod the slave service promotes, if it can be reached, is the only one
    that becomes a master *)
Lemma promote_spec k :
  no_master k ->
  wp (promote_slave_to_master self) k
    (fun _ k' => no_master k' \/ exists name k0, 
       schema_promotion (slave_addr self) (el_port self) k = (k0, Ok name) /\
       forall p, is_master k' p -> p = name)
    (fun _ k' => no_master k').
Proof.
  intros Hnone. unfold promote_slave_to_master. apply wp_bind, wp_outcome. destruct (election_type self).
  intros k1 r Hrun. pose proof (client_keeps_pods (host_port (slave_addr self) (el_port self)) PromoteToMaster k) as Hk1.
  unfold schema_promotion, promote_to_master in Hrun. rewrite Hrun in Hk1. simpl in Hk1.
  assert (no_master k1) as Hnone1 by (intros p Hp; by apply (Hnone p), (is_master_eq k k1)).
  destruct r as [name|e]; [|by apply wp_ret; left].
  apply wp_bind, wp_lift; [|done]. intros bytes Hbytes%map_err_Ok. apply wp_with_err.
  eapply wp_mono; [apply (kube_patch_law name master_patch {["role" := "master"]} bytes); [done|vm_eq]| |].
  - intros [] k2 Hk2. right. exists name, k1. split; [done|]. intros p (labels & Hp & Hl).
    destruct (decide (p = name)) as [|Hne]; [done|]. exfalso. apply (Hnone1 p). exists labels.
    rewrite Hk2, lookup_alter_ne in Hp by done. done.
  - intros e k2 Hk2 p Hp. by apply (Hnone1 p), (is_master_eq k1 k2).
Qed.

(** a round after a heartbeat that was not answered *)
Definition failover k' (promoted : option string) : Prop :=
  match promoted with
  | None => no_master k'
  | Some name => forall p, is_master k' p -> p = name
  end.

Lemma failover_single k' promoted : failover k' promoted -> single_master k'.
Proof.
  destruct promoted as [name|]; intros Hk p q Hp Hq; [by rewrite (Hk p Hp), (Hk q Hq)|].
  by destruct (Hk p).
Qed.

Lemma failover_spec k :
  wp (remove_master_instance self ;; promote_slave_to_master self) k
    (fun _ k' => exists promoted, failover k' promoted)
    (fun _ k' => no_master k' \/ forall p, is_master k' p -> is_master k p).
Proof.
  apply wp_bind. eapply wp_mono; [apply remove_master_spec| |by right].
  intros [] k1 Hk1. eapply wp_mono; [by apply promote_spec| |by left].
  intros [] k2 [Hk2|(name & _ & _ & Hk2)]; [by exists None|by exists (Some name)].
Qed.

Lemma delay_masters secs k p : is_master (kube_delay secs k) p -> is_master k p.
Proof.
  intros (labels & Hp & Happ & Hrole). destruct (kube_delay_law secs k p labels Hp Hrole) as (old & Ho & Hr & Ha).
  exists old. by rewrite Ha.
Qed.

Lemma single_master_sub k k' :
  (forall p, is_master k' p -> is_master k p) -> single_master k -> single_master k'.
Proof. intros Hsub Hk p q Hp Hq. by apply Hk; apply Hsub. Qed.

Lemma elect_round_spec k :
  single_master k ->
  wp (elect_round self) k (fun _ k' => single_master k') (fun _ k' => single_master k').
Proof.
  intros Hk. unfold elect_round. apply wp_bind. unfold wp at 1.
  set (k0 := kube_delay (heartbeat_time self) k).
  assert (single_master k0) as Hk0 by (eapply single_master_sub; [apply delay_masters|done]).
  apply wp_bind, wp_outcome. destruct (election_type self). intros k1 r Hrun.
  pose proof (client_keeps_pods (host_port (master_addr self) (el_port self)) Heartbeat k0) as Hk1.
  unfold schema_heartbeat, heartbeat in Hrun. rewrite Hrun in Hk1. simpl in Hk1.
  assert (single_master k1) as Hs1.
  { eapply single_master_sub; [|exact Hk0]. intros p. by apply is_master_eq. }
  destruct (is_ok r); [by apply wp_ret|].
  eapply wp_mono; [apply failover_spec| |].
  - intros [] k2 [promoted Hk2]. by eapply failover_single.
  - intros e k2 [Hk2|Hk2]; [by apply (failover_single k2 None)|]. by eapply single_master_sub.
Qed.

(** C15: the elector never makes two masters.  If at most one pod carries the
    role label of the master when it starts, and nothing else labels pods as
    masters, then at most one does after any number of heartbeats, whichever
    of the calls to the registries and to Kubernetes fail. *)
Theorem elector_single_master n k k' r :
  single_master k -> elect_leader self n k = (k', r) -> single_master k'.
Proof.
  intros Hk Hrun. unfold elect_leader, mbind, M_bind, reads in Hrun.
  destruct (map_err KubeError (kube_client k)) as [[]|e]; [|by injection Hrun as <- _].
  revert k Hk Hrun. induction n as [|n IH]; intros k Hk Hrun; simpl in Hrun; [by injection Hrun as <- _|].
  unfold mbind, M_bind in Hrun. pose proof (elect_round_spec k Hk) as Hround. unfold wp in Hround.
  destruct (elect_round self k) as [k1 [[]|e]]; [by eapply IH|by injection Hrun as <- _].
Qed.
End single_master.

(** ** A cluster in memory *)

(** pods, and the pod a slave service promotes; nothing answers at the master *)
Record DemoCluster : Type := mkDemoCluster {
  dc_pods : gmap string (gmap string string);
  dc_slave : option string;
}.
Definition dc_with_pods (ps : gmap string (gmap string string)) (k : DemoCluster) : DemoCluster :=
  mkDemoCluster ps (dc_slave k).

#[export] Instance demo_service : RegistryService DemoCluster := {
  sv_connect := fun addr k =>
    (k, if decide (addr = "registry:50101") then
          match dc_slave k with Some _ => Ok () | None => Err "no endpoints" end
        else Err "no endpoints");
  sv_call := fun A _ request k => (k,
    match request in Request A return result Status A with
    | PromoteToMaster => Ok (default EmptyString (dc_slave k))
    | Heartbeat => Ok ()
    | _ => Err (mkStatus (TransportCode 12) "unimplemented")
    end);
}.

(** a patch is written as its labels *)
#[export] Instance demo_yaml : YamlText := {
  yaml_to_vec := fun v =>
    match get_key "metadata" v ≫= get_key "labels" with
    | Some (Object labels) => Ok (show (omap as_str labels))
    | _ => Err "no labels"
    end;
}.

Definition selects (selector : string) (p : string * gmap string string) : bool :=
  match p.2 !! "app" with
  | Some app => bool_decide (p.2 !! "role" = Some "master" /\ selector = "app=" +:+ app +:+ ",role=master")
  | None => false
  end.

#[export] Instance demo_kube : Kube DemoCluster := {
  kube_client := fun _ => Ok ();
  kube_list := fun selector k =>
    (k, Ok ((fun p => mkPod p.1 p.2) <$> filter (fun p => Is_true (selects selector p)) (map_to_list (dc_pods k))));
  kube_delete := fun name k => (dc_with_pods (delete name (dc_pods k)) k, Ok ());
  kube_patch := fun name bytes k =>
    match read (A := gmap string string) bytes with
    | Ok labels => (dc_with_pods (alter (fun old => labels ∪ old) name (dc_pods k)) k, Ok ())
    | Err e => (k, Err e)
    end;
  kube_delay := fun _ k => k;
}.

#[export] Instance demo_kube_laws : KubeLaws DemoCluster.
Proof.
  refine {| pods := dc_pods |}.
  - intros app k _. unfold wp; simpl. split; [done|]. intros name labels Hp Happ Hrole.
    apply list_elem_of_fmap. exists (mkPod name labels). split; [done|].
    apply list_elem_of_fmap. exists (name, labels). split; [done|].
    apply list_elem_of_filter. split; [|by apply elem_of_map_to_list].
    unfold selects. simpl. rewrite Happ. by apply bool_decide_spec.
  - done.
  - intros name v labels bytes k Hbytes Hv. unfold wp; simpl.
    cbn [yaml_to_vec demo_yaml] in Hbytes. rewrite Hv in Hbytes. injection Hbytes as <-.
    replace (omap as_str (VString <$> labels)) with labels; [by rewrite read_show|].
    apply map_eq. intros x. rewrite lookup_omap, lookup_fmap. by destruct (labels !! x).
  - intros secs k name labels Hp Hrole. by exists labels.
  - done.
  - done.
Defined.

Definition demo_elector : LeaderElector :=
  elector_of (mkElectorConfig 5 "schema-registry" "registry" 50101) "default".
Definition demo_pods : gmap string (gmap string string) :=
  {["registry-0" := {["app" := "schema-registry"; "role" := "master"]};
    "registry-1" := {["app" := "schema-registry"; "role" := "slave"]}]}.
Definition demo_cluster : DemoCluster := mkDemoCluster demo_pods (Some "registry-1").

(** the dead master is replaced *)
Example demo_election :
  (dc_pods (elect_leader demo_elector 1 demo_cluster).1 !! "registry-0",
   dc_pods (elect_leader demo_elector 1 demo_cluster).1 !! "registry-1" ≫= (fun l => l !! "role")) =
  (None, Some "master").
Proof. vm_eq. Qed.

Lemma demo_single_master : single_master demo_elector demo_cluster.
Proof.
  intros p q (lp & Hp & _ & Hrp) (lq & Hq & _ & Hrq).
  apply elem_of_map_to_list in Hp, Hq.
  assert (forall name l, (name, l) ∈ map_to_list demo_pods -> l !! "role" = Some "master" ->
    name = "registry-0") as Hone.
  { intros name l Hin Hrole. unfold demo_pods in Hin. rewrite elem_of_map_to_list in Hin.
    apply lookup_insert_Some in Hin as [[<- _]|[_ Hin]]; [done|].
    apply lookup_singleton_Some in Hin as [_ <-]. discriminate Hrole. }
  by rewrite (Hone p lp), (Hone q lq).
Qed.

Lemma elector_single_master_witness :
  single_master demo_elector (elect_leader demo_elector 3 demo_cluster).1.
Proof.
  apply (elector_single_master demo_elector ltac:(reflexivity) 3 demo_cluster
    (elect_leader demo_elector 3 demo_cluster).1 (elect_leader demo_elector 3 demo_cluster).2);
    [apply demo_single_master|by destruct (elect_leader demo_elector 3 demo_cluster)].
Defined.
