(* ===== verification/ApiRouter.v ===== *)
(** The GraphQL API on top of the query router: the HTTP calls of the API's
    [object], [objects] and [schemaObjects] are served by the router's routes
    and handlers, and what a client of the API gets is told in terms of the
    query services behind the router. *)
From Stdlib Require Import Ascii.
From stdpp Require Import prelude gmap strings list fin_maps.
From S2P Require Import Prelude StringSplit Json Externals Instances RegistryTypes Lru Messaging.
From S2P Require Import RegistryClient QueryRouter QueryRouterMain ApiEvents Api.

(** ** The router as the API's HTTP server *)

(** the router's cache, and the servers behind it *)
Record RouterHost (C R : Type) : Type := mkRouterHost { rr_cache : C; rr_net : R }.
Arguments mkRouterHost {C R}. Arguments rr_cache {C R}. Arguments rr_net {C R}.

Fixpoint strip_prefix (p s : string) : option string :=
  match p, s with
  | EmptyString, _ => Some s
  | String a p', String b s' => if Ascii.eqb a b then strip_prefix p' s' else None
  | _, EmptyString => None
  end.

Definition header (name : string) (headers : list (string * string)) : option string :=
  snd <$> find (fun h => bool_decide (h.1 = name)) headers.

Section host.
Context {C R : Type} `{LruLib (string * SchemaType) C, Servers R, UuidLib, JsonText, StringHashIter,
  WarpText} (router_addr sr : string).

(** the request [reqwest] sends for a URL below the router's address *)
Definition request_of (method : HttpMethod) (path : string) (headers : list (string * string))
    (body : string) : HttpRequest :=
  mkHttpRequest method (tail (split_on "/" path)) (header "SCHEMA_ID" headers)
    (if decide (body = EmptyString) then None else Some (Z.of_nat (String.length body)))
    (header "Content-Type" headers) body.

Definition router_send (method : HttpMethod) (url : string) (headers : list (string * string))
    (body : string) : M (RouterHost C R) string string := fun s =>
  match strip_prefix router_addr url with
  | None => (s, Err "error sending request")
  | Some path =>
      let '(cache, response) :=
        serve_http sr (request_of method path headers body) (rr_net s) (rr_cache s) in
      (mkRouterHost cache (rr_net s), Ok response)
  end.

Definition router_client : HttpClient (RouterHost C R) := {| http_send := router_send |}.
End host.

(** ** What the texts guarantee *)

(** a UUID's text is hexadecimal digits and dashes *)
Class UuidTextLaws `{UuidLib} : Prop := {
  uuid_no_slash u : char_in "/" (uuid_to_string u) = false;
  uuid_no_comma u : char_in "," (uuid_to_string u) = false;
}.

(** the texts of [warp] and [serde_json]: an error body is no JSON document, a
    map is written as that object (a value that cannot be written gives no JSON),
    and [{}] is the empty object *)
Class WarpTextLaws `{JsonText, WarpText} : Prop := {
  unhandled_not_json e : is_ok (json_parse (unhandled_rejection e)) = false;
  not_routed_not_json r : is_ok (json_parse (not_routed r)) = false;
  reply_json_parse m v : json_parse (reply_json m) = Ok v -> v = Object m;
  json_parse_empty : json_parse "{}" = Ok (Object ∅);
}.

Lemma strip_prefix_app p s : strip_prefix p (p +:+ s) = Some s.
Proof.
  induction p as [|a p IH]; [done|]. change (String a p +:+ s) with (String a (p +:+ s)). simpl.
  by rewrite Ascii.eqb_refl.
Qed.

Lemma collect_map_elem {K A} `{Countable K} (l : list (K * A)) k a :
  collect_map l !! k = Some a -> (k, a) ∈ l.
Proof.
  unfold collect_map.
  assert (forall m : gmap K A, foldl (fun m kv => <[kv.1 := kv.2]> m) m l !! k = Some a ->
    (k, a) ∈ l \/ m !! k = Some a) as Hgen.
  { induction l as [|[k' a'] l IH]; intros m; simpl; [by right|]. intros [Hin|Hin]%IH; [left; by right|].
    apply lookup_insert_Some in Hin as [[<- <-]|[_ Hin]]; [left; by left|by right]. }
  intros [?|Hm]%Hgen; [done|]. by rewrite lookup_empty in Hm.
Qed.

Section composed.
Context {C R : Type} `{LruLaws (string * SchemaType) C, Servers R, UuidLaws, !UuidTextLaws,
  !JsonText, !StringHashIter, !StringHashIterLaws, !HashIter, !HashIterLaws, !WarpText, !WarpTextLaws}
  (config : ApiConfig) (sr : string).
Implicit Types (c : C) (net : R).

#[local] Instance the_router : HttpClient (RouterHost C R) :=
  router_client (ac_query_router_addr config) sr.

(** *** Requests reach their handlers *)

Lemma path_segments a b :
  char_in "/" a = false -> char_in "/" b = false ->
  tail (split_on "/" ("/" +:+ a +:+ "/" +:+ b)) = [a; b].
Proof.
  intros Ha Hb. change (split_on "/" (a +:+ String "/" b) = [a; b]).
  rewrite split_on_app by done. by rewrite split_on_none.
Qed.

Lemma schema_id_sent method path len type body schema_id :
  schema_id_filter (mkHttpRequest method path (header "SCHEMA_ID" [("SCHEMA_ID", uuid_to_string schema_id)])
    len type body) = Some schema_id.
Proof.
  unfold schema_id_filter. change (header _ _) with (Some (uuid_to_string schema_id)). simpl.
  by rewrite uuid_parse_to_string.
Qed.

Lemma routes_single object_id schema_id :
  routes (request_of HttpPost ("/single/" +:+ uuid_to_string object_id)
            [("SCHEMA_ID", uuid_to_string schema_id)] "{}") =
  Some (RouteSingle object_id schema_id BodyEmpty).
Proof.
  unfold routes, request_of. cbn [hr_method].
  change ("/single/" +:+ uuid_to_string object_id) with
    ("/" +:+ "single" +:+ "/" +:+ uuid_to_string object_id).
  rewrite path_segments by (done || apply uuid_no_slash).
  unfold single_route. cbn [hr_path]. unfold path_string.
  rewrite (decide_False _ _ (uuid_to_string_nonempty object_id)).
  cbn [mbind option_bind]. unfold path_uuid. rewrite uuid_parse_to_string. cbn [result_ok mbind option_bind].
  rewrite schema_id_sent. unfold body_filter. simpl. by rewrite json_parse_empty.
Qed.

Lemma join_no_slash ids :
  char_in "/" (join "," (uuid_to_string <$> ids)) = false.
Proof.
  induction ids as [|u ids IH]; [done|]. cbn [fmap list_fmap]. rewrite join_cons.
  destruct (uuid_to_string <$> ids) as [|x l]; [apply uuid_no_slash|].
  pose proof (uuid_no_slash u) as Hu. revert Hu. generalize (uuid_to_string u) as p.
  induction p as [|a p IHp]; [done|]. intros [Ha Hp]%orb_false_iff.
  change (Ascii.eqb a "/" || char_in "/" (p +:+ "," +:+ join "," (x :: l)) = false).
  rewrite Ha. by apply IHp.
Qed.

Lemma join_ids_nonempty ids : ids <> [] -> join "," (uuid_to_string <$> ids) <> EmptyString.
Proof.
  destruct ids as [|u ids]; [done|]. intros _. cbn [fmap list_fmap]. rewrite join_cons.
  pose proof (uuid_to_string_nonempty u) as Hu.
  destruct (uuid_to_string <$> ids); destruct (uuid_to_string u); try done; intros Heq; discriminate Heq.
Qed.

Lemma routes_multiple ids schema_id :
  ids <> [] ->
  routes (request_of HttpGet ("/multiple/" +:+ join "," (uuid_to_string <$> ids))
            [("SCHEMA_ID", uuid_to_string schema_id)] EmptyString) =
  Some (RouteMultiple (join "," (uuid_to_string <$> ids)) schema_id).
Proof.
  intros Hids. unfold routes, request_of. cbn [hr_method].
  change ("/multiple/" +:+ join "," (uuid_to_string <$> ids)) with
    ("/" +:+ "multiple" +:+ "/" +:+ join "," (uuid_to_string <$> ids)).
  rewrite path_segments by (done || apply join_no_slash).
  unfold multiple_route. cbn [hr_path]. unfold path_string.
  rewrite (decide_False _ _ (join_ids_nonempty ids Hids)). cbn [mbind option_bind].
  by rewrite schema_id_sent.
Qed.

(** the ids arrive at the router as they were sent *)
Lemma router_splits_ids ids :
  ids <> [] ->
  split_on "," (join "," (uuid_to_string <$> ids)) = uuid_to_string <$> ids.
Proof.
  intros Hids. apply split_on_join; [by destruct ids|].
  apply Forall_fmap, Forall_true. intros u. apply uuid_no_comma.
Qed.

(** *** Answers *)

Lemma http_send_spec method path headers body (s : RouterHost C R) :
  http_send method (ac_query_router_addr config +:+ path) headers body s =
  let '(cache, response) := serve_http sr (request_of method path headers body) (rr_net s) (rr_cache s) in
  (mkRouterHost cache (rr_net s), Ok response).
Proof. cbn [http_send the_router router_client]. unfold router_send. by rewrite strip_prefix_app. Qed.

(** a response that is JSON is the answer of a handler *)
Lemma serve_http_json r route net c c' response v :
  routes r = Some route -> serve_http sr r net c = (c', response) -> json_parse response = Ok v ->
  exists reply, handle_route sr route net c = (c', Ok reply) /\ response = reply_body reply.
Proof.
  intros Hr Hrun Hv. unfold serve_http in Hrun. rewrite Hr in Hrun.
  destruct (handle_route sr route net c) as [c1 [reply|e]]; injection Hrun as <- <-; [by exists reply|].
  pose proof (unhandled_not_json e) as He. by rewrite Hv in He.
Qed.

Lemma object_spec object_id schema_id s s' o :
  object config object_id schema_id s = (s', Ok o) ->
  exists address values bytes,
    info_source sr schema_id (rr_net s) (rr_cache s) (address, DocumentStorage) /\
    qs_query_multiple [uuid_to_string object_id] address (rr_net s) = Ok values /\
    values !! uuid_to_string object_id = Some bytes /\
    json_parse bytes = Ok (co_data o) /\ co_object_id o = object_id.
Proof.
  unfold object, mbind, M_bind, with_err. rewrite http_send_spec.
  destruct (serve_http sr _ (rr_net s) (rr_cache s)) as [c1 response] eqn:Hserve. cbn [map_err].
  unfold lift. destruct (json_parse response) as [v|e] eqn:Hv; [cbn [map_err]|done].
  intros [= _ <-].
  destruct (serve_http_json _ _ _ _ _ _ _ (routes_single object_id schema_id) Hserve Hv)
    as (reply & Hhandle & ->). cbn [handle_route] in Hhandle.
  destruct (query_single_spec sr object_id schema_id BodyEmpty (rr_net s) (rr_cache s) c1 reply Hhandle)
    as (address & [] & Hsource & Hanswer & _).
  - destruct Hanswer as (values & bytes & Hq & Hb & ->). exists address, values, bytes. done.
  - by destruct Hanswer as (from & to & step & bytes & ? & _).
Qed.

(** an object of a document schema that the query service has is answered *)
Lemma object_answered object_id schema_id s address values bytes v :
  info_source sr schema_id (rr_net s) (rr_cache s) (address, DocumentStorage) ->
  qs_query_multiple [uuid_to_string object_id] address (rr_net s) = Ok values ->
  values !! uuid_to_string object_id = Some bytes -> json_parse bytes = Ok v ->
  exists s', object config object_id schema_id s = (s', Ok (mkCdlObject object_id v)).
Proof.
  intros Hinfo Hq Hb Hv.
  destruct (query_single_document sr object_id schema_id BodyEmpty _ _ _ _ _ Hinfo Hq Hb) as [c' Hc'].
  exists (mkRouterHost c' (rr_net s)). unfold object, mbind, M_bind, with_err. rewrite http_send_spec.
  unfold serve_http. rewrite routes_single. cbn [handle_route]. rewrite Hc'. cbn [reply_body map_err].
  unfold lift. by rewrite Hv.
Qed.

(** An object that the GraphQL API answers is the JSON the query service
    at the address of its schema holds under its id.  The API never answers
    an object of a timeseries schema: the router demands a range for it, and
    the API sends none. *)
Theorem object_is_stored_document object_id schema_id s s' o :
  object config object_id schema_id s = (s', Ok o) ->
  exists address values bytes,
    info_source sr schema_id (rr_net s) (rr_cache s) (address, DocumentStorage) /\
    qs_query_multiple [uuid_to_string object_id] address (rr_net s) = Ok values /\
    values !! uuid_to_string object_id = Some bytes /\
    json_parse bytes = Ok (co_data o) /\ co_object_id o = object_id.
Proof. apply object_spec. Qed.

Lemma byte_map_lookup m m' k v :
  byte_map_to_json_map m = Ok m' -> m' !! k = Some v ->
  exists bytes, m !! k = Some bytes /\ json_parse bytes = Ok v.
Proof.
  unfold byte_map_to_json_map. destruct (try_map _ (string_hash_iter m)) as [l|e] eqn:Hl; [|done].
  intros [= <-] Hk. apply collect_map_elem in Hk. apply try_map_Ok in Hl.
  apply Forall2_flip in Hl. eapply Forall2_forall_elem in Hl as ([k' bytes] & Hin & Hf); [|exact Hk].
  simpl in Hf. destruct (json_parse bytes) as [w|e] eqn:Hw; [|done]. simpl in Hf. injection Hf as <- <-.
  exists bytes. split; [|done]. rewrite string_hash_iter_perm in Hin. by apply elem_of_map_to_list in Hin.
Qed.

Lemma uuid_map_lookup text m id v :
  uuid_map_from_str text = Ok m -> m !! id = Some v ->
  exists obj k, json_parse text = Ok (Object obj) /\ obj !! k = Some v /\ uuid_parse_str k = Ok id.
Proof.
  unfold uuid_map_from_str. destruct (json_parse text) as [[| | | | |obj]|e]; try done.
  simpl. destruct (try_map _ (object_iter obj)) as [l|e] eqn:Hl; [|done]. intros [= <-] Hid.
  apply collect_map_elem in Hid. apply try_map_Ok, Forall2_flip in Hl.
  eapply Forall2_forall_elem in Hl as ([k x] & Hin & Hf); [|exact Hid]. simpl in Hf.
  destruct (uuid_parse_str k) as [u|e] eqn:Hu; [|done]. simpl in Hf. injection Hf as <- <-.
  exists obj, k. split_and!; [done| |done]. by apply elem_of_object_iter.
Qed.

(** The objects the GraphQL API answers for a list of ids come from the
    query service at the address of the schema, which has been asked for just
    those ids: each is the JSON held there under its id. *)
Theorem objects_are_stored_documents object_ids schema_id s s' os :
  object_ids <> [] -> objects config object_ids schema_id s = (s', Ok os) ->
  exists address t values,
    info_source sr schema_id (rr_net s) (rr_cache s) (address, t) /\
    qs_query_multiple (uuid_to_string <$> object_ids) address (rr_net s) = Ok values /\
    Forall (fun o => exists k bytes, uuid_parse_str k = Ok (co_object_id o) /\
      values !! k = Some bytes /\ json_parse bytes = Ok (co_data o)) os.
Proof.
  intros Hids. unfold objects, fetch_objects, mbind, M_bind, with_err. rewrite http_send_spec.
  destruct (serve_http sr _ (rr_net s) (rr_cache s)) as [c1 response] eqn:Hserve. cbn [map_err].
  unfold lift. destruct (uuid_map_from_str response) as [m|e] eqn:Hm; [cbn [map_err]|done].
  intros [= _ <-].
  assert (exists v, json_parse response = Ok v) as [v Hv].
  { unfold uuid_map_from_str in Hm. destruct (json_parse response) as [v|e]; [by exists v|done]. }
  destruct (serve_http_json _ _ _ _ _ _ _ (routes_multiple object_ids schema_id Hids) Hserve Hv)
    as (reply & Hhandle & ->). cbn [handle_route] in Hhandle.
  destruct (query_multiple_spec sr _ schema_id (rr_net s) (rr_cache s) c1 reply Hhandle)
    as (address & t & values & jsons & Hsource & Hq & Hjsons & ->).
  rewrite (router_splits_ids object_ids Hids) in Hq.
  exists address, t, values. split_and!; [done..|].
  apply Forall_fmap, Forall_forall. intros [id x] Hin. simpl. rewrite hash_iter_perm in Hin.
  apply elem_of_map_to_list in Hin.
  destruct (uuid_map_lookup _ _ _ _ Hm Hin) as (obj & k & Hobj & Hk & Hid).
  cbn [reply_body] in Hobj. apply reply_json_parse in Hobj. injection Hobj as ->.
  destruct (byte_map_lookup _ _ _ _ Hjsons Hk) as (bytes & Hb & Hx). by exists k, bytes.
Qed.
End composed.

(** ** A router in memory *)

#[export] Instance uuid_text_laws_inst : UuidTextLaws.
Proof.
  assert (forall c p, char_in c (pos_to_string p) = true -> c = "H"%char \/ c = "O"%char \/ c = "I"%char) as Hp.
  { intros c p. induction p as [p IH|p IH|].
    - intros [Hc%Ascii.eqb_eq|Hc]%orb_true_iff; [subst; by auto|by apply IH].
    - intros [Hc%Ascii.eqb_eq|Hc]%orb_true_iff; [subst; by auto|by apply IH].
    - intros [Hc%Ascii.eqb_eq|Hc]%orb_true_iff; [subst; by auto|done]. }
  split; intros u; apply not_true_is_false; intros Hu; apply Hp in Hu; naive_solver.
Qed.

(** the documents of the run, and their texts *)
Definition demo_key : string := uuid_to_string 1%N.
Definition empty_value (v : Value) : bool :=
  match v with Object m => bool_decide (size m = 0) | _ => false end.

#[local] Instance demo_json : JsonText := {
  json_parse := fun s =>
    if decide (s = "{}") then Ok (Object ∅)
    else if decide (s = "{one}") then Ok (Object {[demo_key := Object ∅]}) else Err "expected value";
  json_to_string := fun _ => Ok "null";
}.
#[local] Instance demo_warp : WarpText := {
  reply_json := fun m =>
    if bool_decide (size m = 0) then "{}"
    else if bool_decide (size (delete demo_key m) = 0) &&
            from_option empty_value false (m !! demo_key) then "{one}"
    else "{...}";
  not_routed := fun _ => EmptyString;
  unhandled_rejection := fun _ => "Unhandled rejection";
}.
#[local] Instance demo_warp_laws : WarpTextLaws.
Proof.
  split; [done|done| |done]. intros m v. cbn [reply_json demo_warp].
  destruct (bool_decide (size m = 0)) eqn:Hm.
  { apply bool_decide_eq_true, map_size_empty_inv in Hm as ->. by intros [= <-]. }
  destruct (_ && _) eqn:Hone; [|done]. intros [= <-].
  apply andb_true_iff in Hone as [Hd Hk]. apply bool_decide_eq_true, map_size_empty_inv in Hd.
  destruct (m !! demo_key) as [[| | | | |o]|] eqn:Hkey; try done. simpl in Hk.
  apply bool_decide_eq_true, map_size_empty_inv in Hk as ->.
  by rewrite <- (insert_delete_id _ _ _ Hkey), Hd.
Qed.

Definition demo_router : RouterHost (gmap Uuid (string * SchemaType)) (gmap string string) :=
  mkRouterHost ∅ {[demo_key := "{}"]}.
Definition demo_router_config : ApiConfig :=
  mkApiConfig "http://registry" "http://query-router" 8080
    (mkMessageQueueArgs ApiKafka (Some "kafka") (Some "api") None None) "reports" "input".

Lemma object_is_stored_document_witness :
  exists address values bytes,
    info_source "http://registry" 7 (rr_net demo_router) (rr_cache demo_router) (address, DocumentStorage) /\
    qs_query_multiple [demo_key] address (rr_net demo_router) = Ok values /\
    values !! demo_key = Some bytes /\ json_parse bytes = Ok (Object ∅) /\ 1%N = 1%N.
Proof.
  apply (object_is_stored_document demo_router_config "http://registry" 1 7 demo_router
    (@object _ (router_client "http://query-router" "http://registry") _ _ demo_router_config 1 7 demo_router).1
    (mkCdlObject 1 (Object ∅))).
  vm_eq.
Defined.

Lemma objects_are_stored_documents_witness :
  exists address t values,
    info_source "http://registry" 7 (rr_net demo_router) (rr_cache demo_router) (address, t) /\
    qs_query_multiple (uuid_to_string <$> [1%N; 2%N]) address (rr_net demo_router) = Ok values /\
    Forall (fun o => exists k bytes, uuid_parse_str k = Ok (co_object_id o) /\
      values !! k = Some bytes /\ json_parse bytes = Ok (co_data o)) [mkCdlObject 1 (Object ∅)].
Proof.
  apply (objects_are_stored_documents demo_router_config "http://registry" [1%N; 2%N] 7 demo_router
    (@objects _ (router_client "http://query-router" "http://registry") _ _ _ demo_router_config
       [1%N; 2%N] 7 demo_router).1 [mkCdlObject 1 (Object ∅)]); [done|vm_eq].
Defined.
