(* ===== verification/Pipeline.v ===== *)
(** The services together: a message that a client inserts through the GraphQL
    API is routed by the data router, stored by a command service with the
    PostgreSQL plugin, and read back through the query service, the query router
    and the API.  Between the services there are a broker, which hands a consumer
    what was published, and a database, which both sides see. *)
From Stdlib Require Import Ascii.
From stdpp Require Import prelude gmap strings list fin_maps.
From S2P Require Import Prelude StringSplit Json Externals Instances Indradb RegistryTypes SchemaDb.
From S2P Require Import SchemaDbSpec Registry RegistryRun Lru Messaging MessageTypes RegistryRpc RegistryClient.
From S2P Require Import DataRouter CommandService CommandOutputs QueryService QueryRouter QueryRouterMain.
From S2P Require Import ApiEvents Api ApiSpec ApiRouter JsonExact.

(** ** The servers behind the routers *)

(** a schema registry and the query services, by their addresses *)
Record Backend (G B D : Type) `{SemVer} : Type := mkBackend {
  be_registry_addr : string;
  be_registry : SchemaRegistryImpl G B;
  be_documents : gmap string (PsqlQuery D);
}.
Arguments mkBackend {G B D _}. Arguments be_registry_addr {G B D _}.
Arguments be_registry {G B D _}. Arguments be_documents {G B D _}.

(** what [tonic] answers when nothing listens, and for a handler that panicked *)
Definition unavailable : Status := mkStatus (TransportCode 14) "error trying to connect".
Definition cancelled : Status := mkStatus (TransportCode 1) "connection reset".
Definition unimplemented : Status := mkStatus (TransportCode 12) EmptyString.

Section backend.
Context {G B D : Type} `{Datastore G, Broker B, SemVer, UuidLib, JsonText, JsonSchemaLib,
  JmespathLib, HashIter, QueryDb D, ValueText, StatusText}.
Implicit Types (b : Backend G B D).

Definition ask_registry {A} (addr : string) (request : M (SchemaRegistryImpl G B) Status A) b :
    result Status A :=
  if decide (addr = be_registry_addr b) then snd (request (be_registry b)) else Err unavailable.
Definition ask_documents {A} (addr : string) (query : PsqlQuery D -> result (Fault Status) A) b :
    result Status A :=
  match be_documents b !! addr with
  | None => Err unavailable
  | Some q => map_err (fun e => match e with Prelude.Failed st => st | Panicked => cancelled end) (query q)
  end.

#[export] Instance backend_registry : DataRouter.RegistryClient (Backend G B D) := {
  client_get_schema_topic := fun addr id b =>
    map_err (fun st => [status_display st]) (ask_registry addr (rpc_get_schema_topic id) b);
}.
#[export] Instance backend_servers : Servers (Backend G B D) := {
  srv_connect := fun addr b =>
    if decide (addr = be_registry_addr b \/ is_Some (be_documents b !! addr)) then Ok ()
    else Err "tcp connect error: Connection refused";
  srv_get_schema_query_address := fun addr id => ask_registry addr (rpc_get_schema_query_address id);
  srv_get_schema_type := fun addr id => ask_registry addr (rpc_get_schema_type id);
  srv_query_multiple := fun addr ids => ask_documents addr (QueryService.query_multiple ids);
  srv_query_by_schema := fun addr id => ask_documents addr (QueryService.query_by_schema id);
  srv_query_raw := fun addr raw => ask_documents addr (QueryService.query_raw raw);
  srv_ts_query_by_range := fun _ _ _ _ _ _ _ => Err unimplemented;
  srv_ts_query_by_schema := fun _ _ _ => Err unimplemented;
  srv_ts_query_raw := fun _ _ _ => Err unimplemented;
}.
End backend.

(** ** What the links guarantee *)

(** the serde-derived texts: an insert message is written as an object, a stored
    message is read back, and a [RawValue] is the JSON text it was made from *)
Class TextLaws `{JsonText, InsertText, MessageText} : Prop := {
  insert_text_object m text v :
    insert_message_to_vec m = Ok text -> json_parse text = Ok v -> is_array v = false;
  borrowed_text_roundtrip m raw text :
    raw_value_from_string raw = Ok (bi_data m) -> borrowed_to_string m = Ok text -> borrowed_from_str text = Ok m;
  raw_value_text text data : raw_value_from_string text = Ok data -> json_parse data = json_parse text;
}.

Section stages.
Context {G B D K C : Type} `{DatastoreLaws G, !ReliableDatastore G, BrokerLaws B, SemVerLaws, UuidLaws,
  JsonText, !JsonSchemaLib, !JmespathLib, !HashIter, !ValueText, !StatusText, !StdText, !MessageText,
  !InsertText, !InsertTextLaws, !TextLaws, !AnyhowText, !CommandText, !ExactText, AckerLaws K,
  !LruLib string C, !LruLaws string C, PostgresLaws D, !QueryDb D, !QueryDbLaws D, !SharedTable D}.
Implicit Types (b : Backend G B D) (s : Router C B K (Backend G B D)) (object_id schema_id : Uuid).

(** *** The data router *)

(** a message of the API has one entry, if it is read at all *)
Lemma entries_of_carried m key payload insert l :
  carries m key payload -> insert_message_to_vec insert = Ok payload ->
  insert_message_from_str payload = Ok insert -> entries_of m = Some l -> l = [insert].
Proof.
  intros Hm Hvec Hread. unfold entries_of.
  destruct (message_payload m) as [text|e] eqn:Htext; simpl; [|done].
  apply (message_payload_carries m key payload) in Htext as ->; [|done].
  destruct (json_parse payload) as [v|e] eqn:Hv; simpl; [|done].
  rewrite (insert_text_object insert payload v Hvec Hv), Hread. simpl. by intros [= <-].
Qed.

(** the topic of a schema, as the registry stores it *)
Definition registered_topic b schema_id (topic : string) : Prop :=
  g_vprop (graph (impl_db (be_registry b))) schema_id Schema_TOPIC_NAME ≫= string_from_value = Some topic.

Lemma registry_topic b addr schema_id topic :
  topic_of addr b schema_id = Ok topic -> registered_topic b schema_id topic.
Proof.
  unfold topic_of, client_get_schema_topic, backend_registry, ask_registry.
  case_decide; [|done]. unfold rpc_get_schema_topic, mbind, M_bind, lift, parse_uuid.
  rewrite uuid_parse_to_string. simpl. unfold on_database.
  pose proof (get_metadata_spec (impl_db (be_registry b)) schema_id Schema_TOPIC_NAME string_from_value) as Hspec.
  unfold wp in Hspec. unfold SchemaDb.get_schema_topic.
  destruct (get_metadata _ _ _ _) as [d' [t|e]]; simpl; [|done]. intros [= <-]. by destruct Hspec.
Qed.

(** where the router has the topic of a schema from: its cache, or the registry as
    it was at a call made meanwhile *)
Definition topic_source s s' schema_id (topic : string) : Prop :=
  lru_entries (ro_cache s) !! schema_id = Some topic \/
  exists n, ro_calls s <= n < ro_calls s' /\ registered_topic (ro_registry s n) schema_id topic.

(** the entry the router publishes for a message of the API *)
Lemma router_publishes s s' m producer errors addr key payload insert topic key' text :
  carries m key payload -> insert_message_to_vec insert = Ok payload ->
  insert_message_from_str payload = Ok insert ->
  run (DataRouter.handle_message m producer errors addr) s = (s', Ok ()) ->
  sent (ro_broker s') = sent (ro_broker s) ++ [(topic, key', text)] -> topic <> errors ->
  topic_source s s' (dr_schema_id insert) topic /\
  borrowed_to_string (mkBorrowedInsertMessage (dr_object_id insert) (dr_schema_id insert)
    (current_timestamp (ro_clock s (ro_ticks s))) (dr_data insert)) = Ok text.
Proof.
  intros Hm Hvec Hread Hrun Hsent Htopic.
  destruct (handle_message_outcome addr errors s s' m producer Hrun) as (outs & report & Hfate & Hout & _).
  rewrite Hsent in Hout. apply app_inv_head in Hout. destruct Hfate as (Hfate & Hreport & Hshape).
  destruct Hshape as [-> |[e ->]].
  2: { apply (f_equal last) in Hout. rewrite last_snoc in Hout. simpl in Hout. by simplify_eq. }
  destruct (proj1 Hreport eq_refl) as ([l Hl] & _). rewrite Hl in Hfate. simpl in Hfate.
  pose proof (entries_of_carried m key payload insert l Hm Hvec Hread Hl) as ->.
  inversion Hfate as [|? z out ? zs outs' Hf Hnil]; subst. inversion Hnil; subst.
  destruct out as [[[t k] x]|]; simpl in Hout; [|done]. injection Hout as -> -> ->.
  destruct Hf as (Hfound & _ & Htext). split; [|done].
  destruct Hfound as [Hc|(n & Hn & Ht)]; [by left|right]. exists n. split; [done|by eapply registry_topic].
Qed.

(** *** The command service *)

Lemma command_stores m key text msg (c c' : Command (PostgresOutputPlugin D) B K) :
  carries m key text -> borrowed_from_str text = Ok msg ->
  validate_schema (pp_schema (cm_plugin c)) = true ->
  mq_handle_message m c = (c', Ok ()) ->
  pp_schema (cm_plugin c') = pp_schema (cm_plugin c) /\
  (pg_rows (pp_pool (cm_plugin c')) = pg_rows (pp_pool (cm_plugin c)) \/
   exists v, json_parse (bi_data msg) = Ok v /\
     pg_rows (pp_pool (cm_plugin c')) = pg_rows (pp_pool (cm_plugin c)) ++
       [(pp_schema (cm_plugin c), mkDataRow (bi_object_id msg) (bi_timestamp msg) (bi_schema_id msg) v)]).
Proof.
  intros Hm Hmsg Hvalid Hrun. pose proof (mq_handle_message_spec m c) as Hspec. unfold wp in Hspec.
  rewrite Hrun in Hspec. destruct Hspec as (_ & msg' & status & Hbuild & Hplugin & _).
  assert (msg' = msg) as ->.
  { unfold mq_build_message in Hbuild. destruct (message_payload m) as [json|e] eqn:Hjson; simpl in Hbuild; [|done].
    apply (message_payload_carries m key text) in Hjson as ->; [|done]. rewrite Hmsg in Hbuild. by injection Hbuild. }
  destruct (postgres_handle_message_spec _ _ msg status Hvalid Hplugin)
    as [Hs [(_ & v & Hv & Hrows)|[_ Hrows]]].
  - split; [done|]. right. by exists v.
  - split; [done|by left].
Qed.

(** *** The query service *)

(** the newest row of an object is the only latest one *)
Lemma newest_row_latest (l : list DataRow) row r :
  (forall r', r' ∈ l -> row_object_id r' = row_object_id row -> (row_version r' < row_version row)%Z) ->
  r ∈ l ++ [row] -> row_object_id r = row_object_id row -> latest_row (l ++ [row]) r -> r = row.
Proof.
  intros Hnew [Hr|Hr%list_elem_of_singleton]%elem_of_app Hid Hlat; [exfalso|done].
  unfold latest_row in Hlat. rewrite Forall_forall in Hlat.
  assert (row_version row <= row_version r)%Z; [|specialize (Hnew r Hr Hid); lia].
  apply Hlat; [|done]. apply elem_of_app; right; by apply list_elem_of_singleton.
Qed.

(** the rows of the table that [name] stands for *)
Definition rows_named (name : string) (l : list (string * DataRow)) : list DataRow :=
  snd <$> filter (fun x => schema_named x.1 = schema_named name) l.

Lemma newest_row_is_latest (l : list DataRow) row :
  (forall r', r' ∈ l -> row_object_id r' = row_object_id row -> (row_version r' < row_version row)%Z) ->
  latest_row (l ++ [row]) row.
Proof.
  intros Hnew. apply Forall_forall. intros r [Hr|Hr%list_elem_of_singleton]%elem_of_app Hid; [|by subst; lia].
  specialize (Hnew r Hr Hid). lia.
Qed.

(** the answer for the object of the row that was inserted last *)
Lemma documents_answer q name object_id values l row :
  validate_schema (pq_schema q) = true -> schema_named name = schema_named (pq_schema q) ->
  QueryService.query_multiple [uuid_to_string object_id] q = Ok values ->
  pg_rows (pq_pool q) = l ++ [(name, row)] -> row_object_id row = object_id ->
  (forall r, r ∈ rows_named name l -> row_object_id r = object_id -> (row_version r < row_version row)%Z) ->
  values !! uuid_to_string object_id = Some (value_display (row_payload row)).
Proof.
  intros Hvalid Hname Hq Hrows Hid Hnew.
  apply query_multiple_latest in Hq as (ids & Hids & Hdoc & Hall); [|done].
  rewrite shared_rows, <- Hname, Hrows in *. fold (rows_named name (l ++ [(name, row)])) in *.
  assert (rows_named name (l ++ [(name, row)]) = rows_named name l ++ [row]) as Heq.
  { unfold rows_named. by rewrite filter_app, filter_cons_True, filter_nil, fmap_app by done. }
  rewrite Heq in *.
  assert (forall r', r' ∈ rows_named name l -> row_object_id r' = row_object_id row -> (row_version r' < row_version row)%Z)
    as Hnew' by (intros r' Hr' Hid'; apply Hnew; [done|congruence]).
  assert (object_id ∈ ids) as Hin.
  { inversion Hids as [|? i ? ids' Hi Hnil]; subst. rewrite uuid_parse_to_string in Hi. injection Hi as ->. by left. }
  destruct (Hall row) as [bytes Hb]; [apply elem_of_app; right; by left|by rewrite Hid|by apply newest_row_is_latest|].
  rewrite Hid in Hb. rewrite Hb. f_equal. destruct (Hdoc _ _ Hb) as (r & Hr & _ & Hlat & Hkey & ->).
  apply uuid_to_string_inj in Hkey. by rewrite (newest_row_latest (rows_named name l) row r) by (done || congruence).
Qed.

End stages.

(** ** From the insertion to the answer *)

Section end_to_end.
Context {G B D K C C' : Type} `{DatastoreLaws G, !ReliableDatastore G, BrokerLaws B, SemVerLaws, UuidLaws,
  !UuidTextLaws, JsonText, !JsonSchemaLib, !JmespathLib, !HashIter, !HashIterLaws, !StringHashIter,
  !StringHashIterLaws, !ValueText, !StatusText, !StdText, !MessageText, !InsertText, !InsertTextLaws,
  !TextLaws, !AnyhowText, !CommandText, !ExactText, !WarpText, !WarpTextLaws, AckerLaws K, !LruLib string C,
  !LruLaws string C, !LruLib (string * SchemaType) C', !LruLaws (string * SchemaType) C',
  PostgresLaws D, !QueryDb D, !QueryDbLaws D, !SharedTable D}
  (config : ApiConfig) (sr : string).

#[local] Instance api_router : HttpClient (RouterHost C' (Backend G B D)) :=
  router_client (ac_query_router_addr config) sr.

(** the query router knows the schema as one of documents that the query service at
    [address] answers: from its cache, or from the registry *)
Definition documents_at (a : RouterHost C' (Backend G B D)) (schema_id : Uuid) (address : string) : Prop :=
  match lru_entries (rr_cache a) !! schema_id with
  | Some info => info = (address, DocumentStorage)
  | None =>
      be_registry_addr (rr_net a) = sr /\
      g_vprop (graph (impl_db (be_registry (rr_net a)))) schema_id Schema_QUERY_ADDRESS
        ≫= string_from_value = Some address /\
      g_vprop (graph (impl_db (be_registry (rr_net a)))) schema_id Schema_SCHEMA_TYPE
        ≫= schema_type_from_value = Some DocumentStorage
  end.

(** a reliable datastore answers what it stores *)
Lemma get_metadata_found {T} id name (from_value : Value -> option T) (d : G) x :
  g_vprop (graph d) id name ≫= from_value = Some x -> get_metadata id name from_value d = (d, Ok x).
Proof.
  intros Hx. assert (safe (get_metadata (D := G) id name from_value)) as Hsafe.
  { unfold get_metadata. apply safe_bind; [auto with safe|]. intros _. apply safe_bind; [auto with safe|].
    intros l. apply safe_bind; [auto with safe|]. intros v. auto with safe. }
  destruct (safe_returns _ d _ _ Hsafe (get_metadata_spec d id name from_value)) as (y & d' & Hrun & -> & Hy).
  - intros e d' [_ [He|[[_ Hnone]|(_ & v & Hv & Hnone)]]]; [done|by rewrite Hnone in Hx|].
    rewrite Hv in Hx. simpl in Hx. congruence.
  - rewrite Hrun. congruence.
Qed.

Lemma documents_source a schema_id address :
  documents_at a schema_id address ->
  info_source sr schema_id (rr_net a) (rr_cache a) (address, DocumentStorage).
Proof.
  unfold documents_at, info_source. destruct (lru_entries (rr_cache a) !! schema_id) as [info|]; [done|].
  intros (Haddr & Hq & Ht). unfold fetch_schema_info. cbn [srv_connect srv_get_schema_query_address srv_get_schema_type backend_servers].
  rewrite decide_True by (by left). cbn [map_err mbind result_bind]. unfold ask_registry. rewrite !decide_True by done.
  unfold rpc_get_schema_query_address, rpc_get_schema_type, mbind, M_bind, lift, parse_uuid.
  rewrite uuid_parse_to_string. cbn [map_err]. unfold on_database, SchemaDb.get_schema_query_address, SchemaDb.get_schema_type.
  rewrite (get_metadata_found _ _ _ _ _ Hq), (get_metadata_found _ _ _ _ _ Ht). done.
Qed.

(** C1: a document inserted through the GraphQL API comes back through it.  Suppose
    the API has accepted the message, the data router has routed what the broker
    handed it without an error report, and a command service has stored what the
    broker handed it of that topic in turn.  Then the API's [object] query for it
    succeeds and answers the inserted JSON, provided that
    - the router stamped the message later than the rows that were there for the object;
    - the query router knows the schema as one of documents ([documents_at]), at the
      address of a query service that reads the table the command service writes
      and whose database answers, and the storage of the registry does not fail;
    - the JSON is exact: its numbers are integers and it is nested less than the
      parser's limit.  Otherwise the answer is what its text reads as, if anything.
    The topic is one that the router had cached for the schema, or that the registry
    stored for it when the router asked. *)
Theorem inserted_document_is_answered created message (b b1 : B) input key payload m
    (s s1 : Router C B K (Backend G B D)) producer errors addr topic key1 text m1
    (c c1 : Command (PostgresOutputPlugin D) B K) (a : RouterHost C' (Backend G B D)) address name values :
  (* the client inserts *)
  insert_message config created message b = (b1, Ok true) ->
  last (sent b1) = Some (input, key, payload) -> carries m key payload ->
  (* the data router *)
  run (DataRouter.handle_message m producer errors addr) s = (s1, Ok ()) ->
  sent (ro_broker s1) = sent (ro_broker s) ++ [(topic, key1, text)] -> topic <> errors ->
  carries m1 key1 text ->
  (* the command service *)
  validate_schema (pp_schema (cm_plugin c)) = true -> mq_handle_message m1 c = (c1, Ok ()) ->
  pg_rows (pp_pool (cm_plugin c1)) <> pg_rows (pp_pool (cm_plugin c)) ->
  (forall r, r ∈ rows_named (pp_schema (cm_plugin c)) (pg_rows (pp_pool (cm_plugin c))) ->
     row_object_id r = inp_object_id message ->
     (row_version r < current_timestamp (ro_clock s (ro_ticks s)))%Z) ->
  (* the query side *)
  documents_at a (inp_schema_id message) address ->
  be_documents (rr_net a) !! address = Some (mkPsqlQuery (pp_pool (cm_plugin c1)) name) ->
  validate_schema name = true -> schema_named (pp_schema (cm_plugin c)) = schema_named name ->
  QueryService.query_multiple [uuid_to_string (inp_object_id message)]
    (mkPsqlQuery (pp_pool (cm_plugin c1)) name) = Ok values ->
  exists v, json_parse (inp_payload message) = Ok v /\
    (exact MAX_DEPTH v -> exists a1, object config (inp_object_id message) (inp_schema_id message) a =
       (a1, Ok (mkCdlObject (inp_object_id message) v))) /\
    (forall v', json_parse (value_display v) = Ok v' ->
       exists a1, object config (inp_object_id message) (inp_schema_id message) a =
         (a1, Ok (mkCdlObject (inp_object_id message) v'))) /\
    input = ac_data_router_topic_or_queue config /\ topic_source s s1 (inp_schema_id message) topic.
Proof.
  intros Hinsert Hlast Hm Hroute Hsent Htopic Hm1 Hvalid Hstore Hrows Hnew Hknown Hdocs Hvalid' Hname Hq.
  destruct (wp_ok _ _ _ _ _ _ (insert_message_spec config created message b) Hinsert)
    as (entry & (data & payload' & -> & Hdata & Hvec & Hread) & Hb1).
  rewrite Hb1, last_snoc in Hlast. injection Hlast as <- <- <-.
  destruct (router_publishes s s1 m producer errors addr _ _ _ topic key1 text Hm Hvec Hread Hroute
    Hsent Htopic) as [Hsource Htext]. cbn [dr_data dr_object_id dr_schema_id] in *.
  pose proof (borrowed_text_roundtrip (mkBorrowedInsertMessage _ _ _ data) (inp_payload message) text Hdata Htext) as Hborrowed.
  destruct (command_stores m1 key1 text _ c c1 Hm1 Hborrowed Hvalid Hstore)
    as [_ [Hsame|(v & Hv & Hrow)]]; [done|]. cbn [bi_data bi_object_id bi_timestamp bi_schema_id] in *.
  pose proof (documents_answer (mkPsqlQuery _ name) _ _ _ _ _ Hvalid' Hname Hq Hrow eq_refl Hnew) as Hbytes.
  assert (forall v', json_parse (value_display v) = Ok v' ->
    exists a1, object config (inp_object_id message) (inp_schema_id message) a =
      (a1, Ok (mkCdlObject (inp_object_id message) v'))) as Hanswer.
  { intros v' Hv'. eapply object_answered; [by apply documents_source| |exact Hbytes|exact Hv'].
    unfold qs_query_multiple, client_call. cbn [srv_connect srv_query_multiple backend_servers].
    rewrite decide_True by (right; by rewrite Hdocs). cbn. unfold ask_documents. by rewrite Hdocs, Hq. }
  exists v. apply raw_value_text in Hdata. split_and!; [congruence|intros Hexact; by apply Hanswer, value_display_exact|done..].
Qed.
End end_to_end.

(** ** A run in memory *)

Definition insert_fields (s : string) : result string (Uuid * Uuid * string) := read s.

(** the texts of the run: the empty object, any value after a [v], and the fields of
    a message, encoded *)
#[local] Instance run_json : JsonText := {
  json_parse := fun s =>
    match s with
    | String "v"%char s' => read s'
    | _ =>
        if decide (s = "{}") then Ok (Object ∅)
        else data ← insert_fields s; Ok (Object {["data" := VString data.2]})
    end;
  json_to_string := fun _ => Ok "null";
}.
#[local] Instance run_value : ValueText := {
  value_display := fun v => String "v"%char (show v);
}.
#[local] Instance run_insert : InsertText := {
  insert_message_to_vec := fun m => Ok (show (dr_object_id m, dr_schema_id m, dr_data m));
  raw_value_from_string := fun s => json_parse s ;; Ok s;
}.
#[local] Instance run_messages : MessageText := {
  insert_message_from_str := fun s =>
    '(object_id, schema_id, data) ← insert_fields s; Ok (mkDataRouterInsertMessage object_id schema_id data);
  insert_messages_from_str := fun _ => Err "expected a sequence";
  borrowed_to_string := fun m => Ok (show (bi_object_id m, bi_schema_id m, bi_timestamp m, bi_data m));
  borrowed_from_str := fun s =>
    '(object_id, schema_id, timestamp, data) ← read (A := Uuid * Uuid * Z * string) s;
    Ok (mkBorrowedInsertMessage object_id schema_id timestamp data);
}.
#[local] Instance run_warp : WarpText := {
  reply_json := fun _ => EmptyString;
  not_routed := fun _ => EmptyString;
  unhandled_rejection := fun _ => "Unhandled rejection";
}.
#[local] Instance run_status : StatusText := { status_display := message }.
#[local] Instance run_command : CommandText := {
  report_body_to_vec := fun b => Ok (rb_description b);
  raw_value_from_slice := Ok;
}.

#[local] Instance run_insert_laws : InsertTextLaws.
Proof.
  split. intros [object_id schema_id data] text [= <-]. cbn [insert_message_from_str run_messages].
  unfold insert_fields. by rewrite read_show.
Qed.
#[local] Instance run_text_laws : TextLaws.
Proof.
  split.
  - assert (forall p v, json_parse (pos_to_string p) = Ok v -> is_array v = false) as Hpos.
    { intros p v. cbn [json_parse run_json]. generalize (insert_fields (pos_to_string p)). intros r.
      destruct p; cbn [pos_to_string]; rewrite decide_False by done; destruct r; simpl; try done; by intros [= <-]. }
    intros m text v [= <-]. apply Hpos.
  - intros [object_id schema_id timestamp data] raw text _ [= <-]. cbn [borrowed_from_str run_messages].
    by rewrite read_show.
  - intros text data. cbn [raw_value_from_string run_insert].
    destruct (json_parse text) as [v|e] eqn:Hv; [|done]. by intros [= <-].
Qed.
#[local] Instance run_exact : ExactText.
Proof. split. intros v _. cbn [value_display run_value json_parse run_json]. apply read_show. Qed.
#[local] Instance run_warp_laws : WarpTextLaws.
Proof. by split. Qed.
#[local] Instance run_table : SharedTable (list (string * DataRow)).
Proof. by split. Qed.

Definition run_config : ApiConfig :=
  mkApiConfig "http://registry" "http://query-router" 8080
    (mkMessageQueueArgs ApiKafka (Some "kafka") (Some "api") None None) "reports" "input".
Definition run_backend (documents : gmap string (PsqlQuery (list (string * DataRow)))) :
    Backend MemoryDatastore MemoryBroker (list (string * DataRow)) :=
  mkBackend "http://registry" demo_host documents.
Definition run_input : InputMessage := mkInputMessage 1 7 "{}".
Definition run_broker : MemoryBroker := mkMemoryBroker ["input"; "orders.topic"; "errors"] [].
Definition run_message (sent_to : MemoryBroker) : CommMessage :=
  match last (mb_log sent_to) with
  | Some (_, key, payload) => KafkaCommunicationMessage (Some key) (Some payload) 0 0
  | None => KafkaCommunicationMessage None None 0 0
  end.
Definition run_inserted : MemoryBroker := (insert_message run_config (Ok ()) run_input run_broker).1.
Definition run_router : Router (gmap Uuid string) MemoryBroker (list CommMessage)
    (Backend MemoryDatastore MemoryBroker (list (string * DataRow))) :=
  mkRouter ∅ run_broker [] (fun _ => run_backend ∅) 0 (fun i => 10 + Z.of_nat i)%Z 0.
Definition run_routed :=
  (run (DataRouter.handle_message (run_message run_inserted) PublisherKafka "errors" "http://registry") run_router).1.
Definition run_service : Command (PostgresOutputPlugin (list (string * DataRow))) MemoryBroker
    (list CommMessage) :=
  mkCommand (mkPostgresOutputPlugin [("public", mkDataRow 1 5 7 Null)] "public") ReportDisabled run_broker [].
Definition run_stored := (mq_handle_message (run_message (ro_broker run_routed)) run_service).1.
Definition run_api : RouterHost (gmap Uuid (string * SchemaType))
    (Backend MemoryDatastore MemoryBroker (list (string * DataRow))) :=
  mkRouterHost ∅ (run_backend {["http://qs" := mkPsqlQuery (pp_pool (cm_plugin run_stored)) "Public"]}).

Definition run_values : gmap string string :=
  default ∅ (result_ok (QueryService.query_multiple [uuid_to_string 1%N] (mkPsqlQuery (pp_pool (cm_plugin run_stored)) "Public"))).

Lemma inserted_document_is_answered_witness :
  exists v, json_parse (inp_payload run_input) = Ok v /\
    (exact MAX_DEPTH v -> exists a1,
       @object _ (router_client "http://query-router" "http://registry") _ _ run_config 1 7 run_api = (a1, Ok (mkCdlObject 1 v))) /\
    (forall v', json_parse (value_display v) = Ok v' -> exists a1,
       @object _ (router_client "http://query-router" "http://registry") _ _ run_config 1 7 run_api = (a1, Ok (mkCdlObject 1 v'))) /\
    "input" = ac_data_router_topic_or_queue run_config /\ topic_source run_router run_routed 7 "orders.topic".
Proof.
  apply (inserted_document_is_answered run_config "http://registry" (Ok ()) run_input run_broker
    run_inserted "input" "" (default "" (result_ok (message_payload (run_message run_inserted))))
    (run_message run_inserted) run_router run_routed PublisherKafka "errors" "http://registry"
    "orders.topic" "" (default "" (result_ok (message_payload (run_message (ro_broker run_routed)))))
    (run_message (ro_broker run_routed)) run_service run_stored run_api "http://qs" "Public" run_values).
  - vm_eq.
  - vm_eq.
  - split; vm_eq.
  - vm_eq.
  - vm_eq.
  - done.
  - split; vm_eq.
  - vm_eq.
  - vm_eq.
  - vm_compute. discriminate.
  - replace (rows_named (pp_schema (cm_plugin run_service)) (pg_rows (pp_pool (cm_plugin run_service))))
      with [mkDataRow 1 5 7 Null] by vm_eq.
    intros r [-> |[]%not_elem_of_nil]%elem_of_cons _. reflexivity.
  - split; [vm_eq|split; vm_eq].
  - vm_eq.
  - vm_eq.
  - vm_eq.
  - vm_eq.
Defined.

(** the answer of the run *)
Example run_answer :
  snd (@object _ (router_client "http://query-router" "http://registry") _ _ run_config 1 7 run_api) =
    Ok (mkCdlObject 1 (Object ∅)).
Proof. vm_eq. Qed.
