(* ===== verification/ReportsFlow.v ===== *)
(** Reports from end to end: what a command service publishes about a message
    ([command-service/src/report]) is what the [reports] subscription of the API
    yields ([api/src/schema/subscription.rs]). *)
From stdpp Require Import prelude gmap strings list fin_maps.
From S2P Require Import Prelude Json Externals Instances RegistryTypes Messaging MessageTypes.
From S2P Require Import JsonExact CommandConfig CommandService CommandOutputs CommandMain ApiEvents.

(** the derived [Serialize] of [ReportBody] *)
Definition report_body_value `{UuidLib} (b : ReportBody) : Value :=
  Object {["application" := VString (rb_application b); "output_plugin" := VString (rb_output_plugin b);
           "description" := VString (rb_description b);
           "object_id" := VString (uuid_to_string (rb_object_id b)); "payload" := rb_payload b]}.

(** [serde_json] writes UTF-8, and reads back what it wrote of an exact value *)
Class ReportTextLaws `{UuidLib, JsonText, CommandText} : Prop := {
  report_text_value b text :
    exact MAX_DEPTH (report_body_value b) -> report_body_to_vec b = Ok text -> json_parse text = Ok (report_body_value b);
  report_text_utf8 b text : report_body_to_vec b = Ok text -> utf8_valid text = true;
}.

(** the two sides agree on the names and types of the members *)
Lemma report_body_read `{UuidLaws} (b : ReportBody) :
  report_from_value (report_body_value b) =
    Some (mkReport (rb_application b) (Some (rb_output_plugin b)) (rb_description b) (rb_object_id b) (rb_payload b)).
Proof.
  unfold report_from_value, report_body_value. cbn [get_key].
  rewrite !lookup_insert_eq.
  repeat (rewrite lookup_insert_ne by done). rewrite !lookup_insert_eq. cbn.
  repeat (rewrite lookup_insert_ne by done). rewrite ?lookup_insert_eq, ?lookup_singleton_eq. cbn.
  by rewrite uuid_parse_to_string.
Qed.

Section flow.
Context {P B K : Type} `{OutputPlugin P, BrokerLaws B, AckerLaws K, UuidLaws, JsonText, StdText,
  MessageText, CommandText, !ReportTextLaws}.
Implicit Types (c : Command P B K).

(** the payload of a delivered message *)
Lemma event_of_carries m key text :
  carries m key text -> utf8_valid text = true -> ev_payload (event_of m) = Some text.
Proof.
  intros Hm Hu. destruct m as [k p part off|rk data tag]; destruct Hm as [? ?]; subst; simpl;
    unfold from_utf8; by rewrite Hu.
Qed.

(** a stream that has kept up yields the next event of its channel *)
Lemma poll_forwarded w k ch i s m :
  cx_channels w !! k = Some ch -> cx_streams w !! i = Some s -> es_chan s = k -> es_open s = true ->
  es_next s = length (ch_sent ch) ->
  (poll_next i (forward k (Ok m) w)).2 = Ready (Some (Ok (event_of m))).
Proof.
  intros Hch Hi Hk Hopen Hnext. unfold forward. rewrite Hch. unfold poll_next. simpl. rewrite Hi, Hopen. simpl.
  unfold recv. simpl. rewrite Hk, list_lookup_insert_eq by (by eapply lookup_lt_Some). simpl.
  rewrite Hnext, length_app. simpl.
  replace (length (ch_sent ch) + CAPACITY <? length (ch_sent ch) + 1) with false
    by (symmetry; apply Nat.ltb_ge; unfold CAPACITY; lia).
  by rewrite lookup_app_r, Nat.sub_diag by lia.
Qed.

(** the report about a message *)
Definition report_of (base : FullReportSenderBase) (status : Resolution) (owned : OwnedInsertMessage) : ReportBody :=
  mkReportBody APPLICATION_NAME (frb_output_plugin base) (resolution_display status) (oi_object_id owned) (oi_data owned).

(** C31: a report reaches its subscribers.  When a command service that reports
    has handled a message, the last thing it published is the report about it,
    which says what its plugin answered.  When the broker brings it to the API,
    the next poll of each subscriber that has seen everything before it yields the
    event with just this text; and if the report can be read back exactly (its
    numbers are integers, and it is nested less than the parser's limit), what the
    subscriber gets is exactly the report: the name of the service and of the
    plugin, the text of the resolution, the object and the document. *)
Theorem report_reaches_subscriber m c c' base w k ch i s delivered :
  mq_handle_message m c = (c', Ok ()) -> cm_reports c = ReportFull base ->
  cx_channels w !! k = Some ch -> cx_streams w !! i = Some s -> es_chan s = k -> es_open s = true ->
  es_next s = length (ch_sent ch) ->
  exists msg status owned text,
    mq_build_message m = Ok msg /\ plugin_handle_message msg (cm_plugin c) = (cm_plugin c', status) /\
    borrowed_to_owned msg = Some owned /\ report_body_to_vec (report_of base status owned) = Ok text /\
    last (sent (cm_broker c')) = Some (frb_topic base, "command_service.status", text) /\
    (carries delivered "command_service.status" text -> exists event,
       (poll_next i (forward k (Ok delivered) w)).2 = Ready (Some (Ok event)) /\ ev_payload event = Some text /\
       (exact MAX_DEPTH (report_body_value (report_of base status owned)) ->
        reports [Ok event] = [Ok (mkReport APPLICATION_NAME (Some (frb_output_plugin base))
          (resolution_display status) (oi_object_id owned) (oi_data owned))])).
Proof.
  intros Hrun Hrep Hch Hi Hk Hopen Hnext.
  destruct (wp_ok _ _ _ _ _ _ (mq_handle_message_spec m c) Hrun) as (_ & msg & status & Hbuild & Hplugin & l & Hl & Hsent).
  rewrite Hrep in Hl. inversion Hl as [|base' owned text Howned Htext Hbase]; subst.
  exists msg, status, owned, text. split_and!; [done..| |].
  - by rewrite Hsent, last_snoc.
  - intros Hcarries. exists (event_of delivered). split; [by eapply poll_forwarded|].
    pose proof (event_of_carries _ _ _ Hcarries (report_text_utf8 _ _ Htext)) as Hev. split; [exact Hev|].
    intros Hexact. unfold reports. rewrite Hev. unfold report_from_str.
    rewrite (report_text_value _ _ Hexact Htext). cbn [mbind result_bind]. by rewrite report_body_read.
Qed.
End flow.

(** ** A run *)

Lemma pos_to_string_utf8 p : utf8_valid (pos_to_string p) = true.
Proof. by induction p. Qed.

(** the empty document, and reports about it *)
#[local] Instance flow_json : JsonText := {
  json_parse := fun s =>
    if decide (s = "{}") then Ok (Object ∅)
    else '(application, plugin, description, object_id) ← read (A := string * string * string * Uuid) s;
         Ok (report_body_value (mkReportBody application plugin description object_id (Object ∅)));
  json_to_string := fun _ => Ok "null";
}.
#[local] Instance flow_command : CommandText := {
  report_body_to_vec := fun b =>
    match rb_payload b with
    | Object m =>
        if decide (size m = 0) then
          Ok (show (rb_application b, rb_output_plugin b, rb_description b, rb_object_id b))
        else Err "not of this run"
    | _ => Err "not of this run"
    end;
  raw_value_from_slice := Ok;
}.
#[local] Instance flow_laws : ReportTextLaws.
Proof.
  split; intros [a o d i v] text; cbn [report_body_to_vec flow_command rb_payload rb_application rb_output_plugin
    rb_description rb_object_id]; destruct v; try done; case_decide as Hsize; try done.
  - intros _ [= <-]. apply map_size_empty_inv in Hsize as ->. cbn [json_parse flow_json]. rewrite decide_False.
    + by rewrite read_show.
    + unfold show. by destruct (encode _).
  - intros [= <-]. apply pos_to_string_utf8.
Qed.

Definition flow_message : CommMessage := KafkaCommunicationMessage (Some "k") (Some "{}") 0 3.
Definition flow_handled := (mq_handle_message flow_message demo_command).1.
Definition flow_text : string := default "" ((fun x => x.2) <$> last (sent (cm_broker flow_handled))).
Definition flow_delivered : CommMessage := KafkaCommunicationMessage (Some "command_service.status") (Some flow_text) 0 0.

Definition flow_report_of (status : Resolution) (owned : OwnedInsertMessage) : ReportBody :=
  report_of (mkFullReportSenderBase PublisherKafka "reports" "PostgreSQL") status owned.

Lemma report_reaches_subscriber_witness :
  exists msg status owned text,
    mq_build_message flow_message = Ok msg /\
    plugin_handle_message msg (cm_plugin demo_command) = (cm_plugin flow_handled, status) /\
    borrowed_to_owned msg = Some owned /\ report_body_to_vec (flow_report_of status owned) = Ok text /\
    last (sent (cm_broker flow_handled)) = Some ("reports", "command_service.status", text) /\
    (carries flow_delivered "command_service.status" text -> exists event,
       (poll_next 0 (forward 0 (Ok flow_delivered) demo_subscribed)).2 = Ready (Some (Ok event)) /\
       ev_payload event = Some text /\
       (exact MAX_DEPTH (report_body_value (flow_report_of status owned)) ->
        reports [Ok event] = [Ok (mkReport APPLICATION_NAME (Some "PostgreSQL")
          (resolution_display status) (oi_object_id owned) (oi_data owned))])).
Proof.
  apply (report_reaches_subscriber flow_message demo_command flow_handled
    (mkFullReportSenderBase PublisherKafka "reports" "PostgreSQL") demo_subscribed 0
    (mkChannel (consumer_config (ApiKafkaConfig "api" "kafka") "reports") "reports" [] Consuming) 0
    (stream_at 0 0) flow_delivered); vm_eq.
Defined.

(** and this report is exact *)
Example flow_exact : exact MAX_DEPTH (report_body_value (flow_report_of Success (mkOwnedInsertMessage 1 7 0 (Object ∅)))).
Proof.
  eapply exact_object; [reflexivity|]. repeat (apply map_Forall_insert_2; [split; [reflexivity|by constructor]|]).
  apply map_Forall_singleton. split; [reflexivity|]. eapply exact_object; [reflexivity|]. apply map_Forall_empty.
Qed.

Example flow_report :
  reports [Ok (event_of flow_delivered)] =
    [Ok (mkReport "Command Service" (Some "PostgreSQL") "success" 1 (Object ∅))].
Proof. vm_eq. Qed.
