(* ===== verification/Cli.v ===== *)
(** The command line client, [crates/cdl-cli/src]: its actions on the schemas
    and views of a registry.  What it prints, its standard input and its files
    are a console; the registry is reached through [RegistryService]. *)
From stdpp Require Import prelude gmap strings list fin_maps sorting.
From S2P Require Import Prelude StringSplit Json Externals RegistryTypes RegistryRpc RegistryClient.

(** ** The console *)

Record Console : Type := mkConsole {
  con_files : gmap string string;
  con_stdin : string;
  con_stdout : list string;
  con_stderr : list string;
}.

Inductive CliError : Type :=
| CliClient (e : ClientError)
| CliStatus (st : Status)
| CliJson (e : string)
| CliFile (e : string)
| CliVersion (e : string)
| CliBail (message : string).

(** [{:#}] of a JSON value *)
Class PrettyJson := { value_pretty : Value -> string }.

(** [types::SchemaType] on the command line and as a number *)
Definition schema_type_number (t : SchemaType) : Z :=
  match t with DocumentStorage => 0 | Timeseries => 1 end.

Section cli.
Context {N : Type} `{RegistryService N, SemVer, UuidLib, JsonText, PrettyJson, StringHashIter}.
#[local] Abbreviation St := (N * Console)%type (only parsing).
Abbreviation Cli A := (M St CliError A) (only parsing).

Definition on_net {E A} (f : E -> CliError) (m : M N E A) : Cli A := fun '(n, c) =>
  let '(n', r) := m n in ((n', c), map_err f r).
Definition cli_connect (registry_addr : string) : Cli string := on_net CliClient (connect registry_addr).
Definition request {A} (client : string) (r : Request A) : Cli A := on_net CliStatus (sv_call client r).

Definition println (line : string) : Cli () := fun '(n, c) =>
  ((n, mkConsole (con_files c) (con_stdin c) (con_stdout c ++ [line]) (con_stderr c)), Ok ()).
Definition eprintln (line : string) : Cli () := fun '(n, c) =>
  ((n, mkConsole (con_files c) (con_stdin c) (con_stdout c) (con_stderr c ++ [line])), Ok ()).

(** [utils::read_json] *)
Definition read_json (file : option string) : Cli Value := fun '(n, c) =>
  ((n, c),
   match file with
   | Some file_name =>
       text ← ok_or (CliFile "Couldn't open file") (con_files c !! file_name);
       map_err (fun _ => CliJson "File did not contain valid JSON") (json_parse text)
   | None => map_err (fun _ => CliJson "File did not contain valid JSON") (json_parse (con_stdin c))
   end).

Definition json_text (v : Value) : Cli string := lift (map_err CliJson (json_to_string v)).

(** *** [actions/schema.rs] *)

Definition cli_get_schema (schema_id : Uuid) (version : option VersionReq) (registry_addr : string) :
    Cli () :=
  client ← cli_connect registry_addr;
  response ← request client (GetSchema (mkVersionedId (uuid_to_string schema_id)
               (version_req_to_string (default req_any version))));
  v ← lift (map_err CliJson (json_parse (rd_definition response)));
  println (value_pretty v).

Definition cli_add_schema (schema_name topic query_address : string) (file : option string)
    (registry_addr : string) (schema_type : SchemaType) : Cli () :=
  definition ← read_json file;
  client ← cli_connect registry_addr;
  text ← json_text definition;
  id ← request client (AddSchema (mkReqNewSchema EmptyString schema_name query_address topic text
                         (schema_type_number schema_type)));
  eprintln ("Successfully added schema " +:+ Messaging.quoted schema_name +:+ " to the schema registry.") ;;
  eprintln "The following UUID was assigned:" ;;
  println id.

(** [versions.sort()]: [slice::sort] is stable *)
Definition version_le (x y : Version) : Prop := version_leb x y = true.
#[local] Instance version_le_dec x y : Decision (version_le x y) := decide (version_leb x y = true).

Definition cli_get_schema_versions (schema_id : Uuid) (registry_addr : string) : Cli () :=
  client ← cli_connect registry_addr;
  response ← request client (GetSchemaVersions (uuid_to_string schema_id));
  versions ← lift (try_map (fun v => map_err CliVersion (version_parse v)) response);
  for_each (fun v => println (version_to_string v)) (merge_sort version_le versions).

(** the four setters: one field, [..Default::default()] *)
Definition update_metadata (update : SchemaMetadataUpdate) (registry_addr : string) : Cli () :=
  client ← cli_connect registry_addr;
  request client (UpdateSchemaMetadata update).
Definition set_schema_name (schema_id : Uuid) (name : string) : string -> Cli () :=
  update_metadata (mkSchemaMetadataUpdate (uuid_to_string schema_id) (Some name) None None None).
Definition set_schema_topic (schema_id : Uuid) (topic : string) : string -> Cli () :=
  update_metadata (mkSchemaMetadataUpdate (uuid_to_string schema_id) None (Some topic) None None).
Definition set_schema_query_address (schema_id : Uuid) (query_address : string) : string -> Cli () :=
  update_metadata (mkSchemaMetadataUpdate (uuid_to_string schema_id) None None (Some query_address) None).
Definition set_schema_type (schema_id : Uuid) (schema_type : SchemaType) : string -> Cli () :=
  update_metadata (mkSchemaMetadataUpdate (uuid_to_string schema_id) None None None
                     (Some (schema_type_number schema_type))).

Definition cli_add_schema_version (schema_id : Uuid) (version : Version) (file : option string)
    (registry_addr : string) : Cli () :=
  definition ← read_json file;
  text ← json_text definition;
  client ← cli_connect registry_addr;
  request client (AddSchemaVersion (mkReqNewSchemaVersion (uuid_to_string schema_id)
                    (version_to_string version) text)).

Definition id_name_line (id name : string) : string := "ID: " +:+ id +:+ ", Name: " +:+ name.

Definition get_schema_names (registry_addr : string) : Cli () :=
  client ← cli_connect registry_addr;
  schemas ← request client GetAllSchemaNames;
  if decide (schemas = ∅) then fail (CliBail "No schemas exist yet in the schema registry.")
  else for_each (fun s => println (id_name_line s.1 s.2)) (string_hash_iter schemas).

Definition cli_get_schema_topic (schema_id : Uuid) (registry_addr : string) : Cli () :=
  client ← cli_connect registry_addr;
  topic ← request client (GetSchemaTopic (uuid_to_string schema_id));
  println topic.
Definition cli_get_schema_query_address (schema_id : Uuid) (registry_addr : string) : Cli () :=
  client ← cli_connect registry_addr;
  address ← request client (GetSchemaQueryAddress (uuid_to_string schema_id));
  println address.
Definition cli_get_schema_type (schema_id : Uuid) (registry_addr : string) : Cli () :=
  client ← cli_connect registry_addr;
  n ← request client (GetSchemaType (uuid_to_string schema_id));
  println (schema_type_to_string (schema_type_from_proto (schema_type_or_default n))).

Definition validate_value (schema_id : Uuid) (file : option string) (registry_addr : string) : Cli () :=
  value ← read_json file;
  client ← cli_connect registry_addr;
  text ← json_text value;
  errors ← request client (ValidateValue (mkValueToValidate (uuid_to_string schema_id) text));
  match errors with
  | [] => println "The value is valid."
  | _ => fail (CliBail ("The value is not valid. " +:+ join ", " errors))
  end.

(** *** [actions/view.rs] *)

Definition cli_get_view (view_id : Uuid) (registry_addr : string) : Cli () :=
  client ← cli_connect registry_addr;
  view ← request client (GetView (uuid_to_string view_id));
  println ("Name: " +:+ view_name view +:+ ", JMESPath: " +:+ view_jmespath view).

Definition cli_add_view_to_schema (schema_id : Uuid) (name jmespath registry_addr : string) : Cli () :=
  client ← cli_connect registry_addr;
  id ← request client (AddViewToSchema (mkReqNewSchemaView (uuid_to_string schema_id) EmptyString
                         name jmespath));
  eprintln ("Successfully added view " +:+ Messaging.quoted name +:+ " to schema " +:+
            Messaging.quoted (uuid_to_string schema_id) +:+ " in the schema registry.") ;;
  eprintln "The following UUID was assigned:" ;;
  println id.

Definition cli_update_view (view_id : Uuid) (name jmespath : option string) (registry_addr : string) :
    Cli () :=
  client ← cli_connect registry_addr;
  old_view ← request client (UpdateView (mkUpdatedView (uuid_to_string view_id) name jmespath));
  println ("Old Name: " +:+ view_name old_view +:+ ", Old JMESPath: " +:+ view_jmespath old_view).

Definition get_schema_views (schema_id : Uuid) (registry_addr : string) : Cli () :=
  client ← cli_connect registry_addr;
  views ← request client (GetAllViewsOfSchema (uuid_to_string schema_id));
  if bool_decide (size views = 0)
  then fail (CliBail "No views exist yet for the given schema in the schema registry.")
  else for_each (fun v => println (id_name_line v.1 (view_name v.2))) (string_hash_iter views).

(** *** [args.rs] and [main.rs] *)

Inductive SchemaAction : Type :=
| SchemaNames
| SchemaGet (schema_id : Uuid) (version : option VersionReq)
| SchemaGetTopic (schema_id : Uuid)
| SchemaGetQueryAddress (schema_id : Uuid)
| SchemaGetType (schema_id : Uuid)
| SchemaVersions (schema_id : Uuid)
| SchemaAdd (name topic query_address : string) (file : option string) (schema_type : SchemaType)
| SchemaAddVersion (schema_id : Uuid) (version : Version) (file : option string)
| SchemaSetName (id : Uuid) (name : string)
| SchemaSetTopic (id : Uuid) (topic : string)
| SchemaSetQueryAddress (id : Uuid) (query_address : string)
| SchemaSetSchemaType (id : Uuid) (schema_type : SchemaType)
| SchemaValidate (schema_id : Uuid) (file : option string).

Inductive ViewAction : Type :=
| ViewNames (schema_id : Uuid)
| ViewGet (id : Uuid)
| ViewAdd (schema_id : Uuid) (name jmespath : string)
| ViewUpdate (id : Uuid) (name jmespath : option string).

Inductive Action : Type := ActionSchema (action : SchemaAction) | ActionView (action : ViewAction).
Record Args : Type := mkArgs { registry_addr : string; action : Action }.

Definition cli_main (args : Args) : Cli () :=
  let addr := registry_addr args in
  match action args with
  | ActionSchema a =>
      match a with
      | SchemaNames => get_schema_names addr
      | SchemaGet schema_id version => cli_get_schema schema_id version addr
      | SchemaGetTopic schema_id => cli_get_schema_topic schema_id addr
      | SchemaGetQueryAddress schema_id => cli_get_schema_query_address schema_id addr
      | SchemaGetType schema_id => cli_get_schema_type schema_id addr
      | SchemaVersions schema_id => cli_get_schema_versions schema_id addr
      | SchemaAdd name topic query_address file schema_type =>
          cli_add_schema name topic query_address file addr schema_type
      | SchemaAddVersion schema_id version file => cli_add_schema_version schema_id version file addr
      | SchemaSetName id name => set_schema_name id name addr
      | SchemaSetTopic id topic => set_schema_topic id topic addr
      | SchemaSetQueryAddress id query_address => set_schema_query_address id query_address addr
      | SchemaSetSchemaType id schema_type => set_schema_type id schema_type addr
      | SchemaValidate schema_id file => validate_value schema_id file addr
      end
  | ActionView a =>
      match a with
      | ViewNames schema_id => get_schema_views schema_id addr
      | ViewGet id => cli_get_view id addr
      | ViewAdd schema_id name jmespath => cli_add_view_to_schema schema_id name jmespath addr
      | ViewUpdate id name jmespath => cli_update_view id name jmespath addr
      end
  end.
End cli.
