(* ===== verification/CliSpec.v ===== *)
(** What users of the command line client see and do: the list of versions, and
    the setters compared with the GraphQL API. *)
From stdpp Require Import prelude gmap strings list fin_maps sorting.
From S2P Require Import Prelude StringSplit Json Externals Indradb RegistryTypes SchemaDb SchemaDbSpec.
From S2P Require Import Registry Instances RegistryRun Messaging Replication RegistryRpc RpcSpec.
From S2P Require Import RegistryClient ApiEvents Api ApiSpec Cli.

Section cli.
Context {L D B : Type} `{ReliableTransport L, DatastoreLaws D, !ReliableDatastore D, Broker B,
  SemVerLaws, !ExactReqLaws, UuidLaws, JsonText, JsonSchemaLib, JmespathLib, HashIter}.
Implicit Types (n : Net L D B) (s : SchemaRegistryImpl D B) (c : Console).

#[local] Existing Instance version_le_dec.
#[local] Instance version_le_total : Total version_le.
Proof. intros x y. apply version_leb_total. Qed.
#[local] Instance version_le_trans : Transitive version_le.
Proof. intros x y z. apply version_leb_trans. Qed.

(** lines on the standard output *)
Definition printed (lines : list string) c : Console :=
  mkConsole (con_files c) (con_stdin c) (con_stdout c ++ lines) (con_stderr c).

Lemma println_all {A} (f : A -> string) (l : list A) n c :
  for_each (fun x => println (f x)) l (n, c) = ((n, printed (f <$> l) c), Ok ()).
Proof.
  revert c. induction l as [|x l IH]; intros c; simpl.
  - unfold printed. rewrite app_nil_r. by destruct c.
  - unfold mbind, M_bind. cbn [println]. rewrite IH. unfold printed. simpl. by rewrite <- app_assoc.
Qed.

Lemma cli_connect_host addr s n c :
  net_hosts n !! addr = Some s ->
  exists n', cli_connect addr (n, c) = ((n', c), Ok addr) /\ net_hosts n' = net_hosts n.
Proof.
  intros Hs. unfold cli_connect, on_net.
  assert (wp (RegistryClient.connect addr) n (fun a n' => a = addr /\ net_hosts n' = net_hosts n)
    (fun _ _ => False)) as Hwp by (by eapply wp_connect_host).
  unfold wp in Hwp. destruct (RegistryClient.connect addr n) as [n' [a|e]]; [|done].
  destruct Hwp as [-> Hn']. by exists n'.
Qed.

(** a request does what its handler does *)
Lemma request_host {A} addr (r : Request A) s n c s' x :
  net_hosts n !! addr = Some s -> serve_request link_reset r s = (s', x) ->
  exists n', request addr r (n, c) = ((n', c), map_err CliStatus x) /\
    net_hosts n' = <[addr := s']> (net_hosts n).
Proof.
  intros Hs Hserve. unfold request, on_net.
  assert (wp (sv_call addr r) n (fun a n' => x = Ok a /\ net_hosts n' = <[addr := s']> (net_hosts n))
    (fun e n' => x = Err e /\ net_hosts n' = <[addr := s']> (net_hosts n))) as Hwp.
  { eapply wp_call_host; [done|]. unfold wp. rewrite Hserve. by destruct x. }
  unfold wp in Hwp. destruct (sv_call addr r n) as [n' [a|e]]; destruct Hwp as [-> Hn']; by exists n'.
Qed.

Lemma parse_versions (vs : list (Version * Uuid)) :
  try_map (fun v => map_err CliVersion (version_parse v)) ((fun p => version_to_string p.1) <$> vs) =
  Ok vs.*1.
Proof.
  apply try_map_Ok. induction vs as [|[v i] vs IH]; csimpl; constructor; [|done].
  by rewrite version_string_roundtrip.
Qed.

(** The versions of a schema are printed completely, one line each, in
    ascending order, and the command succeeds whenever the registry answers. *)
Theorem versions_printed_sorted n s c addr schema_id :
  net_hosts n !! addr = Some s -> wf (graph (impl_db s)) -> fits (graph (impl_db s)) ->
  exists n' vs sorted,
    cli_get_schema_versions schema_id addr (n, c) =
      ((n', printed (version_to_string <$> sorted) c), Ok ()) /\
    net_hosts n' = net_hosts n /\ NoDup vs.*2 /\
    (forall v i, (v, i) ∈ vs <-> g_version (graph (impl_db s)) schema_id i = Some v) /\
    sorted ≡ₚ vs.*1 /\ Sorted version_le sorted.
Proof.
  intros Hs Hwf Hfits.
  destruct (rpc_get_schema_versions_wf s schema_id Hwf Hfits) as (vs & (Hnd & Hsound & Hcomplete) & Hrun).
  specialize (Hcomplete (wf_regular _ Hwf Hfits)).
  destruct (cli_connect_host addr s n c Hs) as (n1 & Hconnect & Hn1).
  destruct (request_host addr (GetSchemaVersions (uuid_to_string schema_id)) s n1 c s _
    ltac:(by rewrite Hn1) Hrun) as (n2 & Hrequest & Hn2).
  unfold cli_get_schema_versions, mbind, M_bind. rewrite Hconnect, Hrequest. cbn [map_err].
  unfold lift. rewrite parse_versions. rewrite println_all.
  exists n2, vs, (merge_sort version_le vs.*1). split_and!; [done|by rewrite Hn2, Hn1, insert_id|done| | |].
  - intros v i. split; [apply Hsound|apply Hcomplete].
  - apply merge_sort_Permutation.
  - apply Sorted_merge_sort, _.
Qed.

(** *** The setters and the API's [updateSchema] *)

Lemma rpc_get_schema_metadata_reads s text : (rpc_get_schema_metadata text s).1 = s.
Proof.
  unfold rpc_get_schema_metadata, mbind, M_bind, lift. destruct (parse_uuid text) as [id|e]; [|done].
  unfold on_database. pose proof (get_schema_spec (impl_db s) id) as Hspec. unfold wp in Hspec.
  destruct (get_schema id (impl_db s)) as [d [x|e]]; destruct Hspec as [-> _]; by destruct s.
Qed.

Lemma api_get_schema_reads addr s n id :
  net_hosts n !! addr = Some s -> net_hosts (api_get_schema addr id n).1 = net_hosts n.
Proof.
  intros Hs.
  assert (wp (api_get_schema addr id) n (fun _ n' => net_hosts n' = net_hosts n)
    (fun _ n' => net_hosts n' = net_hosts n)) as Hwp.
  { unfold api_get_schema. apply wp_bind, wp_with_err. eapply wp_call_host; [done|]. cbn [serve_request].
    pose proof (rpc_get_schema_metadata_reads s (uuid_to_string id)) as Hreads. unfold wp.
    destruct (rpc_get_schema_metadata _ s) as [s' [x|e]]; simpl in Hreads; subst s'; intros n' Hn';
      rewrite insert_id in Hn' by done; [|done]. unfold lift. by destruct (gschema_of id x). }
  unfold wp in Hwp. by destruct (api_get_schema addr id n) as [n' [x|e]].
Qed.

(** the request both clients send *)
Definition update_request (id : Uuid) (u : GUpdateSchema) : SchemaMetadataUpdate :=
  mkSchemaMetadataUpdate (uuid_to_string id) (gu_name u) (gu_topic u) (gu_query_address u)
    (gschema_type_to_i32 <$> gu_schema_type u).

Lemma update_same_effect config n s c id u :
  net_hosts n !! ac_schema_registry_addr config = Some s ->
  net_hosts (update_metadata (update_request id u) (ac_schema_registry_addr config) (n, c)).1.1 =
  net_hosts (update_schema config id u n).1.
Proof.
  intros Hs. set (addr := ac_schema_registry_addr config) in *.
  destruct (rpc_update_schema_metadata (update_request id u) s) as [s' x] eqn:Hrun.
  destruct (cli_connect_host addr s n c Hs) as (n1 & Hconnect & Hn1).
  destruct (request_host addr (UpdateSchemaMetadata (update_request id u)) s n1 c s' x
    ltac:(by rewrite Hn1) Hrun) as (n2 & Hrequest & Hn2).
  unfold update_metadata, mbind, M_bind. rewrite Hconnect, Hrequest. cbn [fst]. rewrite Hn2, Hn1.
  assert (wp (update_schema config id u) n (fun _ n' => net_hosts n' = <[addr := s']> (net_hosts n))
    (fun _ n' => net_hosts n' = <[addr := s']> (net_hosts n))) as Hwp.
  { unfold update_schema. apply wp_bind. eapply wp_api_connect; [done|]. intros m1 Hm1. apply wp_bind, wp_with_err.
    eapply wp_call_host; [by rewrite Hm1|]. cbn [serve_request]. unfold wp at 1. fold (update_request id u).
    rewrite Hrun. destruct x as [[]|e]; intros m2 Hm2; rewrite Hm1 in Hm2; [|done].
    pose proof (api_get_schema_reads addr s' m2 id) as Hreads. rewrite Hm2 in Hreads.
    specialize (Hreads (lookup_insert_eq _ _ _)). unfold wp.
    change (ac_schema_registry_addr config) with addr.
    by destruct (api_get_schema addr id m2) as [m3 [y|e]]. }
  unfold wp in Hwp. by destruct (update_schema config id u n) as [m [y|e]].
Qed.

Definition gschema_type_of (t : SchemaType) : GSchemaType :=
  match t with DocumentStorage => GDocumentStorage | Timeseries => GTimeseries end.

(** C40: the setters of the command line client and the GraphQL mutation
    [updateSchema] with that field alone are equivalent: as long as neither the
    calls nor the storage of the registry fail, they leave every registry in the
    same state, whether the registry accepts the change or not. *)
Theorem setters_equivalent_to_api config n s c id name topic query_address t :
  net_hosts n !! ac_schema_registry_addr config = Some s ->
  let addr := ac_schema_registry_addr config in
  let api u := net_hosts (update_schema config id u n).1 in
  net_hosts (set_schema_name id name addr (n, c)).1.1 = api (mkGUpdateSchema (Some name) None None None) /\
  net_hosts (set_schema_topic id topic addr (n, c)).1.1 = api (mkGUpdateSchema None None (Some topic) None) /\
  net_hosts (set_schema_query_address id query_address addr (n, c)).1.1 =
    api (mkGUpdateSchema None (Some query_address) None None) /\
  net_hosts (set_schema_type id t addr (n, c)).1.1 =
    api (mkGUpdateSchema None None None (Some (gschema_type_of t))).
Proof.
  intros Hs addr api. unfold api, addr. split_and!; rewrite <- (update_same_effect config n s c) by done;
    unfold update_request; cbn; try done. by destruct t.
Qed.
End cli.

(** ** Runs in memory *)

Definition demo_console : Console := mkConsole ∅ EmptyString [] [].

Lemma versions_printed_sorted_witness :
  exists n' vs sorted,
    cli_get_schema_versions 7 "http://registry" (demo_net, demo_console) =
      ((n', printed (version_to_string <$> sorted) demo_console), Ok ()) /\
    net_hosts n' = net_hosts demo_net /\ NoDup vs.*2 /\
    (forall v i, (v, i) ∈ vs <-> g_version (graph demo_state) 7 i = Some v) /\
    sorted ≡ₚ vs.*1 /\ Sorted version_le sorted.
Proof.
  apply (versions_printed_sorted demo_net demo_host demo_console "http://registry" 7);
    [done|apply demo_state_wf|apply demo_state_fits].
Defined.

Lemma setters_equivalent_to_api_witness :
  let api u := net_hosts (update_schema demo_api 7 u demo_net).1 in
  net_hosts (set_schema_name 7 "renamed" "http://registry" (demo_net, demo_console)).1.1 =
    api (mkGUpdateSchema (Some "renamed") None None None) /\
  net_hosts (set_schema_topic 7 "t" "http://registry" (demo_net, demo_console)).1.1 =
    api (mkGUpdateSchema None None (Some "t") None) /\
  net_hosts (set_schema_query_address 7 "q" "http://registry" (demo_net, demo_console)).1.1 =
    api (mkGUpdateSchema None (Some "q") None None) /\
  net_hosts (set_schema_type 7 Timeseries "http://registry" (demo_net, demo_console)).1.1 =
    api (mkGUpdateSchema None None None (Some GTimeseries)).
Proof.
  refine (setters_equivalent_to_api demo_api demo_net demo_host demo_console 7 "renamed" "t" "q" Timeseries _).
  reflexivity.
Defined.
